(** * MLP weights evolved by a genetic algorithm: a shallow embedding

    The development follows the C++ sources of the repository:
    - [MLP] (mlp.h / mlp.cc): parameter layout, chromosome codec, forward
      pass and prediction;
    - [Utils] (utils.h / utils.cc): the shared random stream, [clamp],
      the statistics and the classification metrics;
    - [GeneticAlgorithm] (ga.h / ga.cc): the generational loop;
    - [Dataset] (dataset.h / dataset.cc): reading the data file, the
      folds and the normalization;
    - [ExperimentResult] (results.h / results.cc): the summary of the
      folds.

    C++ [double] is IEEE 754 binary64, which is exactly Rocq's primitive
    [float]; arithmetic and comparisons below are the primitive ones, so
    rounding, infinities and NaN behave as in the program.  C++ [int] is
    modelled by [Z].  Exceptions are values of [error]; a run to which the
    C++ standard gives no meaning (a signed overflow, an out-of-range
    vector index, an undefined conversion, a library call outside its
    precondition) ends in [UndefinedBehaviour].  Methods that change an
    [MLP] return the result together with the object as the call leaves
    it; methods of the optimizer thread the state of the random stream.

    Library functions the program calls but does not define ([std::exp],
    [std::tanh], the [std::mt19937] stream and its distributions,
    [std::sort], [std::shuffle], [std::stod]) are parameters; what is assumed of them is stated where it
    is used.  Console output is not modelled. *)

From Stdlib Require Import ZArith List Lia Bool Permutation.
From Stdlib Require Import Floats Uint63.
From Stdlib Require Strings.String Strings.Ascii.
Import ListNotations.
Import String.StringSyntax Ascii.AsciiSyntax.
Delimit Scope string_scope with string.
Delimit Scope char_scope with char.

Local Open Scope Z_scope.

(** ** Errors and results *)

Inductive error : Type :=
| InvalidTopology      (* std::invalid_argument: fewer than two layers *)
| GenomeSizeMismatch   (* std::invalid_argument: chromosome size mismatch *)
| InputSizeMismatch    (* std::invalid_argument: input size mismatch *)
| SizeMismatch         (* std::invalid_argument: X and y size mismatch *)
| ConfigurationError   (* std::runtime_error: fitness function not set *)
| BadFunctionCall      (* std::bad_function_call *)
| LengthError          (* std::length_error: negative size given to a vector *)
| UndefinedBehaviour.  (* the C++ standard gives the run no meaning *)

Inductive result (A : Type) : Type :=
| Ok (a : A)
| Err (e : error).

Arguments Ok {A} a.
Arguments Err {A} e.

Definition bind {A B : Type} (r : result A) (k : A -> result B) : result B :=
  match r with
  | Ok a => k a
  | Err e => Err e
  end.

Declare Scope result_scope.
Delimit Scope result_scope with result.

Notation "x <- e ;; k" := (bind e (fun x => k))
  (at level 61, e at next level, right associativity) : result_scope.
Notation "' p <- e ;; k" := (bind e (fun p => k))
  (at level 61, p pattern, e at next level, right associativity) : result_scope.

Local Open Scope result_scope.

(** ** std::vector accesses *)

(** [v[i]] for a [size_t] index: reading past the end is undefined. *)
Definition vec_at {A : Type} (v : list A) (i : nat) : result A :=
  match nth_error v i with
  | Some x => Ok x
  | None => Err UndefinedBehaviour
  end.

(** [v[i]] for an [int] index. *)
Definition vec_at_int {A : Type} (v : list A) (i : Z) : result A :=
  if i <? 0 then Err UndefinedBehaviour else vec_at v (Z.to_nat i).

(** [v[i] = x]. *)
Fixpoint vec_set {A : Type} (v : list A) (i : nat) (x : A) : result (list A) :=
  match v, i with
  | [], _ => Err UndefinedBehaviour
  | _ :: v', O => Ok (x :: v')
  | y :: v', S i' => v'' <- vec_set v' i' x ;; Ok (y :: v'')
  end.

(** ** Comparisons given to the sorting algorithms

    [std::sort] and [std::max_element] require that the comparison induce
    a strict weak ordering on the values they are given: irreflexive,
    transitive, and with a transitive incomparability.  A call that does
    not meet the requirement is undefined. *)

Definition incomparable {A : Type} (comp : A -> A -> bool) (a b : A) : bool :=
  negb (comp a b) && negb (comp b a).

Definition strict_weak_on {A : Type} (comp : A -> A -> bool) (l : list A)
  : bool :=
  forallb (fun a =>
    negb (comp a a) &&
    forallb (fun b =>
      forallb (fun c =>
        implb (comp a b && comp b c) (comp a c) &&
        implb (incomparable comp a b && incomparable comp b c)
              (incomparable comp a c)) l) l) l.

(** ** C++ [int] and [double] *)

Definition INT_MIN : Z := - 2 ^ 31.
Definition INT_MAX : Z := 2 ^ 31 - 1.

Definition in_int (z : Z) : bool := (INT_MIN <=? z) && (z <=? INT_MAX).

(** [a + b] on [int]s: a sum outside the range is undefined. *)
Definition int_add (a b : Z) : result Z :=
  if in_int (a + b) then Ok (a + b) else Err UndefinedBehaviour.

Module Double.

(** [std::max(a, b)] is [(a < b) ? b : a]; [std::min(a, b)] is
    [(b < a) ? b : a]. *)
Definition std_max (a b : float) : float := if (a <? b)%float then b else a.
Definition std_min (a b : float) : float := if (b <? a)%float then b else a.

(** Conversion of an [int] to [double]: exact. *)
Definition of_int (z : Z) : float :=
  if z <? 0 then (- of_uint63 (Uint63.of_Z (- z)))%float
  else of_uint63 (Uint63.of_Z z).

(** Conversion of a [size_t] to [double]. *)
Definition of_size (n : nat) : float := of_int (Z.of_nat n).

(** The integer obtained by discarding the fractional part. *)
Definition truncate (s : spec_float) : option Z :=
  match s with
  | S754_zero _ => Some 0
  | S754_finite sg m e =>
      let a := if 0 <=? e then Z.pos m * 2 ^ e else Z.pos m / 2 ^ (- e) in
      Some (if sg then - a else a)
  | S754_infinity _ | S754_nan => None
  end.

(** [static_cast<int>(x)]: truncation toward zero; undefined ([None]) when
    the truncated value is not an [int] (NaN and infinities included). *)
Definition to_int (x : float) : option Z :=
  match truncate (Prim2SF x) with
  | Some z => if in_int z then Some z else None
  | None => None
  end.

(** The mathematical floor of a finite double. *)
Definition floor (x : float) : option Z :=
  match Prim2SF x with
  | S754_zero _ => Some 0
  | S754_finite sg m e =>
      Some (if 0 <=? e then (if sg then - Z.pos m else Z.pos m) * 2 ^ e
            else (if sg then - Z.pos m else Z.pos m) / 2 ^ (- e))
  | S754_infinity _ | S754_nan => None
  end.

(** Neither an infinity nor a NaN. *)
Definition is_finite (x : float) : bool :=
  match Prim2SF x with
  | S754_zero _ | S754_finite _ _ _ => true
  | S754_infinity _ | S754_nan => false
  end.

(** Membership in a closed, an open interval. *)
Definition in_closed (lo hi x : float) : bool :=
  ((lo <=? x) && (x <=? hi))%float.
Definition in_open (lo hi x : float) : bool :=
  ((lo <? x) && (x <? hi))%float.

End Double.

(** ** Utils::clamp *)

Module Utils.

(** [std::max(min, std::min(max, value))]. *)
Definition clamp (value min max : float) : float :=
  Double.std_max min (Double.std_min max value).

(** [Utils::mean]: [std::accumulate] from [0.0], divided by the size. *)
Definition mean (vec : list float) : float :=
  match vec with
  | [] => 0%float
  | _ :: _ =>
      (fold_left (fun sum x => sum + x) vec 0 / Double.of_size (length vec))%float
  end.

(** [Utils::stddev]: the sample standard deviation. *)
Definition stddev (vec : list float) : float :=
  if (length vec <=? 1)%nat then 0%float
  else
    let m := mean vec in
    let sq_sum :=
      fold_left (fun sq_sum val => (sq_sum + (val - m) * (val - m))%float)
        vec 0%float in
    PrimFloat.sqrt (sq_sum / Double.of_size (length vec - 1)).

(** The literal [1e-10]. *)
Definition tiny : float := 0x1.b7cdfd9d7bdbbp-34%float.

(** [Utils::normalize]: min-max normalization, [0.0] on a range narrower
    than [1e-10]. *)
Definition normalize (value min max : float) : float :=
  if (max - min <? tiny)%float then 0%float
  else ((value - min) / (max - min))%float.

(** [Utils::ClassificationMetrics]. *)
Record ClassificationMetrics : Type := {
  true_positive : Z;
  true_negative : Z;
  false_positive : Z;
  false_negative : Z;
  accuracy : float;
  precision : float;
  recall : float;
  f1_score : float
}.

Definition with_counts (m : ClassificationMetrics) (tp tn fp fn : Z)
  : ClassificationMetrics :=
  {| true_positive := tp; true_negative := tn;
     false_positive := fp; false_negative := fn;
     accuracy := accuracy m; precision := precision m;
     recall := recall m; f1_score := f1_score m |}.

Definition with_scores (m : ClassificationMetrics) (a p r f : float)
  : ClassificationMetrics :=
  {| true_positive := true_positive m; true_negative := true_negative m;
     false_positive := false_positive m; false_negative := false_negative m;
     accuracy := a; precision := p; recall := r; f1_score := f |}.

(** [ClassificationMetrics::calculate]. *)
Definition calculate (m : ClassificationMetrics)
  : result ClassificationMetrics :=
  t1 <- int_add (true_positive m) (true_negative m) ;;
  t2 <- int_add t1 (false_positive m) ;;
  total <- int_add t2 (false_negative m) ;;
  if total =? 0 then Ok (with_scores m 0 0 0 0)
  else
    correct <- int_add (true_positive m) (true_negative m) ;;
    let a := (Double.of_int correct / Double.of_int total)%float in
    predicted <- int_add (true_positive m) (false_positive m) ;;
    let p :=
      if 0 <? predicted
      then (Double.of_int (true_positive m) / Double.of_int predicted)%float
      else 0%float in
    positives <- int_add (true_positive m) (false_negative m) ;;
    let r :=
      if 0 <? positives
      then (Double.of_int (true_positive m) / Double.of_int positives)%float
      else 0%float in
    let f :=
      if (0 <? p + r)%float then (2 * (p * r) / (p + r))%float
      else 0%float in
    Ok (with_scores m a p r f).

(** One iteration of the loop of [calculateMetrics]; [actual[i]] is read
    only behind [predictions[i] == 1] or [predictions[i] == 0]. *)
Definition count_prediction (p : Z) (actual : list Z) (i : nat)
  (m : ClassificationMetrics) : result ClassificationMetrics :=
  c1 <- (if p =? 1 then a <- vec_at actual i ;; Ok (a =? 1) else Ok false) ;;
  if c1 : bool then
    n <- int_add (true_positive m) 1 ;;
    Ok (with_counts m n (true_negative m) (false_positive m)
          (false_negative m))
  else
    c2 <- (if p =? 0 then a <- vec_at actual i ;; Ok (a =? 0) else Ok false) ;;
    if c2 : bool then
      n <- int_add (true_negative m) 1 ;;
      Ok (with_counts m (true_positive m) n (false_positive m)
            (false_negative m))
    else
      c3 <- (if p =? 1 then a <- vec_at actual i ;; Ok (a =? 0)
             else Ok false) ;;
      if c3 : bool then
        n <- int_add (false_positive m) 1 ;;
        Ok (with_counts m (true_positive m) (true_negative m) n
              (false_negative m))
      else
        c4 <- (if p =? 0 then a <- vec_at actual i ;; Ok (a =? 1)
               else Ok false) ;;
        if c4 : bool then
          n <- int_add (false_negative m) 1 ;;
          Ok (with_counts m (true_positive m) (true_negative m)
                (false_positive m) n)
        else Ok m.

Fixpoint count_predictions (predictions actual : list Z) (i : nat)
  (m : ClassificationMetrics) : result ClassificationMetrics :=
  match predictions with
  | [] => Ok m
  | p :: predictions' =>
      m' <- count_prediction p actual i m ;;
      count_predictions predictions' actual (S i) m'
  end.

(** [Utils::calculateMetrics]. *)
Definition calculateMetrics (predictions actual : list Z)
  : result ClassificationMetrics :=
  m <- count_predictions predictions actual 0
         {| true_positive := 0; true_negative := 0;
            false_positive := 0; false_negative := 0;
            accuracy := 0; precision := 0; recall := 0; f1_score := 0 |} ;;
  calculate m.

End Utils.

(** ** A scripted platform

    A stand-in for the random stream whose draws are read from a script,
    used to run the model on concrete inputs: a draw outside the requested
    range, or from an exhausted script, yields the lower bound.  The sort
    is insertion sort. *)

Module Scripted.

Record rng : Type := {
  reals : list float;
  ints : list Z
}.

Definition seed (s : Z) : rng := {| reals := []; ints := [s] |}.

Definition uniform_real (a b : float) (r : rng) : float * rng :=
  match reals r with
  | [] => (a, r)
  | x :: xs =>
      (if Double.in_closed a b x then x else a,
       {| reals := xs; ints := ints r |})
  end.

Definition uniform_int (a b : Z) (r : rng) : Z * rng :=
  match ints r with
  | [] => (a, r)
  | x :: xs =>
      (if (a <=? x) && (x <=? b) then x else a,
       {| reals := reals r; ints := xs |})
  end.

(** A stand-in for [std::exp] and [std::tanh], exact at zero for the
    former: the constant 1. *)
Definition unit_exp (x : float) : float := 1%float.

Fixpoint insert {A : Type} (comp : A -> A -> bool) (x : A) (l : list A)
  : list A :=
  match l with
  | [] => [x]
  | y :: l' => if comp y x then y :: insert comp x l' else x :: l
  end.

Fixpoint sort (A : Type) (comp : A -> A -> bool) (l : list A) : list A :=
  match l with
  | [] => []
  | x :: l' => insert comp x (sort A comp l')
  end.

(** A stand-in for [std::shuffle]: the range reversed. *)
Definition shuffle (A : Type) (l : list A) (r : rng) : list A * rng :=
  (rev l, r).

(** A stand-in for [std::stod] on the tokens of the examples: the numbers
    0, 1 and 2; every other token is rejected. *)
Definition stod (token : String.string) : option float :=
  if String.eqb token "0"%string then Some 0%float
  else if String.eqb token "1"%string then Some 1%float
  else if String.eqb token "2"%string then Some 2%float
  else None.

End Scripted.

(** ** The platform

    What the program takes from the C++ standard library: [std::exp],
    [std::tanh], the [std::mt19937] stream with its two distributions, and
    [std::sort].  They are parameters of the development. *)

Section Model.

Variable exp : float -> float.
Variable tanh : float -> float.

(** The state of [Utils::rng], seeding, and one draw of
    [std::uniform_real_distribution<double>(a, b)] and of
    [std::uniform_int_distribution<int>(a, b)]. *)
Variable rng : Type.
Variable rng_seed : Z -> rng.
Variable uniform_real : float -> float -> rng -> float * rng.
Variable uniform_int : Z -> Z -> rng -> Z * rng.

(** [std::sort(first, last, comp)]; what it returns is specified only for
    a comparison that is a strict weak ordering on the values sorted. *)
Variable std_sort : forall A : Type, (A -> A -> bool) -> list A -> list A.

(** ** MLP *)

Inductive ActivationType : Type := SIGMOID | TANH | RELU.

Record MLP : Type := {
  layer_sizes : list Z;                  (* [input, hidden1, ..., output] *)
  activation_type : ActivationType;
  total_params : Z;
  weights : list (list (list float));    (* [layer][from][to] *)
  biases : list (list float);            (* [layer][neuron] *)
  layer_outputs : list (list float)
}.

(** The constructor's first loop, in [int] arithmetic:
    [total_params += layers[i] * layers[i + 1]; total_params += layers[i + 1]]. *)
Fixpoint count_params (layers : list Z) (acc : Z) : option Z :=
  match layers with
  | a :: ((b :: _) as rest) =>
      if in_int (a * b) && in_int (acc + a * b) && in_int (acc + a * b + b)
      then count_params rest (acc + a * b + b)
      else None
  | _ => Some acc
  end.

(** [weights[i]]: [layers[i]] rows of [layers[i + 1]] zeros, and [biases[i]]. *)
Fixpoint zero_weights (layers : list Z) : list (list (list float)) :=
  match layers with
  | a :: ((b :: _) as rest) =>
      repeat (repeat 0%float (Z.to_nat b)) (Z.to_nat a) :: zero_weights rest
  | _ => []
  end.

Fixpoint zero_biases (layers : list Z) : list (list float) :=
  match layers with
  | _ :: ((b :: _) as rest) => repeat 0%float (Z.to_nat b) :: zero_biases rest
  | _ => []
  end.

Definition zero_outputs (layers : list Z) : list (list float) :=
  map (fun n => repeat 0%float (Z.to_nat n)) layers.

(** [MLP::MLP(layers, act_type)].  A negative width makes [resize] throw
    [std::length_error]. *)
Definition MLP_new (layers : list Z) (act_type : ActivationType) : result MLP :=
  if (length layers <? 2)%nat then Err InvalidTopology
  else
    match count_params layers 0 with
    | None => Err UndefinedBehaviour
    | Some p =>
        if forallb (fun n => 0 <=? n) layers then
          Ok {| layer_sizes := layers;
                activation_type := act_type;
                total_params := p;
                weights := zero_weights layers;
                biases := zero_biases layers;
                layer_outputs := zero_outputs layers |}
        else Err LengthError
    end.

Definition getChromosomeLength (m : MLP) : Z := total_params m.

Definition sigmoid (x : float) : float := (1 / (1 + exp (- x)))%float.

Definition tanh_activation (x : float) : float := tanh x.

Definition relu (x : float) : float := Double.std_max 0%float x.

Definition activate (m : MLP) (x : float) : float :=
  match activation_type m with
  | SIGMOID => sigmoid x
  | TANH => tanh_activation x
  | RELU => relu x
  end.

(** [MLP::encodeChromosome]: for each [i < weights.size()], the rows of
    [weights[i]] in order, then [biases[i]]. *)
Fixpoint encode_layers (ws : list (list (list float))) (bs : list (list float))
  : result (list float) :=
  match ws with
  | [] => Ok []
  | w :: ws' =>
      match bs with
      | [] => Err UndefinedBehaviour
      | b :: bs' =>
          rest <- encode_layers ws' bs' ;;
          Ok (concat w ++ b ++ rest)
      end
  end.

Definition encodeChromosome (m : MLP) : result (list float) :=
  encode_layers (weights m) (biases m).

(** [row[k] = chromosome[idx++]] for every [k < row.size()]. *)
Fixpoint decode_row (chromosome : list float) (idx : nat) (row : list float)
  : result (list float * nat) :=
  match row with
  | [] => Ok ([], idx)
  | _ :: row' =>
      x <- vec_at chromosome idx ;;
      '(r, idx') <- decode_row chromosome (S idx) row' ;;
      Ok (x :: r, idx')
  end.

Fixpoint decode_matrix (chromosome : list float) (idx : nat)
  (w : list (list float)) : result (list (list float) * nat) :=
  match w with
  | [] => Ok ([], idx)
  | row :: w' =>
      '(r, idx1) <- decode_row chromosome idx row ;;
      '(rs, idx2) <- decode_matrix chromosome idx1 w' ;;
      Ok (r :: rs, idx2)
  end.

Fixpoint decode_layers (chromosome : list float) (idx : nat)
  (ws : list (list (list float))) (bs : list (list float))
  : result (list (list (list float)) * list (list float) * nat) :=
  match ws with
  | [] => Ok ([], bs, idx)
  | w :: ws' =>
      match bs with
      | [] => Err UndefinedBehaviour
      | b :: bs' =>
          '(w1, idx1) <- decode_matrix chromosome idx w ;;
          '(b1, idx2) <- decode_row chromosome idx1 b ;;
          '(ws1, bs1, idx3) <- decode_layers chromosome idx2 ws' bs' ;;
          Ok (w1 :: ws1, b1 :: bs1, idx3)
      end
  end.

Definition set_params (m : MLP) (ws : list (list (list float)))
  (bs : list (list float)) : MLP :=
  {| layer_sizes := layer_sizes m;
     activation_type := activation_type m;
     total_params := total_params m;
     weights := ws;
     biases := bs;
     layer_outputs := layer_outputs m |}.

(** [MLP::decodeChromosome]: the result and the network as the call leaves
    it.  The size test comes before the first write. *)
Definition decodeChromosome (chromosome : list float) (m : MLP)
  : result unit * MLP :=
  if negb (Z.of_nat (length chromosome) =? total_params m)
  then (Err GenomeSizeMismatch, m)
  else
    match decode_layers chromosome 0 (weights m) (biases m) with
    | Ok (ws, bs, _) => (Ok tt, set_params m ws bs)
    | Err e => (Err e, m)
    end.

Definition setWeights (chromosome : list float) (m : MLP) : result unit * MLP :=
  decodeChromosome chromosome m.

(** The inner loop of [forward]:
    [sum += layer_outputs[layer][i] * weights[layer][i][j]]. *)
Fixpoint weighted_sum (sum : float) (prev : list float)
  (w : list (list float)) (j : nat) : result float :=
  match prev with
  | [] => Ok sum
  | x :: prev' =>
      match w with
      | [] => Err UndefinedBehaviour
      | row :: w' =>
          wij <- vec_at row j ;;
          weighted_sum (sum + x * wij)%float prev' w' j
      end
  end.

(** One destination neuron [j]: bias plus weighted sum. *)
Definition pre_activation (prev : list float) (w : list (list float))
  (b : list float) (j : nat) : result float :=
  bj <- vec_at b j ;;
  weighted_sum bj prev w j.

(** The loop over [j < layer_outputs[layer + 1].size()]. *)
Fixpoint forward_neurons (act : float -> float) (prev : list float)
  (w : list (list float)) (b : list float) (js : list nat)
  : result (list float) :=
  match js with
  | [] => Ok []
  | j :: js' =>
      s <- pre_activation prev w b j ;;
      rest <- forward_neurons act prev w b js' ;;
      Ok (act s :: rest)
  end.

(** The loop over [layer < weights.size()]; [bufs] are
    [layer_outputs[layer + 1 ..]], overwritten one after the other. The
    last transition ([layer == weights.size() - 1]) uses [sigmoid]. *)
Fixpoint forward_layers (m : MLP) (prev : list float)
  (ws : list (list (list float))) (bs : list (list float))
  (bufs : list (list float)) : result (list (list float)) :=
  match ws with
  | [] => Ok bufs
  | w :: ws' =>
      match bs, bufs with
      | b :: bs', buf :: bufs' =>
          let act := match ws' with [] => sigmoid | _ :: _ => activate m end in
          cur <- forward_neurons act prev w b (seq 0 (length buf)) ;;
          rest <- forward_layers m cur ws' bs' bufs' ;;
          Ok (cur :: rest)
      | _, _ => Err UndefinedBehaviour
      end
  end.

Definition set_outputs (m : MLP) (outs : list (list float)) : MLP :=
  {| layer_sizes := layer_sizes m;
     activation_type := activation_type m;
     total_params := total_params m;
     weights := weights m;
     biases := biases m;
     layer_outputs := outs |}.

(** [MLP::forward]. *)
Definition forward (input : list float) (m : MLP)
  : result (list float) * MLP :=
  match layer_sizes m with
  | [] => (Err UndefinedBehaviour, m)
  | n0 :: _ =>
      if negb (Z.of_nat (length input) =? n0) then (Err InputSizeMismatch, m)
      else
        match layer_outputs m with
        | [] => (Err UndefinedBehaviour, m)
        | _ :: bufs =>
            match forward_layers m input (weights m) (biases m) bufs with
            | Ok outs =>
                (Ok (last (input :: outs) []), set_outputs m (input :: outs))
            | Err e => (Err e, set_outputs m (input :: bufs))
            end
        end
  end.

(** The scan of [predict] over [output[1 ..]]:
    [if (output[i] > output[max_idx]) max_idx = i]. *)
Fixpoint argmax_scan (output : list float) (max_idx : nat) (idxs : list nat)
  : nat :=
  match idxs with
  | [] => max_idx
  | i :: idxs' =>
      if (nth max_idx output 0 <? nth i output 0)%float
      then argmax_scan output i idxs'
      else argmax_scan output max_idx idxs'
  end.

(** What [predict] returns for the output vector of [forward]. *)
Definition class_of_output (output : list float) : Z :=
  match output with
  | [o] => if (0.5 <=? o)%float then 1 else 0
  | _ => Z.of_nat (argmax_scan output 0 (seq 1 (length output - 1)))
  end.

(** [MLP::predict]. *)
Definition predict (input : list float) (m : MLP) : result Z * MLP :=
  match forward input m with
  | (Ok output, m') => (Ok (class_of_output output), m')
  | (Err e, m') => (Err e, m')
  end.

(** The loop of [evaluateAccuracy]: [if (predict(X[i]) == y[i]) correct++]. *)
Fixpoint count_correct (X : list (list float)) (y : list Z) (correct : Z)
  (m : MLP) : result Z * MLP :=
  match X, y with
  | x :: X', yi :: y' =>
      match predict x m with
      | (Ok pred, m') =>
          count_correct X' y' (if pred =? yi then correct + 1 else correct) m'
      | (Err e, m') => (Err e, m')
      end
  | _, _ => (Ok correct, m)
  end.

(** [MLP::evaluateAccuracy]. *)
Definition evaluateAccuracy (X : list (list float)) (y : list Z) (m : MLP)
  : result float * MLP :=
  if negb (length X =? length y)%nat then (Err SizeMismatch, m)
  else
    match count_correct X y 0 m with
    | (Ok correct, m') =>
        (Ok (Double.of_int correct / Double.of_size (length X))%float, m')
    | (Err e, m') => (Err e, m')
    end.

(** ** Utils: the shared random stream *)

(** Computations that draw from [Utils::rng] and may fail. *)
Definition M (A : Type) : Type := rng -> result (A * rng).

Definition ret {A : Type} (a : A) : M A := fun r => Ok (a, r).

Definition bindM {A B : Type} (c : M A) (k : A -> M B) : M B :=
  fun r =>
    match c r with
    | Ok (a, r') => k a r'
    | Err e => Err e
    end.

Definition raise {A : Type} (e : error) : M A := fun _ => Err e.

Definition lift {A : Type} (x : result A) : M A :=
  fun r => match x with Ok a => Ok (a, r) | Err e => Err e end.

Notation "x <~ c ;; k" := (bindM c (fun x => k))
  (at level 61, c at next level, right associativity).
Notation "' p <~ c ;; k" := (bindM c (fun p => k))
  (at level 61, p pattern, c at next level, right associativity).

(** [Utils::initRandom(seed)]: seed 0 asks [std::random_device] for one,
    here the value [entropy]. *)
Definition initRandom (seed entropy : Z) : rng :=
  rng_seed (if seed =? 0 then entropy else seed).

(** [Utils::randomDouble] and [Utils::randomInt].  The distributions
    require [min <= max], the real one also that [max - min] be finite. *)
Definition randomDouble (min max : float) : M float :=
  fun r =>
    if (min <=? max)%float && Double.is_finite (max - min)
    then Ok (uniform_real min max r)
    else Err UndefinedBehaviour.

Definition randomInt (min max : Z) : M Z :=
  fun r =>
    if min <=? max then Ok (uniform_int min max r)
    else Err UndefinedBehaviour.

(** [for (int i = 0; i < n; i++) body], the loop state passed along. *)
Fixpoint for_each {S : Type} (idxs : list nat) (body : nat -> S -> M S)
  (s : S) : M S :=
  match idxs with
  | [] => ret s
  | i :: idxs' => s' <~ body i s ;; for_each idxs' body s'
  end.

Definition for_range {S : Type} (n : Z) (body : nat -> S -> M S) (s : S)
  : M S :=
  for_each (seq 0 (Z.to_nat n)) body s.

(** [Utils::randomVector(size, min, max)]. *)
Fixpoint randomDoubles (n : nat) (min max : float) : M (list float) :=
  match n with
  | O => ret []
  | S n' =>
      x <~ randomDouble min max ;;
      xs <~ randomDoubles n' min max ;;
      ret (x :: xs)
  end.

Definition randomVector (size : Z) (min max : float) : M (list float) :=
  if size <? 0 then raise LengthError
  else randomDoubles (Z.to_nat size) min max.

(** ** GeneticAlgorithm *)

Record Individual : Type := {
  chromosome : list float;
  fitness : float
}.

(** [Individual()] and [Individual(size)]. *)
Definition Individual_default : Individual :=
  {| chromosome := []; fitness := 0%float |}.

Definition Individual_sized (size : nat) : Individual :=
  {| chromosome := repeat 0%float size; fitness := 0%float |}.

Record GAConfig : Type := {
  population_size : Z;
  max_generations : Z;
  crossover_rate : float;
  mutation_rate : float;
  mutation_strength : float;
  elitism_rate : float;
  tournament_size : Z;
  verbose : bool
}.

Record GeneticAlgorithm : Type := {
  config : GAConfig;
  population : list Individual;
  chromosome_length : Z;
  best_fitness : float;
  best_individual : Individual;
  fitness_function : option (list float -> float);
  best_fitness_history : list float;
  avg_fitness_history : list float
}.

(** [GeneticAlgorithm::GeneticAlgorithm(chrom_length, cfg)]. *)
Definition GeneticAlgorithm_new (chrom_length : Z) (cfg : GAConfig)
  : result GeneticAlgorithm :=
  if population_size cfg <? 0 then Err LengthError
  else if (0 <? population_size cfg) && (chrom_length <? 0) then Err LengthError
  else
    Ok {| config := cfg;
          population := repeat (Individual_sized (Z.to_nat chrom_length))
                               (Z.to_nat (population_size cfg));
          chromosome_length := chrom_length;
          best_fitness := 0%float;
          best_individual := Individual_default;
          fitness_function := None;
          best_fitness_history := [];
          avg_fitness_history := [] |}.

Definition setFitnessFunction (func : list float -> float)
  (ga : GeneticAlgorithm) : GeneticAlgorithm :=
  {| config := config ga;
     population := population ga;
     chromosome_length := chromosome_length ga;
     best_fitness := best_fitness ga;
     best_individual := best_individual ga;
     fitness_function := Some func;
     best_fitness_history := best_fitness_history ga;
     avg_fitness_history := avg_fitness_history ga |}.

Definition set_population (ga : GeneticAlgorithm) (pop : list Individual)
  : GeneticAlgorithm :=
  {| config := config ga;
     population := pop;
     chromosome_length := chromosome_length ga;
     best_fitness := best_fitness ga;
     best_individual := best_individual ga;
     fitness_function := fitness_function ga;
     best_fitness_history := best_fitness_history ga;
     avg_fitness_history := avg_fitness_history ga |}.

Definition set_best (ga : GeneticAlgorithm) (best : Individual)
  : GeneticAlgorithm :=
  {| config := config ga;
     population := population ga;
     chromosome_length := chromosome_length ga;
     best_fitness := fitness best;
     best_individual := best;
     fitness_function := fitness_function ga;
     best_fitness_history := best_fitness_history ga;
     avg_fitness_history := avg_fitness_history ga |}.

Definition push_history (ga : GeneticAlgorithm) (best avg : float)
  : GeneticAlgorithm :=
  {| config := config ga;
     population := population ga;
     chromosome_length := chromosome_length ga;
     best_fitness := best_fitness ga;
     best_individual := best_individual ga;
     fitness_function := fitness_function ga;
     best_fitness_history := best_fitness_history ga ++ [best];
     avg_fitness_history := avg_fitness_history ga ++ [avg] |}.

(** [GeneticAlgorithm::initializePopulation(min_val, max_val)]. *)
Fixpoint initialize_individuals (pop : list Individual) (len : Z)
  (min_val max_val : float) : M (list Individual) :=
  match pop with
  | [] => ret []
  | _ :: pop' =>
      c <~ randomVector len min_val max_val ;;
      rest <~ initialize_individuals pop' len min_val max_val ;;
      ret ({| chromosome := c; fitness := 0%float |} :: rest)
  end.

Definition initializePopulation (min_val max_val : float)
  (ga : GeneticAlgorithm) : M GeneticAlgorithm :=
  pop <~ initialize_individuals (population ga) (chromosome_length ga)
           min_val max_val ;;
  ret (set_population ga pop).

(** [individual.fitness = fitness_function(individual.chromosome)]. *)
Definition evaluate (f : list float -> float) (ind : Individual) : Individual :=
  {| chromosome := chromosome ind; fitness := f (chromosome ind) |}.

(** [std::max_element] with the comparison [a.fitness < b.fitness]: the
    first of the largest elements. *)
Fixpoint max_element_from (largest : Individual) (rest : list Individual)
  : Individual :=
  match rest with
  | [] => largest
  | x :: rest' =>
      if (fitness largest <? fitness x)%float
      then max_element_from x rest'
      else max_element_from largest rest'
  end.

Definition max_element (l : list Individual) : option Individual :=
  match l with
  | [] => None
  | x :: rest => Some (max_element_from x rest)
  end.

(** The comparison given to [std::max_element]: [a.fitness < b.fitness]. *)
Definition fitness_lt (a b : Individual) : bool :=
  (fitness a <? fitness b)%float.

(** [GeneticAlgorithm::evaluateFitness]. *)
Definition evaluateFitness (ga : GeneticAlgorithm) : result GeneticAlgorithm :=
  match fitness_function ga with
  | None => Err BadFunctionCall
  | Some f =>
      let ga1 := set_population ga (map (evaluate f) (population ga)) in
      if negb (strict_weak_on fitness_lt (population ga1))
      then Err UndefinedBehaviour
      else
        match max_element (population ga1) with
        | None => Err UndefinedBehaviour
        | Some best_it =>
            if (best_fitness ga1 <? fitness best_it)%float
            then Ok (set_best ga1 best_it)
            else Ok ga1
        end
  end.

(** [GeneticAlgorithm::tournamentSelection]. *)
Fixpoint tournament_loop (n : nat) (pop : list Individual) (best : Individual)
  : M Individual :=
  match n with
  | O => ret best
  | S n' =>
      idx <~ randomInt 0 (Z.of_nat (length pop) - 1) ;;
      cand <~ lift (vec_at_int pop idx) ;;
      tournament_loop n' pop
        (if (fitness best <? fitness cand)%float then cand else best)
  end.

Definition tournamentSelection (ga : GeneticAlgorithm) : M Individual :=
  tournament_loop (Z.to_nat (tournament_size (config ga))) (population ga)
    {| chromosome := []; fitness := (-1)%float |}.

(** [GeneticAlgorithm::crossover]. *)
Definition crossover_gene (parent1 parent2 : Individual) (i : nat)
  (children : list float * list float) : M (list float * list float) :=
  u <~ randomDouble 0 1 ;;
  if (u <? 0.5)%float then
    g2 <~ lift (vec_at (chromosome parent2) i) ;;
    c1 <~ lift (vec_set (fst children) i g2) ;;
    g1 <~ lift (vec_at (chromosome parent1) i) ;;
    c2 <~ lift (vec_set (snd children) i g1) ;;
    ret (c1, c2)
  else ret children.

Definition crossover (ga : GeneticAlgorithm) (parent1 parent2 : Individual)
  : M (Individual * Individual) :=
  u <~ randomDouble 0 1 ;;
  if (u <? crossover_rate (config ga))%float then
    '(c1, c2) <~ for_range (chromosome_length ga)
                   (crossover_gene parent1 parent2)
                   (chromosome parent1, chromosome parent2) ;;
    ret ({| chromosome := c1; fitness := fitness parent1 |},
         {| chromosome := c2; fitness := fitness parent2 |})
  else ret (parent1, parent2).

(** [GeneticAlgorithm::mutate]. *)
Definition mutate_gene (cfg : GAConfig) (i : nat) (c : list float)
  : M (list float) :=
  u <~ randomDouble 0 1 ;;
  if (u <? mutation_rate cfg)%float then
    noise <~ randomDouble (- mutation_strength cfg) (mutation_strength cfg) ;;
    g <~ lift (vec_at c i) ;;
    lift (vec_set c i (Utils.clamp (g + noise) (-5) 5))
  else ret c.

Definition mutate (ga : GeneticAlgorithm) (individual : Individual)
  : M Individual :=
  c <~ for_range (chromosome_length ga) (mutate_gene (config ga))
         (chromosome individual) ;;
  ret {| chromosome := c; fitness := fitness individual |}.

(** The comparison both sorts use: [a.fitness > b.fitness]. *)
Definition fitness_gt (a b : Individual) : bool :=
  (fitness b <? fitness a)%float.

(** [GeneticAlgorithm::replacePopulation]: the two loops push the first
    [elites] of the sorted population, then sorted offspring while fewer
    than [population_size] individuals are held. *)
Definition replacePopulation (offspring : list Individual)
  (ga : GeneticAlgorithm) : result GeneticAlgorithm :=
  if negb (strict_weak_on fitness_gt (population ga))
     || negb (strict_weak_on fitness_gt offspring)
  then Err UndefinedBehaviour
  else
    let pop := std_sort Individual fitness_gt (population ga) in
    let off := std_sort Individual fitness_gt offspring in
    let n := population_size (config ga) in
    match Double.to_int (Double.of_int n * elitism_rate (config ga)) with
    | None => Err UndefinedBehaviour
    | Some elites =>
        if n <? 0 then Err LengthError
        else
          let kept := firstn (Z.to_nat elites) pop in
          Ok (set_population ga
                (kept ++ firstn (Z.to_nat n - length kept) off))
    end.

(** The body of the [while (offspring.size() < population_size)] loop,
    run while [need = population_size - offspring.size()] individuals are
    missing; the second child is pushed only if one is still missing. *)
Fixpoint make_offspring (need : nat) (ga : GeneticAlgorithm)
  : M (list Individual) :=
  match need with
  | O => ret []
  | S need1 =>
      parent1 <~ tournamentSelection ga ;;
      parent2 <~ tournamentSelection ga ;;
      '(child1, child2) <~ crossover ga parent1 parent2 ;;
      child1' <~ mutate ga child1 ;;
      child2' <~ mutate ga child2 ;;
      match need1 with
      | O => ret [child1']
      | S need2 =>
          rest <~ make_offspring need2 ga ;;
          ret (child1' :: child2' :: rest)
      end
  end.

(** [total_fitness += ind.fitness], from [0.0]. *)
Definition total_fitness (pop : list Individual) : float :=
  fold_left (fun acc ind => (acc + fitness ind)%float) pop 0%float.

(** One iteration of the evolution loop of [evolve]; [reserve] throws on a
    negative [population_size]. *)
Definition generation (f : list float -> float) (ga : GeneticAlgorithm)
  : M GeneticAlgorithm :=
  if population_size (config ga) <? 0 then raise LengthError
  else
    offspring <~ make_offspring (Z.to_nat (population_size (config ga))) ga ;;
    ga1 <~ lift (replacePopulation (map (evaluate f) offspring) ga) ;;
    let avg_fitness :=
      (total_fitness (population ga1)
       / Double.of_size (length (population ga1)))%float in
    ret (push_history ga1 (best_fitness ga1) avg_fitness).

Fixpoint generations (f : list float -> float) (n : nat)
  (ga : GeneticAlgorithm) : M GeneticAlgorithm :=
  match n with
  | O => ret ga
  | S n' => ga1 <~ generation f ga ;; generations f n' ga1
  end.

(** [GeneticAlgorithm::evolve]. *)
Definition evolve (ga : GeneticAlgorithm) : M GeneticAlgorithm :=
  match fitness_function ga with
  | None => raise ConfigurationError
  | Some f =>
      ga1 <~ initializePopulation (-1) 1 ga ;;
      ga2 <~ lift (evaluateFitness ga1) ;;
      generations f (Z.to_nat (max_generations (config ga))) ga2
  end.

(** One optimizer run as [runExperiment] sets it up for a fold, after
    [main] has seeded the stream: a fresh [GeneticAlgorithm], the fitness
    function bound, [evolve]. *)
Definition run_optimizer (seed entropy : Z) (chrom_length : Z)
  (cfg : GAConfig) (func : list float -> float) : result GeneticAlgorithm :=
  ga <- GeneticAlgorithm_new chrom_length cfg ;;
  '(ga', _) <- evolve (setFitnessFunction func ga) (initRandom seed entropy) ;;
  Ok ga'.


(** ** The fitness function of an MLP *)

(** [createMLPFitnessFunction(mlp, X_train, y_train)] returns a function
    that holds the network by reference; here the function applied to
    [chromosome] with the captured network in state [m], and the state it
    leaves. *)
Definition createMLPFitnessFunction (X_train : list (list float))
  (y_train : list Z) (chromosome : list float) (m : MLP)
  : result float * MLP :=
  match setWeights chromosome m with
  | (Ok _, m1) => evaluateAccuracy X_train y_train m1
  | (Err e, m1) => (Err e, m1)
  end.

(** ** Utils::shuffleIndices *)

(** [std::shuffle(first, last, g)]: the reordered range and the generator
    as the call leaves it. *)
Variable std_shuffle : forall A : Type, list A -> rng -> list A * rng.

(** [0, 1, ..., n - 1], as [std::iota] and the index loops fill it. *)
Definition iota (n : nat) : list Z := map Z.of_nat (seq 0 n).

Definition shuffleIndices (size : Z) : M (list Z) :=
  if size <? 0 then raise LengthError
  else fun r => Ok (std_shuffle Z (iota (Z.to_nat size)) r).

(** * The data set (dataset.h / dataset.cc) *)

(** [std::stod(token)]: the value, or [None] where the call throws
    ([std::invalid_argument], [std::out_of_range]). *)
Variable stod : String.string -> option float.

Record Dataset : Type := {
  features : list (list float);
  labels : list Z;
  ids : list String.string;
  feature_means : list float;
  feature_stds : list float;
  num_samples : Z;
  num_features : Z;
  fold_indices : list Z
}.

(** [Dataset::Dataset()]. *)
Definition Dataset_new : Dataset :=
  {| features := []; labels := []; ids := [];
     feature_means := []; feature_stds := [];
     num_samples := 0; num_features := 30; fold_indices := [] |}.

(** ** Reading text

    [std::getline(stream, token, delim)] on a stream holding [s]: it fails
    when nothing is left; otherwise it extracts the characters before the
    first [delim], which it discards, or all of them when there is none. *)
Fixpoint until_delim (delim : Ascii.ascii) (s : String.string)
  : String.string * String.string :=
  match s with
  | String.EmptyString => (String.EmptyString, String.EmptyString)
  | String.String c s' =>
      if Ascii.eqb c delim then (String.EmptyString, s')
      else let (token, rest) := until_delim delim s' in
           (String.String c token, rest)
  end.

Definition getline (delim : Ascii.ascii) (s : String.string)
  : option (String.string * String.string) :=
  match s with
  | String.EmptyString => None
  | String.String _ _ => Some (until_delim delim s)
  end.

(** The tokens that successive calls of [getline] extract from [s] until
    one fails. *)
Fixpoint getlines (delim : Ascii.ascii) (s : String.string)
  : list String.string :=
  match s with
  | String.EmptyString => []
  | String.String c s' =>
      if Ascii.eqb c delim then String.EmptyString :: getlines delim s'
      else match getlines delim s' with
           | [] => [String.String c String.EmptyString]
           | token :: tokens => String.String c token :: tokens
           end
  end.

(** The conversion of a [size_t] to [int]: modulo 2^32. *)
Definition int_of_size (n : nat) : Z :=
  (Z.of_nat n + 2 ^ 31) mod 2 ^ 32 - 2 ^ 31.

(** [v.pop_back()] on a vector that is not empty; the program guards the
    call with [!v.empty()]. *)
Definition pop_back {A : Type} (v : list A) : list A := removelast v.

(** [v.resize(n, x)]. *)
Definition resize {A : Type} (v : list A) (n : nat) (x : A) : list A :=
  firstn n v ++ repeat x (n - length v).

(** [v[i] = x] for an [int] index. *)
Definition vec_set_int {A : Type} (v : list A) (i : Z) (x : A)
  : result (list A) :=
  if i <? 0 then Err UndefinedBehaviour else vec_set v (Z.to_nat i) x.

(** ** Dataset::loadFromFile *)

(** The loop [while (std::getline(ss, token, ',') && feature_count < 30)]
    over the tokens left on the line; a token [std::stod] rejects ends
    it. *)
Fixpoint read_features (tokens : list String.string) (feature_count : Z)
  (feature_row : list float) : list float * Z :=
  match tokens with
  | [] => (feature_row, feature_count)
  | token :: tokens' =>
      if feature_count <? 30 then
        match stod token with
        | Some value =>
            read_features tokens' (feature_count + 1) (feature_row ++ [value])
        | None => (feature_row, feature_count)
        end
      else (feature_row, feature_count)
  end.

(** The diagnosis column: ["M"] is class 1, ["B"] class 0. *)
Definition diagnosis (token : String.string) : option Z :=
  if String.eqb token "M"%string then Some 1
  else if String.eqb token "B"%string then Some 0
  else None.

(** One iteration of the loop over the lines of the file. *)
Definition read_line (line : String.string) (d : Dataset) : Dataset :=
  match getlines ","%char line with
  | [] => d
  | id :: rest =>
      let ids1 := ids d ++ [id] in
      match rest with
      | [] =>
          {| features := features d; labels := labels d; ids := ids1;
             feature_means := feature_means d;
             feature_stds := feature_stds d;
             num_samples := num_samples d; num_features := num_features d;
             fold_indices := fold_indices d |}
      | token :: rest' =>
          match diagnosis token with
          | None =>
              {| features := features d; labels := labels d; ids := ids1;
                 feature_means := feature_means d;
                 feature_stds := feature_stds d;
                 num_samples := num_samples d;
                 num_features := num_features d;
                 fold_indices := fold_indices d |}
          | Some label =>
              let labels1 := labels d ++ [label] in
              let (feature_row, feature_count) := read_features rest' 0 [] in
              if feature_count =? 30 then
                {| features := features d ++ [feature_row];
                   labels := labels1; ids := ids1;
                   feature_means := feature_means d;
                   feature_stds := feature_stds d;
                   num_samples := num_samples d;
                   num_features := num_features d;
                   fold_indices := fold_indices d |}
              else
                {| features := features d;
                   labels := pop_back labels1; ids := pop_back ids1;
                   feature_means := feature_means d;
                   feature_stds := feature_stds d;
                   num_samples := num_samples d;
                   num_features := num_features d;
                   fold_indices := fold_indices d |}
          end
      end
  end.

(** [Dataset::loadFromFile(filename)]: [file] is the text of the file, or
    [None] when it cannot be opened; the result is the value returned and
    the data set as the call leaves it. *)
Definition loadFromFile (file : option String.string) (d : Dataset)
  : bool * Dataset :=
  match file with
  | None => (false, d)
  | Some text =>
      let d1 := fold_left (fun d line => read_line line d)
                  (getlines "010"%char text) d in
      let n := int_of_size (length (features d1)) in
      (negb (n =? 0),
       {| features := features d1; labels := labels d1; ids := ids d1;
          feature_means := feature_means d1;
          feature_stds := feature_stds d1;
          num_samples := n; num_features := num_features d1;
          fold_indices := fold_indices d1 |})
  end.

(** ** Dataset::createKFolds *)

(** [i % k] on [int]s: the remainder has the sign of [i]; [k = 0] is
    undefined, and so is the overflowing [INT_MIN % -1]. *)
Definition int_rem (i k : Z) : result Z :=
  if (k =? 0) || ((i =? INT_MIN) && (k =? -1)) then Err UndefinedBehaviour
  else Ok (Z.rem i k).

(** The loop [fold_indices[indices[i]] = i % k]. *)
Fixpoint assign_folds (k : Z) (indices : list Z) (idxs : list nat)
  (folds : list Z) : result (list Z) :=
  match idxs with
  | [] => Ok folds
  | i :: idxs' =>
      idx <- vec_at indices i ;;
      fold <- int_rem (Z.of_nat i) k ;;
      folds' <- vec_set_int folds idx fold ;;
      assign_folds k indices idxs' folds'
  end.

(** [Dataset::createKFolds(k, seed)]; both vectors are sized by
    [num_samples], which throws when it is negative. *)
Definition createKFolds (k seed : Z) (d : Dataset) : result Dataset :=
  if num_samples d <? 0 then Err LengthError
  else
    let n := Z.to_nat (num_samples d) in
    let indices := fst (std_shuffle Z (iota n) (rng_seed seed)) in
    folds <- assign_folds k indices (seq 0 n) (resize (fold_indices d) n 0) ;;
    Ok {| features := features d; labels := labels d; ids := ids d;
          feature_means := feature_means d; feature_stds := feature_stds d;
          num_samples := num_samples d; num_features := num_features d;
          fold_indices := folds |}.

(** ** Dataset::getTrainTestSplit *)

(** The four vectors the call fills. *)
Record Split : Type := {
  train_X : list (list float);
  train_y : list Z;
  test_X : list (list float);
  test_y : list Z
}.

Fixpoint split_rows (test_fold : Z) (d : Dataset) (idxs : list nat) (s : Split)
  : result Split :=
  match idxs with
  | [] => Ok s
  | i :: idxs' =>
      fold <- vec_at (fold_indices d) i ;;
      x <- vec_at (features d) i ;;
      y <- vec_at (labels d) i ;;
      split_rows test_fold d idxs'
        (if fold =? test_fold
         then {| train_X := train_X s; train_y := train_y s;
                 test_X := test_X s ++ [x]; test_y := test_y s ++ [y] |}
         else {| train_X := train_X s ++ [x]; train_y := train_y s ++ [y];
                 test_X := test_X s; test_y := test_y s |})
  end.

Definition getTrainTestSplit (test_fold : Z) (d : Dataset) : result Split :=
  split_rows test_fold d (seq 0 (Z.to_nat (num_samples d)))
    {| train_X := []; train_y := []; test_X := []; test_y := [] |}.

(** ** Dataset::normalize and Dataset::normalizeWithStats *)

(** [for (i...) sum += features[i][j]]. *)
Fixpoint sum_column (features : list (list float)) (j : nat)
  (idxs : list nat) (sum : float) : result float :=
  match idxs with
  | [] => Ok sum
  | i :: idxs' =>
      row <- vec_at features i ;;
      x <- vec_at row j ;;
      sum_column features j idxs' (sum + x)%float
  end.

(** [for (i...) { diff = features[i][j] - feature_means[j];
    sum_sq += diff * diff; }]. *)
Fixpoint sum_sq_column (features : list (list float)) (means : list float)
  (j : nat) (idxs : list nat) (sum_sq : float) : result float :=
  match idxs with
  | [] => Ok sum_sq
  | i :: idxs' =>
      row <- vec_at features i ;;
      x <- vec_at row j ;;
      m <- vec_at means j ;;
      let diff := (x - m)%float in
      sum_sq_column features means j idxs' (sum_sq + diff * diff)%float
  end.

(** The loop that fills [feature_means]. *)
Fixpoint fill_means (d : Dataset) (js : list nat) (means : list float)
  : result (list float) :=
  match js with
  | [] => Ok means
  | j :: js' =>
      sum <- sum_column (features d) j (seq 0 (Z.to_nat (num_samples d))) 0 ;;
      means' <- vec_set means j (sum / Double.of_int (num_samples d))%float ;;
      fill_means d js' means'
  end.

(** The loop that fills [feature_stds]; a deviation below [1e-10] is
    replaced by [1.0]. *)
Fixpoint fill_stds (d : Dataset) (means : list float) (js : list nat)
  (stds : list float) : result (list float) :=
  match js with
  | [] => Ok stds
  | j :: js' =>
      sum_sq <- sum_sq_column (features d) means j
                  (seq 0 (Z.to_nat (num_samples d))) 0 ;;
      stds1 <- vec_set stds j
                 (PrimFloat.sqrt (sum_sq / Double.of_int (num_samples d))) ;;
      s <- vec_at stds1 j ;;
      stds2 <- (if (s <? Utils.tiny)%float then vec_set stds1 j 1%float
                else Ok stds1) ;;
      fill_stds d means js' stds2
  end.

(** [for (j...) features[i][j] = (features[i][j] - means[j]) / stds[j]]
    for one [i]. *)
Fixpoint scale_cells (means stds : list float) (i : nat) (js : list nat)
  (features : list (list float)) : result (list (list float)) :=
  match js with
  | [] => Ok features
  | j :: js' =>
      row <- vec_at features i ;;
      x <- vec_at row j ;;
      m <- vec_at means j ;;
      s <- vec_at stds j ;;
      row' <- vec_set row j ((x - m) / s)%float ;;
      features' <- vec_set features i row' ;;
      scale_cells means stds i js' features'
  end.

Fixpoint scale_rows (means stds : list float) (js : list nat)
  (idxs : list nat) (features : list (list float))
  : result (list (list float)) :=
  match idxs with
  | [] => Ok features
  | i :: idxs' =>
      features' <- scale_cells means stds i js features ;;
      scale_rows means stds js idxs' features'
  end.

Definition set_features (d : Dataset) (features' : list (list float))
  (means stds : list float) : Dataset :=
  {| features := features'; labels := labels d; ids := ids d;
     feature_means := means; feature_stds := stds;
     num_samples := num_samples d; num_features := num_features d;
     fold_indices := fold_indices d |}.

(** [Dataset::normalizeWithStats(means, stds)]. *)
Definition normalizeWithStats (means stds : list float) (d : Dataset)
  : result Dataset :=
  features' <- scale_rows means stds (seq 0 (Z.to_nat (num_features d)))
                 (seq 0 (Z.to_nat (num_samples d))) (features d) ;;
  Ok (set_features d features' (feature_means d) (feature_stds d)).

(** [Dataset::normalize()]; the two [resize] calls throw on a negative
    [num_features]. *)
Definition normalize (d : Dataset) : result Dataset :=
  match features d with
  | [] => Ok d
  | _ :: _ =>
      if num_features d <? 0 then Err LengthError
      else
        let nf := Z.to_nat (num_features d) in
        let js := seq 0 nf in
        means <- fill_means d js (resize (feature_means d) nf 0%float) ;;
        stds <- fill_stds d means js (resize (feature_stds d) nf 0%float) ;;
        features' <- scale_rows means stds js
                       (seq 0 (Z.to_nat (num_samples d))) (features d) ;;
        Ok (set_features d features' means stds)
  end.

(** * The summary of an experiment (results.h / results.cc) *)

Record FoldResult : Type := {
  fold_number : Z;
  train_accuracy : float;
  test_accuracy : float;
  train_metrics : Utils.ClassificationMetrics;
  test_metrics : Utils.ClassificationMetrics;
  generations_used : Z;
  fold_best_fitness : float
}.

Record ExperimentResult : Type := {
  network_structure : list Z;
  run_id : Z;
  seed : Z;
  fold_results : list FoldResult;
  mean_test_accuracy : float;
  std_test_accuracy : float;
  mean_train_accuracy : float;
  std_train_accuracy : float
}.

Definition set_summary (e : ExperimentResult)
  (mean_test std_test mean_train std_train : float) : ExperimentResult :=
  {| network_structure := network_structure e; run_id := run_id e;
     seed := seed e; fold_results := fold_results e;
     mean_test_accuracy := mean_test; std_test_accuracy := std_test;
     mean_train_accuracy := mean_train; std_train_accuracy := std_train |}.

(** [ExperimentResult::calculate()]. *)
Definition ExperimentResult_calculate (e : ExperimentResult)
  : ExperimentResult :=
  match fold_results e with
  | [] => set_summary e 0 0 0 0
  | _ :: _ =>
      let size := Double.of_size (length (fold_results e)) in
      let sums :=
        fold_left (fun sums fold =>
                     ((fst sums + test_accuracy fold)%float,
                      (snd sums + train_accuracy fold)%float))
          (fold_results e) (0%float, 0%float) in
      let mean_test := (fst sums / size)%float in
      let mean_train := (snd sums / size)%float in
      let sq_sums :=
        fold_left (fun sq_sums fold =>
                     ((fst sq_sums
                       + (test_accuracy fold - mean_test)
                         * (test_accuracy fold - mean_test))%float,
                      (snd sq_sums
                       + (train_accuracy fold - mean_train)
                         * (train_accuracy fold - mean_train))%float))
          (fold_results e) (0%float, 0%float) in
      if (1 <? length (fold_results e))%nat then
        let size1 := Double.of_size (length (fold_results e) - 1) in
        set_summary e mean_test (PrimFloat.sqrt (fst sq_sums / size1))
          mean_train (PrimFloat.sqrt (snd sq_sums / size1))
      else set_summary e mean_test 0 mean_train 0
  end.

(** * MLP::randomInitialize *)

(** [weights[i][j][k] = dis(gen)] for every row [j] and entry [k]. *)
Fixpoint random_matrix (w : list (list float)) (min_val max_val : float)
  : M (list (list float)) :=
  match w with
  | [] => ret []
  | row :: w' =>
      row' <~ randomDoubles (length row) min_val max_val ;;
      w1 <~ random_matrix w' min_val max_val ;;
      ret (row' :: w1)
  end.

(** The loop over [i < weights.size()]: the weights of layer [i], then its
    biases. *)
Fixpoint random_layers (ws : list (list (list float)))
  (bs : list (list float)) (min_val max_val : float)
  : M (list (list (list float)) * list (list float)) :=
  match ws with
  | [] => ret ([], bs)
  | w :: ws' =>
      w1 <~ random_matrix w min_val max_val ;;
      match bs with
      | [] => raise UndefinedBehaviour
      | b :: bs' =>
          b1 <~ randomDoubles (length b) min_val max_val ;;
          '(ws1, bs1) <~ random_layers ws' bs' min_val max_val ;;
          ret (w1 :: ws1, b1 :: bs1)
      end
  end.

(** [MLP::randomInitialize(min_val, max_val)].  The generator is local and
    seeded from [std::random_device], here the value [entropy]; the
    distribution is constructed before the loops and requires
    [min_val <= max_val] with a finite difference. *)
Definition randomInitialize (min_val max_val : float) (entropy : Z) (m : MLP)
  : result MLP :=
  if (min_val <=? max_val)%float && Double.is_finite (max_val - min_val) then
    match random_layers (weights m) (biases m) min_val max_val
            (rng_seed entropy) with
    | Ok (ws, bs, _) => Ok (set_params m ws bs)
    | Err e => Err e
    end
  else Err UndefinedBehaviour.

(** * The predictions of a fold (runExperiment) *)

(** The loops [for (const auto& x : X) pred.push_back(mlp.predict(x))]. *)
Fixpoint predict_all (X : list (list float)) (m : MLP)
  : result (list Z) * MLP :=
  match X with
  | [] => (Ok [], m)
  | x :: X' =>
      match predict x m with
      | (Ok p, m1) =>
          match predict_all X' m1 with
          | (Ok ps, m2) => (Ok (p :: ps), m2)
          | (Err e, m2) => (Err e, m2)
          end
      | (Err e, m1) => (Err e, m1)
      end
  end.
(** ** Notions the properties are stated with *)

(** The parameter count of a topology: the sum over the layer transitions
    of [n_i * n_{i+1} + n_{i+1}]. *)
Fixpoint param_count (layers : list Z) : Z :=
  match layers with
  | a :: ((b :: _) as rest) => a * b + b + param_count rest
  | _ => 0
  end.

(** The row lengths of a weight tensor, the lengths of the bias vectors. *)
Definition shape_w (ws : list (list (list float))) : list (list nat) :=
  map (map (@length float)) ws.

Definition shape_b (bs : list (list float)) : list nat :=
  map (@length float) bs.

(** The number of doubles a weight tensor and the bias vectors hold. *)
Definition flat_size (ws : list (list (list float)))
  (bs : list (list float)) : nat :=
  (list_sum (map (@list_sum) (shape_w ws)) + list_sum (shape_b bs))%nat.

(** A network as the constructor builds it and the methods keep it: at
    least two layers, no negative width, the parameter count in
    [total_params], and every vector of the size the constructor gave. *)
Definition well_formed (m : MLP) : Prop :=
  (2 <= length (layer_sizes m))%nat /\
  Forall (fun n => 0 <= n) (layer_sizes m) /\
  total_params m = param_count (layer_sizes m) /\
  shape_w (weights m) = shape_w (zero_weights (layer_sizes m)) /\
  shape_b (biases m) = shape_b (zero_biases (layer_sizes m)) /\
  shape_b (layer_outputs m) = shape_b (zero_outputs (layer_sizes m)).

(** Every weight and bias is finite. *)
Definition finite_params (m : MLP) : Prop :=
  Forall (Forall (Forall (fun x => Double.is_finite x = true))) (weights m) /\
  Forall (Forall (fun x => Double.is_finite x = true)) (biases m).

(** The activations of one layer, as the description of the forward pass
    has them: for each destination neuron [j], the bias plus the dot
    product of the previous activations with the incoming weight column,
    passed through [act]. *)
Definition layer_values (act : float -> float) (prev : list float)
  (w : list (list float)) (b : list float) : list float :=
  map (fun j =>
         act (fold_left (fun sum xr => (sum + fst xr * nth j (snd xr) 0)%float)
                (combine prev w) (nth j b 0%float)))
      (seq 0 (length b)).

(** The output of the network: the configured activation on every layer
    but the last, the logistic sigmoid on the last. *)
Fixpoint network_values (m : MLP) (prev : list float)
  (ws : list (list (list float))) (bs : list (list float)) : list float :=
  match ws, bs with
  | [w], b :: _ => layer_values sigmoid prev w b
  | w :: ws', b :: bs' =>
      network_values m (layer_values (activate m) prev w b) ws' bs'
  | _, _ => prev
  end.

(** A double that is a zero, a NaN, or carries the positive sign. *)
Definition nonneg_sf (s : spec_float) : Prop :=
  match s with
  | S754_zero _ | S754_nan => True
  | S754_infinity sg | S754_finite sg _ _ => sg = false
  end.

(** The binary64 representation of [1.0]. *)
Definition SFone : spec_float := S754_finite false 4503599627370496 (-52).

(** A gene within the range [clamp] enforces. *)
Definition gene_ok (g : float) : Prop := Double.in_closed (-5) 5 g = true.

Definition genes_ok (ind : Individual) : Prop :=
  Forall gene_ok (chromosome ind).

(** A sequence of doubles that never decreases. *)
Definition nondecreasing (l : list float) : Prop :=
  forall i j : nat, (i <= j < length l)%nat ->
    (nth i l 0 <=? nth j l 0)%float = true.

(** The states a run of [evolve] started on [ga0] with the stream [r0]
    passes through: after [initializePopulation], after
    [evaluateFitness], and after each completed generation. *)
Inductive evolve_reaches (ga0 : GeneticAlgorithm) (r0 : rng)
  : GeneticAlgorithm -> Prop :=
| reaches_initialized ga1 r1 :
    initializePopulation (-1) 1 ga0 r0 = Ok (ga1, r1) ->
    evolve_reaches ga0 r0 ga1
| reaches_evaluated ga1 r1 ga2 :
    initializePopulation (-1) 1 ga0 r0 = Ok (ga1, r1) ->
    evaluateFitness ga1 = Ok ga2 ->
    evolve_reaches ga0 r0 ga2
| reaches_generation f ga1 r1 ga2 k ga3 r3 :
    fitness_function ga0 = Some f ->
    initializePopulation (-1) 1 ga0 r0 = Ok (ga1, r1) ->
    evaluateFitness ga1 = Ok ga2 ->
    (k <= Z.to_nat (max_generations (config ga0)))%nat ->
    generations f k ga2 r1 = Ok (ga3, r3) ->
    evolve_reaches ga0 r0 ga3.

(** A fitness function that scores within [[0, 1]], as an accuracy does. *)
Definition scores_in_unit (func : list float -> float) : Prop :=
  forall g : list float, Double.in_closed 0 1 (func g) = true.

(** A configuration [evolve] runs on without leaving defined behaviour: at
    least one individual, at least one draw per tournament, a mutation
    strength that spans a valid range of the real distribution, and an
    elitism rate in [[0, 1]]. *)
Definition runnable (cfg : GAConfig) : Prop :=
  1 <= population_size cfg <= INT_MAX /\
  1 <= tournament_size cfg /\
  (- mutation_strength cfg <=? mutation_strength cfg)%float = true /\
  Double.is_finite (mutation_strength cfg - - mutation_strength cfg) = true /\
  Double.in_closed 0 1 (elitism_rate cfg) = true.

(** An optimizer between two generations of a run with [func]: the
    configuration bound, a full population, every individual of the
    chromosome length and carrying its score. *)
Definition between_generations (cfg : GAConfig) (len : Z)
  (func : list float -> float) (ga : GeneticAlgorithm) : Prop :=
  config ga = cfg /\ chromosome_length ga = len /\
  length (population ga) = Z.to_nat (population_size cfg) /\
  Forall (fun ind => length (chromosome ind) = Z.to_nat len /\
                     fitness ind = func (chromosome ind)) (population ga).

(** What the platform's library functions guarantee. *)
Definition sort_permutes : Prop :=
  forall (A : Type) (comp : A -> A -> bool) (l : list A),
    strict_weak_on comp l = true ->
    Permutation (std_sort A comp l) l.

Definition uniform_real_in_range : Prop :=
  forall (a b : float) (r : rng),
    (a <=? b)%float = true ->
    Double.in_closed a b (fst (uniform_real a b r)) = true.

Definition uniform_int_in_range : Prop :=
  forall (a b : Z) (r : rng),
    a <= b -> a <= fst (uniform_int a b r) <= b.

(** ** Concrete inputs *)

(** The network [MLP({2, 2, 1}, SIGMOID)] as constructed, and a genome of
    its nine parameters. *)
Definition example_net : MLP :=
  {| layer_sizes := [2; 2; 1];
     activation_type := SIGMOID;
     total_params := 9;
     weights := [[[0; 0]; [0; 0]]; [[0]; [0]]]%float;
     biases := [[0; 0]; [0]]%float;
     layer_outputs := [[0; 0]; [0; 0]; [0]]%float |}.

Definition example_genome : list float :=
  [1; 2; 3; 4; 5; 6; 7; 8; 9]%float.

(** A network [MLP({1, 1}, SIGMOID)] with weight 4 and bias 0, and a large
    finite input. *)
Definition steep_net : MLP :=
  {| layer_sizes := [1; 1];
     activation_type := SIGMOID;
     total_params := 2;
     weights := [[[4%float]]];
     biases := [[0%float]];
     layer_outputs := [[0]; [0]]%float |}.

Definition large_input : list float := [0x1p1023%float].

(** A configuration with three individuals, elitism one third. *)
Definition example_cfg : GAConfig :=
  {| population_size := 3;
     max_generations := 2;
     crossover_rate := 0.5;
     mutation_rate := 0.5;
     mutation_strength := 0.25;
     elitism_rate := 0.5;
     tournament_size := 2;
     verbose := false |}.

(** A fitness function on one-gene chromosomes: a score of 1 above the
    threshold 0.5, of 0.5 at or below it. *)
Definition threshold_fitness (g : list float) : float :=
  match g with
  | x :: _ => if (0.5 <? x)%float then 1%float else 0.5%float
  | [] => 0%float
  end.

(** One individual, one generation, no crossover, every gene mutated. *)
Definition single_cfg : GAConfig :=
  {| population_size := 1;
     max_generations := 1;
     crossover_rate := 0;
     mutation_rate := 1;
     mutation_strength := 0.5;
     elitism_rate := 0;
     tournament_size := 1;
     verbose := false |}.

(** The draws of that run: the initial gene 0.25; in the generation the
    index 0 twice, the crossover draw, and for each child the mutation
    draw and the noise 0.5. *)
Definition single_stream : Scripted.rng :=
  {| Scripted.reals := [0.25; 0.75; 0; 0.5; 0; 0]%float;
     Scripted.ints := [0; 0] |}.

(** The optimizer [GeneticAlgorithm(1, single_cfg)] as constructed, and the
    state and stream a run of [evolve] on it with [threshold_fitness] and
    [single_stream] ends in. *)
Definition single_ga : GeneticAlgorithm :=
  {| config := single_cfg;
     population := [{| chromosome := [0%float]; fitness := 0 |}];
     chromosome_length := 1;
     best_fitness := 0;
     best_individual := Individual_default;
     fitness_function := None;
     best_fitness_history := [];
     avg_fitness_history := [] |}.

Definition single_final : GeneticAlgorithm :=
  {| config := single_cfg;
     population := [{| chromosome := [0.75%float]; fitness := 1 |}];
     chromosome_length := 1;
     best_fitness := 0.5;
     best_individual := {| chromosome := [0.25%float]; fitness := 0.5 |};
     fitness_function := Some threshold_fitness;
     best_fitness_history := [0.5%float];
     avg_fitness_history := [1%float] |}.

Definition single_rest : Scripted.rng :=
  {| Scripted.reals := []; Scripted.ints := [] |}.

(** The optimizer [GeneticAlgorithm(1, example_cfg)] as constructed, and
    its state after [initializePopulation] on [single_stream]. *)
Definition example_ga : GeneticAlgorithm :=
  {| config := example_cfg;
     population := repeat {| chromosome := [0%float]; fitness := 0 |} 3;
     chromosome_length := 1;
     best_fitness := 0;
     best_individual := Individual_default;
     fitness_function := None;
     best_fitness_history := [];
     avg_fitness_history := [] |}.

Definition example_initialized : GeneticAlgorithm :=
  {| config := example_cfg;
     population := [{| chromosome := [0.25%float]; fitness := 0 |};
                    {| chromosome := [0.75%float]; fitness := 0 |};
                    {| chromosome := [0%float]; fitness := 0 |}];
     chromosome_length := 1;
     best_fitness := 0;
     best_individual := Individual_default;
     fitness_function := Some threshold_fitness;
     best_fitness_history := [];
     avg_fitness_history := [] |}.

Definition example_rest : Scripted.rng :=
  {| Scripted.reals := [0.5; 0; 0]%float; Scripted.ints := [0; 0] |}.


(** Two parents of one gene, and the draws of a crossover that exchanges
    the gene and of a mutation that adds the noise 0.125. *)
Definition example_parent1 : Individual :=
  {| chromosome := [1%float]; fitness := 0.5 |}.

Definition example_parent2 : Individual :=
  {| chromosome := [2%float]; fitness := 1 |}.

Definition crossover_stream : Scripted.rng :=
  {| Scripted.reals := [0.25; 0.25]%float; Scripted.ints := [] |}.

Definition mutate_stream : Scripted.rng :=
  {| Scripted.reals := [0.25; 0.125]%float; Scripted.ints := [] |}.

(** The stream after the two draws of a tournament on [example_rest]. *)
Definition example_drawn : Scripted.rng :=
  {| Scripted.reals := [0.5; 0; 0]%float; Scripted.ints := [] |}.

(** The population of [example_initialized] with scores, three offspring,
    and the state [replacePopulation] leaves: one elite, two offspring. *)
Definition scored_ga : GeneticAlgorithm :=
  {| config := example_cfg;
     population := [{| chromosome := [0.25%float]; fitness := 0.5 |};
                    {| chromosome := [0.75%float]; fitness := 1 |};
                    {| chromosome := [0%float]; fitness := 0.5 |}];
     chromosome_length := 1;
     best_fitness := 1;
     best_individual := {| chromosome := [0.75%float]; fitness := 1 |};
     fitness_function := Some threshold_fitness;
     best_fitness_history := [];
     avg_fitness_history := [] |}.

Definition example_offspring : list Individual :=
  [{| chromosome := [0.5%float]; fitness := 0.5 |};
   {| chromosome := [1%float]; fitness := 1 |};
   {| chromosome := [0.125%float]; fitness := 0.5 |}].

Definition scored_next : GeneticAlgorithm :=
  {| config := example_cfg;
     population := [{| chromosome := [0.75%float]; fitness := 1 |};
                    {| chromosome := [1%float]; fitness := 1 |};
                    {| chromosome := [0.5%float]; fitness := 0.5 |}];
     chromosome_length := 1;
     best_fitness := 1;
     best_individual := {| chromosome := [0.75%float]; fitness := 1 |};
     fitness_function := Some threshold_fitness;
     best_fitness_history := [];
     avg_fitness_history := [] |}.

(** The network [{2, 2, 1}] holding the example genome. *)
Definition example_decoded : MLP :=
  {| layer_sizes := [2; 2; 1];
     activation_type := SIGMOID;
     total_params := 9;
     weights := [[[1; 2]; [3; 4]]; [[7]; [8]]]%float;
     biases := [[5; 6]; [9]]%float;
     layer_outputs := [[0; 0]; [0; 0]; [0]]%float |}.

(** The network [MLP({30, 1}, SIGMOID)] as constructed. *)
Definition wide_net : MLP :=
  {| layer_sizes := [30; 1];
     activation_type := SIGMOID;
     total_params := 31;
     weights := zero_weights [30; 1];
     biases := zero_biases [30; 1];
     layer_outputs := zero_outputs [30; 1] |}.

(** A data file of four lines: two samples, a line with an unknown
    diagnosis, and a sample followed by two more columns. *)
Definition line_feed : String.string :=
  String.String "010"%char String.EmptyString.

(** A line of the file: an id, a diagnosis, and [n] columns holding
    [value]. *)
Definition example_line (id diag value : String.string) (n : nat)
  : String.string :=
  String.concat ","%string (id :: diag :: repeat value n).

Definition example_text : String.string :=
  String.concat line_feed
    [example_line "a"%string "M"%string "1"%string 30;
     example_line "b"%string "B"%string "0"%string 30;
     "c,X,1,2"%string;
     example_line "d"%string "M"%string "2"%string 32;
     ""%string].

(** Three samples of one feature, and the data set with the folds
    [createKFolds(2, 42)] assigns when the shuffle reverses the range. *)
Definition small_dataset : Dataset :=
  {| features := [[1]; [2]; [3]]%float;
     labels := [1; 0; 1];
     ids := ["a"; "b"; "c"]%string;
     feature_means := [];
     feature_stds := [];
     num_samples := 3;
     num_features := 1;
     fold_indices := [] |}.

Definition small_folds : Dataset :=
  {| features := [[1]; [2]; [3]]%float;
     labels := [1; 0; 1];
     ids := ["a"; "b"; "c"]%string;
     feature_means := [];
     feature_stds := [];
     num_samples := 3;
     num_features := 1;
     fold_indices := [0; 1; 0] |}.

(** The optimizer [GeneticAlgorithm(9, single_cfg)] as constructed, for the
    nine parameters of the network [{2, 2, 1}], and a fitness function that
    scores nothing. *)
Definition nine_ga : GeneticAlgorithm :=
  {| config := single_cfg;
     population := [Individual_sized 9];
     chromosome_length := 9;
     best_fitness := 0;
     best_individual := Individual_default;
     fitness_function := None;
     best_fitness_history := [];
     avg_fitness_history := [] |}.

Definition no_score (g : list float) : float := 0%float.

(** The draws of a second run on the optimizer [single_final]: the initial
    gene 0.75; in the generation the index 0 twice, the crossover draw, and
    for each child the mutation draw and the noise 0.  The state that run
    ends in. *)
Definition second_stream : Scripted.rng :=
  {| Scripted.reals := [0.75; 0.75; 0; 0; 0; 0]%float;
     Scripted.ints := [0; 0] |}.

Definition second_final : GeneticAlgorithm :=
  {| config := single_cfg;
     population := [{| chromosome := [0.75%float]; fitness := 1 |}];
     chromosome_length := 1;
     best_fitness := 1;
     best_individual := {| chromosome := [0.75%float]; fitness := 1 |};
     fitness_function := Some threshold_fitness;
     best_fitness_history := [0.5; 1]%float;
     avg_fitness_history := [1; 1]%float |}.

(** The state a run of [evolve] on [example_ga] with [threshold_fitness]
    and [single_stream] ends in: two generations. *)
Definition example_final : GeneticAlgorithm :=
  {| config := example_cfg;
     population := [{| chromosome := [0.75%float]; fitness := 1 |};
                    {| chromosome := [0.5%float]; fitness := 0.5 |};
                    {| chromosome := [0.5%float]; fitness := 0.5 |}];
     chromosome_length := 1;
     best_fitness := 1;
     best_individual := {| chromosome := [0.75%float]; fitness := 1 |};
     fitness_function := Some threshold_fitness;
     best_fitness_history := [1; 1]%float;
     avg_fitness_history := [(2 / 3)%float; (2 / 3)%float] |}.

(** An optimizer [GeneticAlgorithm(1, example_cfg)] that was run before
    with [no_score] on the stream seeded with 7: nothing scored above 0.0,
    so the best record is as constructed, while the population and the
    histories hold what that run left. *)
Definition used_ga : GeneticAlgorithm :=
  {| config := example_cfg;
     population := [{| chromosome := [(-1)%float]; fitness := 0 |};
                    {| chromosome := [(-1.25)%float]; fitness := 0 |};
                    {| chromosome := [(-1.25)%float]; fitness := 0 |}];
     chromosome_length := 1;
     best_fitness := 0;
     best_individual := Individual_default;
     fitness_function := Some no_score;
     best_fitness_history := [0; 0]%float;
     avg_fitness_history := [0; 0]%float |}.

(** The state a run with [threshold_fitness] on the stream seeded with 42
    ends in, on [example_ga] and on [used_ga]. *)
Definition seeded_final : GeneticAlgorithm :=
  {| config := example_cfg;
     population := [{| chromosome := [(-1)%float]; fitness := 0.5 |};
                    {| chromosome := [(-1.25)%float]; fitness := 0.5 |};
                    {| chromosome := [(-1.25)%float]; fitness := 0.5 |}];
     chromosome_length := 1;
     best_fitness := 0.5;
     best_individual := {| chromosome := [(-1)%float]; fitness := 0.5 |};
     fitness_function := Some threshold_fitness;
     best_fitness_history := [0.5; 0.5]%float;
     avg_fitness_history := [0.5; 0.5]%float |}.

(** ** Vocabulary for the statistics, the data set and the operators *)

(** The number of positions at which [predictions] holds [p] and [actual]
    holds [a]. *)
Definition count_pairs (p a : Z) (predictions actual : list Z) : Z :=
  Z.of_nat (length (filter (fun xy => (fst xy =? p) && (snd xy =? a))
                      (combine predictions actual))).

(** Class labels: 0 or 1. *)
Definition binary_labels (l : list Z) : Prop :=
  Forall (fun x => x = 0 \/ x = 1) l.

(** Two networks that differ at most in what their output buffers hold. *)
Definition same_network (m1 m2 : MLP) : Prop :=
  layer_sizes m1 = layer_sizes m2 /\
  activation_type m1 = activation_type m2 /\
  total_params m1 = total_params m2 /\
  weights m1 = weights m2 /\ biases m1 = biases m2 /\
  shape_b (layer_outputs m1) = shape_b (layer_outputs m2).

(** The indices the [n] rounds of a tournament draw from the stream [r],
    for a population of [size] individuals. *)
Fixpoint tournament_draws (n size : nat) (r : rng) : list Z :=
  match n with
  | O => []
  | S n' =>
      let d := uniform_int 0 (Z.of_nat size - 1) r in
      fst d :: tournament_draws n' size (snd d)
  end.

(** A range in which the comparison puts no element before an earlier
    one. *)
Fixpoint ordered_by {A : Type} (comp : A -> A -> bool) (l : list A) : Prop :=
  match l with
  | [] => True
  | x :: l' => Forall (fun y => comp y x = false) l' /\ ordered_by comp l'
  end.

(** [std::sort] leaves the range ordered by the comparison, when the
    comparison is a strict weak ordering on it. *)
Definition sort_orders : Prop :=
  forall (A : Type) (comp : A -> A -> bool) (l : list A),
    strict_weak_on comp l = true -> ordered_by comp (std_sort A comp l).

(** The running best [tournamentSelection] starts from. *)
Definition tournament_start : Individual :=
  {| chromosome := []; fitness := (-1)%float |}.

(** Children that hold, at every position, the two genes their parents
    hold there, in the same or in the opposite order. *)
Definition genes_exchanged (p1 p2 c1 c2 : list float) : Prop :=
  length c1 = length p1 /\ length c2 = length p2 /\
  forall j : nat,
    (nth j c1 0%float = nth j p1 0%float /\
     nth j c2 0%float = nth j p2 0%float) \/
    (nth j c1 0%float = nth j p2 0%float /\
     nth j c2 0%float = nth j p1 0%float).

(** ** Vocabulary for the data set *)

(** What [std::shuffle] guarantees: a reordering of the range. *)
Definition shuffle_permutes : Prop :=
  forall (A : Type) (l : list A) (r : rng),
    Permutation (fst (std_shuffle A l r)) l.

(** The values of the tokens, when [std::stod] accepts every one. *)
Fixpoint stod_all (tokens : list String.string) : option (list float) :=
  match tokens with
  | [] => Some []
  | token :: tokens' =>
      match stod token, stod_all tokens' with
      | Some value, Some values => Some (value :: values)
      | _, _ => None
      end
  end.

(** The sample a well-formed line describes: an id, the diagnosis M or B,
    then at least 30 more columns of which the first 30 are numbers. *)
Definition sample_of_line (line : String.string) : option (Z * list float) :=
  match getlines ","%char line with
  | _ :: token :: rest =>
      match diagnosis token with
      | Some label =>
          if (30 <=? length rest)%nat
          then option_map (fun row => (label, row)) (stod_all (firstn 30 rest))
          else None
      | None => None
      end
  | _ => None
  end.

Definition samples_of_lines (lines : list String.string)
  : list (Z * list float) :=
  flat_map (fun line => match sample_of_line line with
                        | Some s => [s]
                        | None => []
                        end) lines.

(** A line that has an id but no diagnosis column, or a diagnosis other
    than M and B. *)
Definition stray_id (line : String.string) : bool :=
  match getlines ","%char line with
  | [] => false
  | [_] => true
  | _ :: token :: _ =>
      match diagnosis token with Some _ => false | None => true end
  end.

(** The samples, by index, whose fold is [test_fold] ([inside = true]) or
    is not ([inside = false]). *)
Definition fold_members (test_fold : Z) (d : Dataset) (inside : bool)
  : list nat :=
  filter (fun i => Bool.eqb (nth i (fold_indices d) 0 =? test_fold) inside)
    (seq 0 (Z.to_nat (num_samples d))).

(** A data set whose vectors hold [num_samples] entries each. *)
Definition sized (d : Dataset) : Prop :=
  0 <= num_samples d /\
  length (features d) = Z.to_nat (num_samples d) /\
  length (labels d) = Z.to_nat (num_samples d).

(** Column [j] of the feature matrix. *)
Definition column (d : Dataset) (j : nat) : list float :=
  map (fun row => nth j row 0%float) (features d).

(** The deviation [normalize] stores for column [j]: the square root of
    the mean squared distance to the column's mean, replaced by [1.0] when
    it is below [1e-10]. *)
Definition column_std (d : Dataset) (j : nat) : float :=
  let m := Utils.mean (column d j) in
  let sum_sq :=
    fold_left (fun sum_sq x => (sum_sq + (x - m) * (x - m))%float)
      (column d j) 0%float in
  let s := PrimFloat.sqrt (sum_sq / Double.of_size (length (column d j))) in
  if (s <? Utils.tiny)%float then 1%float else s.

(** The z-score of the entries of a row. *)
Definition zscore_row (means stds : list float) (n : nat) (row : list float)
  : list float :=
  map (fun j => ((nth j row 0 - nth j means 0) / nth j stds 0)%float)
    (seq 0 n).

(** A data set as [loadFromFile] leaves it: [num_samples] rows and labels,
    each row with [num_features] entries. *)
Definition shaped (d : Dataset) : Prop :=
  sized d /\ 0 <= num_features d /\
  Forall (fun row => length row = Z.to_nat (num_features d)) (features d).

(** A matrix with rows of at least [nf] entries. *)
Definition wide (nf : nat) (features : list (list float)) : Prop :=
  Forall (fun row => (nf <= length row)%nat) features.

(** The class a network assigns to an input. *)
Definition predicted (m : MLP) (x : list float) : Z :=
  class_of_output (network_values m x (weights m) (biases m)).

(** The number of samples whose class the network predicts. *)
Definition agreements (m : MLP) (X : list (list float)) (y : list Z) : Z :=
  Z.of_nat (length (filter (fun xy => predicted m (fst xy) =? snd xy)
                      (combine X y))).

(** The optimizers a program can hold: one the constructor built, then
    given fitness functions and run with [evolve], any number of times in
    any order. *)
Inductive optimizer_state : GeneticAlgorithm -> Prop :=
| state_constructed chrom_length cfg ga :
    GeneticAlgorithm_new chrom_length cfg = Ok ga -> optimizer_state ga
| state_function func ga :
    optimizer_state ga -> optimizer_state (setFitnessFunction func ga)
| state_evolved ga r ga' r' :
    optimizer_state ga -> evolve ga r = Ok (ga', r') -> optimizer_state ga'.

(** Two optimizers set up alike for a run with [func]: the fitness
    function bound in both, the same configuration and chromosome length,
    and each holding [population_size] individuals, as every constructed
    optimizer does.  What the individuals, the best-ever record and the
    histories hold is left open. *)
Definition same_setup (func : list float -> float)
  (ga gb : GeneticAlgorithm) : Prop :=
  fitness_function ga = Some func /\ fitness_function gb = Some func /\
  config gb = config ga /\ chromosome_length gb = chromosome_length ga /\
  Z.of_nat (length (population ga)) = population_size (config ga) /\
  Z.of_nat (length (population gb)) = population_size (config ga).

(** The best-ever fitness [evaluateFitness] leaves when the fittest
    individual of the evaluated population is [m]: raised to the fitness of
    [m] when that is above the recorded one, kept otherwise. *)
Definition raised (best : float) (m : Individual) : float :=
  if (best <? fitness m)%float then fitness m else best.
(** * Facts about binary64 comparisons

    [SFcompare] orders the non-NaN values; every comparison with a NaN is
    false.  The facts below hold for all doubles, NaN included. *)

Ltac sf_cases :=
  repeat match goal with
  | |- context [Z.compare ?a ?b] => destruct (Z.compare_spec a b)
  | H : context [Z.compare ?a ?b] |- _ => destruct (Z.compare_spec a b)
  | |- context [Pos.compare_cont Eq ?a ?b] =>
      change (Pos.compare_cont Eq a b) with (Pos.compare a b);
      destruct (Pos.compare_spec a b)
  | H : context [Pos.compare_cont Eq ?a ?b] |- _ =>
      change (Pos.compare_cont Eq a b) with (Pos.compare a b) in H;
      destruct (Pos.compare_spec a b)
  end;
  simpl in *; try discriminate; try reflexivity; try lia.

Ltac sf_destruct x := destruct x as [[|]|[|]| |[|] ? ?].

Ltac sf_order :=
  unfold SFleb, SFltb, SFcompare;
  repeat match goal with x : spec_float |- _ => sf_destruct x end;
  try discriminate; try reflexivity; intros; sf_cases.

Lemma SFltb_trans x y z :
  SFltb x y = true -> SFltb y z = true -> SFltb x z = true.
Proof. revert x y z. intros x y z. sf_order. Qed.

Lemma SFleb_trans x y z :
  SFleb x y = true -> SFleb y z = true -> SFleb x z = true.
Proof. sf_order. Qed.

Lemma SFltb_leb_trans x y z :
  SFltb x y = true -> SFleb y z = true -> SFltb x z = true.
Proof. sf_order. Qed.

Lemma SFleb_ltb_trans x y z :
  SFleb x y = true -> SFltb y z = true -> SFltb x z = true.
Proof. sf_order. Qed.

Lemma SFltb_leb x y : SFltb x y = true -> SFleb x y = true.
Proof. sf_order. Qed.

Lemma SFltb_irrefl x : SFltb x x = false.
Proof. sf_order. Qed.

Lemma SFleb_refl_l x y : SFleb x y = true -> SFleb x x = true.
Proof. sf_order. Qed.

Lemma SFleb_refl_r x y : SFleb x y = true -> SFleb y y = true.
Proof. sf_order. Qed.

(** Non-NaN values that are not ordered either way compare equal. *)
Lemma SFcompare_eq_of_not_ltb x y :
  SFleb y y = true -> SFleb x x = true ->
  SFltb x y = false -> SFltb y x = false -> SFcompare x y = Some Eq.
Proof.
  unfold SFleb, SFltb, SFcompare.
  sf_destruct x; sf_destruct y; try discriminate; try reflexivity;
    intros; sf_cases.
Qed.

Lemma SFcompare_eq_ltb_l x y z :
  SFcompare x y = Some Eq -> SFltb x z = SFltb y z.
Proof.
  unfold SFltb, SFcompare.
  sf_destruct x; sf_destruct y; try discriminate; try reflexivity;
    sf_destruct z; try discriminate; try reflexivity; intros; sf_cases.
Qed.

Lemma SFltb_nan_l x z : SFleb x x = false -> SFltb x z = false.
Proof.
  unfold SFleb, SFltb, SFcompare.
  sf_destruct x; try discriminate; try reflexivity; intros; sf_cases.
Qed.

Lemma SFltb_nan_r x z : SFleb z z = false -> SFltb x z = false.
Proof.
  unfold SFleb, SFltb, SFcompare.
  sf_destruct z; try discriminate; sf_destruct x; try reflexivity;
    intros; sf_cases.
Qed.

Lemma SFincomparable_trans x y z :
  SFleb y y = true ->
  SFltb x y = false -> SFltb y x = false ->
  SFltb y z = false -> SFltb z y = false ->
  SFltb x z = false.
Proof.
  intros Hy Hxy Hyx Hyz Hzy.
  destruct (SFleb x x) eqn:Hx; [|apply SFltb_nan_l, Hx].
  rewrite (SFcompare_eq_ltb_l x y z); [exact Hyz|].
  apply SFcompare_eq_of_not_ltb; assumption.
Qed.

Lemma double_ltb_trans (x y z : float) :
  (x <? y)%float = true -> (y <? z)%float = true -> (x <? z)%float = true.
Proof. rewrite !FloatAxioms.ltb_spec. apply SFltb_trans. Qed.

Lemma double_leb_trans (x y z : float) :
  (x <=? y)%float = true -> (y <=? z)%float = true -> (x <=? z)%float = true.
Proof. rewrite !FloatAxioms.leb_spec. apply SFleb_trans. Qed.

Lemma double_ltb_leb_trans (x y z : float) :
  (x <? y)%float = true -> (y <=? z)%float = true -> (x <? z)%float = true.
Proof. rewrite !FloatAxioms.ltb_spec, !FloatAxioms.leb_spec. apply SFltb_leb_trans. Qed.

Lemma double_leb_ltb_trans (x y z : float) :
  (x <=? y)%float = true -> (y <? z)%float = true -> (x <? z)%float = true.
Proof. rewrite !FloatAxioms.ltb_spec, !FloatAxioms.leb_spec. apply SFleb_ltb_trans. Qed.

Lemma double_ltb_leb (x y : float) :
  (x <? y)%float = true -> (x <=? y)%float = true.
Proof. rewrite FloatAxioms.ltb_spec, FloatAxioms.leb_spec. apply SFltb_leb. Qed.

Lemma double_ltb_irrefl (x : float) : (x <? x)%float = false.
Proof. rewrite FloatAxioms.ltb_spec. apply SFltb_irrefl. Qed.

Lemma double_leb_refl_l (x y : float) :
  (x <=? y)%float = true -> (x <=? x)%float = true.
Proof. rewrite !FloatAxioms.leb_spec. apply SFleb_refl_l. Qed.

Lemma double_leb_refl_r (x y : float) :
  (x <=? y)%float = true -> (y <=? y)%float = true.
Proof. rewrite !FloatAxioms.leb_spec. apply SFleb_refl_r. Qed.

(** The larger side of a true [<] is not a NaN. *)
Lemma double_ltb_leb_refl_r (x y : float) :
  (x <? y)%float = true -> (y <=? y)%float = true.
Proof. intros H. apply (double_leb_refl_r x y), double_ltb_leb, H. Qed.

(** Around a value that is not a NaN, being unordered is transitive. *)
Lemma double_incomparable_trans (x y z : float) :
  (y <=? y)%float = true ->
  (x <? y)%float = false -> (y <? x)%float = false ->
  (y <? z)%float = false -> (z <? y)%float = false ->
  (x <? z)%float = false.
Proof.
  rewrite !FloatAxioms.ltb_spec, !FloatAxioms.leb_spec.
  apply SFincomparable_trans.
Qed.

(** [Utils::clamp] lands in the interval whatever its argument, a NaN
    included. *)
Lemma clamp_in_range (value lo hi : float) :
  (lo <=? hi)%float = true ->
  Double.in_closed lo hi (Utils.clamp value lo hi) = true.
Proof.
  intros Hlh.
  unfold Utils.clamp, Double.std_max, Double.std_min, Double.in_closed.
  destruct (value <? hi)%float eqn:Hv.
  - destruct (lo <? value)%float eqn:Hl.
    + rewrite (double_ltb_leb _ _ Hl), (double_ltb_leb _ _ Hv). reflexivity.
    + rewrite (double_leb_refl_l _ _ Hlh), Hlh. reflexivity.
  - destruct (lo <? hi)%float eqn:Hl.
    + rewrite Hlh, (double_leb_refl_r _ _ Hlh). reflexivity.
    + rewrite (double_leb_refl_l _ _ Hlh), Hlh. reflexivity.
Qed.

Lemma clamp_gene_ok (value : float) : gene_ok (Utils.clamp value (-5) 5).
Proof. apply clamp_in_range. reflexivity. Qed.

Lemma in_closed_widen (lo hi lo' hi' x : float) :
  (lo' <=? lo)%float = true -> (hi <=? hi')%float = true ->
  Double.in_closed lo hi x = true -> Double.in_closed lo' hi' x = true.
Proof.
  unfold Double.in_closed. intros Hlo Hhi H.
  apply andb_true_iff in H. destruct H as [H1 H2].
  rewrite (double_leb_trans _ _ _ Hlo H1), (double_leb_trans _ _ _ H2 Hhi). reflexivity.
Qed.

(** ** Conversions between [int] and [double] *)

(** Rounding keeps the sign it is given. *)
Lemma binary_round_aux_sign (sx : bool) (mx ex : Z) (lx : location) :
  match binary_round_aux prec emax sx mx ex lx with
  | S754_zero s | S754_infinity s | S754_finite s _ _ => s = sx
  | S754_nan => True
  end.
Proof.
  unfold binary_round_aux.
  destruct (shr_fexp prec emax mx ex lx) as [mrs' e'].
  destruct (shr_fexp prec emax _ e' loc_Exact) as [mrs'' e''].
  destruct (shr_m mrs''); [reflexivity | | exact I].
  destruct (e'' <=? emax - prec); reflexivity.
Qed.

Lemma leb_zero_nonneg (x : float) :
  (0 <=? x)%float = true -> nonneg_sf (Prim2SF x).
Proof.
  rewrite FloatAxioms.leb_spec. change (Prim2SF 0) with (S754_zero false).
  destruct (Prim2SF x) as [s|s| |s m e]; simpl; try discriminate; auto;
    destruct s; simpl; try discriminate; auto.
Qed.

Lemma of_int_nonneg (n : Z) : 0 <= n -> nonneg_sf (Prim2SF (Double.of_int n)).
Proof.
  intros Hn. unfold Double.of_int.
  destruct (Z.ltb_spec n 0) as [Hlt|_]; [lia|].
  rewrite of_uint63_spec. unfold binary_normalize.
  destruct (Uint63.to_Z (Uint63.of_Z n)) as [|p|p] eqn:Hp.
  - exact I.
  - unfold binary_round.
    destruct (shl_align p 0 _) as [mz ez].
    pose proof (binary_round_aux_sign false (Z.pos mz) ez loc_Exact) as Hs.
    destruct (binary_round_aux prec emax false (Z.pos mz) ez loc_Exact);
      simpl; auto.
  - pose proof (Uint63.to_Z_bounded (Uint63.of_Z n)) as Hb. lia.
Qed.

Lemma mul_nonneg (x y : float) :
  nonneg_sf (Prim2SF x) -> nonneg_sf (Prim2SF y) ->
  nonneg_sf (Prim2SF (x * y)).
Proof.
  rewrite FloatAxioms.mul_spec. unfold SF64mul, SFmul.
  destruct (Prim2SF x) as [sx|sx| |sx mx ex];
    destruct (Prim2SF y) as [sy|sy| |sy my ey]; simpl; auto;
    intros Hx Hy; subst; simpl; auto.
  pose proof (binary_round_aux_sign false (Z.pos (mx * my)) (ex + ey) loc_Exact)
    as Hs.
  destruct (binary_round_aux prec emax false (Z.pos (mx * my)) (ex + ey)
              loc_Exact); simpl; auto.
Qed.

(** On a double that is not negative, the conversion to [int], when it is
    defined, is the floor. *)
Lemma to_int_floor (x : float) (e : Z) :
  nonneg_sf (Prim2SF x) -> Double.to_int x = Some e -> Double.floor x = Some e.
Proof.
  unfold Double.to_int, Double.floor, Double.truncate.
  destruct (Prim2SF x) as [s|s| |s m ex]; simpl; try discriminate.
  - intros _ H. exact H.
  - intros Hs. subst s.
    destruct (in_int _) eqn:Hin; [|discriminate].
    intros H. injection H as <-. destruct (0 <=? ex); reflexivity.
Qed.


(** * Rounding of binary64 results

    What [SpecFloat] rounding does to the magnitude of a result, as far as
    the logistic sigmoid needs it: [1 + e] is at least [1] for every
    [e >= 0], and [1 / y] is at most [1] for every [y >= 1]. *)

Lemma digits2_pos_bounds (m : positive) :
  2 ^ (Z.pos (digits2_pos m) - 1) <= Z.pos m < 2 ^ Z.pos (digits2_pos m).
Proof.
  induction m as [m IH | m IH |]; cbn [digits2_pos].
  - rewrite Pos2Z.inj_succ.
    replace (Z.succ (Z.pos (digits2_pos m)) - 1)
      with (Z.succ (Z.pos (digits2_pos m) - 1)) by lia.
    rewrite !Z.pow_succ_r by lia. lia.
  - rewrite Pos2Z.inj_succ.
    replace (Z.succ (Z.pos (digits2_pos m)) - 1)
      with (Z.succ (Z.pos (digits2_pos m) - 1)) by lia.
    rewrite !Z.pow_succ_r by lia. lia.
  - cbn. lia.
Qed.

Lemma Zdigits2_bounds (m : Z) :
  0 < m -> 2 ^ (Zdigits2 m - 1) <= m < 2 ^ Zdigits2 m.
Proof.
  destruct m as [|p|p]; try lia. intros _. apply digits2_pos_bounds.
Qed.

Lemma Zdigits2_pos (m : Z) : 0 < m -> 0 < Zdigits2 m.
Proof. destruct m; cbn; lia. Qed.

Lemma Zdigits2_le (m k : Z) : 0 < m -> 0 <= k -> m < 2 ^ k -> Zdigits2 m <= k.
Proof.
  intros Hm Hk Hlt. destruct (Zdigits2_bounds m Hm) as [Hlo _].
  destruct (Z_le_gt_dec (Zdigits2 m) k) as [|Hgt]; [assumption|].
  assert (2 ^ k <= 2 ^ (Zdigits2 m - 1)) by (apply Z.pow_le_mono_r; lia).
  lia.
Qed.

Lemma Zdigits2_ge (m k : Z) : 0 <= k -> 2 ^ k <= m -> k + 1 <= Zdigits2 m.
Proof.
  intros Hk Hle.
  assert (Hm : 0 < m) by (pose proof (Z.pow_pos_nonneg 2 k); lia).
  destruct (Zdigits2_bounds m Hm) as [_ Hhi].
  pose proof (Zdigits2_pos m Hm).
  destruct (Z_le_gt_dec (k + 1) (Zdigits2 m)) as [|Hgt]; [assumption|].
  assert (2 ^ Zdigits2 m <= 2 ^ k) by (apply Z.pow_le_mono_r; lia).
  lia.
Qed.

Lemma Zdigits2_mono (m n : Z) : 0 < m -> m <= n -> Zdigits2 m <= Zdigits2 n.
Proof.
  intros Hm Hle. pose proof (Zdigits2_pos m Hm).
  destruct (Zdigits2_bounds m Hm) as [Hlo _].
  pose proof (Zdigits2_ge n (Zdigits2 m - 1)). lia.
Qed.

Lemma shr_1_m (mrs : shr_record) :
  0 <= shr_m mrs -> shr_m (shr_1 mrs) = shr_m mrs / 2.
Proof.
  destruct mrs as [m r s]. cbn [shr_m]. intros Hm.
  destruct m as [|[p|p|]|p]; cbn [shr_1 shr_m]; try lia.
  - reflexivity.
  - apply Z.div_unique with (r := 1); lia.
  - apply Z.div_unique with (r := 0); lia.
  - reflexivity.
Qed.

Lemma iter_shr_m (p : positive) (mrs : shr_record) :
  0 <= shr_m mrs -> shr_m (iter_pos shr_1 p mrs) = shr_m mrs / 2 ^ Z.pos p.
Proof.
  revert mrs. induction p as [p IH | p IH |]; intros mrs Hm; cbn [iter_pos].
  - assert (H1 : 0 <= shr_m (shr_1 mrs))
      by (rewrite shr_1_m by assumption; apply Z.div_pos; lia).
    assert (H2 : 0 <= shr_m (iter_pos shr_1 p (shr_1 mrs)))
      by (rewrite IH by assumption; apply Z.div_pos; lia).
    rewrite IH by assumption. rewrite IH by assumption.
    rewrite shr_1_m by assumption.
    rewrite !Z.div_div by lia. f_equal.
    replace (Z.pos p~1) with (1 + Z.pos p + Z.pos p) by lia.
    rewrite !Z.pow_add_r by lia. ring.
  - assert (H2 : 0 <= shr_m (iter_pos shr_1 p mrs))
      by (rewrite IH by assumption; apply Z.div_pos; lia).
    rewrite IH by assumption. rewrite IH by assumption.
    rewrite !Z.div_div by lia. f_equal.
    replace (Z.pos p~0) with (Z.pos p + Z.pos p) by lia.
    rewrite !Z.pow_add_r by lia. ring.
  - rewrite shr_1_m by assumption. reflexivity.
Qed.

Lemma shr_m_of_loc (m : Z) (l : location) : shr_m (shr_record_of_loc m l) = m.
Proof. destruct l as [|[]]; reflexivity. Qed.

Lemma round_nearest_even_bounds (m : Z) (l : location) :
  m <= round_nearest_even m l <= m + 1.
Proof.
  destruct l as [|[]]; cbn [round_nearest_even]; try lia.
  destruct (IntDef.Z.even m); lia.
Qed.

Lemma round_nearest_even_exact (m : Z) : round_nearest_even m loc_Exact = m.
Proof. reflexivity. Qed.

Lemma fexp_eq (x : Z) : fexp prec emax x = Z.max (x - 53) (-1074).
Proof. reflexivity. Qed.

Lemma shr_fexp_spec (m e : Z) (l : location) :
  0 < m ->
  exists mrs e',
    shr_fexp prec emax m e l = (mrs, e') /\
    e <= e' /\ fexp prec emax (Zdigits2 m + e) <= e' /\
    0 <= shr_m mrs /\
    (-1074 <= e \/ -1074 <= Zdigits2 m + e - 53 -> 0 < shr_m mrs).
Proof.
  intros Hm. unfold shr_fexp, shr.
  pose proof (Zdigits2_bounds m Hm) as [Hlo Hhi].
  pose proof (Zdigits2_pos m Hm) as Hd.
  rewrite fexp_eq.
  destruct (Z.max (Zdigits2 m + e - 53) (-1074) - e) as [|p|p] eqn:Hn.
  - eexists _, _. split; [reflexivity|]. rewrite shr_m_of_loc. lia.
  - eexists _, _. split; [reflexivity|].
    rewrite iter_shr_m by (rewrite shr_m_of_loc; lia).
    rewrite shr_m_of_loc.
    split; [lia|]. split; [lia|]. split; [apply Z.div_pos; lia|].
    intros Hnormal. apply Z.div_str_pos. split; [lia|].
    apply Z.le_trans with (2 ^ (Zdigits2 m - 1)); [|assumption].
    apply Z.pow_le_mono_r; lia.
  - eexists _, _. split; [reflexivity|]. rewrite shr_m_of_loc. lia.
Qed.

Lemma binary_round_aux_lower (sx : bool) (mx ex : Z) (lx : location) :
  0 < mx -> -1074 <= Zdigits2 mx + ex - 53 ->
  binary_round_aux prec emax sx mx ex lx = S754_infinity sx \/
  exists m e,
    binary_round_aux prec emax sx mx ex lx = S754_finite sx m e /\
    Zdigits2 mx + ex - 53 <= e.
Proof.
  intros Hm Hnormal. unfold binary_round_aux.
  destruct (shr_fexp_spec mx ex lx Hm) as (mrs & e1 & -> & He1 & Hf1 & _ & Hp1).
  specialize (Hp1 (or_intror Hnormal)).
  pose proof (round_nearest_even_bounds (shr_m mrs) (loc_of_shr_record mrs))
    as Hr.
  set (m2 := round_nearest_even (shr_m mrs) (loc_of_shr_record mrs)) in *.
  assert (Hm2 : 0 < m2) by lia.
  rewrite fexp_eq in Hf1.
  destruct (shr_fexp_spec m2 e1 loc_Exact Hm2)
    as (mrs2 & e2 & -> & He2 & _ & _ & Hp2).
  assert (0 < shr_m mrs2) as Hpos by (apply Hp2; lia).
  destruct (shr_m mrs2) as [|m|m]; try lia.
  destruct (e2 <=? emax - prec); [right|left; reflexivity].
  eexists _, _. split; [reflexivity|]. lia.
Qed.

Lemma iter_xO_value (m d : positive) :
  Z.pos (Pos.iter xO m d) = Z.pos m * 2 ^ Z.pos d.
Proof.
  induction d as [|d IH] using Pos.peano_ind.
  - cbn. lia.
  - rewrite Pos.iter_succ, Pos2Z.inj_succ, Z.pow_succ_r by lia.
    rewrite Pos2Z.inj_xO, IH. ring.
Qed.

Lemma shl_align_spec (mx : positive) (ex ex' : Z) :
  exists mz ez,
    shl_align mx ex ex' = (mz, ez) /\
    Z.pos mz = Z.pos mx * 2 ^ (ex - ez) /\ ez = Z.min ex ex'.
Proof.
  unfold shl_align. destruct (ex' - ex) as [|d|d] eqn:Hd.
  - exists mx, ex. rewrite Z.sub_diag. cbn [Z.pow]. split; [reflexivity|lia].
  - exists mx, ex. rewrite Z.sub_diag. cbn [Z.pow]. split; [reflexivity|lia].
  - eexists _, _. split; [reflexivity|]. rewrite iter_xO_value.
    replace (ex - ex') with (Z.pos d) by lia. lia.
Qed.

Lemma Zdigits2_shift (m k : Z) :
  0 < m -> 0 <= k -> Zdigits2 (m * 2 ^ k) = Zdigits2 m + k.
Proof.
  intros Hm Hk.
  destruct (Zdigits2_bounds m Hm) as [Hlo Hhi].
  pose proof (Zdigits2_pos m Hm) as Hd.
  pose proof (Z.pow_pos_nonneg 2 k ltac:(lia) Hk) as Hp.
  apply Z.le_antisymm.
  - apply Zdigits2_le; [nia|lia|].
    rewrite Z.pow_add_r by lia. nia.
  - replace (Zdigits2 m + k) with (Zdigits2 m - 1 + k + 1) by lia.
    apply Zdigits2_ge; [lia|].
    rewrite Z.pow_add_r by lia. nia.
Qed.

Lemma SFadd_one_lower (y : spec_float) :
  SFleb (S754_zero false) y = true ->
  SFadd prec emax SFone y = S754_infinity false \/
  exists m e, SFadd prec emax SFone y = S754_finite false m e /\ -52 <= e.
Proof.
  destruct y as [s|[]| |[] my ey]; cbn [SFleb SFcompare]; try discriminate;
    intros _.
  - right. eexists _, _. split; [reflexivity|lia].
  - left. reflexivity.
  - unfold SFone. cbn [SFadd cond_Zopp].
    set (ez := IntDef.Z.min (-52) ey).
    destruct (shl_align_spec 4503599627370496 (-52) ez)
      as (a & ea & Ha & Hva & Hea).
    destruct (shl_align_spec my ey ez) as (b & eb & Hb & Hvb & Heb).
    rewrite Ha, Hb. cbn [fst Z.add binary_normalize].
    unfold binary_round.
    destruct (shl_align_spec (a + b) ez
                (fexp prec emax (Z.pos (digits2_pos (a + b)) + ez)))
      as (mz & ez' & -> & Hvz & Hez).
    assert (Hez_le : ez <= -52) by (subst ez; lia).
    assert (Hea' : ea = ez) by lia.
    assert (Hsum : 2 ^ (- ez) <= Z.pos (a + b)).
    { rewrite Pos2Z.inj_add, Hva, Hea'.
      change (Z.pos 4503599627370496) with (2 ^ 52).
      rewrite <- Z.pow_add_r by lia.
      replace (52 + (-52 - ez)) with (- ez) by lia. lia. }
    assert (Hdig : 1 - ez <= Zdigits2 (Z.pos (a + b))).
    { replace (1 - ez) with (- ez + 1) by lia. apply Zdigits2_ge; lia. }
    assert (Hmag : Zdigits2 (Z.pos mz) + ez' = Zdigits2 (Z.pos (a + b)) + ez).
    { rewrite Hvz, Zdigits2_shift by lia. lia. }
    destruct (binary_round_aux_lower false (Z.pos mz) ez' loc_Exact)
      as [Hinf | (m & e & Hfin & He)]; [lia|lia| |].
    + left. assumption.
    + right. exists m, e. split; [assumption|lia].
Qed.

Lemma shr_fexp_keep (m e : Z) (l : location) :
  0 <= m < 2 ^ 53 -> -1074 <= e ->
  shr_fexp prec emax m e l = (shr_record_of_loc m l, e).
Proof.
  intros Hm He. unfold shr_fexp, shr. rewrite fexp_eq.
  assert (Hd : Zdigits2 m <= 53).
  { destruct (Z.eq_dec m 0) as [->|]; [cbn; lia|].
    apply Zdigits2_le; lia. }
  destruct (Z.max (Zdigits2 m + e - 53) (-1074) - e) eqn:Hn;
    try reflexivity; lia.
Qed.

Lemma shr_fexp_carry (e : Z) :
  -1074 <= e ->
  shr_fexp prec emax (2 ^ 53) e loc_Exact =
  ({| shr_m := 2 ^ 52; shr_r := false; shr_s := false |}, e + 1).
Proof.
  intros He. unfold shr_fexp, shr. rewrite fexp_eq.
  change (Zdigits2 (2 ^ 53)) with 54.
  replace (Z.max (54 + e - 53) (-1074) - e) with 1 by lia.
  reflexivity.
Qed.

Lemma binary_round_aux_small (sx : bool) (mx ex : Z) (lx : location) :
  0 <= mx < 2 ^ 53 -> -1074 <= ex < 971 ->
  binary_round_aux prec emax sx mx ex lx = S754_zero sx \/
  (exists m, binary_round_aux prec emax sx mx ex lx = S754_finite sx m ex) \/
  binary_round_aux prec emax sx mx ex lx
  = S754_finite sx 4503599627370496 (ex + 1).
Proof.
  intros Hm He. unfold binary_round_aux.
  rewrite shr_fexp_keep by lia. rewrite shr_m_of_loc.
  pose proof (round_nearest_even_bounds mx
                (loc_of_shr_record (shr_record_of_loc mx lx))) as Hr.
  set (m2 := round_nearest_even mx _) in *.
  destruct (Z.eq_dec m2 (2 ^ 53)) as [->|Hne].
  - rewrite shr_fexp_carry by lia. cbn [shr_m].
    change (2 ^ 52) with (Z.pos 4503599627370496). cbv iota beta.
    replace (ex + 1 <=? emax - prec) with true
      by (symmetry; apply Z.leb_le; unfold emax, prec; lia).
    right. right. reflexivity.
  - rewrite shr_fexp_keep by lia. rewrite shr_m_of_loc.
    destruct m2 as [|m|m]; [left; reflexivity| |lia].
    replace (ex <=? emax - prec) with true
      by (symmetry; apply Z.leb_le; unfold emax, prec; lia).
    right. left. eexists. reflexivity.
Qed.

Lemma binary_round_aux_carry (sx : bool) (ex : Z) :
  -1074 <= ex < 971 ->
  binary_round_aux prec emax sx (2 ^ 53) ex loc_Exact
  = S754_finite sx 4503599627370496 (ex + 1).
Proof.
  intros He. unfold binary_round_aux.
  rewrite shr_fexp_carry by lia. cbn [shr_m loc_of_shr_record].
  rewrite round_nearest_even_exact.
  rewrite shr_fexp_keep by first [lia | split; [discriminate | reflexivity]].
  cbn [shr_m shr_record_of_loc].
  change (2 ^ 52) with (Z.pos 4503599627370496). cbv iota beta.
  replace (ex + 1 <=? emax - prec) with true
    by (symmetry; apply Z.leb_le; unfold emax, prec; lia).
  reflexivity.
Qed.

Lemma div_eucl_div_mod (a b : Z) : Z.div_eucl a b = (a / b, a mod b).
Proof. unfold Z.div, Z.modulo. destruct (Z.div_eucl a b). reflexivity. Qed.

Lemma SFdiv_core_binary_eq (m1 e1 m2 e2 : Z) :
  SFdiv_core_binary prec emax m1 e1 m2 e2 =
  let e' := Z.min (Z.max (Zdigits2 m1 + e1 - (Zdigits2 m2 + e2) - 53) (-1074))
                  (e1 - e2) in
  let s := e1 - e2 - e' in
  let m' := match s with
            | 0 => m1
            | Z.pos _ => Z.shiftl m1 s
            | Z.neg _ => 0
            end in
  (m' / m2, e', new_location m2 (m' mod m2)).
Proof.
  unfold SFdiv_core_binary. cbv zeta.
  match goal with |- context [IntDef.Z.div_eucl ?a ?b] =>
    change (IntDef.Z.div_eucl a b) with (Z.div_eucl a b);
    rewrite (div_eucl_div_mod a b) end.
  reflexivity.
Qed.

Lemma new_location_zero (n : Z) : new_location n 0 = loc_Exact.
Proof.
  unfold new_location, new_location_even, new_location_odd.
  destruct (IntDef.Z.even n); reflexivity.
Qed.

Lemma SFdiv_one_upper (my : positive) (ey : Z) :
  canonical_mantissa prec emax my ey = true -> -52 <= ey <= 971 ->
  SFdiv prec emax SFone (S754_finite false my ey) = S754_zero false \/
  exists m e,
    SFdiv prec emax SFone (S754_finite false my ey) = S754_finite false m e /\
    (e < -52 \/ e = -52 /\ m = 4503599627370496%positive).
Proof.
  intros Hcan Hey. unfold canonical_mantissa in Hcan.
  apply Z.eqb_eq in Hcan. rewrite fexp_eq in Hcan.
  assert (Hd : Zdigits2 (Z.pos my) = 53) by (cbn [Zdigits2]; lia).
  destruct (Zdigits2_bounds (Z.pos my) ltac:(lia)) as [Hlo Hhi].
  rewrite Hd in Hlo, Hhi. change (2 ^ (53 - 1)) with (2 ^ 52) in Hlo.
  unfold SFone. cbn [SFdiv xorb]. rewrite SFdiv_core_binary_eq. cbv zeta.
  rewrite Hd. change (Zdigits2 (Z.pos 4503599627370496)) with 53.
  set (e' := Z.min (Z.max (53 + -52 - (53 + ey) - 53) (-1074)) (-52 - ey)).
  assert (He' : e' = Z.max (-105 - ey) (-1074)) by (subst e'; lia).
  set (s := -52 - ey - e').
  assert (Hs : 51 <= s <= 53) by (subst s; lia).
  destruct s as [|ps|ps] eqn:Hps; try lia. rewrite <- Hps.
  rewrite Z.shiftl_mul_pow2 by lia.
  change (Z.pos 4503599627370496) with (2 ^ 52).
  rewrite <- Z.pow_add_r by lia.
  set (m' := 2 ^ (52 + s)).
  assert (Hm' : 0 < m') by (apply Z.pow_pos_nonneg; lia).
  pose proof (Z.div_mod m' (Z.pos my) ltac:(lia)) as Hdm.
  pose proof (Z.mod_pos_bound m' (Z.pos my) ltac:(lia)) as Hr.
  pose proof (Z.div_pos m' (Z.pos my) ltac:(lia) ltac:(lia)) as Hq0.
  set (q := m' / Z.pos my) in *. set (r := m' mod Z.pos my) in *.
  assert (Hpow : m' = 2 ^ 52 * 2 ^ s) by (subst m'; apply Z.pow_add_r; lia).
  assert (Hps53 : 2 ^ s <= 2 ^ 53) by (apply Z.pow_le_mono_r; lia).
  assert (Hspos : 0 < 2 ^ s) by (apply Z.pow_pos_nonneg; lia).
  assert (Hq : q <= 2 ^ s) by nia.
  destruct (Z.eq_dec q (2 ^ 53)) as [Hq53|Hq53].
  - assert (Hs53 : 2 ^ s = 2 ^ 53) by lia.
    assert (Hmy : Z.pos my = 2 ^ 52) by nia.
    assert (Hr0 : r = 0) by nia.
    rewrite Hr0, new_location_zero, Hq53.
    assert (s = 53).
    { destruct (Z.eq_dec s 53) as [|Hne]; [assumption|].
      assert (2 ^ s <= 2 ^ 52) by (apply Z.pow_le_mono_r; lia).
      change (2 ^ 53) with 9007199254740992 in Hs53.
      change (2 ^ 52) with 4503599627370496 in *. lia. }
    rewrite binary_round_aux_carry by lia.
    right. eexists _, _. split; [reflexivity|]. lia.
  - destruct (binary_round_aux_small false q e'
                (new_location (Z.pos my) r))
      as [Hz | [(m & Hf) | Hc]]; [lia|lia| | |].
    + left. assumption.
    + right. eexists _, _. split; [exact Hf|]. lia.
    + right. eexists _, _. split; [exact Hc|]. lia.
Qed.

Lemma SFleb_one (m : positive) (e : Z) :
  e < -52 \/ e = -52 /\ m = 4503599627370496%positive ->
  SFleb (S754_finite false m e) SFone = true.
Proof.
  unfold SFleb, SFone, SFcompare.
  intros [Hlt | [-> ->]].
  - destruct (Z.compare_spec e (-52)); lia || reflexivity.
  - reflexivity.
Qed.

Lemma sigmoid_formula_range (e : float) :
  (0 <=? e)%float = true ->
  ((0 <=? 1 / (1 + e)) && (1 / (1 + e) <=? 1))%float = true.
Proof.
  intros He. rewrite FloatAxioms.leb_spec in He.
  change (Prim2SF 0) with (S754_zero false) in He.
  rewrite !FloatAxioms.leb_spec, FloatAxioms.div_spec.
  pose proof (Prim2SF_valid (1 + e)) as Hvalid.
  rewrite FloatAxioms.add_spec in *.
  change (Prim2SF 1) with SFone in *.
  change (Prim2SF 0) with (S754_zero false).
  unfold SF64div, SF64add in *.
  destruct (SFadd_one_lower (Prim2SF e) He) as [-> | (m & ey & Hsum & Hey)].
  - reflexivity.
  - rewrite Hsum in *. cbn [SpecFloat.valid_binary] in Hvalid. unfold bounded in Hvalid.
    apply andb_prop in Hvalid. destruct Hvalid as [Hcan Hmax].
    apply Z.leb_le in Hmax. unfold emax, prec in Hmax.
    destruct (SFdiv_one_upper m ey Hcan ltac:(lia))
      as [-> | (m' & e' & -> & Hle)].
    + reflexivity.
    + rewrite (SFleb_one m' e' Hle). reflexivity.
Qed.

(** * The conversion of [population_size * elitism_rate] to [int] *)

Lemma shr_fexp_shift (m e : Z) (l : location) :
  0 <= m ->
  exists mrs,
    shr_fexp prec emax m e l
    = (mrs, Z.max e (fexp prec emax (Zdigits2 m + e))) /\
    shr_m mrs = m / 2 ^ (Z.max e (fexp prec emax (Zdigits2 m + e)) - e).
Proof.
  intros Hm. unfold shr_fexp, shr.
  set (F := fexp prec emax (Zdigits2 m + e)).
  destruct (F - e) as [|p|p] eqn:Hn.
  - exists (shr_record_of_loc m l).
    replace (Z.max e F) with e by lia.
    rewrite shr_m_of_loc, Z.sub_diag, Z.div_1_r. split; reflexivity.
  - exists (iter_pos shr_1 p (shr_record_of_loc m l)).
    replace (Z.max e F) with (e + Z.pos p) by lia.
    rewrite iter_shr_m by (rewrite shr_m_of_loc; exact Hm).
    rewrite shr_m_of_loc.
    replace (e + Z.pos p - e) with (Z.pos p) by lia. split; reflexivity.
  - exists (shr_record_of_loc m l).
    replace (Z.max e F) with e by lia.
    rewrite shr_m_of_loc, Z.sub_diag, Z.div_1_r. split; reflexivity.
Qed.

Lemma shr_fexp_shift_bound (m e : Z) :
  0 <= m ->
  m / 2 ^ (Z.max e (fexp prec emax (Zdigits2 m + e)) - e) < 2 ^ 53.
Proof.
  intros Hm. rewrite fexp_eq.
  set (n := Z.max e (Z.max (Zdigits2 m + e - 53) (-1074)) - e).
  assert (Hn : 0 <= n) by lia.
  pose proof (Z.pow_pos_nonneg 2 n ltac:(lia) Hn) as Hp.
  destruct (Z.eq_dec m 0) as [->|Hne].
  - rewrite Z.div_0_l by lia. reflexivity.
  - apply Z.div_lt_upper_bound; [exact Hp|].
    destruct (Zdigits2_bounds m ltac:(lia)) as [_ Hhi].
    pose proof (Zdigits2_pos m ltac:(lia)) as Hd.
    rewrite <- Z.pow_add_r by lia.
    apply Z.lt_le_trans with (1 := Hhi).
    apply Z.pow_le_mono_r; lia.
Qed.

(** The second half of [binary_round_aux]: a mantissa of at most 2^53 is
    kept, or halved exactly when it is 2^53. *)
Lemma round_finish (sx : bool) (m2 e1 : Z) :
  0 <= m2 <= 2 ^ 53 -> -1074 <= e1 < 971 ->
  exists mrs e2,
    shr_fexp prec emax m2 e1 loc_Exact = (mrs, e2) /\
    0 <= shr_m mrs /\ e1 <= e2 <= e1 + 1 /\ (e2 <=? emax - prec) = true /\
    shr_m mrs * 2 ^ (e2 - e1) = m2.
Proof.
  intros Hm He.
  destruct (Z.eq_dec m2 (2 ^ 53)) as [->|Hne].
  - rewrite shr_fexp_carry by lia. eexists _, _. split; [reflexivity|].
    cbn [shr_m]. split; [discriminate|]. split; [lia|].
    split; [apply Z.leb_le; unfold emax, prec; lia|].
    replace (e1 + 1 - e1) with 1 by lia. reflexivity.
  - rewrite shr_fexp_keep by lia. eexists _, _. split; [reflexivity|].
    cbn [shr_m shr_record_of_loc]. split; [lia|]. split; [lia|].
    split; [apply Z.leb_le; unfold emax, prec; lia|].
    rewrite Z.sub_diag. cbn [Z.pow]. lia.
Qed.

(** Rounding exceeds the exact value by less than one unit of the exponent
    the mantissa is first shifted to. *)
Lemma binary_round_aux_upper (sx : bool) (mx ex : Z) (lx : location) :
  0 <= mx ->
  Z.max ex (fexp prec emax (Zdigits2 mx + ex)) < 971 ->
  binary_round_aux prec emax sx mx ex lx = S754_zero sx \/
  exists m e,
    binary_round_aux prec emax sx mx ex lx = S754_finite sx m e /\
    ex <= e <= Z.max ex (fexp prec emax (Zdigits2 mx + ex)) + 1 /\
    Z.pos m * 2 ^ (e - ex)
    <= mx + 2 ^ (Z.max ex (fexp prec emax (Zdigits2 mx + ex)) - ex).
Proof.
  intros Hm He. unfold binary_round_aux.
  destruct (shr_fexp_shift mx ex lx Hm) as (mrs & -> & Hm1).
  pose proof (shr_fexp_shift_bound mx ex Hm) as Hlt.
  set (e1 := Z.max ex (fexp prec emax (Zdigits2 mx + ex))) in *.
  assert (He1 : -1074 <= e1 /\ ex <= e1)
    by (subst e1; rewrite fexp_eq; lia).
  pose proof (Z.pow_pos_nonneg 2 (e1 - ex) ltac:(lia) ltac:(lia)) as Hp.
  assert (Hm1pos : 0 <= shr_m mrs) by (rewrite Hm1; apply Z.div_pos; lia).
  pose proof (round_nearest_even_bounds (shr_m mrs) (loc_of_shr_record mrs))
    as Hr.
  set (m2 := round_nearest_even (shr_m mrs) (loc_of_shr_record mrs)) in *.
  destruct (round_finish sx m2 e1 ltac:(lia) ltac:(lia))
    as (mrs2 & e2 & -> & Hpos2 & He2 & Hmax & Hval).
  destruct (shr_m mrs2) as [|m|m] eqn:Hm2; [left; reflexivity| |lia].
  rewrite Hmax. right. exists m, e2. split; [reflexivity|]. split; [lia|].
  replace (e2 - ex) with ((e2 - e1) + (e1 - ex)) by lia.
  rewrite Z.pow_add_r, Z.mul_assoc, Hval by lia.
  pose proof (Z.mul_div_le mx (2 ^ (e1 - ex)) Hp) as Hdiv.
  rewrite <- Hm1 in Hdiv. nia.
Qed.

(** A positive finite double whose mantissa is within the precision rounds
    to itself. *)
Lemma binary_round_aux_exact (sx : bool) (m : positive) (e : Z) :
  Z.pos m < 2 ^ 53 -> -1074 <= e <= 971 ->
  binary_round_aux prec emax sx (Z.pos m) e loc_Exact = S754_finite sx m e.
Proof.
  intros Hm He. unfold binary_round_aux.
  rewrite shr_fexp_keep by lia.
  cbn [shr_m shr_record_of_loc loc_of_shr_record round_nearest_even].
  rewrite shr_fexp_keep by lia. cbn [shr_m shr_record_of_loc].
  replace (e <=? emax - prec) with true
    by (symmetry; apply Z.leb_le; unfold emax, prec; lia).
  reflexivity.
Qed.

(** The conversion of a positive [int] to [double] is exact. *)
Lemma of_int_exact (n : Z) :
  0 < n < 2 ^ 53 ->
  exists m e,
    Prim2SF (Double.of_int n) = S754_finite false m e /\
    e <= 0 /\ Z.pos m = n * 2 ^ (- e).
Proof.
  intros Hn. unfold Double.of_int.
  destruct (Z.ltb_spec n 0) as [Hlt|_]; [lia|].
  rewrite of_uint63_spec, Uint63.of_Z_spec.
  rewrite Z.mod_small
    by (split; [lia|]; apply Z.lt_trans with (2 ^ 53); [lia|reflexivity]).
  destruct n as [|p|p]; try lia. cbn [binary_normalize]. unfold binary_round.
  destruct (shl_align_spec p 0 (fexp prec emax (Z.pos (digits2_pos p) + 0)))
    as (mz & ez & -> & Hv & Hez).
  rewrite fexp_eq in Hez.
  pose proof (Zdigits2_pos (Z.pos p) ltac:(lia)) as Hd.
  pose proof (Zdigits2_le (Z.pos p) 53 ltac:(lia) ltac:(lia) ltac:(lia))
    as Hd53.
  cbn [Zdigits2] in Hd, Hd53.
  assert (Hez' : ez = Z.pos (digits2_pos p) - 53) by lia.
  assert (Hdz : Zdigits2 (Z.pos mz) = 53).
  { rewrite Hv, Zdigits2_shift by lia. cbn [Zdigits2]. lia. }
  destruct (Zdigits2_bounds (Z.pos mz) ltac:(lia)) as [_ Hhi].
  rewrite Hdz in Hhi.
  rewrite binary_round_aux_exact by lia.
  exists mz, ez. split; [reflexivity|]. split; [lia|].
  rewrite Hv. replace (0 - ez) with (- ez) by lia. reflexivity.
Qed.

Lemma SFleb_finite_inv (m p : positive) (e q : Z) :
  SFleb (S754_finite false m e) (S754_finite false p q) = true ->
  e < q \/ e = q /\ Z.pos m <= Z.pos p.
Proof.
  unfold SFleb, SFcompare.
  destruct (Z.compare_spec e q) as [He|He|He].
  - intros H. right. split; [exact He|].
    change (PosDef.Pos.compare_cont Eq m p <> Gt).
    destruct (PosDef.Pos.compare_cont Eq m p); discriminate H || discriminate.
  - intros _. left. exact He.
  - discriminate.
Qed.

Lemma SFleb_one_inv (m : positive) (e : Z) :
  SFleb (S754_finite false m e) SFone = true ->
  e < -52 \/ e = -52 /\ Z.pos m <= 2 ^ 52.
Proof. exact (SFleb_finite_inv m 4503599627370496 e (-52)). Qed.

(** A double in [[0, 1]] is a zero or a positive mantissa of at most
    [2 ^ - e] at its exponent [e]. *)
Lemma unit_interval_mantissa (x : float) :
  Double.in_closed 0 1 x = true ->
  (exists s, Prim2SF x = S754_zero s) \/
  exists m e,
    Prim2SF x = S754_finite false m e /\ e <= -52 /\ Z.pos m <= 2 ^ (- e).
Proof.
  unfold Double.in_closed. intros H. apply andb_prop in H.
  destruct H as [H0 H1]. rewrite FloatAxioms.leb_spec in H0, H1.
  change (Prim2SF 0) with (S754_zero false) in H0.
  change (Prim2SF 1) with SFone in H1.
  pose proof (Prim2SF_valid x) as Hv.
  destruct (Prim2SF x) as [s|s| |s m e]; try discriminate.
  - left. exists s. reflexivity.
  - destruct s; discriminate.
  - destruct s; [discriminate|]. right. exists m, e.
    split; [reflexivity|].
    destruct (SFleb_one_inv m e H1) as [He | [-> Hm]].
    + split; [lia|].
      cbn [SpecFloat.valid_binary] in Hv. unfold bounded in Hv.
      apply andb_prop in Hv. destruct Hv as [Hcan _].
      unfold canonical_mantissa in Hcan. apply Z.eqb_eq in Hcan.
      rewrite fexp_eq in Hcan.
      destruct (Zdigits2_bounds (Z.pos m) ltac:(lia)) as [_ Hhi].
      cbn [Zdigits2] in Hhi.
      apply Z.lt_le_incl, Z.lt_le_trans with (1 := Hhi).
      apply Z.pow_le_mono_r; lia.
    + split; [lia|exact Hm].
Qed.

(** The number of elites converts to an [int] between 0 and the
    population size. *)
Lemma elites_cast (n : Z) (rate : float) :
  0 <= n <= INT_MAX -> Double.in_closed 0 1 rate = true ->
  exists k,
    Double.to_int (Double.of_int n * rate) = Some k /\ 0 <= k <= n.
Proof.
  intros Hn Hrate. unfold Double.to_int. rewrite FloatAxioms.mul_spec.
  unfold SF64mul.
  assert (Hzero : forall s, exists k,
            match Double.truncate (S754_zero s) with
            | Some z => if in_int z then Some z else None
            | None => None
            end = Some k /\ 0 <= k <= n).
  { intros s. exists 0. split; [reflexivity|lia]. }
  destruct (Z.eq_dec n 0) as [->|Hne].
  - change (Prim2SF (Double.of_int 0)) with (S754_zero false).
    destruct (unit_interval_mantissa rate Hrate)
      as [[s ->] | (m & e & -> & _)]; apply Hzero.
  - unfold INT_MAX in Hn.
    destruct (of_int_exact n) as (mn & en & -> & Hen & Hmn).
    { split; [lia|]. apply Z.le_lt_trans with (2 ^ 31 - 1); [lia|reflexivity]. }
    destruct (unit_interval_mantissa rate Hrate)
      as [[s ->] | (mr & er & -> & Her & Hmr)]; [apply Hzero|].
    cbn [SFmul xorb].
    set (ex := en + er).
    assert (Hpn : 0 < 2 ^ (- en)) by (apply Z.pow_pos_nonneg; lia).
    assert (Hpr : 0 < 2 ^ (- er)) by (apply Z.pow_pos_nonneg; lia).
    assert (Hpx : 2 ^ (- ex) = 2 ^ (- en) * 2 ^ (- er)).
    { subst ex. rewrite <- Z.pow_add_r by lia. f_equal. lia. }
    assert (Hmx : Z.pos (mn * mr) <= n * 2 ^ (- ex)).
    { rewrite Pos2Z.inj_mul, Hmn, Hpx. nia. }
    assert (Hdig : Zdigits2 (Z.pos (mn * mr)) + ex <= 31).
    { assert (Zdigits2 (Z.pos (mn * mr)) <= 31 - ex); [|lia].
      apply Zdigits2_le; [lia|lia|].
      replace (31 - ex) with (31 + - ex) by lia.
      rewrite Z.pow_add_r by lia. change (2 ^ 31) with 2147483648.
      assert (0 < 2 ^ (- ex)) by (apply Z.pow_pos_nonneg; lia). nia. }
    set (e1 := Z.max ex (fexp prec emax (Zdigits2 (Z.pos (mn * mr)) + ex))).
    assert (He1 : ex <= e1 <= -22)
      by (subst e1 ex; rewrite fexp_eq; lia).
    destruct (binary_round_aux_upper false (Z.pos (mn * mr)) ex loc_Exact)
      as [-> | (m & e & -> & He & Hval)]; [lia|fold e1; lia|apply Hzero|].
    fold e1 in He, Hval. cbn [Double.truncate].
    destruct (Z.leb_spec 0 e) as [Hpos|_]; [lia|].
    assert (Hpe : 0 < 2 ^ (- e)) by (apply Z.pow_pos_nonneg; lia).
    assert (Hk : 0 <= Z.pos m / 2 ^ (- e) <= n).
    { split; [apply Z.div_pos; lia|].
      apply Z.lt_succ_r, Z.div_lt_upper_bound; [exact Hpe|].
      assert (Hp : 0 < 2 ^ (e - ex)) by (apply Z.pow_pos_nonneg; lia).
      assert (Hsplit : 2 ^ (- ex) = 2 ^ (- e) * 2 ^ (e - ex)).
      { rewrite <- Z.pow_add_r by lia. f_equal. lia. }
      assert (Hulp : 2 ^ (e1 - ex) < 2 ^ (- ex))
        by (apply Z.pow_lt_mono_r; lia).
      nia. }
    exists (Z.pos m / 2 ^ (- e)). split; [|exact Hk].
    unfold in_int, INT_MIN, INT_MAX.
    destruct (Z.leb_spec (- 2 ^ 31) (Z.pos m / 2 ^ (- e))); [|lia].
    destruct (Z.leb_spec (Z.pos m / 2 ^ (- e)) (2 ^ 31 - 1)); [|lia].
    reflexivity.
Qed.

(** * Quotients, differences and signs of doubles *)

Lemma SFleb_finite_intro (m p : positive) (e q : Z) :
  e < q \/ e = q /\ Z.pos m <= Z.pos p ->
  SFleb (S754_finite false m e) (S754_finite false p q) = true.
Proof.
  unfold SFleb, SFcompare. intros [Hlt | [-> Hle]].
  - destruct (Z.compare_spec e q); lia || reflexivity.
  - rewrite Z.compare_refl.
    change (Z.pos m <= Z.pos p) with (PosDef.Pos.compare_cont Eq m p <> Gt)
      in Hle.
    destruct (PosDef.Pos.compare_cont Eq m p); reflexivity || congruence.
Qed.

(** The quotient of a positive finite double by a larger one is at most
    1: the integer quotient stays below [2 ^ - e'] at the exponent [e']
    the division works at, and rounding adds less than one unit. *)
Lemma SFdiv_lt_one (mx my : positive) (ex ey : Z) :
  Z.pos mx * 2 ^ (ex - Z.min ex ey) < Z.pos my * 2 ^ (ey - Z.min ex ey) ->
  SFdiv prec emax (S754_finite false mx ex) (S754_finite false my ey)
  = S754_zero false \/
  exists m e,
    SFdiv prec emax (S754_finite false mx ex) (S754_finite false my ey)
    = S754_finite false m e /\
    (e < -52 \/ e = -52 /\ Z.pos m <= 2 ^ 52).
Proof.
  intros Hlt. cbn [SFdiv xorb]. rewrite SFdiv_core_binary_eq. cbv zeta.
  set (a := ex - Z.min ex ey) in *. set (b := ey - Z.min ex ey) in *.
  assert (Ha : 0 <= a) by (subst a; lia).
  assert (Hb : 0 <= b) by (subst b; lia).
  assert (Hpa : 0 < 2 ^ a) by (apply Z.pow_pos_nonneg; lia).
  assert (Hpb : 0 < 2 ^ b) by (apply Z.pow_pos_nonneg; lia).
  assert (Hmag : Zdigits2 (Z.pos mx) + ex <= Zdigits2 (Z.pos my) + ey).
  { pose proof (Zdigits2_mono (Z.pos mx * 2 ^ a) (Z.pos my * 2 ^ b)
                  ltac:(nia) ltac:(lia)) as H.
    rewrite !Zdigits2_shift in H by lia. subst a b. lia. }
  set (e' := Z.min (Z.max (Zdigits2 (Z.pos mx) + ex
                           - (Zdigits2 (Z.pos my) + ey) - 53) (-1074))
                   (ex - ey)).
  assert (He' : -1074 <= e' <= -53 \/ e' = ex - ey /\ e' <= -53)
    by (subst e'; lia).
  assert (He'53 : e' <= -53) by lia.
  set (s := ex - ey - e').
  assert (Hs : 0 <= s) by (subst s e'; lia).
  set (m' := match s with
             | 0 => Z.pos mx
             | Z.pos _ => Z.shiftl (Z.pos mx) s
             | Z.neg _ => 0
             end).
  assert (Hm' : m' = Z.pos mx * 2 ^ s).
  { subst m'. destruct s as [|p|p] eqn:Hsp; [cbn; lia| |lia].
    rewrite Z.shiftl_mul_pow2 by lia. reflexivity. }
  assert (Hps : 0 < 2 ^ s) by (apply Z.pow_pos_nonneg; lia).
  pose proof (Z.div_mod m' (Z.pos my) ltac:(lia)) as Hdm.
  pose proof (Z.mod_pos_bound m' (Z.pos my) ltac:(lia)) as Hr.
  pose proof (Z.div_pos m' (Z.pos my) ltac:(nia) ltac:(lia)) as Hq0.
  set (q := m' / Z.pos my) in *. set (r := m' mod Z.pos my) in *.
  assert (Hpe : 0 < 2 ^ (- e')) by (apply Z.pow_pos_nonneg; lia).
  assert (Hq : q < 2 ^ (- e')).
  { assert (Hsb : 2 ^ s * 2 ^ b = 2 ^ a * 2 ^ (- e')).
    { rewrite <- !Z.pow_add_r by lia. f_equal. subst s a b. lia. }
    assert (Hle : Z.pos my * q <= Z.pos mx * 2 ^ s) by lia.
    assert (H1 : Z.pos my * q * 2 ^ b <= Z.pos mx * 2 ^ a * 2 ^ (- e')).
    { replace (Z.pos mx * 2 ^ a * 2 ^ (- e'))
        with (Z.pos mx * 2 ^ s * 2 ^ b)
        by (rewrite <- !Z.mul_assoc, Hsb; reflexivity).
      apply Z.mul_le_mono_nonneg_r; lia. }
    assert (H2 : Z.pos mx * 2 ^ a * 2 ^ (- e')
                 < Z.pos my * 2 ^ b * 2 ^ (- e'))
      by (apply Z.mul_lt_mono_pos_r; lia).
    assert (H3 : (Z.pos my * 2 ^ b) * q < (Z.pos my * 2 ^ b) * 2 ^ (- e'))
      by lia.
    apply Z.mul_lt_mono_pos_l in H3; [exact H3 | nia]. }
  set (E1 := Z.max e' (fexp prec emax (Zdigits2 q + e'))).
  assert (HE1 : e' <= E1 <= -53).
  { subst E1. rewrite fexp_eq.
    destruct (Z.eq_dec q 0) as [->|Hq1]; [cbn [Zdigits2]; lia|].
    pose proof (Zdigits2_le q (- e') ltac:(lia) ltac:(lia) Hq). lia. }
  destruct (binary_round_aux_upper false q e' (new_location (Z.pos my) r))
    as [-> | (m & e & -> & He & Hval)]; [lia | fold E1; lia | left; reflexivity|].
  fold E1 in He, Hval. right. exists m, e. split; [reflexivity|].
  destruct (Z_lt_dec e (-52)) as [|Hge]; [left; assumption|right].
  assert (e = -52) by lia. subst e. split; [reflexivity|].
  assert (HE1' : E1 = -53) by lia.
  rewrite HE1' in Hval.
  set (P := 2 ^ (-53 - e')) in *.
  assert (HP : 0 < P) by (apply Z.pow_pos_nonneg; lia).
  assert (H2P : 2 ^ (-52 - e') = 2 * P).
  { subst P. replace (-52 - e') with (1 + (-53 - e')) by lia.
    rewrite Z.pow_add_r by lia. reflexivity. }
  assert (H53P : 2 ^ (- e') = 2 ^ 53 * P).
  { subst P. rewrite <- Z.pow_add_r by lia. f_equal. lia. }
  rewrite H2P in Hval. rewrite H53P in Hq.
  change (2 ^ 53) with 9007199254740992 in Hq.
  change (2 ^ 52) with 4503599627370496. nia.
Qed.

(** A finite double that is not zero, divided by itself, is exactly 1. *)
Lemma SFdiv_self (s : bool) (m : positive) (e : Z) :
  SFdiv prec emax (S754_finite s m e) (S754_finite s m e) = SFone.
Proof.
  cbn [SFdiv]. rewrite SFdiv_core_binary_eq. cbv zeta.
  replace (Z.min (Z.max (Zdigits2 (Z.pos m) + e - (Zdigits2 (Z.pos m) + e) - 53)
                    (-1074)) (e - e)) with (-53) by lia.
  replace (e - e - -53) with 53 by lia.
  rewrite Z.shiftl_mul_pow2 by lia.
  rewrite (Z.mul_comm (Z.pos m)), Z.div_mul, Z.mod_mul by lia.
  rewrite new_location_zero.
  rewrite binary_round_aux_carry by lia.
  destruct s; reflexivity.
Qed.

(** A ratio of two [int]s, the first between 0 and the second, is a double
    in [[0, 1]]. *)
Lemma int_ratio_in_unit (c n : Z) :
  0 <= c <= n -> 0 < n < 2 ^ 53 ->
  Double.in_closed 0 1 (Double.of_int c / Double.of_int n) = true.
Proof.
  intros Hc Hn. unfold Double.in_closed.
  rewrite !FloatAxioms.leb_spec, FloatAxioms.div_spec. unfold SF64div.
  change (Prim2SF 0) with (S754_zero false).
  change (Prim2SF 1) with SFone.
  destruct (of_int_exact n Hn) as (mn & en & Hpn & Hen & Hmn).
  destruct (Z.eq_dec c 0) as [->|Hc0].
  - change (Prim2SF (Double.of_int 0)) with (S754_zero false).
    rewrite Hpn. reflexivity.
  - destruct (Z.eq_dec c n) as [->|Hcn].
    + rewrite Hpn, SFdiv_self. reflexivity.
    + destruct (of_int_exact c ltac:(lia)) as (mc & ec & Hpc & Hec & Hmc).
      rewrite Hpc, Hpn.
      destruct (SFdiv_lt_one mc mn ec en) as [-> | (m & e & -> & Hle)].
      * rewrite Hmc, Hmn, <- !Z.mul_assoc, <- !Z.pow_add_r by lia.
        replace (- ec + (ec - Z.min ec en)) with (- Z.min ec en) by lia.
        replace (- en + (en - Z.min ec en)) with (- Z.min ec en) by lia.
        apply Z.mul_lt_mono_pos_r; [apply Z.pow_pos_nonneg|]; lia.
      * reflexivity.
      * unfold SFone. rewrite SFleb_finite_intro; [reflexivity|].
        change (Z.pos 4503599627370496) with (2 ^ 52). exact Hle.
Qed.

(** ** Signs *)

Lemma binary_normalize_sign (m e : Z) (szero : bool) :
  0 <= m -> nonneg_sf (binary_normalize prec emax m e szero).
Proof.
  intros Hm. destruct m as [|p|p]; cbn [binary_normalize]; [exact I| |lia].
  unfold binary_round.
  destruct (shl_align p e _) as [mz ez].
  pose proof (binary_round_aux_sign false (Z.pos mz) ez loc_Exact) as Hs.
  destruct (binary_round_aux prec emax false (Z.pos mz) ez loc_Exact);
    simpl; auto.
Qed.

Lemma add_nonneg (x y : float) :
  nonneg_sf (Prim2SF x) -> nonneg_sf (Prim2SF y) ->
  nonneg_sf (Prim2SF (x + y)).
Proof.
  rewrite FloatAxioms.add_spec. unfold SF64add.
  destruct (Prim2SF x) as [sx|sx| |sx mx ex];
    destruct (Prim2SF y) as [sy|sy| |sy my ey]; cbn [SFadd nonneg_sf]; auto;
    intros Hx Hy; subst; cbn [nonneg_sf]; auto.
  - destruct sx, sy; exact I.
  - cbn [cond_Zopp]. apply binary_normalize_sign. lia.
Qed.

Lemma div_nonneg (x y : float) (my : positive) (ey : Z) :
  nonneg_sf (Prim2SF x) -> Prim2SF y = S754_finite false my ey ->
  nonneg_sf (Prim2SF (x / y)).
Proof.
  rewrite FloatAxioms.div_spec. unfold SF64div. intros Hx ->.
  destruct (Prim2SF x) as [sx|sx| |sx mx ex]; cbn [SFdiv nonneg_sf] in *;
    auto; subst; cbn [nonneg_sf xorb]; auto.
  destruct (SFdiv_core_binary prec emax (Z.pos mx) ex (Z.pos my) ey)
    as [[mz ez] lz].
  pose proof (binary_round_aux_sign false mz ez lz) as Hs.
  destruct (binary_round_aux prec emax false mz ez lz); simpl; auto.
Qed.

Lemma square_nonneg (d : float) : nonneg_sf (Prim2SF (d * d)).
Proof.
  rewrite FloatAxioms.mul_spec. unfold SF64mul.
  destruct (Prim2SF d) as [s|s| |s m e]; cbn [SFmul nonneg_sf]; auto.
  - destruct s; reflexivity.
  - pose proof (binary_round_aux_sign (xorb s s) (Z.pos (m * m)) (e + e)
                  loc_Exact) as Hs.
    destruct (binary_round_aux prec emax (xorb s s) (Z.pos (m * m)) (e + e)
                loc_Exact); simpl; auto; destruct s; exact Hs.
Qed.

Lemma sqrt_nonneg (x : float) : nonneg_sf (Prim2SF (PrimFloat.sqrt x)).
Proof.
  rewrite FloatAxioms.sqrt_spec. unfold SF64sqrt.
  destruct (Prim2SF x) as [s|[]| |[] m e]; cbn [SFsqrt nonneg_sf]; auto.
  destruct (SFsqrt_core_binary prec emax (Z.pos m) e) as [[mz ez] lz].
  pose proof (binary_round_aux_sign false mz ez lz) as Hs.
  destruct (binary_round_aux prec emax false mz ez lz); simpl; auto.
Qed.

Lemma nonneg_not_negative (x : float) :
  nonneg_sf (Prim2SF x) -> (x <? 0)%float = false.
Proof.
  rewrite FloatAxioms.ltb_spec. change (Prim2SF 0) with (S754_zero false).
  destruct (Prim2SF x) as [s|s| |s m e]; cbn [nonneg_sf]; intros H;
    subst; reflexivity.
Qed.

(** A finite double minus itself is [+0]. *)
Lemma sub_self (x : float) :
  Double.is_finite x = true -> (x - x)%float = 0%float.
Proof.
  unfold Double.is_finite. intros Hx. apply Prim2SF_inj.
  rewrite FloatAxioms.sub_spec. unfold SF64sub.
  change (Prim2SF 0) with (S754_zero false).
  destruct (Prim2SF x) as [s|s| |s m e]; try discriminate.
  - destruct s; reflexivity.
  - cbn [SFsub]. rewrite Z.sub_diag. reflexivity.
Qed.

(** * Equality of doubles *)

Lemma SFeqb_of_leb_not_ltb x y :
  SFleb x y = true -> SFltb x y = false -> SFeqb x y = true.
Proof.
  unfold SFeqb, SFleb, SFltb, SFcompare.
  sf_destruct x; sf_destruct y; try discriminate; try reflexivity;
    intros; sf_cases.
Qed.

Lemma SFeqb_sym x y : SFeqb x y = SFeqb y x.
Proof.
  unfold SFeqb, SFcompare.
  sf_destruct x; sf_destruct y; try reflexivity; sf_cases.
Qed.

Lemma SFeqb_refl_of_leb x y : SFleb x y = true -> SFeqb x x = true.
Proof.
  unfold SFeqb, SFleb, SFcompare.
  sf_destruct x; sf_destruct y; try discriminate; try reflexivity;
    intros; sf_cases.
Qed.

Lemma double_eqb_of_leb_not_ltb (x y : float) :
  (x <=? y)%float = true -> (x <? y)%float = false -> (x =? y)%float = true.
Proof.
  rewrite FloatAxioms.leb_spec, FloatAxioms.ltb_spec, FloatAxioms.eqb_spec.
  apply SFeqb_of_leb_not_ltb.
Qed.

Lemma double_eqb_sym (x y : float) : (x =? y)%float = (y =? x)%float.
Proof. rewrite !FloatAxioms.eqb_spec. apply SFeqb_sym. Qed.

Lemma double_eqb_refl_of_leb (x y : float) :
  (x <=? y)%float = true -> (x =? x)%float = true.
Proof.
  rewrite FloatAxioms.leb_spec, FloatAxioms.eqb_spec.
  apply SFeqb_refl_of_leb.
Qed.
(** * The network: shapes and the chromosome codec *)

Lemma bind_ok {A B : Type} (r : result A) (k : A -> result B) (b : B) :
  bind r k = Ok b -> exists a, r = Ok a /\ k a = Ok b.
Proof. destruct r as [a|e]; simpl; [eauto | discriminate]. Qed.

Lemma vec_at_app_here {A : Type} (pre post : list A) (x : A) :
  vec_at (pre ++ x :: post) (length pre) = Ok x.
Proof.
  unfold vec_at. rewrite nth_error_app2 by lia.
  rewrite Nat.sub_diag. reflexivity.
Qed.

Lemma decode_row_app (row data pre post : list float) :
  length data = length row ->
  decode_row (pre ++ data ++ post) (length pre) row
  = Ok (data, (length pre + length data)%nat).
Proof.
  revert data pre. induction row as [|y row IH]; intros data pre Hlen.
  - destruct data; [|discriminate]. simpl. rewrite Nat.add_0_r. reflexivity.
  - destruct data as [|x data]; [discriminate|].
    simpl in Hlen. injection Hlen as Hlen.
    cbn [decode_row]. simpl app. rewrite vec_at_app_here. cbn [bind].
    specialize (IH data (pre ++ [x]) Hlen).
    rewrite <- app_assoc in IH. simpl app in IH.
    rewrite length_app in IH. simpl length in IH.
    replace (length pre + 1)%nat with (S (length pre)) in IH by lia.
    rewrite IH. cbn [bind]. simpl length.
    do 2 f_equal. lia.
Qed.

Lemma decode_matrix_app (w rows : list (list float)) (pre post : list float) :
  map (@length float) rows = map (@length float) w ->
  decode_matrix (pre ++ concat rows ++ post) (length pre) w
  = Ok (rows, (length pre + length (concat rows))%nat).
Proof.
  revert rows pre. induction w as [|row w IH]; intros rows pre Hshape.
  - destruct rows; [|discriminate]. simpl. rewrite Nat.add_0_r. reflexivity.
  - destruct rows as [|r rows]; [discriminate|].
    simpl in Hshape. injection Hshape as Hr Hrows.
    cbn [decode_matrix concat]. rewrite <- app_assoc.
    rewrite (decode_row_app row r pre (concat rows ++ post) Hr). cbn [bind].
    specialize (IH rows (pre ++ r) Hrows).
    rewrite <- app_assoc, length_app in IH. rewrite IH. cbn [bind].
    rewrite length_app. do 2 f_equal. lia.
Qed.

Lemma decode_layers_app (ws ws' : list (list (list float)))
  (bs bs' : list (list float)) (flat pre post : list float) :
  length ws = length bs ->
  shape_w ws' = shape_w ws ->
  shape_b bs' = shape_b bs ->
  encode_layers ws' bs' = Ok flat ->
  decode_layers (pre ++ flat ++ post) (length pre) ws bs
  = Ok (ws', bs', (length pre + length flat)%nat).
Proof.
  revert ws' bs bs' flat pre.
  induction ws as [|w ws IH]; intros ws' bs bs' flat pre Hlen Hw Hb Henc.
  - destruct ws'; [|discriminate]. destruct bs; [|discriminate].
    destruct bs'; [|discriminate]. simpl in Henc. injection Henc as <-.
    simpl. rewrite Nat.add_0_r. reflexivity.
  - destruct ws' as [|w' ws']; [discriminate|].
    destruct bs as [|b bs]; [discriminate|].
    destruct bs' as [|b' bs']; [discriminate|].
    simpl in Hlen. injection Hlen as Hlen.
    unfold shape_w in Hw. simpl in Hw. injection Hw as Hw0 Hw.
    unfold shape_b in Hb. simpl in Hb. injection Hb as Hb0 Hb.
    cbn [encode_layers] in Henc.
    apply bind_ok in Henc. destruct Henc as [rest [Hrest Hflat]].
    injection Hflat as <-.
    cbn [decode_layers].
    rewrite <- !app_assoc.
    rewrite (decode_matrix_app w w' pre (b' ++ rest ++ post) Hw0). cbn [bind].
    pose proof (decode_row_app b b' (pre ++ concat w') (rest ++ post) Hb0) as Hrow.
    rewrite <- app_assoc, length_app in Hrow. rewrite Hrow. cbn [bind].
    specialize (IH ws' bs bs' rest ((pre ++ concat w') ++ b') Hlen Hw Hb Hrest).
    rewrite !length_app in IH. rewrite <- !app_assoc in IH.
    rewrite IH. cbn [bind].
    rewrite !length_app. do 2 f_equal. lia.
Qed.

(** Encoding succeeds when each weight matrix has its bias vector, and
    yields [flat_size] doubles. *)
Lemma encode_layers_total (ws : list (list (list float)))
  (bs : list (list float)) :
  length ws = length bs ->
  exists flat, encode_layers ws bs = Ok flat /\
               length flat = flat_size ws bs.
Proof.
  revert bs. induction ws as [|w ws IH]; intros bs Hlen.
  - destruct bs; [|discriminate]. exists []. split; reflexivity.
  - destruct bs as [|b bs]; [discriminate|].
    simpl in Hlen. injection Hlen as Hlen.
    destruct (IH bs Hlen) as [rest [Hrest Hsize]].
    exists (concat w ++ b ++ rest). split.
    + cbn [encode_layers]. rewrite Hrest. reflexivity.
    + rewrite !length_app, Hsize, length_concat.
      unfold flat_size, shape_w, shape_b. simpl. lia.
Qed.

(** Any sequence of the right length splits into rows of given lengths. *)
Lemma reshape_matrix (lens : list nat) (g : list float) :
  length g = list_sum lens ->
  exists rows, map (@length float) rows = lens /\ concat rows = g.
Proof.
  revert g. induction lens as [|n lens IH]; intros g Hlen.
  - destruct g; [|discriminate]. exists []. split; reflexivity.
  - simpl in Hlen.
    destruct (IH (skipn n g)) as [rows [Hrows Hcat]].
    { rewrite length_skipn. lia. }
    exists (firstn n g :: rows). split.
    + simpl. rewrite length_firstn, Hrows. f_equal. lia.
    + simpl. rewrite Hcat. apply firstn_skipn.
Qed.

Lemma reshape_layers (ws : list (list (list float)))
  (bs : list (list float)) (g : list float) :
  length ws = length bs ->
  length g = flat_size ws bs ->
  exists ws' bs', shape_w ws' = shape_w ws /\ shape_b bs' = shape_b bs /\
                  encode_layers ws' bs' = Ok g.
Proof.
  revert bs g. induction ws as [|w ws IH]; intros bs g Hlen Hsize.
  - destruct bs; [|discriminate]. destruct g; [|discriminate].
    exists [], []. repeat split.
  - destruct bs as [|b bs]; [discriminate|].
    simpl in Hlen. injection Hlen as Hlen.
    unfold flat_size, shape_w, shape_b in Hsize. simpl in Hsize.
    set (nw := list_sum (map (@length float) w)) in *.
    destruct (reshape_matrix (map (@length float) w) (firstn nw g))
      as [w' [Hw' Hcat]].
    { rewrite length_firstn. fold nw. lia. }
    destruct (IH bs (skipn (length b) (skipn nw g)) Hlen)
      as [ws' [bs' [Hws' [Hbs' Henc]]]].
    { rewrite !length_skipn. unfold flat_size, shape_w, shape_b. lia. }
    exists (w' :: ws'), (firstn (length b) (skipn nw g) :: bs').
    split; [|split].
    + unfold shape_w in *. simpl. rewrite Hw', Hws'. reflexivity.
    + unfold shape_b in *. simpl. rewrite Hbs', length_firstn, length_skipn.
      f_equal. lia.
    + cbn [encode_layers]. rewrite Henc. cbn [bind]. rewrite Hcat.
      rewrite (firstn_skipn (length b) (skipn nw g)).
      rewrite (firstn_skipn nw g). reflexivity.
Qed.

(** The shapes the constructor gives. *)
Lemma zero_tensors_length (layers : list Z) :
  length (zero_weights layers) = length (zero_biases layers).
Proof.
  induction layers as [|a layers IH]; [reflexivity|].
  destruct layers as [|b layers]; [reflexivity|].
  simpl in *. rewrite IH. reflexivity.
Qed.

Lemma length_concat_repeat (a b : nat) :
  list_sum (map (@length float) (repeat (repeat 0%float b) a)) = (a * b)%nat.
Proof.
  induction a as [|a IH]; simpl; [reflexivity|].
  rewrite repeat_length, IH. reflexivity.
Qed.

Lemma zero_weights_cons (a b : Z) (layers : list Z) :
  zero_weights (a :: b :: layers)
  = repeat (repeat 0%float (Z.to_nat b)) (Z.to_nat a)
    :: zero_weights (b :: layers).
Proof. reflexivity. Qed.

Lemma zero_biases_cons (a b : Z) (layers : list Z) :
  zero_biases (a :: b :: layers)
  = repeat 0%float (Z.to_nat b) :: zero_biases (b :: layers).
Proof. reflexivity. Qed.

Lemma param_count_cons (a b : Z) (layers : list Z) :
  param_count (a :: b :: layers) = a * b + b + param_count (b :: layers).
Proof. reflexivity. Qed.

Lemma zero_tensors_size (layers : list Z) :
  Forall (fun n => 0 <= n) layers ->
  Z.of_nat (flat_size (zero_weights layers) (zero_biases layers))
  = param_count layers.
Proof.
  induction layers as [|a layers IH]; intros Hpos; [reflexivity|].
  destruct layers as [|b layers]; [reflexivity|].
  inversion Hpos as [|? ? Ha Hrest]; subst.
  inversion Hrest as [|? ? Hb _]; subst.
  specialize (IH Hrest).
  rewrite zero_weights_cons, zero_biases_cons, param_count_cons, <- IH.
  unfold flat_size, shape_w, shape_b.
  cbn [map].
  rewrite length_concat_repeat, repeat_length.
  unfold list_sum. cbn [fold_right].
  rewrite !Nat2Z.inj_add, Nat2Z.inj_mul, !Z2Nat.id by lia. lia.
Qed.

Lemma shape_w_length (ws ws' : list (list (list float))) :
  shape_w ws = shape_w ws' -> length ws = length ws'.
Proof.
  unfold shape_w. intros H.
  rewrite <- (length_map (map (@length float)) ws), H, length_map.
  reflexivity.
Qed.

Lemma shape_b_length (bs bs' : list (list float)) :
  shape_b bs = shape_b bs' -> length bs = length bs'.
Proof.
  unfold shape_b. intros H.
  rewrite <- (length_map (@length float) bs), H, length_map. reflexivity.
Qed.

Lemma well_formed_lengths (m : MLP) :
  well_formed m -> length (weights m) = length (biases m).
Proof.
  intros (_ & _ & _ & Hw & Hb & _).
  rewrite (shape_w_length _ _ Hw), (shape_b_length _ _ Hb).
  apply zero_tensors_length.
Qed.

Lemma well_formed_size (m : MLP) :
  well_formed m ->
  Z.of_nat (flat_size (weights m) (biases m)) = total_params m.
Proof.
  intros (_ & Hpos & Hp & Hw & Hb & _).
  unfold flat_size. rewrite Hw, Hb, Hp.
  apply (zero_tensors_size _ Hpos).
Qed.

Lemma count_params_cons (a b : Z) (layers : list Z) (acc : Z) :
  count_params (a :: b :: layers) acc
  = if in_int (a * b) && in_int (acc + a * b) && in_int (acc + a * b + b)
    then count_params (b :: layers) (acc + a * b + b)
    else None.
Proof. reflexivity. Qed.

Lemma count_params_sound (layers : list Z) (acc p : Z) :
  count_params layers acc = Some p -> p = acc + param_count layers.
Proof.
  revert acc. induction layers as [|a layers IH]; intros acc H.
  - simpl in H. injection H as <-. simpl. lia.
  - destruct layers as [|b layers].
    + simpl in H. injection H as <-. simpl. lia.
    + rewrite count_params_cons in H.
      destruct (in_int (a * b) && in_int (acc + a * b)
                && in_int (acc + a * b + b)); [|discriminate].
      apply IH in H. rewrite param_count_cons. lia.
Qed.

(** The constructor builds a well-formed network of the given topology. *)
Lemma MLP_new_well_formed (layers : list Z) (act : ActivationType) (m : MLP) :
  MLP_new layers act = Ok m ->
  well_formed m /\ layer_sizes m = layers /\ activation_type m = act.
Proof.
  unfold MLP_new.
  destruct (Nat.ltb_spec (length layers) 2) as [|Hlen]; [discriminate|].
  destruct (count_params layers 0) as [p|] eqn:Hp; [|discriminate].
  destruct (forallb (fun n => 0 <=? n) layers) eqn:Hpos; [|discriminate].
  intros H. injection H as <-. simpl.
  repeat split; simpl; auto.
  - apply Forall_forall. intros n Hn.
    rewrite forallb_forall in Hpos. specialize (Hpos n Hn). lia.
  - apply count_params_sound in Hp. lia.
Qed.

Lemma set_params_well_formed (m : MLP) (ws : list (list (list float)))
  (bs : list (list float)) :
  well_formed m ->
  shape_w ws = shape_w (weights m) -> shape_b bs = shape_b (biases m) ->
  well_formed (set_params m ws bs).
Proof.
  intros (H1 & H2 & H3 & H4 & H5 & H6) Hw Hb.
  unfold well_formed. simpl. repeat split; auto; congruence.
Qed.

(** * The forward pass *)

Lemma vec_at_nth (row : list float) (j : nat) :
  (j < length row)%nat -> vec_at row j = Ok (nth j row 0%float).
Proof.
  intros Hj. unfold vec_at.
  rewrite (nth_error_nth' row 0%float Hj). reflexivity.
Qed.

Lemma weighted_sum_spec (prev : list float) (w : list (list float))
  (sum : float) (j : nat) :
  length prev = length w ->
  Forall (fun row => (j < length row)%nat) w ->
  weighted_sum sum prev w j
  = Ok (fold_left (fun s xr => (s + fst xr * nth j (snd xr) 0)%float)
          (combine prev w) sum).
Proof.
  revert w sum. induction prev as [|x prev IH]; intros w sum Hlen Hrows.
  - reflexivity.
  - destruct w as [|row w]; [discriminate|].
    simpl in Hlen. injection Hlen as Hlen.
    inversion Hrows as [|? ? Hrow Hrest]; subst.
    cbn [weighted_sum]. rewrite (vec_at_nth row j Hrow). cbn [bind].
    rewrite (IH w _ Hlen Hrest). reflexivity.
Qed.

Lemma forward_neurons_spec (act : float -> float) (prev : list float)
  (w : list (list float)) (b : list float) (js : list nat) :
  length prev = length w ->
  Forall (fun j => (j < length b)%nat /\
                   Forall (fun row => (j < length row)%nat) w) js ->
  forward_neurons act prev w b js
  = Ok (map (fun j =>
               act (fold_left
                      (fun s xr => (s + fst xr * nth j (snd xr) 0)%float)
                      (combine prev w) (nth j b 0%float))) js).
Proof.
  intros Hlen. induction js as [|j js IH]; intros Hjs; [reflexivity|].
  inversion Hjs as [|? ? [Hb Hrows] Hrest]; subst.
  cbn [forward_neurons]. unfold pre_activation.
  rewrite (vec_at_nth b j Hb). cbn [bind].
  rewrite (weighted_sum_spec prev w _ j Hlen Hrows). cbn [bind].
  rewrite (IH Hrest). reflexivity.
Qed.

(** One layer of the right shape computes [layer_values]. *)
Lemma forward_layer_spec (act : float -> float) (prev buf b : list float)
  (w : list (list float)) (na nb : nat) :
  length prev = na ->
  map (@length float) w = repeat nb na ->
  length b = nb -> length buf = nb ->
  forward_neurons act prev w b (seq 0 (length buf))
  = Ok (layer_values act prev w b).
Proof.
  intros Hprev Hw Hb Hbuf.
  assert (Hlw : length w = na).
  { rewrite <- (length_map (@length float) w), Hw. apply repeat_length. }
  assert (Hrows : Forall (fun row => length row = nb) w).
  { apply Forall_forall. intros row Hin.
    apply (in_map (@length float)) in Hin. rewrite Hw in Hin.
    apply repeat_spec in Hin. exact Hin. }
  unfold layer_values. rewrite Hbuf, Hb.
  apply forward_neurons_spec; [congruence|].
  apply Forall_forall. intros j Hj. apply in_seq in Hj.
  split; [lia|].
  eapply Forall_impl; [|exact Hrows]. simpl. intros row Hr. lia.
Qed.

Lemma layer_values_length (act : float -> float) (prev b : list float)
  (w : list (list float)) :
  length (layer_values act prev w b) = length b.
Proof. unfold layer_values. rewrite length_map, length_seq. reflexivity. Qed.

Lemma shape_repeat (a b : nat) :
  map (@length float) (repeat (repeat 0%float b) a) = repeat b a.
Proof.
  induction a as [|a IH]; simpl; [reflexivity|].
  rewrite repeat_length, IH. reflexivity.
Qed.

(** All layers: the loop of [forward] computes [network_values] and keeps
    the sizes of the buffers. *)
Lemma forward_layers_spec (layers : list Z) (m : MLP) (prev : list float)
  (ws : list (list (list float))) (bs bufs : list (list float)) :
  shape_w ws = shape_w (zero_weights layers) ->
  shape_b bs = shape_b (zero_biases layers) ->
  shape_b bufs = shape_b (zero_outputs (tl layers)) ->
  length prev = Z.to_nat (hd 0 layers) ->
  exists outs,
    forward_layers m prev ws bs bufs = Ok outs /\
    shape_b outs = shape_b bufs /\
    last (prev :: outs) [] = network_values m prev ws bs.
Proof.
  revert prev ws bs bufs.
  induction layers as [|a layers IH]; intros prev ws bs bufs Hw Hb Ho Hprev.
  - destruct ws; [|discriminate]. destruct bufs; [|discriminate].
    exists []. repeat split.
  - destruct layers as [|b layers].
    + destruct ws; [|discriminate]. destruct bufs; [|discriminate].
      exists []. repeat split.
    + rewrite zero_weights_cons in Hw. rewrite zero_biases_cons in Hb.
      destruct ws as [|w ws]; [discriminate|].
      destruct bs as [|bv bs]; [discriminate|].
      destruct bufs as [|buf bufs]; [discriminate|].
      unfold shape_w in Hw. cbn [map] in Hw. injection Hw as Hw0 Hw.
      unfold shape_b in Hb. cbn [map] in Hb. injection Hb as Hb0 Hb.
      unfold shape_b, zero_outputs in Ho. cbn [tl map] in Ho.
      injection Ho as Ho0 Ho.
      rewrite shape_repeat in Hw0. rewrite repeat_length in Hb0, Ho0.
      cbn [hd] in Hprev.
      set (act := match ws with [] => sigmoid | _ :: _ => activate m end).
      pose proof (forward_layer_spec act prev buf bv w _ _ Hprev Hw0 Hb0 Ho0)
        as Hcur.
      destruct (IH (layer_values act prev w bv) ws bs bufs Hw Hb) as
        [outs [Hrest [Hshape Hlast]]].
      { exact Ho. }
      { rewrite layer_values_length. exact Hb0. }
      exists (layer_values act prev w bv :: outs). split; [|split].
      * cbn [forward_layers]. fold act. rewrite Hcur. cbn [bind].
        rewrite Hrest. reflexivity.
      * unfold shape_b in *. cbn [map]. rewrite Hshape, layer_values_length.
        congruence.
      * change (last (prev :: layer_values act prev w bv :: outs) [])
          with (last (layer_values act prev w bv :: outs) []).
        rewrite Hlast. unfold act. destruct ws; reflexivity.
Qed.

Lemma last_length (l : list (list float)) :
  length (last l []) = last (map (@length float) l) 0%nat.
Proof.
  induction l as [|x l IH]; [reflexivity|].
  destruct l; [reflexivity|]. exact IH.
Qed.

Lemma last_map_to_nat (l : list Z) :
  last (map Z.to_nat l) 0%nat = Z.to_nat (last l 0).
Proof.
  induction l as [|x l IH]; [reflexivity|].
  destruct l; [reflexivity|]. exact IH.
Qed.

Lemma zero_outputs_shape (layers : list Z) :
  shape_b (zero_outputs layers) = map Z.to_nat layers.
Proof.
  unfold shape_b, zero_outputs. rewrite map_map.
  apply map_ext. intros n. apply repeat_length.
Qed.

(** The last layer's values are values of the logistic sigmoid. *)
Lemma network_values_sigmoid (m : MLP) (ws : list (list (list float)))
  (bs : list (list float)) (prev : list float) :
  ws <> [] -> length ws = length bs ->
  Forall (fun o => exists s, o = sigmoid s) (network_values m prev ws bs).
Proof.
  revert bs prev. induction ws as [|w ws IH]; intros bs prev Hne Hlen.
  - contradiction.
  - destruct bs as [|b bs]; [discriminate|].
    simpl in Hlen. injection Hlen as Hlen.
    destruct ws as [|w' ws].
    + cbn [network_values]. unfold layer_values.
      apply Forall_forall. intros o Ho. apply in_map_iff in Ho.
      destruct Ho as [j [Ho _]]. eexists. symmetry. exact Ho.
    + change (network_values m prev (w :: w' :: ws) (b :: bs))
        with (network_values m (layer_values (activate m) prev w b)
                (w' :: ws) bs).
      apply IH; [discriminate | exact Hlen].
Qed.

(** [forward] on a well-formed network, for an input of the input width. *)
Lemma forward_spec (m : MLP) (input : list float) :
  well_formed m ->
  Z.of_nat (length input) = hd 0 (layer_sizes m) ->
  exists outs,
    forward input m
    = (Ok (network_values m input (weights m) (biases m)),
       set_outputs m (input :: outs)) /\
    shape_b (input :: outs) = shape_b (zero_outputs (layer_sizes m)).
Proof.
  intros (Hlen & Hpos & Hp & Hw & Hb & Ho) Hin.
  unfold forward.
  destruct (layer_sizes m) as [|n0 layers] eqn:HL; [simpl in Hlen; lia|].
  cbn [hd] in Hin. rewrite Hin, Z.eqb_refl. cbn [negb].
  destruct (layer_outputs m) as [|buf0 bufs] eqn:Hbufs; [discriminate|].
  unfold shape_b, zero_outputs in Ho. cbn [map] in Ho.
  injection Ho as Ho0 Ho.
  destruct (forward_layers_spec (n0 :: layers) m input (weights m) (biases m)
              bufs Hw Hb) as [outs [Hrun [Hshape Hlast]]].
  - exact Ho.
  - cbn [hd]. lia.
  - exists outs. rewrite Hrun, Hlast. split; [reflexivity|].
    unfold shape_b, zero_outputs in *. cbn [map].
    rewrite Hshape, Ho, repeat_length. f_equal. lia.
Qed.

Lemma set_outputs_well_formed (m : MLP) (outs : list (list float)) :
  well_formed m ->
  shape_b outs = shape_b (zero_outputs (layer_sizes m)) ->
  well_formed (set_outputs m outs).
Proof.
  intros (H1 & H2 & H3 & H4 & H5 & H6) Ho.
  unfold well_formed. simpl. repeat split; auto.
Qed.

(** * Properties of the network *)

(** C3: on a well-formed network (a topology of at least two layers) and a
    genome of length exactly the parameter count P, decoding succeeds and
    encoding the decoded network returns the genome; and encoding a
    network yields P doubles whose decoding, into the network itself or
    into any network of the same topology, restores the identical weight
    and bias tensors. *)
Theorem chromosome_round_trip (m : MLP) (g : list float) :
  well_formed m ->
  Z.of_nat (length g) = param_count (layer_sizes m) ->
  (exists m',
      decodeChromosome g m = (Ok tt, m') /\
      well_formed m' /\ layer_sizes m' = layer_sizes m /\
      encodeChromosome m' = Ok g) /\
  (exists g0,
      encodeChromosome m = Ok g0 /\
      Z.of_nat (length g0) = param_count (layer_sizes m) /\
      decodeChromosome g0 m = (Ok tt, m) /\
      forall m2, well_formed m2 -> layer_sizes m2 = layer_sizes m ->
        exists m2',
          decodeChromosome g0 m2 = (Ok tt, m2') /\
          weights m2' = weights m /\ biases m2' = biases m).
Proof.
  intros Hwf Hg.
  pose proof (well_formed_lengths m Hwf) as Hlen.
  pose proof (well_formed_size m Hwf) as Hsize.
  assert (Hp : total_params m = param_count (layer_sizes m))
    by (destruct Hwf as (_ & _ & Hp & _); exact Hp).
  split.
  - destruct (reshape_layers (weights m) (biases m) g Hlen)
      as [ws' [bs' [Hw' [Hb' Henc]]]]; [lia|].
    exists (set_params m ws' bs').
    pose proof (decode_layers_app (weights m) ws' (biases m) bs' g [] []
                  Hlen Hw' Hb' Henc) as Hdec.
    rewrite app_nil_r in Hdec. simpl app in Hdec. simpl length in Hdec.
    unfold decodeChromosome.
    rewrite Hg, <- Hp, Z.eqb_refl. cbn [negb]. rewrite Hdec.
    split; [reflexivity|]. split; [|split].
    + apply set_params_well_formed; assumption.
    + reflexivity.
    + exact Henc.
  - destruct (encode_layers_total (weights m) (biases m) Hlen)
      as [g0 [Henc Hg0]].
    exists g0.
    assert (Hdecode : forall m2, well_formed m2 ->
              layer_sizes m2 = layer_sizes m ->
              decodeChromosome g0 m2
              = (Ok tt, set_params m2 (weights m) (biases m))).
    { intros m2 Hwf2 HL.
      pose proof (well_formed_lengths m2 Hwf2) as Hlen2.
      destruct Hwf as (_ & _ & _ & Hw & Hb & _).
      destruct Hwf2 as (_ & _ & Hp2 & Hw2 & Hb2 & _).
      rewrite HL in Hw2, Hb2, Hp2.
      pose proof (decode_layers_app (weights m2) (weights m) (biases m2)
                    (biases m) g0 [] [] Hlen2) as Hdec.
      rewrite app_nil_r in Hdec. simpl app in Hdec. simpl length in Hdec.
      unfold decodeChromosome.
      rewrite Hp2, <- Hp, <- Hsize, <- Hg0, Z.eqb_refl. cbn [negb].
      rewrite Hdec; [reflexivity | congruence | congruence | exact Henc]. }
    split; [exact Henc|]. split; [lia|]. split.
    + rewrite (Hdecode m Hwf eq_refl). destruct m; reflexivity.
    + intros m2 Hwf2 HL. exists (set_params m2 (weights m) (biases m)).
      rewrite (Hdecode m2 Hwf2 HL). repeat split.
Qed.

(** C4: on a well-formed network, a genome whose length differs from the
    parameter count P makes [decodeChromosome], and so [setWeights], fail
    with [GenomeSizeMismatch], and the network the call leaves is the one
    it was given: no weight and no bias has been written. *)
Theorem decode_size_mismatch (m : MLP) (g : list float) :
  well_formed m ->
  Z.of_nat (length g) <> param_count (layer_sizes m) ->
  decodeChromosome g m = (Err GenomeSizeMismatch, m) /\
  setWeights g m = (Err GenomeSizeMismatch, m).
Proof.
  intros (_ & _ & Hp & _) Hg.
  unfold setWeights, decodeChromosome. rewrite Hp.
  destruct (Z.eqb_spec (Z.of_nat (length g)) (param_count (layer_sizes m)))
    as [Heq|_]; [contradiction|].
  split; reflexivity.
Qed.

(** The logistic sigmoid stays within [0, 1] wherever [exp] returns a
    number that is not negative, as [std::exp] does at every argument that
    is not a NaN; both bounds are reached in double arithmetic. *)
Lemma sigmoid_in_unit (s : float) :
  (0 <=? exp (- s))%float = true ->
  Double.in_closed 0 1 (sigmoid s) = true.
Proof.
  intros He. unfold sigmoid, Double.in_closed.
  apply sigmoid_formula_range. exact He.
Qed.

(** C6, amended: on a well-formed network and an input of the input
    width, [forward] succeeds; its output is the value of the layers
    computed with the configured activation on every hidden layer and with
    the logistic sigmoid on the last, whatever activation is configured;
    the output has the width of the output layer, each of its entries is
    [sigmoid s] for a double [s] and lies in the closed interval [0, 1]
    whenever [exp] is not negative at [- s], and the parameters are left
    as they were. *)
Theorem forward_output (m : MLP) (input : list float) :
  well_formed m ->
  Z.of_nat (length input) = hd 0 (layer_sizes m) ->
  exists out m',
    forward input m = (Ok out, m') /\
    out = network_values m input (weights m) (biases m) /\
    Z.of_nat (length out) = last (layer_sizes m) 0 /\
    Forall (fun o => exists s,
              o = sigmoid s /\
              ((0 <=? exp (- s))%float = true ->
               Double.in_closed 0 1 o = true)) out /\
    well_formed m' /\ weights m' = weights m /\ biases m' = biases m.
Proof.
  intros Hwf Hin.
  destruct (forward_spec m input Hwf Hin) as [outs [Hrun Hshape]].
  pose proof (well_formed_lengths m Hwf) as Hlen.
  exists (network_values m input (weights m) (biases m)),
         (set_outputs m (input :: outs)).
  split; [exact Hrun|]. split; [reflexivity|].
  assert (Hlast : network_values m input (weights m) (biases m)
                  = last (input :: outs) []).
  { unfold forward in Hrun.
    destruct (layer_sizes m) as [|n0 l]; [discriminate|].
    destruct (negb _); [discriminate|].
    destruct (layer_outputs m) as [|b0 bufs]; [discriminate|].
    destruct (forward_layers m input (weights m) (biases m) bufs)
      as [outs'|e]; [|discriminate].
    injection Hrun as Hv Hm. rewrite <- Hv, Hm. reflexivity. }
  split; [|split; [|split; [|split]]].
  - rewrite Hlast, last_length.
    fold (shape_b (input :: outs)).
    rewrite Hshape, zero_outputs_shape, last_map_to_nat.
    apply Z2Nat.id.
    destruct Hwf as (H2 & Hpos & _).
    destruct (layer_sizes m) as [|n0 l]; [simpl in H2; lia|].
    rewrite Forall_forall in Hpos. apply Hpos.
    destruct (@exists_last _ (n0 :: l)) as [l' [x Hx]]; [discriminate|].
    rewrite Hx, last_last. apply in_or_app. right. left. reflexivity.
  - apply Forall_impl with (P := fun o => exists s, o = sigmoid s).
    { intros o [s ->]. exists s. split; [reflexivity|].
      apply sigmoid_in_unit. }
    apply network_values_sigmoid; [|exact Hlen].
    destruct Hwf as (H2 & _ & _ & Hw & _).
    intros Hnil. rewrite Hnil in Hw.
    destruct (layer_sizes m) as [|n0 [|n1 l]];
      [simpl in H2; lia | simpl in H2; lia | discriminate].
  - apply set_outputs_well_formed; assumption.
  - reflexivity.
  - reflexivity.
Qed.



(** The scan of [predict]: no entry seen so far is above the current
    maximum, and no entry before it reaches it. *)
Lemma argmax_scan_spec (output : list float) (n s cur : nat) :
  (cur < s)%nat ->
  (forall j, (j < s)%nat ->
     (nth cur output 0 <? nth j output 0)%float = false) ->
  (forall j, (j < cur)%nat ->
     (nth cur output 0 <=? nth j output 0)%float = false) ->
  let k := argmax_scan output cur (seq s n) in
  (k < s + n)%nat /\
  (forall j, (j < s + n)%nat ->
     (nth k output 0 <? nth j output 0)%float = false) /\
  (forall j, (j < k)%nat ->
     (nth k output 0 <=? nth j output 0)%float = false).
Proof.
  revert s cur. induction n as [|n IH]; intros s cur Hcur Hmax Hfirst.
  - simpl. rewrite Nat.add_0_r. auto.
  - cbn [seq argmax_scan].
    replace (s + S n)%nat with (S s + n)%nat by lia.
    destruct (nth cur output 0 <? nth s output 0)%float eqn:Hlt.
    + apply IH; [lia | |].
      * intros j Hj.
        destruct (Nat.eq_dec j s) as [->|Hne]; [apply double_ltb_irrefl|].
        destruct (nth s output 0 <? nth j output 0)%float eqn:Hsj; [|reflexivity].
        rewrite <- (Hmax j ltac:(lia)). symmetry.
        exact (double_ltb_trans _ _ _ Hlt Hsj).
      * intros j Hj.
        destruct (nth s output 0 <=? nth j output 0)%float eqn:Hsj; [|reflexivity].
        rewrite <- (Hmax j Hj). symmetry.
        exact (double_ltb_leb_trans _ _ _ Hlt Hsj).
    + apply IH; [lia | | exact Hfirst].
      intros j Hj.
      destruct (Nat.eq_dec j s) as [->|Hne]; [exact Hlt|].
      apply Hmax. lia.
Qed.

(** C8: when [forward] succeeds with output [out], [predict] returns the
    class of [out]: for a single unit [o], 1 when [0.5 <= o] (so for
    exactly 0.5) and 0 otherwise; for several units, an index [k] such
    that no entry is above entry [k] and no entry before [k] reaches it,
    the first occurrence of the maximum; outputs 0.2, 0.9, 0.9 give
    index 1. *)
Theorem predict_class (m m' : MLP) (input out : list float) :
  forward input m = (Ok out, m') ->
  predict input m = (Ok (class_of_output out), m') /\
  (forall o, out = [o] ->
     class_of_output out = if (0.5 <=? o)%float then 1 else 0) /\
  ((2 <= length out)%nat ->
   exists k, class_of_output out = Z.of_nat k /\ (k < length out)%nat /\
     (forall j, (j < length out)%nat ->
        (nth k out 0 <? nth j out 0)%float = false) /\
     (forall j, (j < k)%nat ->
        (nth k out 0 <=? nth j out 0)%float = false)) /\
  class_of_output [0.5%float] = 1 /\
  class_of_output
    [0x1.999999999999ap-3; 0x1.ccccccccccccdp-1; 0x1.ccccccccccccdp-1]%float
  = 1.
Proof.
  intros Hrun. split; [|split; [|split; [|split]]].
  - unfold predict. rewrite Hrun. reflexivity.
  - intros o ->. reflexivity.
  - intros Hlen.
    destruct out as [|o1 [|o2 out]]; [simpl in Hlen; lia | simpl in Hlen; lia |].
    cbn [class_of_output].
    set (l := o1 :: o2 :: out) in *.
    pose proof (argmax_scan_spec l (length l - 1) 1 0) as Hscan.
    cbv zeta in Hscan.
    replace (1 + (length l - 1))%nat with (length l) in Hscan by lia.
    destruct Hscan as [Hk [Hmax Hfirst]].
    + lia.
    + intros j Hj. replace j with 0%nat by lia. apply double_ltb_irrefl.
    + intros j Hj. lia.
    + eexists. split; [reflexivity|]. split; [exact Hk|].
      split; [exact Hmax | exact Hfirst].
  - reflexivity.
  - reflexivity.
Qed.

(** * The genetic algorithm *)

Lemma bindM_ok {A B : Type} (c : M A) (k : A -> M B) (r r' : rng) (b : B) :
  bindM c k r = Ok (b, r') ->
  exists a r1, c r = Ok (a, r1) /\ k a r1 = Ok (b, r').
Proof.
  unfold bindM. destruct (c r) as [[a r1]|e]; [eauto | discriminate].
Qed.

Lemma lift_ok {A : Type} (x : result A) (r r' : rng) (a : A) :
  lift x r = Ok (a, r') -> x = Ok a /\ r' = r.
Proof.
  unfold lift. destruct x as [a0|e]; [|discriminate].
  intros H. injection H as -> ->. split; reflexivity.
Qed.

Lemma ret_ok {A : Type} (a b : A) (r r' : rng) :
  ret a r = Ok (b, r') -> b = a /\ r' = r.
Proof. unfold ret. intros H. injection H as -> ->. split; reflexivity. Qed.

(** Inversion of a successful computation: [inv_bind H as a r Ha] splits
    a bind into its first step [Ha] and the rest, kept in [H]. *)
Tactic Notation "inv_bind" hyp(H) "as" simple_intropattern(a)
  simple_intropattern(r) ident(Ha) :=
  apply bindM_ok in H; destruct H as [a [r [Ha H]]]; cbv beta in H.

Ltac subst_eq H :=
  match type of H with
  | ?x = ?y => first [subst x | subst y]
  end.

Ltac inv_lift H :=
  let Hr := fresh "Hr" in
  apply lift_ok in H; destruct H as [H Hr]; subst_eq Hr.

Ltac inv_ret H :=
  let Hr := fresh "Hr" in
  apply ret_ok in H; destruct H as [H Hr]; subst_eq Hr; try subst_eq H.

Lemma nat_ind2 (P : nat -> Prop) :
  P O -> P 1%nat -> (forall n, P n -> P (S (S n))) -> forall n, P n.
Proof.
  intros H0 H1 Hstep n.
  assert (H : P n /\ P (S n)).
  { induction n as [|n [IHn IHSn]]; [split; assumption|].
    split; [assumption | apply Hstep; assumption]. }
  exact (proj1 H).
Qed.

(** An invariant of the loop state holds after a [for] loop. *)
Lemma for_each_invariant {S : Type} (I : S -> Prop) (body : nat -> S -> M S)
  (idxs : list nat) :
  (forall i s r s' r', I s -> body i s r = Ok (s', r') -> I s') ->
  forall s r s' r', I s -> for_each idxs body s r = Ok (s', r') -> I s'.
Proof.
  intros Hbody. induction idxs as [|i idxs IH]; intros s r s' r' Hs Hrun.
  - cbn [for_each] in Hrun. inv_ret Hrun. exact Hs.
  - cbn [for_each] in Hrun. inv_bind Hrun as s1 r1 Hstep.
    eapply IH; [|exact Hrun]. eapply Hbody; eassumption.
Qed.

Lemma vec_at_in {A : Type} (v : list A) (i : nat) (x : A) :
  vec_at v i = Ok x -> In x v.
Proof.
  unfold vec_at. destruct (nth_error v i) eqn:Hn; [|discriminate].
  intros H. injection H as <-. eapply nth_error_In, Hn.
Qed.

Lemma vec_at_int_in {A : Type} (v : list A) (i : Z) (x : A) :
  vec_at_int v i = Ok x -> In x v.
Proof.
  unfold vec_at_int. destruct (i <? 0); [discriminate|]. apply vec_at_in.
Qed.

Lemma vec_set_forall {A : Type} (P : A -> Prop) (v v' : list A) (i : nat)
  (x : A) :
  Forall P v -> P x -> vec_set v i x = Ok v' -> Forall P v'.
Proof.
  revert i v'. induction v as [|y v IH]; intros i v' Hv Hx Hset.
  - discriminate.
  - inversion Hv as [|? ? Hy Hrest]; subst.
    destruct i as [|i]; cbn [vec_set] in Hset.
    + injection Hset as <-. constructor; assumption.
    + apply bind_ok in Hset. destruct Hset as [v'' [Hset Hret]].
      injection Hret as <-. constructor; [assumption|].
      eapply IH; eassumption.
Qed.

Lemma vec_set_length {A : Type} (v v' : list A) (i : nat) (x : A) :
  vec_set v i x = Ok v' -> length v' = length v.
Proof.
  revert i v'. induction v as [|y v IH]; intros i v' Hset.
  - discriminate.
  - destruct i as [|i]; cbn [vec_set] in Hset.
    + injection Hset as <-. reflexivity.
    + apply bind_ok in Hset. destruct Hset as [v'' [Hset Hret]].
      injection Hret as <-. simpl. f_equal. eapply IH, Hset.
Qed.

(** ** Initialization *)

Lemma randomDouble_ok (lo hi x : float) (r r' : rng) :
  randomDouble lo hi r = Ok (x, r') ->
  (lo <=? hi)%float = true /\ uniform_real lo hi r = (x, r').
Proof.
  unfold randomDouble. destruct (lo <=? hi)%float; [|discriminate].
  destruct (Double.is_finite _); [|discriminate].
  intros H. injection H as H. auto.
Qed.

Lemma randomDoubles_in_range (n : nat) (lo hi : float) (r r' : rng)
  (xs : list float) :
  uniform_real_in_range ->
  (lo <=? hi)%float = true ->
  randomDoubles n lo hi r = Ok (xs, r') ->
  length xs = n /\ Forall (fun x => Double.in_closed lo hi x = true) xs.
Proof.
  intros Hrng Hle. revert r r' xs.
  induction n as [|n IH]; intros r r' xs Hrun; cbn [randomDoubles] in Hrun.
  - inv_ret Hrun. split; [reflexivity | constructor].
  - inv_bind Hrun as x r1 Hx. inv_bind Hrun as xs' r2 Hxs. inv_ret Hrun.
    destruct (IH _ _ _ Hxs) as [Hlen Hall].
    split; [simpl; congruence|]. constructor; [|exact Hall].
    apply randomDouble_ok in Hx. destruct Hx as [_ Hx].
    pose proof (Hrng lo hi r Hle) as Hin.
    rewrite Hx in Hin. exact Hin.
Qed.

Lemma initialize_individuals_spec (pop pop' : list Individual) (len : Z)
  (lo hi : float) (r r' : rng) :
  initialize_individuals pop len lo hi r = Ok (pop', r') ->
  length pop' = length pop /\
  Forall (fun ind => fitness ind = 0%float) pop'.
Proof.
  revert pop' r r'.
  induction pop as [|ind pop IH]; intros pop' r r' Hrun;
    cbn [initialize_individuals] in Hrun.
  - inv_ret Hrun. split; [reflexivity | constructor].
  - inv_bind Hrun as c r1 Hc. inv_bind Hrun as rest r2 Hrest. inv_ret Hrun.
    destruct (IH _ _ _ Hrest) as [Hlen Hall].
    split; [simpl; congruence|]. constructor; [reflexivity | exact Hall].
Qed.

Lemma initialize_individuals_genes (pop pop' : list Individual) (len : Z)
  (r r' : rng) :
  uniform_real_in_range ->
  initialize_individuals pop len (-1) 1 r = Ok (pop', r') ->
  Forall genes_ok pop'.
Proof.
  intros Hrng. revert pop' r r'.
  induction pop as [|ind pop IH]; intros pop' r r' Hrun;
    cbn [initialize_individuals] in Hrun.
  - inv_ret Hrun. constructor.
  - inv_bind Hrun as c r1 Hc. inv_bind Hrun as rest r2 Hrest. inv_ret Hrun.
    constructor; [|eapply IH; eassumption].
    unfold genes_ok. cbn [chromosome].
    unfold randomVector in Hc. destruct (len <? 0); [discriminate|].
    apply (randomDoubles_in_range _ (-1)%float 1%float _ _ _ Hrng eq_refl) in Hc.
    destruct Hc as [_ Hall].
    eapply Forall_impl; [|exact Hall]. intros g Hg.
    exact (in_closed_widen (-1)%float 1%float (-5)%float 5%float g eq_refl eq_refl Hg).
Qed.

Lemma initializePopulation_spec (lo hi : float)
  (ga ga' : GeneticAlgorithm) (r r' : rng) :
  initializePopulation lo hi ga r = Ok (ga', r') ->
  exists pop,
    ga' = set_population ga pop /\
    length pop = length (population ga) /\
    Forall (fun ind => fitness ind = 0%float) pop.
Proof.
  unfold initializePopulation. intros Hrun.
  inv_bind Hrun as pop r1 Hpop. inv_ret Hrun.
  destruct (initialize_individuals_spec _ _ _ _ _ _ _ Hpop) as [Hlen Hfit].
  exists pop. auto.
Qed.

(** ** Evaluation *)

Lemma max_element_from_in (x : Individual) (l : list Individual) :
  In (max_element_from x l) (x :: l).
Proof.
  revert x. induction l as [|y l IH]; intros x; cbn [max_element_from].
  - left. reflexivity.
  - destruct (fitness x <? fitness y)%float.
    + right. apply IH.
    + destruct (IH x) as [H|H]; [left; exact H | right; right; exact H].
Qed.

Lemma evaluateFitness_spec (ga ga' : GeneticAlgorithm) :
  evaluateFitness ga = Ok ga' ->
  exists f,
    fitness_function ga = Some f /\
    population ga' = map (evaluate f) (population ga) /\
    config ga' = config ga /\
    chromosome_length ga' = chromosome_length ga /\
    fitness_function ga' = fitness_function ga /\
    best_fitness_history ga' = best_fitness_history ga /\
    avg_fitness_history ga' = avg_fitness_history ga /\
    (best_fitness ga' = best_fitness ga \/
     (best_fitness ga <? best_fitness ga')%float = true).
Proof.
  unfold evaluateFitness.
  destruct (fitness_function ga) as [f|] eqn:Hf; [|discriminate].
  destruct (negb _); [discriminate|].
  destruct (max_element _) as [b|]; [|discriminate].
  cbn [population set_population best_fitness].
  destruct (best_fitness ga <? fitness b)%float eqn:Hlt;
    intros H; injection H as <-; exists f; simpl; repeat split; auto.
Qed.

(** ** Selection, crossover, mutation *)

Lemma tournament_loop_genes (n : nat) (pop : list Individual)
  (best ind : Individual) (r r' : rng) :
  Forall genes_ok pop -> genes_ok best ->
  tournament_loop n pop best r = Ok (ind, r') -> genes_ok ind.
Proof.
  intros Hpop. revert best r.
  induction n as [|n IH]; intros best r Hbest Hrun;
    cbn [tournament_loop] in Hrun.
  - inv_ret Hrun. exact Hbest.
  - inv_bind Hrun as idx r1 Hidx. inv_bind Hrun as cand r2 Hcand.
    inv_lift Hcand.
    eapply IH; [|exact Hrun].
    destruct (fitness best <? fitness cand)%float; [|exact Hbest].
    rewrite Forall_forall in Hpop. apply Hpop.
    eapply vec_at_int_in, Hcand.
Qed.

Lemma tournamentSelection_genes (ga : GeneticAlgorithm) (ind : Individual)
  (r r' : rng) :
  Forall genes_ok (population ga) ->
  tournamentSelection ga r = Ok (ind, r') -> genes_ok ind.
Proof.
  intros Hpop. apply tournament_loop_genes; [exact Hpop | constructor].
Qed.

Lemma vec_at_forall {A : Type} (P : A -> Prop) (v : list A) (i : nat) (x : A) :
  Forall P v -> vec_at v i = Ok x -> P x.
Proof.
  intros Hv Hx. rewrite Forall_forall in Hv. eapply Hv, vec_at_in, Hx.
Qed.

Lemma crossover_genes (ga : GeneticAlgorithm)
  (parent1 parent2 child1 child2 : Individual) (r r' : rng) :
  genes_ok parent1 -> genes_ok parent2 ->
  crossover ga parent1 parent2 r = Ok ((child1, child2), r') ->
  genes_ok child1 /\ genes_ok child2.
Proof.
  intros H1 H2 Hrun. unfold crossover in Hrun.
  inv_bind Hrun as u r1 Hu.
  destruct (u <? crossover_rate (config ga))%float.
  - inv_bind Hrun as [c1 c2] r2 Hloop. inv_ret Hrun.
    injection Hrun as -> ->. unfold genes_ok. cbn [chromosome].
    unfold for_range in Hloop.
    refine (for_each_invariant
              (fun s => Forall gene_ok (fst s) /\ Forall gene_ok (snd s))
              _ _ _ _ _ (c1, c2) _ _ Hloop);
      [|split; assumption].
    intros i [s1 s2] q [s1' s2'] q' [Hs1 Hs2] Hbody.
    unfold crossover_gene in Hbody. cbn [fst snd] in *.
    inv_bind Hbody as v q1 Hv. destruct (v <? 0.5)%float.
    + inv_bind Hbody as g2 q2 Hg2. inv_lift Hg2.
      inv_bind Hbody as c1' q3 Hc1. inv_lift Hc1.
      inv_bind Hbody as g1 q4 Hg1. inv_lift Hg1.
      inv_bind Hbody as c2' q5 Hc2. inv_lift Hc2.
      inv_ret Hbody. injection Hbody as -> ->.
      split.
      * eapply vec_set_forall; [exact Hs1 | | exact Hc1].
        eapply vec_at_forall; [exact H2 | exact Hg2].
      * eapply vec_set_forall; [exact Hs2 | | exact Hc2].
        eapply vec_at_forall; [exact H1 | exact Hg1].
    + inv_ret Hbody. injection Hbody as -> ->. split; assumption.
  - inv_ret Hrun. injection Hrun as -> ->. split; assumption.
Qed.

Lemma mutate_genes (ga : GeneticAlgorithm) (ind ind' : Individual)
  (r r' : rng) :
  genes_ok ind -> mutate ga ind r = Ok (ind', r') -> genes_ok ind'.
Proof.
  intros Hind Hrun. unfold mutate in Hrun.
  inv_bind Hrun as c r1 Hloop. inv_ret Hrun.
  unfold genes_ok. cbn [chromosome]. unfold for_range in Hloop.
  refine (for_each_invariant (Forall gene_ok) _ _ _ _ _ _ _ Hind Hloop).
  intros i s q s' q' Hs Hbody. unfold mutate_gene in Hbody.
  inv_bind Hbody as u q1 Hu.
  destruct (u <? mutation_rate (config ga))%float.
  - inv_bind Hbody as noise q2 Hnoise. inv_bind Hbody as g q3 Hg.
    inv_lift Hg. inv_lift Hbody.
    eapply vec_set_forall; [exact Hs | apply clamp_gene_ok | exact Hbody].
  - inv_ret Hbody. exact Hs.
Qed.

(** ** Offspring *)

Lemma make_offspring_spec (ga : GeneticAlgorithm) (need : nat) :
  forall (r r' : rng) (offspring : list Individual),
    make_offspring need ga r = Ok (offspring, r') ->
    length offspring = need /\
    (Forall genes_ok (population ga) -> Forall genes_ok offspring).
Proof.
  induction need as [| |need IH] using nat_ind2; intros r r' offspring Hrun.
  - cbn [make_offspring] in Hrun. inv_ret Hrun.
    split; [reflexivity | constructor].
  - cbn [make_offspring] in Hrun.
    inv_bind Hrun as p1 r1 Hp1. inv_bind Hrun as p2 r2 Hp2.
    inv_bind Hrun as [c1 c2] r3 Hcross.
    inv_bind Hrun as c1' r4 Hm1. inv_bind Hrun as c2' r5 Hm2.
    inv_ret Hrun.
    split; [reflexivity|]. intros Hpop.
    pose proof (tournamentSelection_genes _ _ _ _ Hpop Hp1) as Hg1.
    pose proof (tournamentSelection_genes _ _ _ _ Hpop Hp2) as Hg2.
    destruct (crossover_genes _ _ _ _ _ _ _ Hg1 Hg2 Hcross) as [Hc1 _].
    constructor; [|constructor]. exact (mutate_genes _ _ _ _ _ Hc1 Hm1).
  - cbn [make_offspring] in Hrun.
    inv_bind Hrun as p1 r1 Hp1. inv_bind Hrun as p2 r2 Hp2.
    inv_bind Hrun as [c1 c2] r3 Hcross.
    inv_bind Hrun as c1' r4 Hm1. inv_bind Hrun as c2' r5 Hm2.
    inv_bind Hrun as rest r6 Hrest. inv_ret Hrun.
    destruct (IH _ _ _ Hrest) as [Hlen Hgenes].
    split; [simpl; congruence|]. intros Hpop.
    pose proof (tournamentSelection_genes _ _ _ _ Hpop Hp1) as Hg1.
    pose proof (tournamentSelection_genes _ _ _ _ Hpop Hp2) as Hg2.
    destruct (crossover_genes _ _ _ _ _ _ _ Hg1 Hg2 Hcross) as [Hc1 Hc2].
    constructor; [exact (mutate_genes _ _ _ _ _ Hc1 Hm1)|].
    constructor; [exact (mutate_genes _ _ _ _ _ Hc2 Hm2)|].
    exact (Hgenes Hpop).
Qed.

(** ** Replacement and the generation loop *)

Lemma Forall_firstn_keep {A : Type} (P : A -> Prop) (n : nat) (l : list A) :
  Forall P l -> Forall P (firstn n l).
Proof.
  revert n. induction l as [|x l IH]; intros n Hl.
  - destruct n; constructor.
  - destruct n as [|n]; [constructor|].
    inversion Hl; subst. simpl. constructor; auto.
Qed.

Lemma sorted_forall (P : Individual -> Prop) (l : list Individual) :
  sort_permutes -> strict_weak_on fitness_gt l = true -> Forall P l ->
  Forall P (std_sort Individual fitness_gt l).
Proof.
  intros Hsort Hswo Hl.
  eapply Permutation_Forall; [|exact Hl].
  apply Permutation_sym, Hsort, Hswo.
Qed.

(** What [replacePopulation] leaves: the first [elites] of the sorted
    population, then sorted offspring up to [population_size]. *)
Lemma replacePopulation_spec (offspring : list Individual)
  (ga ga' : GeneticAlgorithm) :
  replacePopulation offspring ga = Ok ga' ->
  exists elites,
    strict_weak_on fitness_gt (population ga) = true /\
    strict_weak_on fitness_gt offspring = true /\
    Double.to_int (Double.of_int (population_size (config ga))
                   * elitism_rate (config ga)) = Some elites /\
    0 <= population_size (config ga) /\
    let kept := firstn (Z.to_nat elites)
                  (std_sort Individual fitness_gt (population ga)) in
    ga' = set_population ga
            (kept ++
             firstn (Z.to_nat (population_size (config ga)) - length kept)
               (std_sort Individual fitness_gt offspring)).
Proof.
  unfold replacePopulation.
  destruct (strict_weak_on fitness_gt (population ga)); [|discriminate].
  destruct (strict_weak_on fitness_gt offspring); [|discriminate].
  cbn [negb orb].
  destruct (Double.to_int _) as [elites|]; [|discriminate].
  destruct (Z.ltb_spec (population_size (config ga)) 0) as [|Hn];
    [discriminate|].
  intros H. injection H as <-. exists elites. auto.
Qed.

Lemma replacePopulation_length (offspring : list Individual)
  (ga ga' : GeneticAlgorithm) :
  sort_permutes ->
  length (population ga) = Z.to_nat (population_size (config ga)) ->
  length offspring = Z.to_nat (population_size (config ga)) ->
  replacePopulation offspring ga = Ok ga' ->
  length (population ga') = Z.to_nat (population_size (config ga)).
Proof.
  intros Hsort Hpop Hoff Hrun.
  destruct (replacePopulation_spec _ _ _ Hrun)
    as [elites (Hs1 & Hs2 & _ & _ & Hga)].
  cbv zeta in Hga. rewrite Hga. cbn [population set_population].
  rewrite length_app, !length_firstn.
  rewrite (Permutation_length (Hsort _ _ _ Hs1)).
  rewrite (Permutation_length (Hsort _ _ _ Hs2)). lia.
Qed.

Lemma replacePopulation_forall (P : Individual -> Prop)
  (offspring : list Individual) (ga ga' : GeneticAlgorithm) :
  sort_permutes ->
  Forall P (population ga) -> Forall P offspring ->
  replacePopulation offspring ga = Ok ga' ->
  Forall P (population ga').
Proof.
  intros Hsort Hpop Hoff Hrun.
  destruct (replacePopulation_spec _ _ _ Hrun)
    as [elites (Hs1 & Hs2 & _ & _ & Hga)].
  cbv zeta in Hga. rewrite Hga. cbn [population set_population].
  apply Forall_app. split; apply Forall_firstn_keep, sorted_forall; assumption.
Qed.

Lemma evaluate_genes (f : list float -> float) (l : list Individual) :
  Forall genes_ok l -> Forall genes_ok (map (evaluate f) l).
Proof.
  intros Hl. apply Forall_map. eapply Forall_impl; [|exact Hl].
  intros ind Hind. exact Hind.
Qed.

(** One generation: what it keeps and what it appends. *)
Lemma generation_spec (f : list float -> float) (ga ga' : GeneticAlgorithm)
  (r r' : rng) :
  generation f ga r = Ok (ga', r') ->
  config ga' = config ga /\
  chromosome_length ga' = chromosome_length ga /\
  fitness_function ga' = fitness_function ga /\
  best_fitness ga' = best_fitness ga /\
  best_individual ga' = best_individual ga /\
  best_fitness_history ga'
  = best_fitness_history ga ++ [best_fitness ga] /\
  length (avg_fitness_history ga') = S (length (avg_fitness_history ga)) /\
  (sort_permutes ->
   length (population ga) = Z.to_nat (population_size (config ga)) ->
   length (population ga') = Z.to_nat (population_size (config ga))) /\
  (sort_permutes -> Forall genes_ok (population ga) ->
   Forall genes_ok (population ga')).
Proof.
  unfold generation. intros Hrun.
  destruct (population_size (config ga) <? 0); [discriminate|].
  inv_bind Hrun as offspring r1 Hoff.
  inv_bind Hrun as ga1 r2 Hrep. inv_lift Hrep. inv_ret Hrun.
  destruct (make_offspring_spec _ _ _ _ _ Hoff) as [Hlen Hgenes].
  destruct (replacePopulation_spec _ _ _ Hrep)
    as [elites (_ & _ & _ & _ & Hga1)].
  cbv zeta in Hga1.
  assert (Hfields : config ga1 = config ga /\
                    chromosome_length ga1 = chromosome_length ga /\
                    fitness_function ga1 = fitness_function ga /\
                    best_fitness ga1 = best_fitness ga /\
                    best_individual ga1 = best_individual ga /\
                    best_fitness_history ga1 = best_fitness_history ga /\
                    avg_fitness_history ga1 = avg_fitness_history ga).
  { rewrite Hga1. repeat split. }
  destruct Hfields as (Hcfg & Hcl & Hff & Hbf & Hbi & Hbh & Hah).
  cbn [config chromosome_length fitness_function best_fitness best_individual
       best_fitness_history avg_fitness_history population push_history].
  repeat split; try assumption.
  - rewrite Hbh, Hbf. reflexivity.
  - rewrite length_app, Hah. simpl. lia.
  - intros Hsort Hpop.
    eapply replacePopulation_length; [exact Hsort | exact Hpop | | exact Hrep].
    rewrite length_map. exact Hlen.
  - intros Hsort Hpop.
    eapply replacePopulation_forall; [exact Hsort | exact Hpop | | exact Hrep].
    apply evaluate_genes, Hgenes, Hpop.
Qed.

Lemma generations_spec (f : list float -> float) (n : nat) :
  forall (ga ga' : GeneticAlgorithm) (r r' : rng),
    generations f n ga r = Ok (ga', r') ->
    config ga' = config ga /\
    best_fitness ga' = best_fitness ga /\
    best_individual ga' = best_individual ga /\
    best_fitness_history ga'
    = best_fitness_history ga ++ repeat (best_fitness ga) n /\
    length (avg_fitness_history ga')
    = (length (avg_fitness_history ga) + n)%nat /\
    (sort_permutes ->
     length (population ga) = Z.to_nat (population_size (config ga)) ->
     length (population ga') = Z.to_nat (population_size (config ga))) /\
    (sort_permutes -> Forall genes_ok (population ga) ->
     Forall genes_ok (population ga')).
Proof.
  induction n as [|n IH]; intros ga ga' r r' Hrun; cbn [generations] in Hrun.
  - inv_ret Hrun. rewrite app_nil_r, Nat.add_0_r. repeat split; auto.
  - inv_bind Hrun as ga1 r1 Hgen.
    destruct (generation_spec _ _ _ _ _ Hgen)
      as (Hcfg & _ & _ & Hbf & Hbi & Hbh & Hah & Hlen & Hgenes).
    destruct (IH _ _ _ _ Hrun)
      as (Hcfg' & Hbf' & Hbi' & Hbh' & Hah' & Hlen' & Hgenes').
    repeat split.
    + congruence.
    + congruence.
    + congruence.
    + rewrite Hbh', Hbh, Hbf, <- app_assoc. reflexivity.
    + rewrite Hah', Hah. lia.
    + intros Hsort Hpop. rewrite <- Hcfg. apply (Hlen' Hsort).
      rewrite Hcfg. exact (Hlen Hsort Hpop).
    + intros Hsort Hpop. exact (Hgenes' Hsort (Hgenes Hsort Hpop)).
Qed.

(** An individual whose fitness is the value of the fitness function on
    its chromosome stays so through the generations. *)
Lemma evaluate_evaluated (f : list float -> float) (l : list Individual) :
  Forall (fun ind => fitness ind = f (chromosome ind)) (map (evaluate f) l).
Proof.
  apply Forall_map, Forall_forall. intros ind _. reflexivity.
Qed.

Lemma generations_evaluated (f : list float -> float) (n : nat) :
  sort_permutes ->
  forall (ga ga' : GeneticAlgorithm) (r r' : rng),
    Forall (fun ind => fitness ind = f (chromosome ind)) (population ga) ->
    generations f n ga r = Ok (ga', r') ->
    Forall (fun ind => fitness ind = f (chromosome ind)) (population ga').
Proof.
  intros Hsort.
  induction n as [|n IH]; intros ga ga' r r' Hpop Hrun;
    cbn [generations] in Hrun.
  - inv_ret Hrun. exact Hpop.
  - inv_bind Hrun as ga1 r1 Hgen. eapply IH; [|exact Hrun].
    unfold generation in Hgen.
    destruct (population_size (config ga) <? 0); [discriminate|].
    inv_bind Hgen as offspring q1 Hoff.
    inv_bind Hgen as ga2 q2 Hrep. inv_lift Hrep. inv_ret Hgen.
    cbn [population push_history].
    eapply replacePopulation_forall;
      [exact Hsort | exact Hpop | apply evaluate_evaluated | exact Hrep].
Qed.

(** The constructor: [population_size] individuals of [chrom_length]
    zero genes, nothing recorded yet. *)
Lemma GeneticAlgorithm_new_spec (chrom_length : Z) (cfg : GAConfig)
  (ga : GeneticAlgorithm) :
  GeneticAlgorithm_new chrom_length cfg = Ok ga ->
  config ga = cfg /\
  length (population ga) = Z.to_nat (population_size cfg) /\
  0 <= population_size cfg /\
  best_fitness ga = 0%float /\
  best_fitness_history ga = [] /\ avg_fitness_history ga = [] /\
  Forall (fun ind => fitness ind = 0%float) (population ga).
Proof.
  unfold GeneticAlgorithm_new.
  destruct (Z.ltb_spec (population_size cfg) 0) as [|Hn]; [discriminate|].
  destruct (_ && _); [discriminate|].
  intros H. injection H as <-. cbn.
  repeat split; auto.
  - apply repeat_length.
  - apply Forall_forall. intros ind Hin. apply repeat_spec in Hin.
    subst. reflexivity.
Qed.

(** The state [evolve] returns is one the run reaches. *)
Lemma evolve_reaches_final (ga0 ga' : GeneticAlgorithm) (r0 r' : rng) :
  evolve ga0 r0 = Ok (ga', r') -> evolve_reaches ga0 r0 ga'.
Proof.
  unfold evolve. destruct (fitness_function ga0) as [f|] eqn:Hf;
    [|discriminate].
  intros Hrun. inv_bind Hrun as ga1 r1 Hinit.
  inv_bind Hrun as ga2 r2 Heval. inv_lift Heval.
  eapply reaches_generation; eauto.
Qed.

(** ** A run on a runnable configuration completes *)

Lemma strict_weak_on_intro {A : Type} (comp : A -> A -> bool) (l : list A) :
  (forall a, In a l -> comp a a = false) ->
  (forall a b c, In a l -> In b l -> In c l ->
     comp a b = true -> comp b c = true -> comp a c = true) ->
  (forall a b c, In a l -> In b l -> In c l ->
     incomparable comp a b = true -> incomparable comp b c = true ->
     incomparable comp a c = true) ->
  strict_weak_on comp l = true.
Proof.
  intros Hirr Htrans Hinc. unfold strict_weak_on.
  apply forallb_forall. intros a Ha.
  rewrite (Hirr a Ha). cbn [negb andb].
  apply forallb_forall. intros b Hb.
  apply forallb_forall. intros c Hc.
  apply andb_true_iff. split.
  - destruct (comp a b && comp b c) eqn:Hab; [|reflexivity].
    apply andb_true_iff in Hab. destruct Hab as [Hab Hbc].
    rewrite (Htrans a b c Ha Hb Hc Hab Hbc). reflexivity.
  - destruct (incomparable comp a b && incomparable comp b c) eqn:Hab;
      [|reflexivity].
    apply andb_true_iff in Hab. destruct Hab as [Hab Hbc].
    rewrite (Hinc a b c Ha Hb Hc Hab Hbc). reflexivity.
Qed.

(** On individuals whose fitness is not a NaN, both comparisons of the
    optimizer are strict weak orderings. *)
Lemma fitness_strict_weak (l : list Individual) :
  Forall (fun ind => (fitness ind <=? fitness ind)%float = true) l ->
  strict_weak_on fitness_lt l = true /\ strict_weak_on fitness_gt l = true.
Proof.
  intros Hl. rewrite Forall_forall in Hl.
  split; apply strict_weak_on_intro; unfold fitness_lt, fitness_gt,
    incomparable.
  - intros a _. apply double_ltb_irrefl.
  - intros a b c _ _ _. apply double_ltb_trans.
  - intros a b c _ Hb _ Hab Hbc.
    apply andb_true_iff in Hab, Hbc.
    destruct Hab as [Hab Hba], Hbc as [Hbc Hcb].
    apply negb_true_iff in Hab, Hba, Hbc, Hcb.
    rewrite (double_incomparable_trans _ _ _ (Hl b Hb) Hab Hba Hbc Hcb).
    rewrite (double_incomparable_trans _ _ _ (Hl b Hb) Hcb Hbc Hba Hab).
    reflexivity.
  - intros a _. apply double_ltb_irrefl.
  - intros a b c _ _ _ Hab Hbc. exact (double_ltb_trans _ _ _ Hbc Hab).
  - intros a b c _ Hb _ Hab Hbc.
    apply andb_true_iff in Hab, Hbc.
    destruct Hab as [Hab Hba], Hbc as [Hbc Hcb].
    apply negb_true_iff in Hab, Hba, Hbc, Hcb.
    rewrite (double_incomparable_trans (fitness c) (fitness b) (fitness a)
               (Hl b Hb) Hbc Hcb Hab Hba).
    rewrite (double_incomparable_trans (fitness a) (fitness b) (fitness c)
               (Hl b Hb) Hba Hab Hcb Hbc).
    reflexivity.
Qed.

Lemma scores_not_nan (func : list float -> float) (l : list Individual) :
  scores_in_unit func ->
  Forall (fun ind => fitness ind = func (chromosome ind)) l ->
  Forall (fun ind => (fitness ind <=? fitness ind)%float = true) l /\
  Forall (fun ind => (-1 <? fitness ind)%float = true) l.
Proof.
  intros Hunit Hl. split; (eapply Forall_impl; [|exact Hl]);
    intros ind Hind; rewrite Hind;
    pose proof (Hunit (chromosome ind)) as Hu;
    unfold Double.in_closed in Hu; apply andb_true_iff in Hu;
    destruct Hu as [H0 _].
  - exact (double_leb_refl_r _ _ H0).
  - exact (double_ltb_leb_trans (-1) 0 _ eq_refl H0).
Qed.

Lemma vec_at_total {A : Type} (v : list A) (i : nat) :
  (i < length v)%nat -> exists x, vec_at v i = Ok x.
Proof.
  intros Hi. unfold vec_at.
  destruct (nth_error v i) as [x|] eqn:Hn; [eauto|].
  apply nth_error_None in Hn. lia.
Qed.

Lemma vec_set_total {A : Type} (v : list A) (i : nat) (x : A) :
  (i < length v)%nat ->
  exists v', vec_set v i x = Ok v' /\ length v' = length v.
Proof.
  revert i. induction v as [|y v IH]; intros i Hi; [simpl in Hi; lia|].
  destruct i as [|i].
  - exists (x :: v). split; reflexivity.
  - destruct (IH i) as [v' [Hset Hlen]]; [simpl in Hi; lia|].
    exists (y :: v'). cbn [vec_set]. rewrite Hset. simpl.
    split; [reflexivity | congruence].
Qed.

Lemma randomDouble_total (lo hi : float) (r : rng) :
  (lo <=? hi)%float = true -> Double.is_finite (hi - lo) = true ->
  randomDouble lo hi r = Ok (uniform_real lo hi r).
Proof. intros H1 H2. unfold randomDouble. rewrite H1, H2. reflexivity. Qed.

Lemma randomDoubles_total (n : nat) (lo hi : float) :
  (lo <=? hi)%float = true -> Double.is_finite (hi - lo) = true ->
  forall r, exists xs r',
    randomDoubles n lo hi r = Ok (xs, r') /\ length xs = n.
Proof.
  intros H1 H2. induction n as [|n IH]; intros r.
  - exists [], r. split; reflexivity.
  - cbn [randomDoubles]. unfold bindM at 1.
    rewrite (randomDouble_total lo hi r H1 H2).
    destruct (uniform_real lo hi r) as [x r1].
    destruct (IH r1) as [xs [r2 [Hxs Hlen]]].
    exists (x :: xs), r2. unfold bindM. rewrite Hxs.
    split; [reflexivity | simpl; congruence].
Qed.

Lemma initialize_individuals_total (pop : list Individual) (len : Z) :
  0 <= len ->
  forall r, exists pop' r',
    initialize_individuals pop len (-1) 1 r = Ok (pop', r') /\
    Forall (fun ind => length (chromosome ind) = Z.to_nat len) pop'.
Proof.
  intros Hlen. induction pop as [|ind pop IH]; intros r.
  - exists [], r. split; [reflexivity | constructor].
  - cbn [initialize_individuals]. unfold bindM at 1, randomVector.
    destruct (Z.ltb_spec len 0) as [|_]; [lia|].
    destruct (randomDoubles_total (Z.to_nat len) (-1) 1 eq_refl eq_refl r)
      as [c [r1 [Hc Hclen]]].
    rewrite Hc.
    destruct (IH r1) as [pop' [r2 [Hpop Hall]]].
    exists ({| chromosome := c; fitness := 0 |} :: pop'), r2.
    unfold bindM. rewrite Hpop.
    split; [reflexivity|]. constructor; [exact Hclen | exact Hall].
Qed.

Lemma evaluateFitness_total (func : list float -> float)
  (ga : GeneticAlgorithm) :
  scores_in_unit func ->
  fitness_function ga = Some func -> population ga <> [] ->
  exists ga', evaluateFitness ga = Ok ga'.
Proof.
  intros Hunit Hf Hpop. unfold evaluateFitness. rewrite Hf.
  cbn [population set_population best_fitness].
  destruct (scores_not_nan func (map (evaluate func) (population ga)) Hunit
              (evaluate_evaluated func _)) as [Hnan _].
  rewrite (proj1 (fitness_strict_weak _ Hnan)). cbn [negb].
  destruct (population ga) as [|x l]; [contradiction|].
  cbn [map max_element].
  destruct (_ <? _)%float; eauto.
Qed.

(** ** Selection picks a member of the population *)

Lemma tournament_step (pop : list Individual) (r : rng) :
  uniform_int_in_range -> pop <> [] ->
  exists cand,
    bindM (randomInt 0 (Z.of_nat (length pop) - 1))
      (fun idx => lift (vec_at_int pop idx)) r
    = Ok (cand, snd (uniform_int 0 (Z.of_nat (length pop) - 1) r)) /\
    In cand pop.
Proof.
  intros Hint Hpop.
  assert (Hlen : (0 < length pop)%nat) by (destruct pop; [contradiction | simpl; lia]).
  unfold bindM, randomInt.
  destruct (Z.leb_spec 0 (Z.of_nat (length pop) - 1)) as [Hle|]; [|lia].
  pose proof (Hint 0 (Z.of_nat (length pop) - 1) r Hle) as Hidx.
  destruct (uniform_int 0 (Z.of_nat (length pop) - 1) r) as [idx r1].
  cbn [fst snd] in *. unfold lift, vec_at_int.
  destruct (Z.ltb_spec idx 0) as [|_]; [lia|].
  destruct (vec_at_total pop (Z.to_nat idx)) as [cand Hcand]; [lia|].
  rewrite Hcand. exists cand. split; [reflexivity|].
  eapply vec_at_in, Hcand.
Qed.

Lemma tournament_loop_member (n : nat) (pop : list Individual) :
  uniform_int_in_range -> pop <> [] ->
  forall best r, In best pop ->
    exists ind r', tournament_loop n pop best r = Ok (ind, r') /\ In ind pop.
Proof.
  intros Hint Hpop. induction n as [|n IH]; intros best r Hbest.
  - exists best, r. split; [reflexivity | exact Hbest].
  - cbn [tournament_loop].
    destruct (tournament_step pop r Hint Hpop) as [cand [Hstep Hcand]].
    unfold bindM in Hstep |- *.
    destruct (randomInt 0 (Z.of_nat (length pop) - 1) r) as [[idx r1]|e];
      [|discriminate].
    destruct (lift (vec_at_int pop idx) r1) as [[c r2]|e]; [|discriminate].
    injection Hstep as -> ->.
    apply IH. destruct (_ <? _)%float; assumption.
Qed.

Lemma tournamentSelection_total (ga : GeneticAlgorithm) (r : rng) :
  uniform_int_in_range -> population ga <> [] ->
  1 <= tournament_size (config ga) ->
  Forall (fun ind => (-1 <? fitness ind)%float = true) (population ga) ->
  exists ind r',
    tournamentSelection ga r = Ok (ind, r') /\ In ind (population ga).
Proof.
  intros Hint Hpop Hsize Hfit. unfold tournamentSelection.
  destruct (Z.to_nat (tournament_size (config ga))) as [|n] eqn:Hn; [lia|].
  cbn [tournament_loop].
  destruct (tournament_step (population ga) r Hint Hpop)
    as [cand [Hstep Hcand]].
  unfold bindM in Hstep |- *.
  destruct (randomInt 0 (Z.of_nat (length (population ga)) - 1) r)
    as [[idx r1]|e]; [|discriminate].
  destruct (lift (vec_at_int (population ga) idx) r1) as [[c r2]|e];
    [|discriminate].
  injection Hstep as -> ->.
  apply (tournament_loop_member n _ Hint Hpop).
  cbn [fitness]. rewrite Forall_forall in Hfit.
  rewrite (Hfit cand Hcand). exact Hcand.
Qed.

(** ** Crossover and mutation stay within the chromosome *)

Lemma for_each_total {S : Type} (I : S -> Prop) (body : nat -> S -> M S)
  (idxs : list nat) :
  (forall i s r, In i idxs -> I s ->
     exists s' r', body i s r = Ok (s', r') /\ I s') ->
  forall s r, I s ->
    exists s' r', for_each idxs body s r = Ok (s', r') /\ I s'.
Proof.
  induction idxs as [|i idxs IH]; intros Hbody s r Hs.
  - exists s, r. split; [reflexivity | exact Hs].
  - cbn [for_each]. unfold bindM.
    destruct (Hbody i s r (or_introl eq_refl) Hs) as [s1 [r1 [Hstep Hs1]]].
    rewrite Hstep. apply IH; [|exact Hs1].
    intros j s2 r2 Hj. apply Hbody. right. exact Hj.
Qed.

Lemma crossover_total (ga : GeneticAlgorithm) (parent1 parent2 : Individual)
  (r : rng) :
  length (chromosome parent1) = Z.to_nat (chromosome_length ga) ->
  length (chromosome parent2) = Z.to_nat (chromosome_length ga) ->
  exists child1 child2 r',
    crossover ga parent1 parent2 r = Ok ((child1, child2), r') /\
    length (chromosome child1) = Z.to_nat (chromosome_length ga) /\
    length (chromosome child2) = Z.to_nat (chromosome_length ga).
Proof.
  intros H1 H2. unfold crossover, bindM at 1.
  rewrite (randomDouble_total 0 1 r eq_refl eq_refl).
  destruct (uniform_real 0 1 r) as [u r1].
  destruct (u <? crossover_rate (config ga))%float.
  - unfold for_range.
    destruct (for_each_total
                (fun s => length (fst s) = Z.to_nat (chromosome_length ga) /\
                          length (snd s) = Z.to_nat (chromosome_length ga))
                (crossover_gene parent1 parent2)
                (seq 0 (Z.to_nat (chromosome_length ga))))
      with (s := (chromosome parent1, chromosome parent2)) (r := r1)
      as [[c1 c2] [r2 [Hloop [Hc1 Hc2]]]].
    + intros i [s1 s2] q Hi [Hs1 Hs2]. cbn [fst snd] in *.
      apply in_seq in Hi.
      unfold crossover_gene, bindM at 1.
      rewrite (randomDouble_total 0 1 q eq_refl eq_refl).
      destruct (uniform_real 0 1 q) as [v q1].
      destruct (v <? 0.5)%float.
      * destruct (vec_at_total (chromosome parent2) i) as [g2 Hg2]; [lia|].
        destruct (vec_at_total (chromosome parent1) i) as [g1 Hg1]; [lia|].
        destruct (vec_set_total s1 i g2) as [c1 [Hc1 Hl1]]; [lia|].
        destruct (vec_set_total s2 i g1) as [c2 [Hc2 Hl2]]; [lia|].
        exists (c1, c2), q1. cbn [fst snd].
        unfold bindM, lift, ret. cbn [fst snd].
        rewrite Hg2, Hc1, Hg1, Hc2.
        split; [reflexivity | split; congruence].
      * exists (s1, s2), q1. split; [reflexivity | split; assumption].
    + split; assumption.
    + cbn [fst snd] in *. unfold bindM. rewrite Hloop.
      eexists _, _, _. split; [reflexivity|]. split; assumption.
  - exists parent1, parent2, r1. split; [reflexivity | split; assumption].
Qed.

Lemma mutate_total (ga : GeneticAlgorithm) (individual : Individual)
  (r : rng) :
  (- mutation_strength (config ga) <=? mutation_strength (config ga))%float
  = true ->
  Double.is_finite
    (mutation_strength (config ga) - - mutation_strength (config ga)) = true ->
  length (chromosome individual) = Z.to_nat (chromosome_length ga) ->
  exists individual' r',
    mutate ga individual r = Ok (individual', r') /\
    length (chromosome individual') = Z.to_nat (chromosome_length ga).
Proof.
  intros Hs1 Hs2 Hlen. unfold mutate, for_range.
  destruct (for_each_total
              (fun c => length c = Z.to_nat (chromosome_length ga))
              (mutate_gene (config ga))
              (seq 0 (Z.to_nat (chromosome_length ga))))
    with (s := chromosome individual) (r := r)
    as [c [r1 [Hloop Hc]]].
  - intros i s q Hi Hsl. apply in_seq in Hi.
    unfold mutate_gene, bindM at 1.
    rewrite (randomDouble_total 0 1 q eq_refl eq_refl).
    destruct (uniform_real 0 1 q) as [u q1].
    destruct (u <? mutation_rate (config ga))%float.
    + unfold bindM at 1. rewrite (randomDouble_total _ _ q1 Hs1 Hs2).
      destruct (uniform_real _ _ q1) as [noise q2].
      destruct (vec_at_total s i) as [g Hg]; [lia|].
      destruct (vec_set_total s i (Utils.clamp (g + noise) (-5) 5))
        as [s' [Hset Hl']]; [lia|].
      exists s', q2. unfold bindM, lift. rewrite Hg, Hset.
      split; [reflexivity | congruence].
    + exists s, q1. split; [reflexivity | exact Hsl].
  - exact Hlen.
  - unfold bindM. rewrite Hloop.
    eexists _, _. split; [reflexivity | exact Hc].
Qed.

(** ** The generation loop completes *)

Lemma in_forall {A : Type} (P : A -> Prop) (l : list A) (x : A) :
  Forall P l -> In x l -> P x.
Proof. intros Hl Hx. rewrite Forall_forall in Hl. exact (Hl x Hx). Qed.

Lemma make_offspring_total (cfg : GAConfig) (len : Z)
  (func : list float -> float) (ga : GeneticAlgorithm) (need : nat) :
  uniform_int_in_range -> scores_in_unit func -> runnable cfg ->
  between_generations cfg len func ga ->
  forall r, exists offspring r',
    make_offspring need ga r = Ok (offspring, r') /\
    Forall (fun ind => length (chromosome ind) = Z.to_nat len) offspring.
Proof.
  intros Hint Hunit (Hn & Ht & Hs1 & Hs2 & _) (Hcfg & Hlen & Hsize & Hpop).
  assert (Hne : population ga <> []).
  { intros Hnil. rewrite Hnil in Hsize. simpl in Hsize. lia. }
  assert (Hfit : Forall (fun ind => (-1 <? fitness ind)%float = true)
                   (population ga)).
  { apply (scores_not_nan func _ Hunit).
    eapply Forall_impl; [|exact Hpop]. intros ind [_ H]. exact H. }
  assert (Hlens : Forall (fun ind => length (chromosome ind)
                                     = Z.to_nat (chromosome_length ga))
                    (population ga)).
  { eapply Forall_impl; [|exact Hpop]. intros ind [H _]. congruence. }
  rewrite <- Hcfg in Ht, Hs1, Hs2. rewrite <- Hlen.
  assert (Hpair : forall r, exists c1 c2 r',
             bindM (tournamentSelection ga) (fun parent1 =>
               bindM (tournamentSelection ga) (fun parent2 =>
                 bindM (crossover ga parent1 parent2) (fun cs =>
                   bindM (mutate ga (fst cs)) (fun child1' =>
                     bindM (mutate ga (snd cs)) (fun child2' =>
                       ret (child1', child2')))))) r
             = Ok ((c1, c2), r') /\
             length (chromosome c1) = Z.to_nat (chromosome_length ga) /\
             length (chromosome c2) = Z.to_nat (chromosome_length ga)).
  { intros r.
    destruct (tournamentSelection_total ga r Hint Hne Ht Hfit)
      as [p1 [r1 [Hp1 Hin1]]].
    destruct (tournamentSelection_total ga r1 Hint Hne Ht Hfit)
      as [p2 [r2 [Hp2 Hin2]]].
    destruct (crossover_total ga p1 p2 r2 (in_forall _ _ _ Hlens Hin1)
                (in_forall _ _ _ Hlens Hin2))
      as [c1 [c2 [r3 [Hcross [Hl1 Hl2]]]]].
    destruct (mutate_total ga c1 r3 Hs1 Hs2 Hl1) as [c1' [r4 [Hm1 Hl1']]].
    destruct (mutate_total ga c2 r4 Hs1 Hs2 Hl2) as [c2' [r5 [Hm2 Hl2']]].
    exists c1', c2', r5. unfold bindM.
    rewrite Hp1, Hp2, Hcross. cbn [fst snd]. rewrite Hm1, Hm2.
    split; [reflexivity | split; assumption]. }
  induction need as [| |need IH] using nat_ind2; intros r.
  - exists [], r. split; [reflexivity | constructor].
  - destruct (Hpair r) as [c1 [c2 [r' [Hrun [Hl1 _]]]]].
    exists [c1], r'. split; [|repeat constructor; exact Hl1].
    cbn [make_offspring]. unfold bindM in Hrun |- *.
    destruct (tournamentSelection ga r) as [[p1 r1]|]; [|discriminate].
    destruct (tournamentSelection ga r1) as [[p2 r2]|]; [|discriminate].
    destruct (crossover ga p1 p2 r2) as [[[d1 d2] r3]|]; [|discriminate].
    cbn [fst snd] in Hrun.
    destruct (mutate ga d1 r3) as [[d1' r4]|]; [|discriminate].
    destruct (mutate ga d2 r4) as [[d2' r5]|]; [|discriminate].
    unfold ret in *. injection Hrun as -> _ ->. reflexivity.
  - destruct (Hpair r) as [c1 [c2 [r' [Hrun [Hl1 Hl2]]]]].
    destruct (IH r') as [rest [r'' [Hrest Hall]]].
    exists (c1 :: c2 :: rest), r''.
    split; [|constructor; [exact Hl1 | constructor; [exact Hl2 | exact Hall]]].
    cbn [make_offspring]. unfold bindM in Hrun |- *.
    destruct (tournamentSelection ga r) as [[p1 r1]|]; [|discriminate].
    destruct (tournamentSelection ga r1) as [[p2 r2]|]; [|discriminate].
    destruct (crossover ga p1 p2 r2) as [[[d1 d2] r3]|]; [|discriminate].
    cbn [fst snd] in Hrun.
    destruct (mutate ga d1 r3) as [[d1' r4]|]; [|discriminate].
    destruct (mutate ga d2 r4) as [[d2' r5]|]; [|discriminate].
    unfold ret in *. injection Hrun as -> -> ->. rewrite Hrest. reflexivity.
Qed.

Lemma generation_total (cfg : GAConfig) (len : Z)
  (func : list float -> float) (ga : GeneticAlgorithm) (r : rng) :
  sort_permutes -> uniform_int_in_range -> scores_in_unit func ->
  runnable cfg ->
  between_generations cfg len func ga ->
  exists ga' r',
    generation func ga r = Ok (ga', r') /\
    between_generations cfg len func ga'.
Proof.
  intros Hsort Hint Hunit Hrun Hga.
  destruct (make_offspring_total cfg len func ga
              (Z.to_nat (population_size (config ga))) Hint Hunit Hrun Hga r)
    as [offspring [r1 [Hoff Hlens]]].
  destruct (make_offspring_spec _ _ _ _ _ Hoff) as [Hsize _].
  destruct Hrun as (Hn & _ & _ & _ & Hrate).
  destruct Hga as (Hcfg & Hlen & Hpopsize & Hpop).
  set (off := map (evaluate func) offspring).
  assert (Hoffev : Forall (fun ind => length (chromosome ind) = Z.to_nat len /\
                                      fitness ind = func (chromosome ind)) off).
  { apply Forall_map. eapply Forall_impl; [|exact Hlens].
    intros ind Hind. split; [exact Hind | reflexivity]. }
  assert (Hscored : forall l,
             Forall (fun ind => length (chromosome ind) = Z.to_nat len /\
                                fitness ind = func (chromosome ind)) l ->
             strict_weak_on fitness_gt l = true).
  { intros l Hl. apply fitness_strict_weak.
    apply (scores_not_nan func _ Hunit).
    eapply Forall_impl; [|exact Hl]. intros ind [_ H]. exact H. }
  assert (Hrep : exists ga1, replacePopulation off ga = Ok ga1).
  { unfold replacePopulation.
    rewrite (Hscored _ Hpop), (Hscored _ Hoffev). cbn [negb orb].
    rewrite Hcfg.
    destruct (elites_cast (population_size cfg) (elitism_rate cfg))
      as [elites [-> _]]; [lia | exact Hrate|].
    destruct (Z.ltb_spec (population_size cfg) 0) as [|_]; [lia|]. eauto. }
  destruct Hrep as [ga1 Hrep].
  eexists _, r1. split.
  - unfold generation. rewrite Hcfg.
    destruct (Z.ltb_spec (population_size cfg) 0) as [|_]; [lia|].
    rewrite Hcfg in Hoff. unfold bindM. rewrite Hoff.
    fold off. unfold lift. rewrite Hrep. reflexivity.
  - destruct (replacePopulation_spec _ _ _ Hrep)
      as [elites (_ & _ & _ & _ & Hga1)].
    unfold between_generations.
    cbn [config chromosome_length population push_history].
    split; [|split; [|split]].
    + rewrite Hga1. exact Hcfg.
    + rewrite Hga1. exact Hlen.
    + rewrite <- Hcfg.
      apply (replacePopulation_length off ga ga1 Hsort); [congruence | |exact Hrep].
      unfold off. rewrite length_map. exact Hsize.
    + exact (replacePopulation_forall _ off ga ga1 Hsort Hpop Hoffev Hrep).
Qed.

Lemma generations_total (cfg : GAConfig) (len : Z)
  (func : list float -> float) (n : nat) :
  sort_permutes -> uniform_int_in_range -> scores_in_unit func ->
  runnable cfg ->
  forall ga r, between_generations cfg len func ga ->
    exists ga' r', generations func n ga r = Ok (ga', r').
Proof.
  intros Hsort Hint Hunit Hrun.
  induction n as [|n IH]; intros ga r Hga.
  - exists ga, r. reflexivity.
  - destruct (generation_total cfg len func ga r Hsort Hint Hunit Hrun Hga)
      as [ga1 [r1 [Hgen Hga1]]].
    destruct (IH ga1 r1 Hga1) as [ga' [r' Hrest]].
    exists ga', r'. cbn [generations]. unfold bindM.
    rewrite Hgen. exact Hrest.
Qed.

(** On a runnable configuration, with a fitness function that scores in
    [[0, 1]] and a stream whose integer draws lie in the requested range,
    [evolve] on a constructed optimizer returns. *)
Lemma evolve_completes (chrom_length : Z) (cfg : GAConfig)
  (func : list float -> float) (ga0 : GeneticAlgorithm) (r0 : rng) :
  sort_permutes -> uniform_int_in_range -> scores_in_unit func ->
  runnable cfg ->
  GeneticAlgorithm_new chrom_length cfg = Ok ga0 ->
  exists ga' r', evolve (setFitnessFunction func ga0) r0 = Ok (ga', r').
Proof.
  intros Hsort Hint Hunit Hrun Hnew.
  pose proof Hrun as (Hn & _).
  destruct (GeneticAlgorithm_new_spec _ _ _ Hnew) as (Hcfg & Hsize & _).
  assert (Hlen : chromosome_length ga0 = chrom_length /\ 0 <= chrom_length).
  { unfold GeneticAlgorithm_new in Hnew.
    destruct (Z.ltb_spec (population_size cfg) 0); [discriminate|].
    destruct (Z.ltb_spec 0 (population_size cfg)); [|lia].
    destruct (Z.ltb_spec chrom_length 0); [discriminate|].
    injection Hnew as <-. split; [reflexivity | lia]. }
  destruct Hlen as [Hlen Hpos].
  unfold evolve. cbn [fitness_function setFitnessFunction].
  destruct (initialize_individuals_total (population ga0) chrom_length Hpos r0)
    as [pop [r1 [Hinit Hlens]]].
  destruct (initialize_individuals_spec _ _ _ _ _ _ _ Hinit) as [Hpoplen _].
  unfold bindM at 1, initializePopulation, bindM at 1.
  cbn [population chromosome_length setFitnessFunction].
  rewrite Hlen, Hinit. unfold ret at 1.
  set (ga1 := set_population (setFitnessFunction func ga0) pop).
  destruct (evaluateFitness_total func ga1 Hunit eq_refl) as [ga2 Heval].
  { unfold ga1. cbn [population set_population]. intros Hnil.
    rewrite Hnil in Hpoplen. simpl in Hpoplen. lia. }
  unfold bindM at 1, lift. rewrite Heval.
  destruct (evaluateFitness_spec _ _ Heval)
    as [f (Hf & Hpop2 & Hcfg2 & Hlen2 & _)].
  unfold ga1 in Hf, Hpop2, Hcfg2, Hlen2.
  cbn [fitness_function population config chromosome_length set_population
       setFitnessFunction] in Hf, Hpop2, Hcfg2, Hlen2.
  injection Hf as <-.
  apply (generations_total cfg chrom_length func _ Hsort Hint Hunit Hrun).
  unfold between_generations. split; [|split; [|split]].
  - congruence.
  - congruence.
  - rewrite Hpop2, length_map. congruence.
  - rewrite Hpop2. apply Forall_map. eapply Forall_impl; [|exact Hlens].
    intros ind Hind. split; [exact Hind | reflexivity].
Qed.

(** * Properties of the optimizer *)

Lemma evolve_reaches_config (ga0 ga : GeneticAlgorithm) (r0 : rng) :
  evolve_reaches ga0 r0 ga -> config ga = config ga0.
Proof.
  intros Hreach. destruct Hreach as
    [ga1 r1 Hinit | ga1 r1 ga2 Hinit Heval
     | f ga1 r1 ga2 k ga3 r3 Hf Hinit Heval Hk Hgens];
    destruct (initializePopulation_spec _ _ _ _ _ _ Hinit)
      as [pop [Hga1 _]]; subst ga1.
  - reflexivity.
  - destruct (evaluateFitness_spec _ _ Heval) as [f (_ & _ & Hcfg & _)].
    exact Hcfg.
  - destruct (evaluateFitness_spec _ _ Heval) as [f' (_ & _ & Hcfg & _)].
    destruct (generations_spec _ _ _ _ _ _ Hgens) as (Hcfg' & _).
    rewrite Hcfg', Hcfg. reflexivity.
Qed.

Lemma evolve_reaches_length (ga0 ga : GeneticAlgorithm) (r0 : rng) :
  sort_permutes ->
  length (population ga0) = Z.to_nat (population_size (config ga0)) ->
  evolve_reaches ga0 r0 ga ->
  length (population ga) = Z.to_nat (population_size (config ga0)).
Proof.
  intros Hsort Hlen0 Hreach. destruct Hreach as
    [ga1 r1 Hinit | ga1 r1 ga2 Hinit Heval
     | f ga1 r1 ga2 k ga3 r3 Hf Hinit Heval Hk Hgens];
    destruct (initializePopulation_spec _ _ _ _ _ _ Hinit)
      as [pop [Hga1 [Hlen1 _]]]; subst ga1.
  - cbn [population set_population]. congruence.
  - destruct (evaluateFitness_spec _ _ Heval) as [f (_ & Hpop & _)].
    rewrite Hpop, length_map. cbn [population set_population]. congruence.
  - destruct (evaluateFitness_spec _ _ Heval)
      as [f' (_ & Hpop & Hcfg & _)].
    destruct (generations_spec _ _ _ _ _ _ Hgens)
      as (_ & _ & _ & _ & _ & Hlen & _).
    rewrite Hcfg in Hlen. cbn [config set_population] in Hlen.
    apply (Hlen Hsort).
    rewrite Hpop, length_map. cbn [population set_population]. congruence.
Qed.

(** C5: from a constructed optimizer, every state a run of [evolve]
    passes through (after initialization, after the first evaluation,
    after each generation's replacement) holds exactly [population_size]
    individuals; each offspring buffer is filled to exactly the number of
    individuals asked for, [population_size], the second child of the last
    pair being dropped when that number is odd; and, for an elitism rate
    in [[0, 1]], replacement keeps the first floor(N * elitism_rate)
    individuals of the sorted population, a number between 0 and N,
    followed by the best offspring that fill the population up to N. *)
Theorem population_size_invariant (chrom_length : Z) (cfg : GAConfig)
  (func : list float -> float) (ga0 : GeneticAlgorithm) (r0 : rng) :
  sort_permutes ->
  population_size cfg <= INT_MAX ->
  Double.in_closed 0 1 (elitism_rate cfg) = true ->
  GeneticAlgorithm_new chrom_length cfg = Ok ga0 ->
  Z.of_nat (length (population ga0)) = population_size cfg /\
  (forall ga, evolve_reaches (setFitnessFunction func ga0) r0 ga ->
     config ga = cfg /\
     Z.of_nat (length (population ga)) = population_size cfg) /\
  (forall ga r offspring r',
     config ga = cfg ->
     make_offspring (Z.to_nat (population_size cfg)) ga r
     = Ok (offspring, r') ->
     Z.of_nat (length offspring) = population_size cfg) /\
  (forall ga offspring ga',
     config ga = cfg ->
     Z.of_nat (length (population ga)) = population_size cfg ->
     replacePopulation offspring ga = Ok ga' ->
     exists elites,
       Double.floor (Double.of_int (population_size cfg) * elitism_rate cfg)
       = Some elites /\
       0 <= elites <= population_size cfg /\
       population ga'
       = firstn (Z.to_nat elites)
           (std_sort Individual fitness_gt (population ga))
         ++ firstn (Z.to_nat (population_size cfg - elites))
              (std_sort Individual fitness_gt offspring)).
Proof.
  intros Hsort Hmax Hrate Hnew.
  destruct (GeneticAlgorithm_new_spec _ _ _ Hnew)
    as (Hcfg & Hlen & Hn & _).
  split; [lia|]. split; [|split].
  - intros ga Hreach.
    pose proof (evolve_reaches_config _ _ _ Hreach) as Hc.
    cbn [config setFitnessFunction] in Hc.
    split; [congruence|].
    pose proof (evolve_reaches_length (setFitnessFunction func ga0) ga r0
                  Hsort) as Hl.
    cbn [config population setFitnessFunction] in Hl.
    rewrite Hcfg in Hl. rewrite (Hl Hlen Hreach). lia.
  - intros ga r offspring r' _ Hoff.
    destruct (make_offspring_spec _ _ _ _ _ Hoff) as [Hl _].
    rewrite Hl. lia.
  - intros ga offspring ga' Hc Hsize Hrep.
    destruct (replacePopulation_spec _ _ _ Hrep)
      as [elites (Hswo & _ & Hcast & _ & Hga)].
    rewrite Hc in Hcast, Hga.
    destruct (elites_cast (population_size cfg) (elitism_rate cfg))
      as [k [Hk Hbound]]; [lia | exact Hrate |].
    rewrite Hcast in Hk. injection Hk as <-.
    exists elites. split; [|split; [exact Hbound|]].
    + apply to_int_floor; [|exact Hcast].
      apply mul_nonneg; [apply of_int_nonneg; exact Hn|].
      apply leb_zero_nonneg.
      unfold Double.in_closed in Hrate. apply andb_true_iff in Hrate.
      exact (proj1 Hrate).
    + cbv zeta in Hga. rewrite Hga. cbn [population set_population].
      rewrite length_firstn, (Permutation_length (Hsort _ _ _ Hswo)).
      f_equal. f_equal. lia.
Qed.

Lemma nth_repeat_same (b : float) (n i : nat) :
  (i < n)%nat -> nth i (repeat b n) 0%float = b.
Proof.
  revert i. induction n as [|n IH]; intros i Hi; [lia|].
  destruct i as [|i]; [reflexivity|]. simpl. apply IH. lia.
Qed.

Lemma initializePopulation_genes (ga ga1 : GeneticAlgorithm) (r r1 : rng) :
  uniform_real_in_range ->
  initializePopulation (-1) 1 ga r = Ok (ga1, r1) ->
  Forall genes_ok (population ga1).
Proof.
  intros Hrng Hinit. unfold initializePopulation in Hinit.
  inv_bind Hinit as pop q Hpop. inv_ret Hinit.
  cbn [population set_population].
  exact (initialize_individuals_genes _ _ _ _ _ Hrng Hpop).
Qed.

(** C10: in every state a run of [evolve] passes through, the final one
    included, every gene of every individual of the population lies in
    [[-5, 5]], provided the stream's real draws lie in the requested
    range and the sort permutes. *)
Theorem genes_stay_in_range (ga0 : GeneticAlgorithm) (r0 : rng) :
  sort_permutes -> uniform_real_in_range ->
  (forall ga, evolve_reaches ga0 r0 ga -> Forall genes_ok (population ga)) /\
  (forall ga' r', evolve ga0 r0 = Ok (ga', r') ->
     Forall genes_ok (population ga')).
Proof.
  intros Hsort Hrng.
  assert (Hreach : forall ga, evolve_reaches ga0 r0 ga ->
                     Forall genes_ok (population ga)).
  { intros ga Hr. destruct Hr as
      [ga1 r1 Hinit | ga1 r1 ga2 Hinit Heval
       | f ga1 r1 ga2 k ga3 r3 Hf Hinit Heval Hk Hgens].
    all: pose proof (initializePopulation_genes _ _ _ _ Hrng Hinit) as Hpop1.
    - exact Hpop1.
    - destruct (evaluateFitness_spec _ _ Heval) as [f (_ & Hpop & _)].
      rewrite Hpop. apply evaluate_genes, Hpop1.
    - destruct (evaluateFitness_spec _ _ Heval) as [f' (_ & Hpop & _)].
      destruct (generations_spec _ _ _ _ _ _ Hgens)
        as (_ & _ & _ & _ & _ & _ & Hgenes).
      apply (Hgenes Hsort). rewrite Hpop. apply evaluate_genes, Hpop1. }
  split; [exact Hreach|].
  intros ga' r' Hrun. apply Hreach, (evolve_reaches_final _ _ _ _ Hrun).
Qed.

(** C2, amended: an individual that has not been evaluated, whether
    default-constructed, constructed with a size, held by a freshly
    constructed optimizer or just written by [initializePopulation], has
    fitness exactly 0.0, which is itself a valid score and no sentinel;
    what keeps selection from reading it is the order of [evolve]: after
    the first evaluation and after every generation, each individual of
    the population selection draws from carries the value of the fitness
    function on its chromosome. *)
Theorem unevaluated_fitness_is_zero (chrom_length : Z) (cfg : GAConfig)
  (func : list float -> float) (ga0 ga1 : GeneticAlgorithm) (r r1 : rng) :
  sort_permutes ->
  GeneticAlgorithm_new chrom_length cfg = Ok ga0 ->
  initializePopulation (-1) 1 (setFitnessFunction func ga0) r = Ok (ga1, r1) ->
  fitness Individual_default = 0%float /\
  (forall size, fitness (Individual_sized size) = 0%float) /\
  Forall (fun ind => fitness ind = 0%float) (population ga0) /\
  Forall (fun ind => fitness ind = 0%float) (population ga1) /\
  (forall ga2 k ga3 r3,
     evaluateFitness ga1 = Ok ga2 ->
     generations func k ga2 r1 = Ok (ga3, r3) ->
     Forall (fun ind => fitness ind = func (chromosome ind))
       (population ga3)).
Proof.
  intros Hsort Hnew Hinit.
  destruct (GeneticAlgorithm_new_spec _ _ _ Hnew)
    as (_ & _ & _ & _ & _ & _ & Hzero).
  destruct (initializePopulation_spec _ _ _ _ _ _ Hinit)
    as [pop [Hga1 [_ Hfit]]].
  split; [reflexivity|]. split; [reflexivity|]. split; [exact Hzero|].
  split; [rewrite Hga1; exact Hfit|].
  intros ga2 k ga3 r3 Heval Hgens.
  eapply generations_evaluated; [exact Hsort | | exact Hgens].
  destruct (evaluateFitness_spec _ _ Heval) as [f (Hf & Hpop & _)].
  rewrite Hga1 in Hf. cbn [fitness_function set_population setFitnessFunction]
    in Hf.
  injection Hf as <-. rewrite Hpop. apply evaluate_evaluated.
Qed.

(** After the first evaluation the generations never touch the best-ever
    record: [evolve] returns the best fitness of the initial population,
    or 0.0 when no initial fitness is above it. *)
Lemma evolve_best_is_initial_best (ga0 ga' : GeneticAlgorithm) (r0 r' : rng) :
  evolve ga0 r0 = Ok (ga', r') ->
  exists ga1 r1 ga2,
    initializePopulation (-1) 1 ga0 r0 = Ok (ga1, r1) /\
    evaluateFitness ga1 = Ok ga2 /\
    best_fitness ga' = best_fitness ga2 /\
    best_individual ga' = best_individual ga2.
Proof.
  unfold evolve. destruct (fitness_function ga0) as [f|]; [|discriminate].
  intros Hrun. inv_bind Hrun as ga1 r1 Hinit.
  inv_bind Hrun as ga2 r2 Heval. inv_lift Heval.
  destruct (generations_spec _ _ _ _ _ _ Hrun) as (_ & Hbf & Hbi & _).
  exists ga1, r1, ga2. auto.
Qed.


(** * Utils: clamp, normalize, mean, stddev and the classification metrics *)

(** [Utils::clamp] with [min <= max]: the result lies in the range; a value
    of the range is returned (up to the sign of a zero), a value below
    [min] gives [min], and a value that is not below [max], a NaN
    included, gives [max]. *)
Theorem clamp_cases (value lo hi : float) :
  (lo <=? hi)%float = true ->
  Double.in_closed lo hi (Utils.clamp value lo hi) = true /\
  (Double.in_closed lo hi value = true ->
   (Utils.clamp value lo hi =? value)%float = true) /\
  ((value <? lo)%float = true -> Utils.clamp value lo hi = lo) /\
  ((value <? hi)%float = false ->
   (Utils.clamp value lo hi =? hi)%float = true).
Proof.
  intros Hlh. split; [apply clamp_in_range; exact Hlh|].
  unfold Utils.clamp, Double.std_max, Double.std_min, Double.in_closed.
  split; [|split].
  - intros Hin. apply andb_prop in Hin. destruct Hin as [Hlo Hhi].
    destruct (value <? hi)%float eqn:Hv.
    + destruct (lo <? value)%float eqn:Hl.
      * apply (double_eqb_refl_of_leb _ _ Hhi).
      * apply double_eqb_of_leb_not_ltb; assumption.
    + assert (Heq : (value =? hi)%float = true)
        by (apply double_eqb_of_leb_not_ltb; assumption).
      destruct (lo <? hi)%float eqn:Hl.
      * rewrite double_eqb_sym. exact Heq.
      * apply double_eqb_of_leb_not_ltb; [exact Hlo|].
        destruct (lo <? value)%float eqn:Hlv; [|reflexivity].
        rewrite (double_ltb_leb_trans _ _ _ Hlv Hhi) in Hl. discriminate.
  - intros Hv. rewrite (double_ltb_leb_trans _ _ _ Hv Hlh).
    destruct (lo <? value)%float eqn:Hl; [|reflexivity].
    pose proof (double_ltb_trans _ _ _ Hl Hv) as H.
    rewrite double_ltb_irrefl in H. discriminate.
  - intros Hv. rewrite Hv. destruct (lo <? hi)%float eqn:Hl.
    + apply (double_eqb_refl_of_leb hi hi), (double_leb_refl_r _ _ Hlh).
    + apply double_eqb_of_leb_not_ltb; assumption.
Qed.

Lemma sub_finite (x y : float) :
  Double.is_finite (x - y) = true ->
  Double.is_finite x = true /\ Double.is_finite y = true.
Proof.
  unfold Double.is_finite. rewrite FloatAxioms.sub_spec. unfold SF64sub.
  destruct (Prim2SF x) as [sx|sx| |sx mx ex];
    destruct (Prim2SF y) as [sy|sy| |sy my ey]; cbn [SFsub];
    try (intros H; discriminate H); auto;
    destruct sx, sy; try (intros H; discriminate H); auto.
Qed.

Lemma not_below_tiny (d : float) :
  Double.is_finite d = true -> (d <? Utils.tiny)%float = false ->
  exists m e, Prim2SF d = S754_finite false m e.
Proof.
  unfold Double.is_finite. rewrite FloatAxioms.ltb_spec.
  change (Prim2SF Utils.tiny) with (S754_finite false 7737125245533627 (-86)).
  destruct (Prim2SF d) as [s|s| |s m e]; intros Hfin H;
    try discriminate Hfin.
  - destruct s; discriminate H.
  - destruct s; [discriminate H|]. eauto.
Qed.

(** [Utils::normalize]: a range narrower than [1e-10] (an inverted one
    included) maps every value to 0; on a finite range of at least that
    width, [min] maps to exactly 0 and [max] to exactly 1. *)
Theorem normalize_endpoints (lo hi : float) :
  (forall value, (hi - lo <? Utils.tiny)%float = true ->
     Utils.normalize value lo hi = 0%float) /\
  (Double.is_finite (hi - lo) = true ->
   (hi - lo <? Utils.tiny)%float = false ->
   Utils.normalize lo lo hi = 0%float /\
   Utils.normalize hi lo hi = 1%float).
Proof.
  unfold Utils.normalize. split.
  - intros value H. rewrite H. reflexivity.
  - intros Hfin Hwide. rewrite Hwide.
    destruct (sub_finite _ _ Hfin) as [_ Hlo].
    destruct (not_below_tiny _ Hfin Hwide) as (m & e & Hd).
    split; apply Prim2SF_inj; rewrite FloatAxioms.div_spec; unfold SF64div.
    + rewrite (sub_self lo Hlo), Hd. reflexivity.
    + rewrite Hd, SFdiv_self. reflexivity.
Qed.

(** [Utils::mean] of no value is 0 (no division by a zero size);
    [Utils::stddev] of fewer than two values is 0, and it is never
    negative (a NaN apart, it is [>= 0]). *)
Theorem stddev_not_negative (vec : list float) :
  Utils.mean [] = 0%float /\
  ((length vec <= 1)%nat -> Utils.stddev vec = 0%float) /\
  (Utils.stddev vec <? 0)%float = false.
Proof.
  split; [reflexivity|]. unfold Utils.stddev.
  destruct (Nat.leb_spec (length vec) 1) as [Hle|Hgt].
  - split; reflexivity.
  - split; [lia|]. apply nonneg_not_negative, sqrt_nonneg.
Qed.

(** ** The confusion matrix *)

Lemma int_add_ok (a b : Z) :
  INT_MIN <= a + b <= INT_MAX -> int_add a b = Ok (a + b).
Proof.
  intros H. unfold int_add, in_int.
  destruct (Z.leb_spec INT_MIN (a + b)); [|lia].
  destruct (Z.leb_spec (a + b) INT_MAX); [|lia]. reflexivity.
Qed.

Lemma count_pairs_cons (p a x y : Z) (predictions actual : list Z) :
  count_pairs p a (x :: predictions) (y :: actual)
  = (if (x =? p) && (y =? a) then 1 else 0)
    + count_pairs p a predictions actual.
Proof.
  unfold count_pairs. cbn [combine filter fst snd].
  destruct ((x =? p) && (y =? a)); cbn [length]; lia.
Qed.

Lemma count_pairs_nonneg (p a : Z) (predictions actual : list Z) :
  0 <= count_pairs p a predictions actual.
Proof. unfold count_pairs. lia. Qed.

(** The four counters after the loop of [calculateMetrics]. *)
Lemma count_predictions_spec (predictions : list Z) :
  forall (rest pre : list Z) (m : Utils.ClassificationMetrics),
    (length predictions <= length rest)%nat ->
    0 <= Utils.true_positive m -> 0 <= Utils.true_negative m ->
    0 <= Utils.false_positive m -> 0 <= Utils.false_negative m ->
    Utils.true_positive m + Utils.true_negative m + Utils.false_positive m
    + Utils.false_negative m + Z.of_nat (length predictions) <= INT_MAX ->
    exists m',
      Utils.count_predictions predictions (pre ++ rest) (length pre) m
      = Ok m' /\
      Utils.true_positive m'
      = Utils.true_positive m + count_pairs 1 1 predictions rest /\
      Utils.true_negative m'
      = Utils.true_negative m + count_pairs 0 0 predictions rest /\
      Utils.false_positive m'
      = Utils.false_positive m + count_pairs 1 0 predictions rest /\
      Utils.false_negative m'
      = Utils.false_negative m + count_pairs 0 1 predictions rest /\
      (binary_labels predictions ->
       binary_labels (firstn (length predictions) rest) ->
       Utils.true_positive m' + Utils.true_negative m'
       + Utils.false_positive m' + Utils.false_negative m'
       = Utils.true_positive m + Utils.true_negative m
         + Utils.false_positive m + Utils.false_negative m
         + Z.of_nat (length predictions)).
Proof.
  unfold INT_MAX.
  induction predictions as [|p ps IH]; intros rest pre m Hlen Htp Htn Hfp Hfn Hmax.
  - exists m. split; [reflexivity|]. unfold count_pairs. cbn.
    repeat split; lia.
  - destruct rest as [|a rest]; [simpl in Hlen; lia|].
    cbn [length] in Hlen, Hmax.
    assert (Hstep : exists m1,
               Utils.count_prediction p (pre ++ a :: rest) (length pre) m
               = Ok m1 /\
               Utils.true_positive m1
               = Utils.true_positive m
                 + (if (p =? 1) && (a =? 1) then 1 else 0) /\
               Utils.true_negative m1
               = Utils.true_negative m
                 + (if (p =? 0) && (a =? 0) then 1 else 0) /\
               Utils.false_positive m1
               = Utils.false_positive m
                 + (if (p =? 1) && (a =? 0) then 1 else 0) /\
               Utils.false_negative m1
               = Utils.false_negative m
                 + (if (p =? 0) && (a =? 1) then 1 else 0)).
    { unfold Utils.count_prediction. rewrite vec_at_app_here.
      cbn [bind].
      destruct (Z.eqb_spec p 1) as [->|Hp1];
        [|destruct (Z.eqb_spec p 0) as [->|Hp0]].
      - destruct (Z.eqb_spec a 1) as [->|Ha1];
          [|destruct (Z.eqb_spec a 0) as [->|Ha0]]; cbn [bind Z.eqb andb].
        + rewrite int_add_ok by (unfold INT_MIN, INT_MAX; lia).
          eexists. split; [reflexivity|]. cbn. repeat split; lia.
        + rewrite int_add_ok by (unfold INT_MIN, INT_MAX; lia).
          eexists. split; [reflexivity|]. cbn. repeat split; lia.
        + eexists. split; [reflexivity|]. repeat split; lia.
      - destruct (Z.eqb_spec a 0) as [->|Ha0];
          [|destruct (Z.eqb_spec a 1) as [->|Ha1]]; cbn [bind Z.eqb andb].
        + rewrite int_add_ok by (unfold INT_MIN, INT_MAX; lia).
          eexists. split; [reflexivity|]. cbn. repeat split; lia.
        + rewrite int_add_ok by (unfold INT_MIN, INT_MAX; lia).
          eexists. split; [reflexivity|]. cbn. repeat split; lia.
        + eexists. split; [reflexivity|]. repeat split; lia.
      - cbn [bind andb]. eexists. split; [reflexivity|]. repeat split; lia. }
    destruct Hstep as (m1 & Hrun1 & H1 & H2 & H3 & H4).
    destruct (IH rest (pre ++ [a]) m1) as (m' & Hrun & T1 & T2 & T3 & T4 & Tall).
    + lia.
    + rewrite H1. destruct ((p =? 1) && (a =? 1)); lia.
    + rewrite H2. destruct ((p =? 0) && (a =? 0)); lia.
    + rewrite H3. destruct ((p =? 1) && (a =? 0)); lia.
    + rewrite H4. destruct ((p =? 0) && (a =? 1)); lia.
    + rewrite H1, H2, H3, H4.
      destruct (Z.eqb_spec p 1) as [->|Hp1];
        [|destruct (Z.eqb_spec p 0) as [->|Hp0]];
        destruct (Z.eqb_spec a 1) as [->|Ha1];
        try destruct (Z.eqb_spec a 0) as [->|Ha0]; cbn [andb Z.eqb]; lia.
    + exists m'. split.
      * cbn [Utils.count_predictions]. rewrite Hrun1. cbn [bind].
        rewrite length_app, <- app_assoc in Hrun. cbn [length app] in Hrun.
        rewrite Nat.add_1_r in Hrun. exact Hrun.
      * rewrite !count_pairs_cons.
        split; [lia|]. split; [lia|]. split; [lia|]. split; [lia|].
        intros Hbp Hba. cbn [length firstn] in Hba.
        inversion Hbp as [|? ? Hp Hps]; subst.
        inversion Hba as [|? ? Ha Has]; subst.
        pose proof (Tall Hps Has) as Ht.
        destruct Hp as [-> | ->], Ha as [-> | ->];
          cbn in H1, H2, H3, H4; cbn [length]; lia.
Qed.

Lemma zero_ratio (n : Z) :
  0 < n < 2 ^ 53 -> (Double.of_int 0 / Double.of_int n)%float = 0%float.
Proof.
  intros Hn. apply Prim2SF_inj. rewrite FloatAxioms.div_spec.
  destruct (of_int_exact n Hn) as (m & e & -> & _).
  reflexivity.
Qed.

(** What [ClassificationMetrics::calculate] computes from counters that
    are not negative: the counters are kept, the three ratios lie in
    [[0, 1]], and the F1 score is 0 when there is no true positive. *)
Lemma calculate_scores (m : Utils.ClassificationMetrics) :
  0 <= Utils.true_positive m -> 0 <= Utils.true_negative m ->
  0 <= Utils.false_positive m -> 0 <= Utils.false_negative m ->
  Utils.true_positive m + Utils.true_negative m + Utils.false_positive m
  + Utils.false_negative m <= INT_MAX ->
  exists m',
    Utils.calculate m = Ok m' /\
    Utils.true_positive m' = Utils.true_positive m /\
    Utils.true_negative m' = Utils.true_negative m /\
    Utils.false_positive m' = Utils.false_positive m /\
    Utils.false_negative m' = Utils.false_negative m /\
    Double.in_closed 0 1 (Utils.accuracy m') = true /\
    Double.in_closed 0 1 (Utils.precision m') = true /\
    Double.in_closed 0 1 (Utils.recall m') = true /\
    (Utils.true_positive m = 0 -> Utils.f1_score m' = 0%float) /\
    (Utils.true_positive m + Utils.true_negative m + Utils.false_positive m
     + Utils.false_negative m = 0 ->
     Utils.accuracy m' = 0%float /\ Utils.precision m' = 0%float /\
     Utils.recall m' = 0%float /\ Utils.f1_score m' = 0%float).
Proof.
  intros Htp Htn Hfp Hfn Hmax. unfold INT_MAX in Hmax.
  assert (Hbig : 2 ^ 31 - 1 < 2 ^ 53) by reflexivity.
  unfold Utils.calculate.
  repeat (rewrite int_add_ok by (unfold INT_MIN, INT_MAX; lia); cbn [bind]).
  set (total := Utils.true_positive m + Utils.true_negative m
                + Utils.false_positive m + Utils.false_negative m) in *.
  destruct (Z.eqb_spec total 0) as [H0|H0].
  - eexists. split; [reflexivity|]. cbn.
    repeat split; reflexivity.
  - eexists. split; [reflexivity|].
    cbn [Utils.true_positive Utils.true_negative Utils.false_positive
         Utils.false_negative Utils.accuracy Utils.precision Utils.recall
         Utils.f1_score Utils.with_scores].
    split; [reflexivity|]. split; [reflexivity|]. split; [reflexivity|].
    split; [reflexivity|].
    split; [apply int_ratio_in_unit; lia|].
    split.
    { destruct (Z.ltb_spec 0 (Utils.true_positive m + Utils.false_positive m));
        [apply int_ratio_in_unit; lia | reflexivity]. }
    split.
    { destruct (Z.ltb_spec 0 (Utils.true_positive m + Utils.false_negative m));
        [apply int_ratio_in_unit; lia | reflexivity]. }
    split; [|intros Hz; contradiction].
    intros Hz. rewrite Hz.
    assert (Hp : (if 0 <? 0 + Utils.false_positive m
                  then (Double.of_int 0
                        / Double.of_int (0 + Utils.false_positive m))%float
                  else 0%float) = 0%float).
    { destruct (Z.ltb_spec 0 (0 + Utils.false_positive m));
        [apply zero_ratio; lia | reflexivity]. }
    assert (Hr : (if 0 <? 0 + Utils.false_negative m
                  then (Double.of_int 0
                        / Double.of_int (0 + Utils.false_negative m))%float
                  else 0%float) = 0%float).
    { destruct (Z.ltb_spec 0 (0 + Utils.false_negative m));
        [apply zero_ratio; lia | reflexivity]. }
    rewrite Hp, Hr. reflexivity.
Qed.

(** The run of [calculateMetrics] on predictions matched by labels. *)
Lemma calculateMetrics_run (predictions actual : list Z) :
  (length predictions <= length actual)%nat ->
  Z.of_nat (length predictions) <= INT_MAX ->
  exists m0 m,
    Utils.calculateMetrics predictions actual = Ok m /\
    Utils.calculate m0 = Ok m /\
    Utils.true_positive m0 = count_pairs 1 1 predictions actual /\
    Utils.true_negative m0 = count_pairs 0 0 predictions actual /\
    Utils.false_positive m0 = count_pairs 1 0 predictions actual /\
    Utils.false_negative m0 = count_pairs 0 1 predictions actual /\
    Utils.true_positive m0 + Utils.true_negative m0
    + Utils.false_positive m0 + Utils.false_negative m0
    <= Z.of_nat (length predictions) /\
    (binary_labels predictions ->
     binary_labels (firstn (length predictions) actual) ->
     Utils.true_positive m0 + Utils.true_negative m0
     + Utils.false_positive m0 + Utils.false_negative m0
     = Z.of_nat (length predictions)).
Proof.
  intros Hlen Hmax. unfold Utils.calculateMetrics.
  destruct (count_predictions_spec predictions actual []
              {| Utils.true_positive := 0; Utils.true_negative := 0;
                 Utils.false_positive := 0; Utils.false_negative := 0;
                 Utils.accuracy := 0; Utils.precision := 0;
                 Utils.recall := 0; Utils.f1_score := 0 |} Hlen)
    as (m0 & Hrun & T1 & T2 & T3 & T4 & Tall);
    try (cbn [Utils.true_positive Utils.true_negative Utils.false_positive
              Utils.false_negative]; lia).
  cbn [app length] in Hrun. rewrite Hrun. cbn [bind].
  cbn [Utils.true_positive Utils.true_negative Utils.false_positive
       Utils.false_negative] in T1, T2, T3, T4, Tall.
  assert (Hsum : count_pairs 1 1 predictions actual
                 + count_pairs 0 0 predictions actual
                 + count_pairs 1 0 predictions actual
                 + count_pairs 0 1 predictions actual
                 <= Z.of_nat (length predictions)).
  { clear. revert actual.
    induction predictions as [|p ps IH]; intros [|a actual];
      try (unfold count_pairs; cbn; lia).
    rewrite !count_pairs_cons. cbn [length]. specialize (IH actual).
    destruct (Z.eqb_spec p 1); destruct (Z.eqb_spec p 0);
      destruct (Z.eqb_spec a 1); destruct (Z.eqb_spec a 0);
      cbn [andb]; lia. }
  pose proof (count_pairs_nonneg 1 1 predictions actual).
  pose proof (count_pairs_nonneg 0 0 predictions actual).
  pose proof (count_pairs_nonneg 1 0 predictions actual).
  pose proof (count_pairs_nonneg 0 1 predictions actual).
  destruct (calculate_scores m0) as (m & Hcalc & _); try lia.
  exists m0, m. split; [exact Hcalc|]. split; [exact Hcalc|].
  split; [lia|]. split; [lia|]. split; [lia|]. split; [lia|].
  split; [lia|]. intros Hp Ha. rewrite (Tall Hp Ha). lia.
Qed.

(** [Utils::calculateMetrics] on predictions matched by at least as many
    labels: the four counters are the numbers of positions holding the
    pairs (1,1), (0,0), (1,0) and (0,1) of prediction and label; positions
    holding any other value are counted nowhere, and on 0/1 data the
    counters add up to the number of predictions. *)
Theorem calculateMetrics_counts (predictions actual : list Z) :
  (length predictions <= length actual)%nat ->
  Z.of_nat (length predictions) <= INT_MAX ->
  exists m,
    Utils.calculateMetrics predictions actual = Ok m /\
    Utils.true_positive m = count_pairs 1 1 predictions actual /\
    Utils.true_negative m = count_pairs 0 0 predictions actual /\
    Utils.false_positive m = count_pairs 1 0 predictions actual /\
    Utils.false_negative m = count_pairs 0 1 predictions actual /\
    Utils.true_positive m + Utils.true_negative m + Utils.false_positive m
    + Utils.false_negative m <= Z.of_nat (length predictions) /\
    (binary_labels predictions ->
     binary_labels (firstn (length predictions) actual) ->
     Utils.true_positive m + Utils.true_negative m + Utils.false_positive m
     + Utils.false_negative m = Z.of_nat (length predictions)).
Proof.
  intros Hlen Hmax.
  destruct (calculateMetrics_run predictions actual Hlen Hmax)
    as (m0 & m & Hrun & Hcalc & T1 & T2 & T3 & T4 & Tle & Tall).
  pose proof (count_pairs_nonneg 1 1 predictions actual).
  pose proof (count_pairs_nonneg 0 0 predictions actual).
  pose proof (count_pairs_nonneg 1 0 predictions actual).
  pose proof (count_pairs_nonneg 0 1 predictions actual).
  destruct (calculate_scores m0) as (m' & Hcalc' & C1 & C2 & C3 & C4 & _);
    try lia.
  rewrite Hcalc in Hcalc'. injection Hcalc' as <-.
  exists m. split; [exact Hrun|].
  rewrite C1, C2, C3, C4. auto 10.
Qed.

(** [Utils::calculateMetrics] on predictions matched by at least as many
    labels: accuracy, precision and recall are doubles in [[0, 1]] (no
    division by zero occurs: each ratio is guarded), the F1 score is 0
    when there is no true positive, and all four scores are 0 when no
    position is counted, the empty input included. *)
Theorem calculateMetrics_scores (predictions actual : list Z) :
  (length predictions <= length actual)%nat ->
  Z.of_nat (length predictions) <= INT_MAX ->
  exists m,
    Utils.calculateMetrics predictions actual = Ok m /\
    Double.in_closed 0 1 (Utils.accuracy m) = true /\
    Double.in_closed 0 1 (Utils.precision m) = true /\
    Double.in_closed 0 1 (Utils.recall m) = true /\
    (Utils.true_positive m = 0 -> Utils.f1_score m = 0%float) /\
    (Utils.true_positive m + Utils.true_negative m + Utils.false_positive m
     + Utils.false_negative m = 0 ->
     Utils.accuracy m = 0%float /\ Utils.precision m = 0%float /\
     Utils.recall m = 0%float /\ Utils.f1_score m = 0%float).
Proof.
  intros Hlen Hmax.
  destruct (calculateMetrics_run predictions actual Hlen Hmax)
    as (m0 & m & Hrun & Hcalc & T1 & T2 & T3 & T4 & Tle & Tall).
  pose proof (count_pairs_nonneg 1 1 predictions actual).
  pose proof (count_pairs_nonneg 0 0 predictions actual).
  pose proof (count_pairs_nonneg 1 0 predictions actual).
  pose proof (count_pairs_nonneg 0 1 predictions actual).
  destruct (calculate_scores m0)
    as (m' & Hcalc' & C1 & C2 & C3 & C4 & Ha & Hp & Hr & Hf & Hz); try lia.
  rewrite Hcalc in Hcalc'. injection Hcalc' as <-.
  exists m. split; [exact Hrun|].
  rewrite C1, C2, C3, C4. auto 10.
Qed.

(** * MLP: the buffers, a fresh network, accuracy and the fitness function *)

Lemma same_network_refl (m : MLP) : same_network m m.
Proof. unfold same_network. auto 10. Qed.

Lemma activate_same (m1 m2 : MLP) :
  activation_type m1 = activation_type m2 -> activate m1 = activate m2.
Proof. unfold activate. intros ->. reflexivity. Qed.

(** The forward pass reads of the buffers only their sizes. *)
Lemma forward_layers_same (m1 m2 : MLP) (ws : list (list (list float))) :
  activation_type m1 = activation_type m2 ->
  forall (prev : list float) (bs bufs1 bufs2 : list (list float)),
    length bufs1 = length ws ->
    shape_b bufs1 = shape_b bufs2 ->
    forward_layers m1 prev ws bs bufs1 = forward_layers m2 prev ws bs bufs2.
Proof.
  intros Hact.
  induction ws as [|w ws IH]; intros prev bs bufs1 bufs2 Hlen Hshape.
  - destruct bufs1; [|discriminate]. destruct bufs2; [|discriminate].
    reflexivity.
  - destruct bufs1 as [|b1 bufs1]; [discriminate|].
    destruct bufs2 as [|b2 bufs2]; [discriminate|].
    unfold shape_b in Hshape. cbn [map] in Hshape.
    injection Hshape as H1 H2. cbn [length] in Hlen.
    cbn [forward_layers]. destruct bs as [|b bs]; [reflexivity|].
    rewrite (activate_same m1 m2 Hact), H1.
    destruct (forward_neurons _ prev w b (seq 0 (length b2))) as [cur|e];
      [|reflexivity].
    cbn [bind]. rewrite (IH cur bs bufs1 bufs2); [reflexivity | lia | exact H2].
Qed.

Lemma well_formed_buffers (m : MLP) :
  well_formed m -> length (layer_outputs m) = S (length (weights m)).
Proof.
  intros (H2 & _ & _ & Hw & _ & Ho).
  apply shape_b_length in Ho. apply shape_w_length in Hw.
  rewrite Ho, Hw. unfold zero_outputs. rewrite length_map.
  clear - H2. induction (layer_sizes m) as [|a l IH]; [simpl in H2; lia|].
  destruct l as [|b l]; [simpl in H2; lia|].
  destruct l as [|c l]; [reflexivity|].
  rewrite zero_weights_cons. cbn [length] in *. rewrite IH by lia.
  reflexivity.
Qed.

(** [forward] on two networks of the same parameters: the same result,
    and again two networks of the same parameters. *)
Lemma forward_same (m1 m2 : MLP) (input : list float) :
  well_formed m1 -> same_network m1 m2 ->
  fst (forward input m1) = fst (forward input m2) /\
  same_network (snd (forward input m1)) (snd (forward input m2)).
Proof.
  intros Hwf Hsame. pose proof Hsame as (HL & Hact & Hp & Hw & Hb & Ho).
  pose proof (well_formed_buffers m1 Hwf) as Hbuf.
  unfold forward. rewrite <- HL, <- Hw, <- Hb.
  destruct (layer_sizes m1) as [|n0 l] eqn:HL1.
  { destruct Hwf as (H2 & _). rewrite HL1 in H2. simpl in H2. lia. }
  destruct (negb (Z.of_nat (length input) =? n0)); [split; auto|].
  destruct (layer_outputs m1) as [|b1 bufs1] eqn:Ho1; [discriminate|].
  destruct (layer_outputs m2) as [|b2 bufs2] eqn:Ho2; [discriminate|].
  unfold shape_b in Ho. cbn [map] in Ho. injection Ho as _ Ho.
  cbn [length] in Hbuf.
  rewrite (forward_layers_same m1 m2 (weights m1) Hact input (biases m1)
             bufs1 bufs2 ltac:(lia) Ho).
  destruct (forward_layers m2 input (weights m1) (biases m1) bufs2)
    as [outs|e]; cbn [fst snd]; (split; [reflexivity|]);
    unfold same_network, shape_b;
    cbn [layer_sizes activation_type total_params
         weights biases layer_outputs set_outputs map];
    rewrite ?Ho; repeat split; congruence.
Qed.

Lemma forward_keeps_params (m : MLP) (input : list float) :
  layer_sizes (snd (forward input m)) = layer_sizes m /\
  activation_type (snd (forward input m)) = activation_type m /\
  total_params (snd (forward input m)) = total_params m /\
  weights (snd (forward input m)) = weights m /\
  biases (snd (forward input m)) = biases m.
Proof.
  unfold forward.
  destruct (layer_sizes m) as [|n0 l] eqn:HL; [cbn [snd]; auto|].
  destruct (negb _); [cbn [snd]; auto|].
  destruct (layer_outputs m) as [|b bufs]; [cbn [snd]; auto|].
  destruct (forward_layers m input (weights m) (biases m) bufs);
    cbn [snd set_outputs layer_sizes activation_type total_params weights
         biases]; auto.
Qed.

(** The result of [forward] does not depend on what earlier calls left in
    the buffers: a second call on the same input returns the same output
    and leaves the network as the first did, any later call returns what
    it would have returned before, and an input of the wrong width is
    rejected with the network untouched. *)
Theorem forward_repeatable (m : MLP) (input : list float) :
  well_formed m ->
  Z.of_nat (length input) = hd 0 (layer_sizes m) ->
  exists out m',
    forward input m = (Ok out, m') /\
    forward input m' = (Ok out, m') /\
    (forall input2, fst (forward input2 m') = fst (forward input2 m)) /\
    (forall input3, Z.of_nat (length input3) <> hd 0 (layer_sizes m) ->
       forward input3 m = (Err InputSizeMismatch, m) /\
       forward input3 m' = (Err InputSizeMismatch, m')).
Proof.
  intros Hwf Hin.
  destruct (forward_spec m input Hwf Hin) as [outs [Hrun Hshape]].
  set (out := network_values m input (weights m) (biases m)) in *.
  set (m' := set_outputs m (input :: outs)) in *.
  assert (Hwf' : well_formed m')
    by (apply set_outputs_well_formed; assumption).
  assert (Hsame : same_network m' m).
  { destruct Hwf as (_ & _ & _ & _ & _ & Ho).
    unfold same_network, m'.
    cbn [layer_sizes activation_type total_params weights biases
         layer_outputs set_outputs].
    rewrite Hshape, Ho. auto 10. }
  exists out, m'. split; [exact Hrun|]. split; [|split].
  - destruct (forward_spec m' input Hwf') as [outs' [Hrun' _]].
    { exact Hin. }
    destruct (forward_same m' m input Hwf' Hsame) as [Hfst _].
    rewrite Hrun, Hrun' in Hfst. cbn [fst] in Hfst.
    rewrite Hrun'. f_equal; [exact Hfst|].
    (* the buffers: the same layers are computed again *)
    unfold forward in Hrun, Hrun'.
    destruct (layer_sizes m) as [|n0 l] eqn:HL; [discriminate|].
    change (layer_sizes m') with (layer_sizes m) in Hrun'. rewrite HL in Hrun'.
    destruct (negb _); [discriminate|].
    change (layer_outputs m') with (input :: outs) in Hrun'.
    change (weights m') with (weights m) in Hrun'.
    change (biases m') with (biases m) in Hrun'.
    destruct (layer_outputs m) as [|b0 bufs] eqn:Hbufs; [discriminate|].
    assert (Hls : forward_layers m' input (weights m) (biases m) outs
                  = forward_layers m input (weights m) (biases m) bufs).
    { apply forward_layers_same; [reflexivity| |].
      - pose proof (well_formed_buffers m' Hwf') as Hb.
        change (layer_outputs m') with (input :: outs) in Hb.
        change (weights m') with (weights m) in Hb.
        cbn [length] in Hb. lia.
      - destruct Hwf as (_ & _ & _ & _ & _ & Ho). rewrite Hbufs, HL in Ho.
        rewrite <- Hshape in Ho. unfold shape_b in Ho. cbn [map] in Ho.
        injection Ho as _ Ho. symmetry. exact Ho. }
    cbv iota in Hrun'. rewrite Hls in Hrun'.
    destruct (forward_layers m input (weights m) (biases m) bufs)
      as [outs2|e]; [|discriminate].
    injection Hrun as _ Hm. injection Hrun' as _ Hm'.
    rewrite <- Hm', Hm. reflexivity.
  - intros input2. exact (proj1 (forward_same m' m input2 Hwf' Hsame)).
  - intros input3 Hne. unfold forward.
    change (layer_sizes m') with (layer_sizes m).
    destruct (layer_sizes m) as [|n0 l] eqn:HL.
    { destruct Hwf as (H2 & _). rewrite HL in H2. simpl in H2. lia. }
    cbn [hd] in Hne.
    destruct (Z.eqb_spec (Z.of_nat (length input3)) n0); [contradiction|].
    split; reflexivity.
Qed.

(** ** A freshly constructed network *)

Lemma zero_term (x : float) :
  Double.is_finite x = true -> (0 + x * 0)%float = 0%float.
Proof.
  unfold Double.is_finite. intros Hx. apply Prim2SF_inj.
  rewrite FloatAxioms.add_spec, FloatAxioms.mul_spec.
  change (Prim2SF 0) with (S754_zero false).
  destruct (Prim2SF x) as [s|s| |s m e]; try discriminate;
    destruct s; reflexivity.
Qed.

Lemma nth_repeat_zero (j n : nat) : nth j (repeat 0%float n) 0%float = 0%float.
Proof.
  revert j. induction n as [|n IH]; intros [|j]; cbn; auto.
Qed.

Lemma map_const_seq {A : Type} (c : A) (s n : nat) :
  map (fun _ => c) (seq s n) = repeat c n.
Proof.
  revert s. induction n as [|n IH]; intros s; cbn; [reflexivity|].
  rewrite IH. reflexivity.
Qed.

Lemma layer_values_zero (act : float -> float) (prev : list float) (a b : nat) :
  Forall (fun x => Double.is_finite x = true) prev ->
  layer_values act prev (repeat (repeat 0%float b) a) (repeat 0%float b)
  = repeat (act 0%float) b.
Proof.
  intros Hfin. unfold layer_values. rewrite repeat_length.
  rewrite <- (map_const_seq (act 0%float) 0 b).
  apply map_ext. intros j. f_equal. rewrite nth_repeat_zero.
  revert a. induction Hfin as [|x prev Hx Hprev IH]; intros a;
    [reflexivity|].
  destruct a as [|a]; [reflexivity|].
  cbn [repeat combine fold_left fst snd].
  rewrite nth_repeat_zero, (zero_term x Hx). apply IH.
Qed.

Lemma sigmoid_zero : exp (PrimFloat.opp 0) = 1%float -> sigmoid 0 = 0.5%float.
Proof. unfold sigmoid. intros ->. reflexivity. Qed.

Lemma network_values_zero (m : MLP) (layers : list Z) :
  (2 <= length layers)%nat ->
  Double.is_finite (activate m 0) = true ->
  forall input : list float,
    Forall (fun x => Double.is_finite x = true) input ->
    network_values m input (zero_weights layers) (zero_biases layers)
    = repeat (sigmoid 0) (Z.to_nat (last layers 0)).
Proof.
  intros Hlen Hact.
  induction layers as [|a layers IH]; [simpl in Hlen; lia|].
  destruct layers as [|b layers]; [simpl in Hlen; lia|].
  intros input Hin.
  rewrite zero_weights_cons, zero_biases_cons.
  destruct layers as [|c layers].
  - cbn [zero_weights zero_biases network_values last].
    apply layer_values_zero. exact Hin.
  - change (last (a :: b :: c :: layers) 0) with (last (b :: c :: layers) 0).
    rewrite <- (IH ltac:(simpl; lia)
                  (layer_values (activate m) input
                     (repeat (repeat 0%float (Z.to_nat b)) (Z.to_nat a))
                     (repeat 0%float (Z.to_nat b)))).
    + rewrite (zero_weights_cons b c). reflexivity.
    + rewrite layer_values_zero by exact Hin.
      apply Forall_forall. intros x Hx. apply repeat_spec in Hx.
      rewrite Hx. exact Hact.
Qed.

Lemma concat_repeat_zero (a b : nat) :
  concat (repeat (repeat 0%float b) a) = repeat 0%float (a * b).
Proof.
  induction a as [|a IH]; [reflexivity|].
  cbn [repeat concat]. rewrite IH, <- repeat_app. reflexivity.
Qed.

Lemma param_count_nonneg (layers : list Z) :
  Forall (fun n => 0 <= n) layers -> 0 <= param_count layers.
Proof.
  induction layers as [|a layers IH]; intros Hpos; [reflexivity|].
  destruct layers as [|b layers]; [reflexivity|].
  inversion Hpos as [|? ? Ha Hrest]; subst.
  inversion Hrest as [|? ? Hb _]; subst.
  rewrite param_count_cons. specialize (IH Hrest). nia.
Qed.

Lemma encode_zero (layers : list Z) :
  Forall (fun n => 0 <= n) layers ->
  encode_layers (zero_weights layers) (zero_biases layers)
  = Ok (repeat 0%float (Z.to_nat (param_count layers))).
Proof.
  induction layers as [|a layers IH]; intros Hpos; [reflexivity|].
  destruct layers as [|b layers]; [reflexivity|].
  inversion Hpos as [|? ? Ha Hrest]; subst.
  inversion Hrest as [|? ? Hb _]; subst.
  rewrite zero_weights_cons, zero_biases_cons, param_count_cons.
  cbn [encode_layers]. rewrite (IH Hrest). cbn [bind].
  rewrite concat_repeat_zero, <- !repeat_app. do 2 f_equal.
  pose proof (param_count_nonneg _ Hrest).
  rewrite !Z2Nat.inj_add, Z2Nat.inj_mul by nia. lia.
Qed.

Lemma argmax_scan_constant (output : list float) (idxs : list nat) :
  Forall (fun i => (nth 0 output 0 <? nth i output 0)%float = false) idxs ->
  argmax_scan output 0 idxs = 0%nat.
Proof.
  induction idxs as [|i idxs IH]; intros H; [reflexivity|].
  inversion H as [|? ? Hi Hrest]; subst.
  cbn [argmax_scan]. rewrite Hi. apply IH, Hrest.
Qed.

Lemma class_of_halves (n : nat) :
  class_of_output (repeat 0.5%float n)
  = if (n =? 1)%nat then 1 else 0.
Proof.
  destruct n as [|[|n]]; [reflexivity | reflexivity |].
  cbn [repeat class_of_output Nat.eqb].
  rewrite argmax_scan_constant; [reflexivity|].
  apply Forall_forall. intros i Hi.
  change (0.5 :: 0.5 :: repeat 0.5 n)%float with (repeat 0.5%float (S (S n))).
  apply in_seq in Hi. cbn [length] in Hi. rewrite repeat_length in Hi.
  rewrite (nth_repeat_same 0.5%float (S (S n)) i) by lia.
  reflexivity.
Qed.

(** A network as the constructor leaves it holds [P] zeros, where [P] is
    its chromosome length, the sum of [n_i * n_{i+1} + n_{i+1}]; on every
    finite input it outputs exactly 0.5 on each output unit, and so
    predicts class 1 when it has one output unit (the threshold is
    inclusive) and class 0 otherwise. *)
Theorem fresh_network (layers : list Z) (act : ActivationType) (m : MLP)
  (input : list float) :
  MLP_new layers act = Ok m ->
  exp (PrimFloat.opp 0) = 1%float ->
  Double.is_finite (activate m 0) = true ->
  Forall (fun x => Double.is_finite x = true) input ->
  Z.of_nat (length input) = hd 0 layers ->
  getChromosomeLength m = param_count layers /\
  encodeChromosome m = Ok (repeat 0%float (Z.to_nat (param_count layers))) /\
  exists m',
    forward input m
    = (Ok (repeat 0.5%float (Z.to_nat (last layers 0))), m') /\
    predict input m = (Ok (if last layers 0 =? 1 then 1 else 0), m').
Proof.
  intros Hnew Hexp Hact Hfin Hin.
  destruct (MLP_new_well_formed _ _ _ Hnew) as (Hwf & HL & _).
  assert (Hw : weights m = zero_weights layers /\
               biases m = zero_biases layers).
  { unfold MLP_new in Hnew.
    destruct (length layers <? 2)%nat; [discriminate|].
    destruct (count_params layers 0); [|discriminate].
    destruct (forallb _ layers); [|discriminate].
    injection Hnew as <-. split; reflexivity. }
  destruct Hw as [Hw Hb].
  pose proof Hwf as (H2 & Hpos & Hp & _). rewrite HL in H2, Hpos, Hp.
  split; [exact Hp|]. split.
  { unfold encodeChromosome. rewrite Hw, Hb. apply encode_zero, Hpos. }
  destruct (forward_spec m input Hwf) as [outs [Hrun _]].
  { rewrite HL. exact Hin. }
  rewrite Hw, Hb, (network_values_zero m layers H2 Hact input Hfin) in Hrun.
  rewrite (sigmoid_zero Hexp) in Hrun.
  eexists. split; [exact Hrun|].
  unfold predict. rewrite Hrun, class_of_halves. do 2 f_equal.
  assert (Hlast : 0 <= last layers 0).
  { clear - Hpos H2. destruct layers as [|a l]; [simpl in H2; lia|].
    rewrite Forall_forall in Hpos. apply Hpos.
    destruct (@exists_last _ (a :: l)) as [l' [x Hx]]; [discriminate|].
    rewrite Hx, last_last. apply in_or_app. right. left. reflexivity. }
  destruct (Z.eqb_spec (last layers 0) 1) as [->|Hne]; [reflexivity|].
  destruct (Nat.eqb_spec (Z.to_nat (last layers 0)) 1) as [H1|]; [lia|].
  reflexivity.
Qed.

(** [MLP::relu] never returns a negative number or a NaN: a NaN argument
    gives 0, as does every argument that is not positive. *)
Theorem relu_not_negative (x : float) :
  (0 <=? relu x)%float = true /\
  ((0 <? x)%float = false -> relu x = 0%float).
Proof.
  unfold relu, Double.std_max.
  destruct (0 <? x)%float eqn:H.
  - split; [apply double_ltb_leb, H | discriminate].
  - split; reflexivity.
Qed.

(** ** Accuracy and the fitness function *)

Lemma forward_ok_well_formed (m m' : MLP) (x out : list float) :
  well_formed m -> forward x m = (Ok out, m') -> well_formed m'.
Proof.
  intros Hwf Hrun.
  assert (Hin : Z.of_nat (length x) = hd 0 (layer_sizes m)).
  { unfold forward in Hrun.
    destruct (layer_sizes m) as [|n0 l]; [discriminate|].
    destruct (Z.eqb_spec (Z.of_nat (length x)) n0) as [H|_];
      [exact H | discriminate]. }
  destruct (forward_spec m x Hwf Hin) as [outs [Hspec Hshape]].
  rewrite Hspec in Hrun. injection Hrun as _ <-.
  apply set_outputs_well_formed; assumption.
Qed.

Lemma same_network_trans (m1 m2 m3 : MLP) :
  same_network m1 m2 -> same_network m2 m3 -> same_network m1 m3.
Proof.
  unfold same_network. intros (A1 & A2 & A3 & A4 & A5 & A6)
    (B1 & B2 & B3 & B4 & B5 & B6). repeat split; congruence.
Qed.

Lemma same_network_sym (m1 m2 : MLP) : same_network m1 m2 -> same_network m2 m1.
Proof.
  unfold same_network. intros (A1 & A2 & A3 & A4 & A5 & A6).
  repeat split; congruence.
Qed.

Lemma forward_same_network (m : MLP) (x : list float) :
  well_formed m -> same_network (snd (forward x m)) m.
Proof.
  intros Hwf.
  destruct (forward_keeps_params m x) as (A1 & A2 & A3 & A4 & A5).
  unfold same_network. repeat split; try assumption.
  unfold forward.
  destruct (layer_sizes m) as [|n0 l] eqn:HL; [reflexivity|].
  destruct (Z.eqb_spec (Z.of_nat (length x)) n0) as [Hin|];
    [|reflexivity].
  cbn [negb].
  destruct (forward_spec m x Hwf) as [outs [Hspec Hshape]].
  { rewrite HL. exact Hin. }
  unfold forward in Hspec. rewrite HL, Hin, Z.eqb_refl in Hspec.
  cbn [negb] in Hspec.
  destruct (layer_outputs m) as [|b bufs] eqn:Hb; [discriminate Hspec|].
  destruct (forward_layers m x (weights m) (biases m) bufs) as [outs'|e];
    [|discriminate].
  injection Hspec as _ Hm. cbn [snd set_outputs layer_outputs].
  destruct Hwf as (_ & _ & _ & _ & _ & Ho). rewrite Hb, HL in Ho.
  rewrite HL in Hshape. rewrite Ho, <- Hshape, Hm. reflexivity.
Qed.

(** The loop of [evaluateAccuracy] on rows of the input width. *)
Lemma count_correct_run (X : list (list float)) :
  forall (y : list Z) (c : Z) (m : MLP),
    well_formed m ->
    Forall (fun x => Z.of_nat (length x) = hd 0 (layer_sizes m)) X ->
    exists c' m',
      count_correct X y c m = (Ok c', m') /\
      c <= c' <= c + Z.of_nat (length X) /\
      well_formed m' /\ same_network m' m.
Proof.
  induction X as [|x X IH]; intros y c m Hwf Hrows.
  - exists c, m. cbn. split; [reflexivity|]. split; [lia|].
    split; [exact Hwf | apply same_network_refl].
  - inversion Hrows as [|? ? Hx HX]; subst.
    destruct y as [|yi y].
    + exists c, m. cbn [count_correct]. split; [reflexivity|].
      split; [lia|]. split; [exact Hwf | apply same_network_refl].
    + cbn [count_correct]. unfold predict.
      destruct (forward_spec m x Hwf Hx) as [outs [Hrun Hshape]].
      rewrite Hrun.
      set (m1 := set_outputs m (x :: outs)).
      assert (Hwf1 : well_formed m1)
        by (apply set_outputs_well_formed; assumption).
      assert (Hsame1 : same_network m1 m).
      { pose proof (forward_same_network m x Hwf) as H.
        rewrite Hrun in H. exact H. }
      destruct (IH y
                  (if class_of_output
                        (network_values m x (weights m) (biases m)) =? yi
                   then c + 1 else c) m1 Hwf1)
        as (c' & m' & Hrest & Hc & Hwf' & Hsame').
      { destruct Hsame1 as (HL & _). rewrite HL. exact HX. }
      exists c', m'. split; [exact Hrest|]. cbn [length].
      split; [destruct (_ =? yi); lia|].
      split; [exact Hwf' | exact (same_network_trans _ _ _ Hsame' Hsame1)].
Qed.

Lemma count_correct_same (X : list (list float)) :
  forall (y : list Z) (c : Z) (m1 m2 : MLP),
    well_formed m1 -> same_network m1 m2 ->
    fst (count_correct X y c m1) = fst (count_correct X y c m2) /\
    weights (snd (count_correct X y c m1)) = weights m1 /\
    biases (snd (count_correct X y c m1)) = biases m1.
Proof.
  induction X as [|x X IH]; intros y c m1 m2 Hwf Hsame.
  - cbn. auto.
  - destruct y as [|yi y]; [cbn; auto|].
    cbn [count_correct]. unfold predict.
    destruct (forward_same m1 m2 x Hwf Hsame) as [Hfst Hsnd].
    destruct (forward_keeps_params m1 x) as (_ & _ & _ & Hw & Hb).
    destruct (forward x m1) as [[out1|e1] m1'] eqn:H1;
      destruct (forward x m2) as [[out2|e2] m2'] eqn:H2;
      cbn [fst snd] in *; try discriminate.
    + injection Hfst as <-.
      destruct (IH y (if class_of_output out1 =? yi then c + 1 else c)
                  m1' m2' (forward_ok_well_formed _ _ _ _ Hwf H1) Hsnd)
        as (Hf & Hw' & Hb').
      split; [exact Hf|]. split; congruence.
    + injection Hfst as <-. split; [reflexivity|]. split; assumption.
Qed.

(** The function [createMLPFitnessFunction] returns scores a chromosome
    of the network's length independently of what the shared network held
    before the call (its result and its errors are those of any other
    network of the same topology and activation), and leaves the network
    holding exactly that chromosome. *)
Theorem fitness_function_pure (X : list (list float)) (y : list Z)
  (c : list float) (m1 m2 : MLP) :
  well_formed m1 -> well_formed m2 ->
  layer_sizes m1 = layer_sizes m2 ->
  activation_type m1 = activation_type m2 ->
  Z.of_nat (length c) = param_count (layer_sizes m1) ->
  fst (createMLPFitnessFunction X y c m1)
  = fst (createMLPFitnessFunction X y c m2) /\
  encodeChromosome (snd (createMLPFitnessFunction X y c m1)) = Ok c.
Proof.
  intros Hwf1 Hwf2 HL Hact Hc.
  pose proof (well_formed_lengths m1 Hwf1) as Hlen1.
  pose proof (well_formed_lengths m2 Hwf2) as Hlen2.
  pose proof (well_formed_size m1 Hwf1) as Hsize1.
  pose proof Hwf1 as (_ & _ & Hp1 & Hw1 & Hb1 & Ho1).
  pose proof Hwf2 as (_ & _ & Hp2 & Hw2 & Hb2 & Ho2).
  rewrite <- HL in Hw2, Hb2, Hp2, Ho2.
  destruct (reshape_layers (weights m1) (biases m1) c Hlen1)
    as [ws [bs [Hws [Hbs Henc]]]]; [lia|].
  assert (Hdec : forall m, length (weights m) = length (biases m) ->
            shape_w (weights m) = shape_w (weights m1) ->
            shape_b (biases m) = shape_b (biases m1) ->
            total_params m = total_params m1 ->
            setWeights c m = (Ok tt, set_params m ws bs)).
  { intros m Hlen Hw Hb Hp.
    pose proof (decode_layers_app (weights m) ws (biases m) bs c [] [] Hlen)
      as Hd.
    rewrite app_nil_r in Hd. simpl app in Hd. simpl length in Hd.
    unfold setWeights, decodeChromosome.
    rewrite Hp, Hp1, Hc, Z.eqb_refl. cbn [negb].
    rewrite Hd; [reflexivity | congruence | congruence | exact Henc]. }
  unfold createMLPFitnessFunction.
  rewrite (Hdec m1 Hlen1 eq_refl eq_refl eq_refl).
  rewrite (Hdec m2 Hlen2) by congruence.
  assert (Hwf1' : well_formed (set_params m1 ws bs))
    by (apply set_params_well_formed; assumption).
  assert (Hsame : same_network (set_params m1 ws bs) (set_params m2 ws bs)).
  { unfold same_network.
    cbn [layer_sizes activation_type total_params weights biases
         layer_outputs set_params].
    repeat split; congruence. }
  unfold evaluateAccuracy.
  destruct (negb (length X =? length y)%nat); [split; [reflexivity|exact Henc]|].
  destruct (count_correct_same X y 0 _ _ Hwf1' Hsame) as (Hf & Hw & Hb).
  destruct (count_correct X y 0 (set_params m1 ws bs)) as [[k1|e1] m1'];
    destruct (count_correct X y 0 (set_params m2 ws bs)) as [[k2|e2] m2'];
    cbn [fst snd] in *; try discriminate.
  - injection Hf as <-. split; [reflexivity|].
    unfold encodeChromosome. rewrite Hw, Hb. exact Henc.
  - injection Hf as <-. split; [reflexivity|].
    unfold encodeChromosome. rewrite Hw, Hb. exact Henc.
Qed.
(** * More on the operators of the genetic algorithm *)

(** ** Strict weak orderings *)

Lemma strict_weak_on_elim {A : Type} (comp : A -> A -> bool) (l : list A) :
  strict_weak_on comp l = true ->
  (forall a, In a l -> comp a a = false) /\
  (forall a b c, In a l -> In b l -> In c l ->
     comp a b = true -> comp b c = true -> comp a c = true) /\
  (forall a b c, In a l -> In b l -> In c l ->
     incomparable comp a b = true -> incomparable comp b c = true ->
     incomparable comp a c = true).
Proof.
  unfold strict_weak_on. intros H. rewrite forallb_forall in H.
  split; [|split].
  - intros a Ha. specialize (H a Ha). apply andb_true_iff in H.
    destruct H as [H _]. apply negb_true_iff in H. exact H.
  - intros a b c Ha Hb Hc Hab Hbc. specialize (H a Ha).
    apply andb_true_iff in H. destruct H as [_ H].
    rewrite forallb_forall in H. specialize (H b Hb).
    rewrite forallb_forall in H. specialize (H c Hc).
    apply andb_true_iff in H. destruct H as [H _].
    rewrite Hab, Hbc in H. cbn [andb implb] in H. exact H.
  - intros a b c Ha Hb Hc Hab Hbc. specialize (H a Ha).
    apply andb_true_iff in H. destruct H as [_ H].
    rewrite forallb_forall in H. specialize (H b Hb).
    rewrite forallb_forall in H. specialize (H c Hc).
    apply andb_true_iff in H. destruct H as [_ H].
    rewrite Hab, Hbc in H. cbn [andb implb] in H. exact H.
Qed.

(** Under a strict weak ordering, "not before" is transitive. *)
Lemma strict_weak_not_before {A : Type} (comp : A -> A -> bool) (l : list A)
  (a b c : A) :
  strict_weak_on comp l = true -> In a l -> In b l -> In c l ->
  comp a b = false -> comp b c = false -> comp a c = false.
Proof.
  intros Hswo Ha Hb Hc Hab Hbc.
  destruct (strict_weak_on_elim comp l Hswo) as (Hirr & Htrans & Hinc).
  destruct (comp a c) eqn:Hac; [|reflexivity].
  destruct (comp b a) eqn:Hba.
  { rewrite (Htrans b a c Hb Ha Hc Hba Hac) in Hbc. discriminate. }
  destruct (comp c b) eqn:Hcb.
  { rewrite (Htrans a c b Ha Hc Hb Hac Hcb) in Hab. discriminate. }
  assert (H : incomparable comp a c = true).
  { apply (Hinc a b c Ha Hb Hc); unfold incomparable.
    - rewrite Hab, Hba. reflexivity.
    - rewrite Hbc, Hcb. reflexivity. }
  unfold incomparable in H. rewrite Hac in H. discriminate.
Qed.

Lemma strict_weak_asym {A : Type} (comp : A -> A -> bool) (l : list A)
  (a b : A) :
  strict_weak_on comp l = true -> In a l -> In b l ->
  comp a b = true -> comp b a = false.
Proof.
  intros Hswo Ha Hb Hab.
  destruct (strict_weak_on_elim comp l Hswo) as (Hirr & Htrans & _).
  destruct (comp b a) eqn:Hba; [|reflexivity].
  rewrite <- (Hirr a Ha). symmetry. exact (Htrans a b a Ha Hb Ha Hab Hba).
Qed.

(** ** Tournament selection *)

(** For doubles, "not below" is transitive through a value that is not a
    NaN. *)
Lemma SFnot_ltb_trans x y z :
  SFleb y y = true -> SFltb x y = false -> SFltb y z = false ->
  SFltb x z = false.
Proof. sf_order. Qed.

Lemma double_not_ltb_trans (x y z : float) :
  (y <=? y)%float = true -> (x <? y)%float = false ->
  (y <? z)%float = false -> (x <? z)%float = false.
Proof.
  rewrite FloatAxioms.leb_spec, !FloatAxioms.ltb_spec.
  apply SFnot_ltb_trans.
Qed.

Lemma randomInt_ok (lo hi x : Z) (r r' : rng) :
  randomInt lo hi r = Ok (x, r') -> uniform_int lo hi r = (x, r').
Proof.
  unfold randomInt. destruct (lo <=? hi); [|discriminate].
  intros H. injection H as H. exact H.
Qed.

(** The running best of the tournament loop: the individual it ends with
    is the one it started from or one it drew, is not below the one it
    started from, and none of the drawn individuals is above it. *)
Lemma tournament_loop_fittest (n : nat) (pop : list Individual) :
  forall (b0 best : Individual) (r r' : rng),
    (fitness b0 <=? fitness b0)%float = true ->
    tournament_loop n pop b0 r = Ok (best, r') ->
    (best = b0 \/
     exists idx, In idx (tournament_draws n (length pop) r) /\
                 vec_at_int pop idx = Ok best) /\
    (fitness best <=? fitness best)%float = true /\
    (fitness best <? fitness b0)%float = false /\
    Forall (fun idx => exists cand,
              vec_at_int pop idx = Ok cand /\
              (fitness best <? fitness cand)%float = false)
      (tournament_draws n (length pop) r).
Proof.
  induction n as [|n IH]; intros b0 best r r' Hb0 Hrun.
  - cbn [tournament_loop] in Hrun. inv_ret Hrun.
    cbn [tournament_draws]. repeat split; auto using double_ltb_irrefl.
  - cbn [tournament_loop] in Hrun.
    inv_bind Hrun as idx r1 Hidx. apply randomInt_ok in Hidx.
    inv_bind Hrun as cand r2 Hcand. inv_lift Hcand.
    cbn [tournament_draws]. rewrite Hidx. cbn [fst snd].
    destruct (fitness b0 <? fitness cand)%float eqn:Hlt.
    + destruct (IH cand best r1 r' (double_ltb_leb_refl_r _ _ Hlt) Hrun)
        as (Hsrc & Hnan & Hge & Hall).
      split; [|split; [exact Hnan | split]].
      * right. destruct Hsrc as [-> | (i & Hi & Hbest)].
        -- exists idx. split; [left; reflexivity | exact Hcand].
        -- exists i. split; [right; exact Hi | exact Hbest].
      * destruct (fitness best <? fitness b0)%float eqn:Hbb; [|reflexivity].
        rewrite (double_ltb_trans _ _ _ Hbb Hlt) in Hge. discriminate.
      * constructor; [|exact Hall]. exists cand. split; [exact Hcand | exact Hge].
    + destruct (IH b0 best r1 r' Hb0 Hrun) as (Hsrc & Hnan & Hge & Hall).
      split; [|split; [exact Hnan | split; [exact Hge|]]].
      * destruct Hsrc as [-> | (i & Hi & Hbest)]; [left; reflexivity|].
        right. exists i. split; [right; exact Hi | exact Hbest].
      * constructor; [|exact Hall]. exists cand. split; [exact Hcand|].
        exact (double_not_ltb_trans _ _ _ Hb0 Hge Hlt).
Qed.

(** A tournament returns the fittest of the individuals it drew: the
    result is one of the drawn individuals, or the starting record (empty
    chromosome, fitness -1) when no drawn fitness is above -1, and no
    drawn individual has a fitness above the result's.  When every fitness
    in the population is above -1 and at least one round is played, the
    result is a member of the population. *)
Theorem tournament_picks_fittest (ga : GeneticAlgorithm) (best : Individual)
  (r r' : rng) :
  tournamentSelection ga r = Ok (best, r') ->
  let draws := tournament_draws (Z.to_nat (tournament_size (config ga)))
                 (length (population ga)) r in
  (best = tournament_start \/
   exists idx, In idx draws /\ vec_at_int (population ga) idx = Ok best) /\
  Forall (fun idx => exists cand,
            vec_at_int (population ga) idx = Ok cand /\
            (fitness best <? fitness cand)%float = false) draws /\
  (1 <= tournament_size (config ga) ->
   Forall (fun ind => (-1 <? fitness ind)%float = true) (population ga) ->
   In best (population ga) /\ (-1 <? fitness best)%float = true).
Proof.
  unfold tournamentSelection. intros Hrun.
  assert (Hstart : (fitness tournament_start <=? fitness tournament_start)%float
                   = true) by reflexivity.
  destruct (tournament_loop_fittest _ _ tournament_start _ _ _ Hstart Hrun)
    as (Hsrc & _ & _ & Hall).
  cbv zeta. split; [exact Hsrc | split; [exact Hall|]].
  intros Ht Hpop. rewrite Forall_forall in Hpop.
  destruct Hsrc as [-> | (i & Hi & Hbest)].
  - destruct (Z.to_nat (tournament_size (config ga))) as [|n] eqn:Hn; [lia|].
    cbn [tournament_draws] in Hall. inversion Hall as [|? ? (c & Hc & Hlt) _].
    apply vec_at_int_in in Hc. cbn [fitness tournament_start] in Hlt.
    rewrite (Hpop c Hc) in Hlt. discriminate.
  - apply vec_at_int_in in Hbest. split; [exact Hbest | exact (Hpop _ Hbest)].
Qed.

(** ** Crossover *)

Lemma vec_at_ok_nth {A : Type} (v : list A) (i : nat) (x d : A) :
  vec_at v i = Ok x -> nth i v d = x.
Proof.
  unfold vec_at. destruct (nth_error v i) eqn:Hn; [|discriminate].
  intros H. injection H as <-. apply nth_error_nth, Hn.
Qed.

Lemma vec_set_ok_nth {A : Type} (v v' : list A) (i : nat) (x d : A) :
  vec_set v i x = Ok v' ->
  forall j, nth j v' d = if (j =? i)%nat then x else nth j v d.
Proof.
  revert i v'. induction v as [|y v IH]; intros i v' Hset j.
  - discriminate.
  - destruct i as [|i]; cbn [vec_set] in Hset.
    + injection Hset as <-. destruct j; reflexivity.
    + destruct (vec_set v i x) as [v''|] eqn:Hv; [|discriminate].
      cbn [bind] in Hset. injection Hset as <-.
      destruct j as [|j]; [reflexivity|].
      cbn [nth Nat.eqb]. exact (IH i v'' Hv j).
Qed.

Lemma crossover_gene_exchanges (p1 p2 : Individual) (i : nat)
  (s s' : list float * list float) (r r' : rng) :
  genes_exchanged (chromosome p1) (chromosome p2) (fst s) (snd s) ->
  crossover_gene p1 p2 i s r = Ok (s', r') ->
  genes_exchanged (chromosome p1) (chromosome p2) (fst s') (snd s').
Proof.
  intros (Hl1 & Hl2 & Hg) Hrun. unfold crossover_gene in Hrun.
  inv_bind Hrun as u r1 Hu.
  destruct (u <? 0.5)%float; [|inv_ret Hrun; repeat split; auto].
  inv_bind Hrun as g2 r2 Hg2. inv_lift Hg2.
  inv_bind Hrun as c1 r3 Hc1. inv_lift Hc1.
  inv_bind Hrun as g1 r4 Hg1. inv_lift Hg1.
  inv_bind Hrun as c2 r5 Hc2. inv_lift Hc2.
  inv_ret Hrun. cbn [fst snd].
  split; [|split].
  - rewrite (vec_set_length _ _ _ _ Hc1). exact Hl1.
  - rewrite (vec_set_length _ _ _ _ Hc2). exact Hl2.
  - intros j.
    rewrite (vec_set_ok_nth _ _ _ _ 0%float Hc1 j).
    rewrite (vec_set_ok_nth _ _ _ _ 0%float Hc2 j).
    destruct (Nat.eqb_spec j i) as [->|_]; [|exact (Hg j)].
    right. rewrite (vec_at_ok_nth _ _ _ 0%float Hg1).
    rewrite (vec_at_ok_nth _ _ _ 0%float Hg2). split; reflexivity.
Qed.

(** Crossover only exchanges genes between the two parents, position by
    position: each child is as long as its parent, holds at every position
    its own parent's gene or the other parent's, and the other child holds
    the other gene; each child keeps its parent's fitness.  When the first
    draw is not below [crossover_rate] the children are the parents. *)
Theorem crossover_exchanges_genes (ga : GeneticAlgorithm)
  (parent1 parent2 child1 child2 : Individual) (r r' : rng) :
  crossover ga parent1 parent2 r = Ok ((child1, child2), r') ->
  genes_exchanged (chromosome parent1) (chromosome parent2)
    (chromosome child1) (chromosome child2) /\
  fitness child1 = fitness parent1 /\ fitness child2 = fitness parent2 /\
  ((fst (uniform_real 0 1 r) <? crossover_rate (config ga))%float = false ->
   child1 = parent1 /\ child2 = parent2 /\ r' = snd (uniform_real 0 1 r)).
Proof.
  unfold crossover. intros Hrun. inv_bind Hrun as u r1 Hu.
  apply randomDouble_ok in Hu.
  assert (Hsame : genes_exchanged (chromosome parent1) (chromosome parent2)
                    (chromosome parent1) (chromosome parent2)).
  { repeat split. intros j. left. split; reflexivity. }
  destruct (u <? crossover_rate (config ga))%float eqn:Hrate.
  - inv_bind Hrun as [c1 c2] r2 Hloop. inv_ret Hrun.
    injection Hrun as -> ->. cbn [chromosome fitness].
    split; [|split; [reflexivity | split; [reflexivity|]]].
    + unfold for_range in Hloop.
      exact (for_each_invariant
               (fun s => genes_exchanged (chromosome parent1)
                           (chromosome parent2) (fst s) (snd s))
               (crossover_gene parent1 parent2) _
               (fun i s ra s' rb => crossover_gene_exchanges
                                      parent1 parent2 i s s' ra rb)
               (chromosome parent1, chromosome parent2) r1 (c1, c2) r2
               Hsame Hloop).
    + destruct Hu as [_ Hu]. rewrite Hu. cbn [fst]. rewrite Hrate. discriminate.
  - inv_ret Hrun. injection Hrun as -> ->.
    split; [exact Hsame | split; [reflexivity | split; [reflexivity|]]].
    intros _. destruct Hu as [_ Hu]. rewrite Hu. auto.
Qed.

(** ** Mutation *)

(** A loop over [a, a + n) with an invariant that knows the index. *)
Lemma for_each_seq_invariant {S : Type} (I : nat -> S -> Prop)
  (body : nat -> S -> M S) (n : nat) :
  forall (a : nat) (s s' : S) (r r' : rng),
    (forall i t q t' q', (a <= i < a + n)%nat -> I i t ->
       body i t q = Ok (t', q') -> I (Datatypes.S i) t') ->
    I a s -> for_each (seq a n) body s r = Ok (s', r') -> I (a + n)%nat s'.
Proof.
  induction n as [|n IH]; intros a s s' r r' Hbody Hs Hrun;
    cbn [seq for_each] in Hrun.
  - inv_ret Hrun. rewrite Nat.add_0_r. exact Hs.
  - inv_bind Hrun as s1 r1 Hstep.
    replace (a + Datatypes.S n)%nat with (Datatypes.S a + n)%nat by lia.
    apply (IH (Datatypes.S a) s1 s' r1 r'); [| |exact Hrun].
    + intros i t q t' q' Hi. apply Hbody. lia.
    + apply (Hbody a s r s1 r1); [lia | exact Hs | exact Hstep].
Qed.

(** Mutation works gene by gene: the mutant is as long as the individual
    and keeps its fitness, and each gene is either the original one or the
    original one plus a noise drawn within the mutation strength, clamped
    to [-5, 5]. *)
Theorem mutate_gene_wise (ga : GeneticAlgorithm) (ind ind' : Individual)
  (r r' : rng) :
  uniform_real_in_range ->
  mutate ga ind r = Ok (ind', r') ->
  length (chromosome ind') = length (chromosome ind) /\
  fitness ind' = fitness ind /\
  forall j : nat,
    nth j (chromosome ind') 0%float = nth j (chromosome ind) 0%float \/
    exists noise,
      Double.in_closed (- mutation_strength (config ga))
        (mutation_strength (config ga)) noise = true /\
      nth j (chromosome ind') 0%float
      = Utils.clamp (nth j (chromosome ind) 0 + noise)%float (-5) 5 /\
      gene_ok (nth j (chromosome ind') 0%float).
Proof.
  intros Hrng Hrun. unfold mutate in Hrun.
  inv_bind Hrun as c r1 Hloop. inv_ret Hrun. cbn [chromosome fitness].
  unfold for_range in Hloop.
  pose (I := fun (i : nat) (s : list float) =>
    length s = length (chromosome ind) /\
    forall j : nat,
      ((i <= j)%nat -> nth j s 0%float = nth j (chromosome ind) 0%float) /\
      (nth j s 0%float = nth j (chromosome ind) 0%float \/
       exists noise,
         Double.in_closed (- mutation_strength (config ga))
           (mutation_strength (config ga)) noise = true /\
         nth j s 0%float
         = Utils.clamp (nth j (chromosome ind) 0 + noise)%float (-5) 5 /\
         gene_ok (nth j s 0%float))).
  assert (Hend : I (0 + Z.to_nat (chromosome_length ga))%nat c).
  { apply (for_each_seq_invariant I (mutate_gene (config ga)) _ 0%nat
             (chromosome ind) c r r1); [| |exact Hloop].
    - intros i t q t' q' _ (Hlen & Hg) Hbody. unfold mutate_gene in Hbody.
      inv_bind Hbody as u q1 Hu.
      destruct (u <? mutation_rate (config ga))%float.
      + inv_bind Hbody as noise q2 Hnoise. inv_bind Hbody as g q3 Hgi.
        inv_lift Hgi. inv_lift Hbody.
        apply randomDouble_ok in Hnoise. destruct Hnoise as [Hle Hnoise].
        pose proof (Hrng _ _ q1 Hle) as Hin. rewrite Hnoise in Hin.
        cbn [fst] in Hin.
        split; [rewrite (vec_set_length _ _ _ _ Hbody); exact Hlen|].
        intros j. rewrite (vec_set_ok_nth _ _ _ _ 0%float Hbody j).
        destruct (Nat.eqb_spec j i) as [->|Hji].
        * split; [lia|]. right. exists noise.
          pose proof (vec_at_ok_nth _ _ _ 0%float Hgi) as Hgv.
          rewrite (proj1 (Hg i) (le_n i)) in Hgv. subst g.
          split; [exact Hin | split; [reflexivity | apply clamp_gene_ok]].
        * destruct (Hg j) as [Horig Hj]. split; [|exact Hj].
          intros Hij. apply Horig. lia.
      + inv_ret Hbody. split; [exact Hlen|]. intros j.
        destruct (Hg j) as [Horig Hj]. split; [|exact Hj].
        intros Hij. apply Horig. lia.
    - split; [reflexivity|]. intros j. split; [reflexivity | left; reflexivity]. }
  destruct Hend as [Hlen Hg].
  split; [exact Hlen | split; [reflexivity|]].
  intros j. exact (proj2 (Hg j)).
Qed.

(** ** Elitism *)

(** With at least one elite, the first individual of the new population is
    a fittest individual of the old one: it comes from the old population
    and no old individual has a fitness above its own. *)
Theorem elitism_keeps_best (offspring : list Individual)
  (ga ga' : GeneticAlgorithm) (elites : Z) :
  sort_permutes -> sort_orders ->
  replacePopulation offspring ga = Ok ga' ->
  Double.to_int (Double.of_int (population_size (config ga))
                 * elitism_rate (config ga)) = Some elites ->
  1 <= elites -> population ga <> [] ->
  exists top rest,
    population ga' = top :: rest /\ In top (population ga) /\
    Forall (fun ind => (fitness top <? fitness ind)%float = false)
      (population ga).
Proof.
  intros Hperm Hord Hrun Hel Hone Hpop.
  destruct (replacePopulation_spec _ _ _ Hrun)
    as (e & Hswo & _ & He & _ & Hga).
  rewrite Hel in He. injection He as <-. cbv zeta in Hga.
  pose proof (Hperm _ _ _ Hswo) as Hp.
  pose proof (Hord _ _ _ Hswo) as Ho.
  destruct (std_sort Individual fitness_gt (population ga)) as [|top tl].
  { apply Permutation_nil in Hp. contradiction. }
  destruct Ho as [Htop _]. rewrite Forall_forall in Htop.
  destruct (Z.to_nat elites) as [|k] eqn:Hk; [lia|].
  exists top. eexists. subst ga'. cbn [population set_population firstn app].
  split; [reflexivity | split].
  - apply (Permutation_in _ Hp). left. reflexivity.
  - apply Forall_forall. intros ind Hin.
    apply (Permutation_in _ (Permutation_sym Hp)) in Hin.
    destruct Hin as [<- | Hin]; [apply double_ltb_irrefl|].
    exact (Htop ind Hin).
Qed.

(** ** The best individual *)

Lemma max_element_from_max (l : list Individual) :
  strict_weak_on fitness_lt l = true ->
  forall (rest : list Individual) (largest : Individual),
    incl (largest :: rest) l ->
    In (max_element_from largest rest) (largest :: rest) /\
    Forall (fun x => fitness_lt (max_element_from largest rest) x = false)
      (largest :: rest).
Proof.
  intros Hswo.
  destruct (strict_weak_on_elim _ _ Hswo) as (Hirr & _ & _).
  induction rest as [|x rest IH]; intros largest Hincl.
  - cbn [max_element_from]. split; [left; reflexivity|].
    constructor; [|constructor]. apply Hirr, Hincl. left. reflexivity.
  - cbn [max_element_from].
    assert (Hl : In largest l) by (apply Hincl; left; reflexivity).
    assert (Hx : In x l) by (apply Hincl; right; left; reflexivity).
    destruct (fitness largest <? fitness x)%float eqn:Hlt.
    + assert (Hsub : incl (x :: rest) l).
      { intros y Hy. apply Hincl. right. exact Hy. }
      destruct (IH x Hsub) as [Hin Hall]. split; [right; exact Hin|].
      constructor; [|exact Hall].
      inversion Hall as [|? ? Hmx _]; subst.
      apply (strict_weak_not_before fitness_lt l _ x largest Hswo);
        [apply Hsub, Hin | exact Hx | exact Hl | exact Hmx|].
      exact (strict_weak_asym fitness_lt l largest x Hswo Hl Hx Hlt).
    + assert (Hsub : incl (largest :: rest) l).
      { intros y [<- | Hy]; [exact Hl | apply Hincl; right; right; exact Hy]. }
      destruct (IH largest Hsub) as [Hin Hall].
      split; [destruct Hin as [<- | Hin]; [left; reflexivity | right; right; exact Hin]|].
      inversion Hall as [|? ? Hml Hrest]; subst.
      constructor; [exact Hml | constructor; [|exact Hrest]].
      apply (strict_weak_not_before fitness_lt l _ largest x Hswo);
        [apply Hsub, Hin | exact Hl | exact Hx | exact Hml | exact Hlt].
Qed.

(** What [evaluateFitness] records: every individual carries its score,
    and the best-ever record is replaced by a fittest individual of the
    population exactly when that individual's score is above the recorded
    one. *)
Lemma evaluateFitness_best (ga ga' : GeneticAlgorithm) :
  evaluateFitness ga = Ok ga' ->
  exists f top,
    fitness_function ga = Some f /\
    population ga' = map (evaluate f) (population ga) /\
    In top (population ga') /\
    Forall (fun ind => (fitness top <? fitness ind)%float = false)
      (population ga') /\
    (if (best_fitness ga <? fitness top)%float
     then best_individual ga' = top /\ best_fitness ga' = fitness top
     else best_individual ga' = best_individual ga /\
          best_fitness ga' = best_fitness ga).
Proof.
  unfold evaluateFitness.
  destruct (fitness_function ga) as [f|] eqn:Hf; [|discriminate].
  cbn [population set_population best_fitness].
  destruct (strict_weak_on fitness_lt (map (evaluate f) (population ga)))
    eqn:Hswo; [|discriminate].
  cbn [negb].
  destruct (map (evaluate f) (population ga)) as [|x rest] eqn:Hpop;
    [discriminate|].
  cbn [max_element].
  destruct (max_element_from_max _ Hswo rest x (incl_refl _)) as [Hin Hall].
  intros Hrun. exists f, (max_element_from x rest).
  destruct (best_fitness ga <? fitness (max_element_from x rest))%float;
    injection Hrun as <-; cbn; rewrite ?Hpop; repeat split; auto.
Qed.

(** The best individual [evolve] reports for a fresh optimizer is decided
    by the initial population alone: it is a fittest individual of the
    scored initial population when that individual's score is above 0.0,
    and otherwise the default individual, with an empty chromosome and the
    best fitness 0.0. *)
Theorem best_individual_after_evolve (chrom_length : Z) (cfg : GAConfig)
  (func : list float -> float) (ga0 ga' : GeneticAlgorithm) (r0 r' : rng) :
  GeneticAlgorithm_new chrom_length cfg = Ok ga0 ->
  evolve (setFitnessFunction func ga0) r0 = Ok (ga', r') ->
  exists ga1 r1 top,
    initializePopulation (-1) 1 (setFitnessFunction func ga0) r0
    = Ok (ga1, r1) /\
    In top (map (evaluate func) (population ga1)) /\
    Forall (fun ind => (fitness top <? fitness ind)%float = false)
      (map (evaluate func) (population ga1)) /\
    (if (0 <? fitness top)%float
     then best_individual ga' = top /\ best_fitness ga' = fitness top
     else best_individual ga' = Individual_default /\
          chromosome (best_individual ga') = [] /\
          best_fitness ga' = 0%float).
Proof.
  intros Hnew Hrun. unfold evolve in Hrun.
  cbn [fitness_function setFitnessFunction] in Hrun.
  inv_bind Hrun as ga1 r1 Hinit.
  inv_bind Hrun as ga2 r2 Heval. inv_lift Heval.
  destruct (generations_spec _ _ _ _ _ _ Hrun) as (_ & Hbf & Hbi & _).
  destruct (evaluateFitness_best _ _ Heval)
    as (f & top & Hf & Hpop & Hin & Hall & Hbest).
  assert (Hga1 : fitness_function ga1 = Some func /\
                 best_fitness ga1 = 0%float /\
                 best_individual ga1 = Individual_default).
  { unfold initializePopulation in Hinit.
    inv_bind Hinit as pop rp Hpopi. inv_ret Hinit.
    unfold GeneticAlgorithm_new in Hnew.
    destruct (population_size cfg <? 0); [discriminate|].
    destruct (_ && _); [discriminate|].
    injection Hnew as <-. cbn. auto. }
  destruct Hga1 as (Hf1 & Hb1 & Hi1).
  rewrite Hf1 in Hf. injection Hf as <-.
  exists ga1, r1, top. rewrite <- Hpop.
  split; [exact Hinit | split; [exact Hin | split; [exact Hall|]]].
  rewrite Hb1 in Hbest. rewrite Hbf, Hbi.
  destruct (0 <? fitness top)%float.
  - exact Hbest.
  - destruct Hbest as [Hbi2 Hbf2]. rewrite Hbi2, Hbf2, Hi1.
    repeat split.
Qed.

(** ** Random vectors *)

(** [randomVector] refuses a negative size; otherwise it returns exactly
    [size] values, each within [[lo, hi]], when it returns. *)
Theorem randomVector_spec (size : Z) (lo hi : float) (r : rng) :
  uniform_real_in_range ->
  (size < 0 -> randomVector size lo hi r = Err LengthError) /\
  (size = 0 -> randomVector size lo hi r = Ok ([], r)) /\
  (forall v r', randomVector size lo hi r = Ok (v, r') ->
     Z.of_nat (length v) = size /\
     Forall (fun x => Double.in_closed lo hi x = true) v) /\
  (0 < size -> (lo <=? hi)%float = false ->
   randomVector size lo hi r = Err UndefinedBehaviour).
Proof.
  intros Hrng. unfold randomVector.
  destruct (Z.ltb_spec size 0) as [Hneg|Hpos].
  - split; [intros _; reflexivity|]. split; [lia|].
    split; [intros v r' H; discriminate H | lia].
  - split; [lia | split; [|split]].
    + intros ->. reflexivity.
    + intros v r' Hrun.
      destruct (Z.to_nat size) as [|n] eqn:Hn.
      * cbn [randomDoubles] in Hrun. inv_ret Hrun.
        split; [cbn [length]; lia | constructor].
      * assert (Hle : (lo <=? hi)%float = true).
        { cbn [randomDoubles] in Hrun. inv_bind Hrun as x r1 Hx.
          apply randomDouble_ok in Hx. exact (proj1 Hx). }
        destruct (randomDoubles_in_range _ _ _ _ _ _ Hrng Hle Hrun)
          as [Hlen Hall].
        split; [lia | exact Hall].
    + intros Hsz Hle. destruct (Z.to_nat size) as [|n] eqn:Hn; [lia|].
      cbn [randomDoubles]. unfold bindM, randomDouble. rewrite Hle.
      reflexivity.
Qed.

(** ** A run in which nothing scores above zero *)

(** When the fitness function never scores above 0.0, [evolve] on a fresh
    optimizer reports the default individual, whose chromosome is empty;
    installing it in a network that has parameters, as [runExperiment]
    does after the run, is rejected as a size mismatch. *)
Theorem unscored_run_installs_nothing (m : MLP) (cfg : GAConfig)
  (func : list float -> float) (ga0 ga' : GeneticAlgorithm) (r0 r' : rng) :
  well_formed m -> 0 < total_params m ->
  GeneticAlgorithm_new (getChromosomeLength m) cfg = Ok ga0 ->
  evolve (setFitnessFunction func ga0) r0 = Ok (ga', r') ->
  (forall c, (0 <? func c)%float = false) ->
  best_individual ga' = Individual_default /\
  best_fitness ga' = 0%float /\
  setWeights (chromosome (best_individual ga')) m
  = (Err GenomeSizeMismatch, m).
Proof.
  intros Hwf Hparams Hnew Hrun Hzero. unfold evolve in Hrun.
  cbn [fitness_function setFitnessFunction] in Hrun.
  inv_bind Hrun as ga1 r1 Hinit.
  inv_bind Hrun as ga2 r2 Heval. inv_lift Heval.
  destruct (generations_spec _ _ _ _ _ _ Hrun) as (_ & Hbf & Hbi & _).
  destruct (evaluateFitness_best _ _ Heval)
    as (f & top & Hf & Hpop & Hin & _ & Hbest).
  assert (Hga1 : fitness_function ga1 = Some func /\
                 best_fitness ga1 = 0%float /\
                 best_individual ga1 = Individual_default).
  { unfold initializePopulation in Hinit.
    inv_bind Hinit as pop rp Hpopi. inv_ret Hinit.
    unfold GeneticAlgorithm_new in Hnew.
    destruct (population_size cfg <? 0); [discriminate|].
    destruct (_ && _); [discriminate|].
    injection Hnew as <-. cbn. auto. }
  destruct Hga1 as (Hf1 & Hb1 & Hi1).
  rewrite Hf1 in Hf. injection Hf as <-.
  rewrite Hpop in Hin. apply in_map_iff in Hin.
  destruct Hin as (ind & <- & _).
  rewrite Hb1 in Hbest. cbn [fitness evaluate] in Hbest.
  rewrite Hzero in Hbest. destruct Hbest as [Hbi2 Hbf2].
  rewrite Hbi, Hbf, Hbi2, Hbf2, Hi1.
  split; [reflexivity | split; [reflexivity|]].
  destruct Hwf as (_ & _ & Hp & _).
  unfold setWeights, decodeChromosome. cbn [Individual_default chromosome length].
  destruct (Z.eqb_spec (Z.of_nat 0) (total_params m)) as [Heq|_];
    [cbn in Heq; lia | reflexivity].
Qed.
(** * The data set *)

(** ** Reading text *)

(** [getlines] lists what repeated [getline] calls extract. *)
Lemma getlines_getline (delim : Ascii.ascii) (s : String.string) :
  getlines delim s
  = match getline delim s with
    | None => []
    | Some (token, rest) => token :: getlines delim rest
    end.
Proof.
  induction s as [|c s IH]; [reflexivity|].
  cbn [getlines getline until_delim].
  destruct (Ascii.eqb c delim); [reflexivity|].
  rewrite IH. destruct s as [|c' s'].
  - reflexivity.
  - cbn [getline]. destruct (until_delim delim (String.String c' s'))
      as [token rest]. reflexivity.
Qed.

(** ** loadFromFile *)

Lemma read_features_spec (tokens : list String.string) :
  forall (feature_count : Z) (feature_row : list float),
    0 <= feature_count <= 30 ->
    let need := Z.to_nat (30 - feature_count) in
    match (if (need <=? length tokens)%nat
           then stod_all (firstn need tokens) else None) with
    | Some values =>
        read_features tokens feature_count feature_row
        = (feature_row ++ values, 30) /\ length values = need
    | None => snd (read_features tokens feature_count feature_row) <> 30
    end.
Proof.
  induction tokens as [|token tokens IH]; intros c row Hc need.
  - cbn [read_features length]. destruct (Nat.leb_spec need 0) as [Hn|Hn].
    + assert (Hneed : need = 0%nat) by lia. rewrite Hneed. cbn [firstn stod_all].
      rewrite app_nil_r. split; [f_equal; subst need; lia | reflexivity].
    + cbn [snd]. subst need. lia.
  - cbn [read_features]. destruct (Z.ltb_spec c 30) as [Hlt|Hge].
    + assert (Hneed : need = S (Z.to_nat (30 - (c + 1)))) by (subst need; lia).
      rewrite Hneed. cbn [length firstn stod_all]. cbn [Nat.leb].
      destruct (stod token) as [value|].
      * specialize (IH (c + 1) (row ++ [value]) ltac:(lia)). cbv zeta in IH.
        destruct (Z.to_nat (30 - (c + 1)) <=? length tokens)%nat.
        -- destruct (stod_all (firstn (Z.to_nat (30 - (c + 1))) tokens))
             as [values|].
           ++ destruct IH as [IH Hlen]. rewrite IH, <- app_assoc.
              split; [reflexivity | cbn [length]; lia].
           ++ exact IH.
        -- exact IH.
      * destruct (_ <=? _)%nat; cbn [snd]; lia.
    + assert (Hneed : need = 0%nat) by (subst need; lia).
      rewrite Hneed. cbn [Nat.leb firstn stod_all]. rewrite app_nil_r.
      split; [f_equal; lia | reflexivity].
Qed.

Lemma diagnosis_binary (token : String.string) (label : Z) :
  diagnosis token = Some label -> label = 0 \/ label = 1.
Proof.
  unfold diagnosis. destruct (String.eqb token "M").
  - intros H. injection H as <-. right. reflexivity.
  - destruct (String.eqb token "B"); [|discriminate].
    intros H. injection H as <-. left. reflexivity.
Qed.

Lemma stod_all_length (tokens : list String.string) (values : list float) :
  stod_all tokens = Some values -> length values = length tokens.
Proof.
  revert values. induction tokens as [|t ts IH]; intros values H.
  - injection H as <-. reflexivity.
  - cbn [stod_all] in H. destruct (stod t); [|discriminate].
    destruct (stod_all ts) as [vs|]; [|discriminate].
    injection H as <-. cbn [length]. f_equal. apply IH. reflexivity.
Qed.

Lemma sample_of_line_shape (line : String.string) (label : Z)
  (row : list float) :
  sample_of_line line = Some (label, row) ->
  (label = 0 \/ label = 1) /\ length row = 30%nat.
Proof.
  unfold sample_of_line.
  destruct (getlines ","%char line) as [|id [|token rest]]; try discriminate.
  destruct (diagnosis token) as [l|] eqn:Hd; [|discriminate].
  destruct (Nat.leb_spec 30 (length rest)) as [Hlen|]; [|discriminate].
  destruct (stod_all (firstn 30 rest)) as [vs|] eqn:Hvs; [|discriminate].
  cbn [option_map]. intros H. injection H as <- <-.
  split; [exact (diagnosis_binary _ _ Hd)|].
  rewrite (stod_all_length _ _ Hvs), length_firstn. lia.
Qed.

(** One line of the file: a well-formed line adds its sample, any other
    line adds none; the id stays behind when the line has no usable
    diagnosis. *)
Lemma read_line_spec (line : String.string) (d : Dataset) :
  let added := match sample_of_line line with
               | Some s => [s]
               | None => []
               end in
  features (read_line line d) = features d ++ map snd added /\
  labels (read_line line d) = labels d ++ map fst added /\
  length (ids (read_line line d))
  = (length (ids d) + length added + (if stray_id line then 1 else 0))%nat /\
  feature_means (read_line line d) = feature_means d /\
  feature_stds (read_line line d) = feature_stds d /\
  num_features (read_line line d) = num_features d /\
  fold_indices (read_line line d) = fold_indices d.
Proof.
  unfold read_line, sample_of_line, stray_id.
  destruct (getlines ","%char line) as [|id [|token rest]].
  - cbn. rewrite !app_nil_r. repeat split; lia.
  - cbn. rewrite !app_nil_r, length_app. repeat split. cbn [length]. lia.
  - destruct (diagnosis token) as [label|].
    + pose proof (read_features_spec rest 0 [] ltac:(lia)) as Hrow.
      cbv zeta in Hrow.
      change (Z.to_nat (30 - 0)) with 30%nat in Hrow.
      destruct (30 <=? length rest)%nat.
      * destruct (stod_all (firstn 30 rest)) as [values|].
        -- destruct Hrow as [Hrow _]. rewrite Hrow. cbn.
           rewrite length_app. repeat split; cbn [length]; lia.
        -- destruct (read_features rest 0 []) as [row count].
           cbn [snd] in Hrow. destruct (Z.eqb_spec count 30) as [|_];
             [contradiction|].
           cbn. unfold pop_back. rewrite !removelast_last, !app_nil_r.
           repeat split; lia.
      * destruct (read_features rest 0 []) as [row count].
        cbn [snd] in Hrow. destruct (Z.eqb_spec count 30) as [|_];
          [contradiction|].
        cbn. unfold pop_back. rewrite !removelast_last, !app_nil_r.
        repeat split; lia.
    + cbn. rewrite !app_nil_r, length_app. repeat split. cbn [length]. lia.
Qed.

Lemma read_lines_spec (lines : list String.string) :
  forall d : Dataset,
    let d' := fold_left (fun d line => read_line line d) lines d in
    features d' = features d ++ map snd (samples_of_lines lines) /\
    labels d' = labels d ++ map fst (samples_of_lines lines) /\
    length (ids d')
    = (length (ids d) + length (samples_of_lines lines)
       + length (filter stray_id lines))%nat /\
    feature_means d' = feature_means d /\
    feature_stds d' = feature_stds d /\
    num_features d' = num_features d /\
    fold_indices d' = fold_indices d.
Proof.
  induction lines as [|line lines IH]; intros d.
  - cbn. rewrite !app_nil_r. repeat split; lia.
  - cbn [fold_left]. cbv zeta.
    destruct (IH (read_line line d)) as (Hf & Hl & Hi & Hm & Hs & Hn & Hk).
    destruct (read_line_spec line d) as (Hf1 & Hl1 & Hi1 & Hm1 & Hs1 & Hn1 & Hk1).
    cbv zeta in Hf, Hl, Hi, Hm, Hs, Hn, Hk, Hf1, Hl1, Hi1.
    unfold samples_of_lines in *. cbn [flat_map filter].
    rewrite Hf, Hl, Hi, Hf1, Hl1, Hi1, Hm, Hs, Hn, Hk, Hm1, Hs1, Hn1, Hk1.
    rewrite !map_app, <- !app_assoc, !length_app.
    repeat split. destruct (stray_id line); cbn [length]; lia.
Qed.

Lemma samples_of_lines_shape (lines : list String.string) :
  Forall (fun s => (fst s = 0 \/ fst s = 1) /\ length (snd s) = 30%nat)
    (samples_of_lines lines).
Proof.
  induction lines as [|line lines IH]; [constructor|].
  unfold samples_of_lines. cbn [flat_map].
  destruct (sample_of_line line) as [[label row]|] eqn:Hs; [|exact IH].
  constructor; [|exact IH]. exact (sample_of_line_shape _ _ _ Hs).
Qed.

Lemma int_of_size_small (n : nat) :
  Z.of_nat n <= INT_MAX -> int_of_size n = Z.of_nat n.
Proof.
  unfold int_of_size, INT_MAX. intros Hn.
  rewrite Z.mod_small; lia.
Qed.

(** The samples [loadFromFile] adds are exactly those of the well-formed
    lines of the file, in order, after the samples already held: a line
    without an id, without a diagnosis M or B, with fewer than 30 further
    columns or with a column among the first 30 that is not a number adds
    nothing.  Every sample added has 30 features and the label 0 or 1, and
    labels stay aligned with the feature rows.  The ids do not: a line
    whose diagnosis is missing or unknown leaves its id behind.  The call
    returns whether the data set holds a sample, and a file that cannot be
    opened leaves the data set as it is. *)
Theorem loadFromFile_samples (text : String.string) (d : Dataset) :
  let lines := getlines "010"%char text in
  let samples := samples_of_lines lines in
  let d' := snd (loadFromFile (Some text) d) in
  features d' = features d ++ map snd samples /\
  labels d' = labels d ++ map fst samples /\
  Forall (fun row => length row = 30%nat) (map snd samples) /\
  binary_labels (map fst samples) /\
  length (ids d')
  = (length (ids d) + length samples + length (filter stray_id lines))%nat /\
  (Z.of_nat (length (features d')) <= INT_MAX ->
   num_samples d' = Z.of_nat (length (features d')) /\
   fst (loadFromFile (Some text) d)
   = negb (length (features d') =? 0)%nat) /\
  num_features d' = num_features d /\
  fold_indices d' = fold_indices d /\
  loadFromFile None d = (false, d).
Proof.
  cbv zeta. unfold loadFromFile. cbn [fst snd features labels ids
    num_samples num_features fold_indices].
  destruct (read_lines_spec (getlines "010"%char text) d)
    as (Hf & Hl & Hi & _ & _ & Hn & Hk).
  cbv zeta in Hf, Hl, Hi, Hn, Hk.
  pose proof (samples_of_lines_shape (getlines "010"%char text)) as Hshape.
  rewrite Forall_forall in Hshape.
  split; [exact Hf | split; [exact Hl | split; [|split; [|split;
    [exact Hi | split; [|split; [exact Hn | split; [exact Hk | reflexivity]]]]]]]].
  - apply Forall_forall. intros row Hrow. apply in_map_iff in Hrow.
    destruct Hrow as (s & <- & Hs). exact (proj2 (Hshape s Hs)).
  - apply Forall_forall. intros label Hlabel. apply in_map_iff in Hlabel.
    destruct Hlabel as (s & <- & Hs). exact (proj1 (Hshape s Hs)).
  - intros Hmax. rewrite (int_of_size_small _ Hmax). split; [reflexivity|].
    f_equal. destruct (length (features _)); reflexivity.
Qed.

(** ** createKFolds *)

Lemma resize_length {A : Type} (v : list A) (n : nat) (x : A) :
  length (resize v n x) = n.
Proof.
  unfold resize. rewrite length_app, length_firstn, repeat_length. lia.
Qed.

Lemma iota_length (n : nat) : length (iota n) = n.
Proof. unfold iota. rewrite length_map, length_seq. reflexivity. Qed.

Lemma iota_in (n : nat) (j : Z) : In j (iota n) <-> 0 <= j < Z.of_nat n.
Proof.
  unfold iota. rewrite in_map_iff. split.
  - intros (i & <- & Hi). apply in_seq in Hi. lia.
  - intros Hj. exists (Z.to_nat j). split; [lia|]. apply in_seq. lia.
Qed.

Lemma iota_NoDup (n : nat) : NoDup (iota n).
Proof.
  unfold iota. generalize (seq_NoDup n 0).
  induction (seq 0 n) as [|a l IH]; intros Hnd; [constructor|].
  inversion Hnd as [|? ? Hnotin Hl]; subst. cbn [map].
  constructor; [|exact (IH Hl)].
  intros Hin. apply in_map_iff in Hin. destruct Hin as (b & Hb & Hin).
  apply Nat2Z.inj in Hb. subst b. contradiction.
Qed.

Lemma vec_at_nth_gen {A : Type} (v : list A) (i : nat) (d : A) :
  (i < length v)%nat -> vec_at v i = Ok (nth i v d).
Proof.
  intros Hi. unfold vec_at. rewrite (nth_error_nth' v d Hi). reflexivity.
Qed.

Lemma vec_set_int_ok {A : Type} (v : list A) (i : Z) (x d : A) :
  0 <= i < Z.of_nat (length v) ->
  exists v', vec_set_int v i x = Ok v' /\ length v' = length v /\
    forall p, nth p v' d = if (p =? Z.to_nat i)%nat then x else nth p v d.
Proof.
  intros Hi. unfold vec_set_int.
  destruct (Z.ltb_spec i 0) as [|_]; [lia|].
  destruct (vec_set_total v (Z.to_nat i) x ltac:(lia)) as (v' & Hset & Hlen).
  exists v'. split; [exact Hset | split; [exact Hlen|]].
  exact (vec_set_ok_nth _ _ _ _ d Hset).
Qed.

Lemma int_rem_ok (i k : Z) :
  0 <= i -> k <> 0 -> int_rem i k = Ok (Z.rem i k).
Proof.
  intros Hi Hk. unfold int_rem, INT_MIN.
  destruct (Z.eqb_spec k 0) as [|_]; [contradiction|].
  destruct (Z.eqb_spec i (- 2 ^ 31)) as [|_]; [lia | reflexivity].
Qed.

Lemma assign_folds_spec (k : Z) (indices : list Z) :
  k <> 0 -> NoDup indices ->
  forall (idxs : list nat) (folds : list Z),
    NoDup idxs ->
    (forall i, In i idxs -> (i < length indices)%nat) ->
    (forall j, In j indices -> 0 <= j < Z.of_nat (length folds)) ->
    exists folds',
      assign_folds k indices idxs folds = Ok folds' /\
      length folds' = length folds /\
      (forall i, In i idxs ->
         nth (Z.to_nat (nth i indices 0)) folds' 0 = Z.rem (Z.of_nat i) k) /\
      (forall p, (forall i, In i idxs -> Z.to_nat (nth i indices 0) <> p) ->
         nth p folds' 0 = nth p folds 0).
Proof.
  intros Hk Hnd. induction idxs as [|i idxs IH]; intros folds Hidxs Hlt Hrange.
  - exists folds. cbn [assign_folds]. repeat split; auto.
    intros i [].
  - cbn [assign_folds].
    assert (Hi : (i < length indices)%nat) by (apply Hlt; left; reflexivity).
    rewrite (vec_at_nth_gen indices i 0 Hi). cbn [bind].
    rewrite (int_rem_ok (Z.of_nat i) k ltac:(lia) Hk). cbn [bind].
    assert (Hidx : 0 <= nth i indices 0 < Z.of_nat (length folds)).
    { apply Hrange, nth_In, Hi. }
    destruct (vec_set_int_ok folds (nth i indices 0) (Z.rem (Z.of_nat i) k) 0
                Hidx) as (folds1 & Hset & Hlen1 & Hnth1).
    rewrite Hset. cbn [bind].
    inversion Hidxs as [|? ? Hnotin Hidxs']; subst.
    destruct (IH folds1 Hidxs'
                (fun i' Hi' => Hlt i' (or_intror Hi'))
                ltac:(rewrite Hlen1; exact Hrange))
      as (folds' & Hrun & Hlen & Hset' & Hkeep).
    exists folds'. split; [exact Hrun | split; [congruence | split]].
    + intros i' [<- | Hi']; [|exact (Hset' i' Hi')].
      rewrite Hkeep.
      * rewrite Hnth1, Nat.eqb_refl. reflexivity.
      * intros i' Hi' Heq.
        assert (Hi'lt : (i' < length indices)%nat)
          by (apply Hlt; right; exact Hi').
        assert (Hsame : nth i' indices 0 = nth i indices 0).
        { pose proof (Hrange _ (nth_In indices 0 Hi'lt)). lia. }
        apply (proj1 (NoDup_nth indices 0) Hnd i' i Hi'lt Hi) in Hsame.
        subst i'. contradiction.
    + intros p Hp. rewrite Hkeep.
      * rewrite Hnth1. destruct (Nat.eqb_spec p (Z.to_nat (nth i indices 0)))
          as [->|_]; [|reflexivity].
        exfalso. exact (Hp i (or_introl eq_refl) eq_refl).
      * intros i' Hi'. apply Hp. right. exact Hi'.
Qed.

Lemma nth_map_seq {B : Type} (f : nat -> B) (n i : nat) (d : B) :
  (i < n)%nat -> nth i (map f (seq 0 n)) d = f i.
Proof.
  intros Hi.
  rewrite (nth_indep _ d (f 0%nat)) by (rewrite length_map, length_seq; lia).
  rewrite map_nth, seq_nth by lia. reflexivity.
Qed.

Lemma nth_map_in {A B : Type} (f : A -> B) (l : list A) (i : nat) (d : B)
  (d' : A) :
  (i < length l)%nat -> nth i (map f l) d = f (nth i l d').
Proof.
  intros Hi.
  rewrite (nth_indep _ d (f d')) by (rewrite length_map; lia).
  apply map_nth.
Qed.

Lemma list_as_map_nth (l : list Z) :
  l = map (fun j => nth (Z.to_nat j) l 0) (iota (length l)).
Proof.
  unfold iota. rewrite map_map.
  apply (nth_ext _ _ 0 0).
  - rewrite length_map, length_seq. reflexivity.
  - intros i Hi. rewrite nth_map_seq by exact Hi.
    rewrite Nat2Z.id. reflexivity.
Qed.

Lemma createKFolds_ok (k seed : Z) (d : Dataset) :
  shuffle_permutes -> 0 <= num_samples d -> k <> 0 ->
  exists d',
    createKFolds k seed d = Ok d' /\
    length (fold_indices d') = Z.to_nat (num_samples d) /\
    Permutation (fold_indices d')
      (map (fun i => Z.rem i k) (iota (Z.to_nat (num_samples d)))) /\
    features d' = features d /\ labels d' = labels d /\
    num_samples d' = num_samples d /\ num_features d' = num_features d.
Proof.
  intros Hshuffle Hpos Hk. unfold createKFolds.
  set (n := Z.to_nat (num_samples d)).
  pose proof (Hshuffle Z (iota n) (rng_seed seed)) as Hperm.
  set (indices := fst (std_shuffle Z (iota n) (rng_seed seed))) in *.
  assert (Hlen : length indices = n).
  { rewrite (Permutation_length Hperm). apply iota_length. }
  destruct (Z.ltb_spec (num_samples d) 0); [lia|].
  assert (Hnd : NoDup indices).
  { apply (Permutation_NoDup (Permutation_sym Hperm)), iota_NoDup. }
  destruct (assign_folds_spec k indices Hk Hnd (seq 0 n)
              (resize (fold_indices d) n 0) (seq_NoDup n 0))
    as (folds & Hrun & Hflen & Hset & _).
  { intros i Hi. apply in_seq in Hi. lia. }
  { intros j Hj. rewrite resize_length.
    apply (Permutation_in _ Hperm), iota_in in Hj. exact Hj. }
  rewrite resize_length in Hflen.
  rewrite Hrun. cbn [bind]. eexists. split; [reflexivity|].
  cbn [features labels num_samples num_features fold_indices].
  split; [exact Hflen | split; [|repeat split]].
  rewrite (list_as_map_nth folds) at 1. rewrite Hflen.
  eapply Permutation_trans.
  - apply Permutation_map, Permutation_sym, Hperm.
  - replace (map (fun j => nth (Z.to_nat j) folds 0) indices)
      with (map (fun i => Z.rem i k) (iota n)); [apply Permutation_refl|].
    unfold iota. rewrite map_map.
    apply (nth_ext _ _ 0 0).
    + rewrite !length_map, length_seq. symmetry. exact Hlen.
    + intros i Hi. rewrite length_map, length_seq in Hi.
      rewrite nth_map_seq by exact Hi.
      rewrite (nth_map_in _ indices i 0 0) by lia.
      symmetry. apply Hset. apply in_seq. lia.
Qed.

(** [createKFolds] deals the fold numbers out in turn over the shuffled
    samples: the assignment is a reordering of [0 % k, 1 % k, ...,
    (n - 1) % k], so with [1 <= k] every sample gets a fold in [[0, k)].
    A negative [num_samples]
    throws, and [k = 0] with a sample to assign is a division by zero. *)
Theorem createKFolds_round_robin (k seed : Z) (d : Dataset) :
  shuffle_permutes ->
  (num_samples d < 0 -> createKFolds k seed d = Err LengthError) /\
  (0 < num_samples d -> k = 0 ->
   createKFolds k seed d = Err UndefinedBehaviour) /\
  (0 <= num_samples d -> k <> 0 ->
   exists d',
     createKFolds k seed d = Ok d' /\
     length (fold_indices d') = Z.to_nat (num_samples d) /\
     Permutation (fold_indices d')
       (map (fun i => Z.rem i k) (iota (Z.to_nat (num_samples d)))) /\
     (1 <= k -> Forall (fun fold => 0 <= fold < k) (fold_indices d')) /\
     features d' = features d /\ labels d' = labels d /\
     num_samples d' = num_samples d /\ num_features d' = num_features d).
Proof.
  intros Hshuffle. split; [|split].
  - intros Hneg. unfold createKFolds.
    destruct (Z.ltb_spec (num_samples d) 0); [reflexivity | lia].
  - intros Hpos ->. unfold createKFolds.
    destruct (Z.ltb_spec (num_samples d) 0); [lia|].
    pose proof (Permutation_length
                  (Hshuffle Z (iota (Z.to_nat (num_samples d)))
                     (rng_seed seed))) as Hlen.
    rewrite iota_length in Hlen.
    destruct (Z.to_nat (num_samples d)) as [|n'] eqn:Hn; [lia|].
    cbn [seq assign_folds].
    rewrite (vec_at_nth_gen _ 0 0) by (rewrite Hlen; lia). reflexivity.
  - intros Hpos Hk.
    destruct (createKFolds_ok k seed d Hshuffle Hpos Hk)
      as (d' & Hrun & Hlen & Hp & Hrest).
    exists d'. split; [exact Hrun | split; [exact Hlen | split; [exact Hp|]]].
    split; [|exact Hrest].
    intros Hk1. apply (Permutation_Forall (Permutation_sym Hp)).
    apply Forall_forall. intros fold Hfold. apply in_map_iff in Hfold.
    destruct Hfold as (i & <- & Hi). apply iota_in in Hi.
    apply Z.rem_bound_pos; lia.
Qed.

(** ** getTrainTestSplit *)

Lemma split_rows_spec (test_fold : Z) (d : Dataset) (idxs : list nat) :
  forall s : Split,
    Forall (fun i => (i < length (fold_indices d))%nat /\
                     (i < length (features d))%nat /\
                     (i < length (labels d))%nat) idxs ->
    let members := fun inside =>
      filter (fun i => Bool.eqb (nth i (fold_indices d) 0 =? test_fold) inside)
        idxs in
    exists s',
      split_rows test_fold d idxs s = Ok s' /\
      test_X s' = test_X s ++ map (fun i => nth i (features d) []) (members true) /\
      test_y s' = test_y s ++ map (fun i => nth i (labels d) 0) (members true) /\
      train_X s' = train_X s ++ map (fun i => nth i (features d) []) (members false) /\
      train_y s' = train_y s ++ map (fun i => nth i (labels d) 0) (members false).
Proof.
  induction idxs as [|i idxs IH]; intros s Hidxs members.
  - exists s. subst members. cbn. rewrite !app_nil_r. repeat split.
  - inversion Hidxs as [|? ? (Hk & Hf & Hl) Hrest]; subst.
    cbn [split_rows].
    rewrite (vec_at_nth_gen (fold_indices d) i 0 Hk). cbn [bind].
    rewrite (vec_at_nth_gen (features d) i [] Hf). cbn [bind].
    rewrite (vec_at_nth_gen (labels d) i 0 Hl). cbn [bind].
    subst members. cbn [filter].
    destruct (nth i (fold_indices d) 0 =? test_fold).
    + destruct (IH {| train_X := train_X s; train_y := train_y s;
                      test_X := test_X s ++ [nth i (features d) []];
                      test_y := test_y s ++ [nth i (labels d) 0] |} Hrest)
        as (s' & Hrun & Htx & Hty & Hrx & Hry).
      exists s'. cbn [Bool.eqb map].
      cbn [train_X train_y test_X test_y] in Htx, Hty, Hrx, Hry.
      rewrite <- !app_assoc in Htx, Hty.
      repeat split; assumption.
    + destruct (IH {| train_X := train_X s ++ [nth i (features d) []];
                      train_y := train_y s ++ [nth i (labels d) 0];
                      test_X := test_X s; test_y := test_y s |} Hrest)
        as (s' & Hrun & Htx & Hty & Hrx & Hry).
      exists s'. cbn [Bool.eqb map].
      cbn [train_X train_y test_X test_y] in Htx, Hty, Hrx, Hry.
      rewrite <- !app_assoc in Hrx, Hry.
      repeat split; assumption.
Qed.

Lemma split_rows_short (test_fold : Z) (d : Dataset) (idxs : list nat) :
  forall s : Split,
    Exists (fun i => (length (fold_indices d) <= i)%nat \/
                     (length (features d) <= i)%nat \/
                     (length (labels d) <= i)%nat) idxs ->
    split_rows test_fold d idxs s = Err UndefinedBehaviour.
Proof.
  induction idxs as [|i idxs IH]; intros s Hbad; [inversion Hbad|].
  cbn [split_rows]. unfold vec_at at 1.
  destruct (nth_error (fold_indices d) i) as [fold|] eqn:Hk; [|reflexivity].
  cbn [bind]. unfold vec_at at 1.
  destruct (nth_error (features d) i) as [x|] eqn:Hf; [|reflexivity].
  cbn [bind]. unfold vec_at at 1.
  destruct (nth_error (labels d) i) as [y|] eqn:Hl; [|reflexivity].
  cbn [bind]. apply IH.
  inversion Hbad as [? ? Hhere | ? ? Hlater]; subst; [|exact Hlater].
  exfalso.
  assert (Hk' : nth_error (fold_indices d) i <> None) by congruence.
  assert (Hf' : nth_error (features d) i <> None) by congruence.
  assert (Hl' : nth_error (labels d) i <> None) by congruence.
  apply nth_error_Some in Hk', Hf', Hl'. lia.
Qed.

Lemma filter_partition_length {A : Type} (p : A -> bool) (l : list A) :
  (length (filter (fun x => Bool.eqb (p x) true) l)
   + length (filter (fun x => Bool.eqb (p x) false) l))%nat = length l.
Proof.
  induction l as [|x l IH]; [reflexivity|].
  cbn [filter]. destruct (p x); cbn [Bool.eqb length]; lia.
Qed.

Lemma filter_partition_perm {A : Type} (p : A -> bool) (l : list A) :
  Permutation (filter (fun x => Bool.eqb (p x) true) l
               ++ filter (fun x => Bool.eqb (p x) false) l) l.
Proof.
  induction l as [|x l IH]; [constructor|].
  cbn [filter]. destruct (p x); cbn [Bool.eqb app].
  - constructor. exact IH.
  - apply Permutation_sym, Permutation_cons_app, Permutation_sym, IH.
Qed.

(** [getTrainTestSplit] splits the first [num_samples] samples by their
    fold: the test vectors hold, in order, the features and labels of the
    samples whose fold is [test_fold], the training vectors those of all
    the others, so every sample lands in exactly one of the two sets.  When
    one of the three vectors holds fewer than [num_samples] entries (the
    folds before [createKFolds] has run) the call reads out of bounds. *)
Theorem getTrainTestSplit_partition (test_fold : Z) (d : Dataset) :
  let n := Z.to_nat (num_samples d) in
  ((n <= length (fold_indices d))%nat -> (n <= length (features d))%nat ->
   (n <= length (labels d))%nat ->
   exists s,
     getTrainTestSplit test_fold d = Ok s /\
     test_X s = map (fun i => nth i (features d) [])
                  (fold_members test_fold d true) /\
     test_y s = map (fun i => nth i (labels d) 0)
                  (fold_members test_fold d true) /\
     train_X s = map (fun i => nth i (features d) [])
                   (fold_members test_fold d false) /\
     train_y s = map (fun i => nth i (labels d) 0)
                   (fold_members test_fold d false) /\
     Permutation (fold_members test_fold d true
                  ++ fold_members test_fold d false) (seq 0 n) /\
     (length (train_X s) + length (test_X s))%nat = n) /\
  ((length (fold_indices d) < n)%nat \/ (length (features d) < n)%nat \/
   (length (labels d) < n)%nat ->
   getTrainTestSplit test_fold d = Err UndefinedBehaviour).
Proof.
  cbv zeta. unfold getTrainTestSplit, fold_members. split.
  - intros Hk Hf Hl.
    destruct (split_rows_spec test_fold d (seq 0 (Z.to_nat (num_samples d)))
                {| train_X := []; train_y := []; test_X := []; test_y := [] |})
      as (s & Hrun & Htx & Hty & Hrx & Hry).
    { apply Forall_forall. intros i Hi. apply in_seq in Hi. lia. }
    exists s. cbn [train_X train_y test_X test_y app] in Htx, Hty, Hrx, Hry.
    split; [exact Hrun|]. split; [exact Htx|]. split; [exact Hty|].
    split; [exact Hrx|]. split; [exact Hry|]. split.
    + apply (filter_partition_perm
               (fun i => nth i (fold_indices d) 0 =? test_fold)).
    + rewrite Htx, Hrx, !length_map, Nat.add_comm.
      rewrite (filter_partition_length
                 (fun i => nth i (fold_indices d) 0 =? test_fold)).
      apply length_seq.
  - intros Hshort. apply split_rows_short. apply Exists_exists.
    destruct Hshort as [H | [H | H]].
    + exists (length (fold_indices d)). split; [apply in_seq; lia | lia].
    + exists (length (features d)). split; [apply in_seq; lia | lia].
    + exists (length (labels d)). split; [apply in_seq; lia | lia].
Qed.

(** ** The folds' test sets *)

Lemma filter_length_perm {A : Type} (p : A -> bool) (l l' : list A) :
  Permutation l l' -> length (filter p l) = length (filter p l').
Proof.
  induction 1 as [|x l l' _ IH|x y l|l l' l'' _ IH1 _ IH2].
  - reflexivity.
  - cbn [filter]. destruct (p x); cbn [length]; lia.
  - cbn [filter]. destruct (p x), (p y); reflexivity.
  - lia.
Qed.

Lemma filter_map_length {A B : Type} (f : A -> B) (p : B -> bool)
  (l : list A) :
  length (filter p (map f l)) = length (filter (fun x => p (f x)) l).
Proof.
  induction l as [|x l IH]; [reflexivity|].
  cbn [map filter]. destruct (p (f x)); cbn [length]; lia.
Qed.

Lemma iota_S (n : nat) : iota (S n) = iota n ++ [Z.of_nat n].
Proof. unfold iota. rewrite seq_S, map_app. reflexivity. Qed.

(** How many of [0 .. n - 1] leave the remainder [f] when divided by
    [k]. *)
Lemma count_rem (k f : Z) (n : nat) :
  1 <= k -> 0 <= f < k ->
  Z.of_nat (length (filter (fun i => Z.rem i k =? f) (iota n)))
  = Z.of_nat n / k + (if f <? Z.of_nat n mod k then 1 else 0).
Proof.
  intros Hk Hf. induction n as [|n IH].
  - cbn [iota seq map filter length]. rewrite Z.div_0_l, Z.mod_0_l by lia.
    destruct (Z.ltb_spec f 0); lia.
  - rewrite iota_S, filter_app, length_app, Nat2Z.inj_add, IH.
    cbn [filter]. rewrite Z.rem_mod_nonneg by lia.
    pose proof (Z.div_mod (Z.of_nat n) k ltac:(lia)) as Hdm.
    pose proof (Z.mod_pos_bound (Z.of_nat n) k ltac:(lia)) as Hr.
    replace (Z.of_nat (S n)) with (Z.of_nat n + 1) by lia.
    destruct (Z.eq_dec (Z.of_nat n mod k) (k - 1)) as [Hlast|Hnot].
    + assert (Hq : (Z.of_nat n + 1) / k = Z.of_nat n / k + 1).
      { symmetry. apply (Z.div_unique _ _ _ 0); lia. }
      assert (Hm : (Z.of_nat n + 1) mod k = 0).
      { symmetry. apply (Z.mod_unique _ _ (Z.of_nat n / k + 1)); lia. }
      rewrite Hq, Hm.
      destruct (Z.eqb_spec (Z.of_nat n mod k) f);
        destruct (Z.ltb_spec f (Z.of_nat n mod k));
        destruct (Z.ltb_spec f 0); cbn [length]; lia.
    + assert (Hq : (Z.of_nat n + 1) / k = Z.of_nat n / k).
      { symmetry. apply (Z.div_unique _ _ _ (Z.of_nat n mod k + 1)); lia. }
      assert (Hm : (Z.of_nat n + 1) mod k = Z.of_nat n mod k + 1).
      { symmetry. apply (Z.mod_unique _ _ (Z.of_nat n / k)); lia. }
      rewrite Hq, Hm.
      destruct (Z.eqb_spec (Z.of_nat n mod k) f);
        destruct (Z.ltb_spec f (Z.of_nat n mod k));
        destruct (Z.ltb_spec f (Z.of_nat n mod k + 1)); cbn [length]; lia.
Qed.

(** After [createKFolds(k, seed)] on a data set of [n] samples, the split
    for a fold succeeds and is balanced: the test set of fold [f] in
    [[0, k)] holds [n / k] samples, and one more when [f < n % k]; the
    training set holds the others, labels and rows stay paired, and a fold
    number outside [[0, k)] has an empty test set.  With [n < k] the test
    sets of the folds from [n] on are empty. *)
Theorem kfold_test_sets (k seed test_fold : Z) (d d' : Dataset) :
  shuffle_permutes -> sized d -> 1 <= k ->
  createKFolds k seed d = Ok d' ->
  exists s,
    getTrainTestSplit test_fold d' = Ok s /\
    length (test_y s) = length (test_X s) /\
    length (train_y s) = length (train_X s) /\
    Z.of_nat (length (train_X s)) + Z.of_nat (length (test_X s))
    = num_samples d /\
    (0 <= test_fold < k ->
     Z.of_nat (length (test_X s))
     = num_samples d / k
       + (if test_fold <? num_samples d mod k then 1 else 0)) /\
    (~ 0 <= test_fold < k -> test_X s = []) /\
    (num_samples d <= test_fold -> test_X s = []).
Proof.
  intros Hshuffle (Hpos & Hfl & Hll) Hk Hrun.
  destruct (createKFolds_ok k seed d Hshuffle Hpos ltac:(lia))
    as (d1 & Hrun1 & Hlen & Hp & Hf & Hl & Hn & _).
  rewrite Hrun in Hrun1. injection Hrun1 as <-.
  set (n := Z.to_nat (num_samples d)) in *.
  destruct (split_rows_spec test_fold d' (seq 0 n)
              {| train_X := []; train_y := []; test_X := []; test_y := [] |})
    as (s & Hsplit & Htx & Hty & Hrx & Hry).
  { apply Forall_forall. intros i Hi. apply in_seq in Hi.
    rewrite Hlen, Hf, Hl, Hfl, Hll. lia. }
  cbn [train_X train_y test_X test_y app] in Htx, Hty, Hrx, Hry.
  assert (Htest : length (test_X s)
                  = length (filter (fun i => Z.rem i k =? test_fold) (iota n))).
  { rewrite Htx, length_map.
    transitivity (length (filter (fun fold => fold =? test_fold)
                            (fold_indices d'))).
    - transitivity
        (length (filter (fun fold => fold =? test_fold)
                   (map (fun j => nth (Z.to_nat j) (fold_indices d') 0)
                      (iota (length (fold_indices d'))))));
        [|rewrite <- (list_as_map_nth (fold_indices d')); reflexivity].
      unfold iota. rewrite map_map, filter_map_length, Hlen.
      f_equal. apply filter_ext. intros i. rewrite Nat2Z.id.
      destruct (nth i (fold_indices d') 0 =? test_fold); reflexivity.
    - rewrite (filter_length_perm _ _ _ Hp). apply filter_map_length. }
  exists s. split.
  { unfold getTrainTestSplit. rewrite Hn. exact Hsplit. }
  split; [rewrite Htx, Hty, !length_map; reflexivity|].
  split; [rewrite Hrx, Hry, !length_map; reflexivity|].
  assert (Hempty : ~ 0 <= test_fold < k -> test_X s = []).
  { intros Hout. apply length_zero_iff_nil. rewrite Htest.
    apply length_zero_iff_nil.
    destruct (filter (fun i => Z.rem i k =? test_fold) (iota n))
      as [|i l] eqn:Hfilter; [reflexivity|].
    exfalso. assert (Hin : In i (i :: l)) by (left; reflexivity).
    rewrite <- Hfilter in Hin. apply filter_In in Hin.
    destruct Hin as [Hi Heq]. apply iota_in in Hi.
    apply Z.eqb_eq in Heq.
    pose proof (Z.rem_bound_pos i k ltac:(lia) ltac:(lia)). lia. }
  split; [|split; [|split; [exact Hempty|]]].
  - rewrite Htx, Hrx, !length_map, <- Nat2Z.inj_add, Nat.add_comm.
    rewrite (filter_partition_length
               (fun i => nth i (fold_indices d') 0 =? test_fold)).
    rewrite length_seq. subst n. lia.
  - intros Hfold. rewrite Htest, (count_rem k test_fold n Hk Hfold).
    subst n. rewrite Z2Nat.id by lia. reflexivity.
  - intros Hbig. destruct (Z_lt_dec test_fold k) as [Hlt|Hge];
      [|apply Hempty; lia].
    apply length_zero_iff_nil. apply Nat2Z.inj.
    rewrite Htest, (count_rem k test_fold n Hk ltac:(lia)).
    subst n. rewrite Z2Nat.id by lia.
    rewrite Z.div_small, Z.mod_small by lia.
    destruct (Z.ltb_spec test_fold (num_samples d)); lia.
Qed.
(** * The summary of an experiment *)

Lemma fold_left_pair {A : Type} (f g : float -> A -> float) (l : list A) :
  forall a b : float,
    fold_left (fun acc x => (f (fst acc) x, g (snd acc) x)) l (a, b)
    = (fold_left f l a, fold_left g l b).
Proof.
  induction l as [|x l IH]; intros a b; [reflexivity|].
  cbn [fold_left fst snd]. apply IH.
Qed.

Lemma fold_left_map_float {A : Type} (h : A -> float)
  (step : float -> float -> float) (l : list A) :
  forall a : float,
    fold_left (fun acc x => step acc (h x)) l a = fold_left step (map h l) a.
Proof.
  induction l as [|x l IH]; intros a; [reflexivity|].
  cbn [fold_left map]. apply IH.
Qed.

Lemma stddev_sign (vec : list float) :
  (Utils.stddev vec <? 0)%float = false.
Proof.
  unfold Utils.stddev. destruct (length vec <=? 1)%nat; [reflexivity|].
  apply nonneg_not_negative, sqrt_nonneg.
Qed.

(** [ExperimentResult::calculate] computes, for the test and for the
    training accuracies of the folds, exactly what [Utils::mean] and
    [Utils::stddev] compute on them: the mean (0.0 without folds) and the
    sample standard deviation with divisor [n - 1] (0.0 for fewer than two
    folds), which is never negative.  The folds themselves are kept. *)
Theorem calculate_matches_utils (e : ExperimentResult) :
  let e' := ExperimentResult_calculate e in
  let test := map test_accuracy (fold_results e) in
  let train := map train_accuracy (fold_results e) in
  mean_test_accuracy e' = Utils.mean test /\
  std_test_accuracy e' = Utils.stddev test /\
  mean_train_accuracy e' = Utils.mean train /\
  std_train_accuracy e' = Utils.stddev train /\
  (std_test_accuracy e' <? 0)%float = false /\
  (std_train_accuracy e' <? 0)%float = false /\
  fold_results e' = fold_results e /\
  network_structure e' = network_structure e.
Proof.
  cbv zeta.
  assert (Hcore :
    mean_test_accuracy (ExperimentResult_calculate e)
    = Utils.mean (map test_accuracy (fold_results e)) /\
    std_test_accuracy (ExperimentResult_calculate e)
    = Utils.stddev (map test_accuracy (fold_results e)) /\
    mean_train_accuracy (ExperimentResult_calculate e)
    = Utils.mean (map train_accuracy (fold_results e)) /\
    std_train_accuracy (ExperimentResult_calculate e)
    = Utils.stddev (map train_accuracy (fold_results e)) /\
    fold_results (ExperimentResult_calculate e) = fold_results e /\
    network_structure (ExperimentResult_calculate e) = network_structure e).
  { unfold ExperimentResult_calculate.
    destruct (fold_results e) as [|fold folds] eqn:Hfolds.
    - cbn. repeat split; auto.
    - rewrite <- Hfolds.
      rewrite (fold_left_pair (fun a x => (a + test_accuracy x)%float)
                 (fun a x => (a + train_accuracy x)%float)).
      cbn [fst snd].
      rewrite (fold_left_pair
                 (fun a x => (a + (test_accuracy x - _) * (test_accuracy x - _))%float)
                 (fun a x => (a + (train_accuracy x - _) * (train_accuracy x - _))%float)).
      cbn [fst snd].
      rewrite (fold_left_map_float test_accuracy (fun a x => (a + x)%float)).
      rewrite (fold_left_map_float train_accuracy (fun a x => (a + x)%float)).
      rewrite (fold_left_map_float test_accuracy
                 (fun a x => (a + (x - _) * (x - _))%float)).
      rewrite (fold_left_map_float train_accuracy
                 (fun a x => (a + (x - _) * (x - _))%float)).
      assert (Hmt : forall h : FoldResult -> float,
                Utils.mean (map h (fold_results e))
                = (fold_left (fun a x => (a + x)%float)
                     (map h (fold_results e)) 0
                   / Double.of_size (length (fold_results e)))%float).
      { intros h. unfold Utils.mean. rewrite <- (length_map h).
        destruct (map h (fold_results e)) eqn:Hm; [|reflexivity].
        rewrite Hfolds in Hm. discriminate. }
      unfold Utils.stddev. rewrite !length_map, !Hmt.
      destruct (Nat.ltb_spec 1 (length (fold_results e))) as [Hn|Hn];
        destruct (Nat.leb_spec (length (fold_results e)) 1) as [Hn'|Hn'];
        try lia; cbn; repeat split. }
  destruct Hcore as (Hmt & Hst & Hmr & Hsr & Hf & Hn).
  repeat split; try assumption.
  - rewrite Hst. apply stddev_sign.
  - rewrite Hsr. apply stddev_sign.
Qed.
(** * Normalization of the data set *)

Lemma vec_set_ok {A : Type} (v : list A) (i : nat) (x d : A) :
  (i < length v)%nat ->
  exists v', vec_set v i x = Ok v' /\ length v' = length v /\
    forall p, nth p v' d = if (p =? i)%nat then x else nth p v d.
Proof.
  intros Hi.
  destruct (vec_set_total v i x Hi) as (v' & Hset & Hlen).
  exists v'. split; [exact Hset | split; [exact Hlen|]].
  exact (vec_set_ok_nth _ _ _ _ d Hset).
Qed.

Lemma map_nth_seq {A B : Type} (h : A -> B) (l : list A) (d : A) :
  map (fun i => h (nth i l d)) (seq 0 (length l)) = map h l.
Proof.
  apply (nth_ext _ _ (h d) (h d)).
  - rewrite !length_map, length_seq. reflexivity.
  - intros i Hi. rewrite length_map, length_seq in Hi.
    rewrite nth_map_seq by exact Hi. symmetry. apply map_nth.
Qed.

Lemma wide_nth (nf : nat) (features : list (list float)) (i : nat) :
  wide nf features -> (i < length features)%nat ->
  (nf <= length (nth i features []))%nat.
Proof.
  intros Hw Hi. unfold wide in Hw. rewrite Forall_forall in Hw.
  apply Hw, nth_In, Hi.
Qed.

Lemma sum_column_spec (features : list (list float)) (j : nat)
  (idxs : list nat) :
  forall sum : float,
    Forall (fun i => (i < length features)%nat /\
                     (j < length (nth i features []))%nat) idxs ->
    sum_column features j idxs sum
    = Ok (fold_left (fun s i => (s + nth j (nth i features []) 0)%float)
            idxs sum).
Proof.
  induction idxs as [|i idxs IH]; intros sum Hidxs; [reflexivity|].
  inversion Hidxs as [|? ? (Hi & Hj) Hrest]; subst.
  cbn [sum_column fold_left].
  rewrite (vec_at_nth_gen features i [] Hi). cbn [bind].
  rewrite (vec_at_nth_gen _ j 0%float Hj). cbn [bind].
  apply IH, Hrest.
Qed.

Lemma sum_sq_column_spec (features : list (list float)) (means : list float)
  (j : nat) (idxs : list nat) :
  forall sum_sq : float,
    (j < length means)%nat ->
    Forall (fun i => (i < length features)%nat /\
                     (j < length (nth i features []))%nat) idxs ->
    sum_sq_column features means j idxs sum_sq
    = Ok (fold_left
            (fun s i =>
               (s + (nth j (nth i features []) 0 - nth j means 0)
                    * (nth j (nth i features []) 0 - nth j means 0))%float)
            idxs sum_sq).
Proof.
  induction idxs as [|i idxs IH]; intros sum_sq Hm Hidxs; [reflexivity|].
  inversion Hidxs as [|? ? (Hi & Hj) Hrest]; subst.
  cbn [sum_sq_column fold_left].
  rewrite (vec_at_nth_gen features i [] Hi). cbn [bind].
  rewrite (vec_at_nth_gen _ j 0%float Hj). cbn [bind].
  rewrite (vec_at_nth_gen means j 0%float Hm). cbn [bind].
  apply IH; assumption.
Qed.

(** The sums over a column, as folds over the column. *)
Lemma fold_column (step : float -> float -> float)
  (features : list (list float)) (j : nat) (acc : float) :
  fold_left (fun s i => step s (nth j (nth i features []) 0%float))
    (seq 0 (length features)) acc
  = fold_left step (map (fun row => nth j row 0%float) features) acc.
Proof.
  rewrite (fold_left_map_float (fun i => nth j (nth i features []) 0%float)
             step).
  rewrite (map_nth_seq (fun row => nth j row 0%float) features []).
  reflexivity.
Qed.

Lemma column_indices_ok (nf : nat) (features : list (list float)) (j : nat) :
  wide nf features -> (j < nf)%nat ->
  Forall (fun i => (i < length features)%nat /\
                   (j < length (nth i features []))%nat)
    (seq 0 (length features)).
Proof.
  intros Hw Hj. apply Forall_forall. intros i Hi. apply in_seq in Hi.
  split; [lia|]. pose proof (wide_nth nf features i Hw ltac:(lia)). lia.
Qed.

Lemma fill_means_spec (d : Dataset) (nf : nat) :
  length (features d) = Z.to_nat (num_samples d) ->
  wide nf (features d) ->
  forall (js : list nat) (means : list float),
    NoDup js -> Forall (fun j => (j < nf)%nat /\ (j < length means)%nat) js ->
    exists means',
      fill_means d js means = Ok means' /\
      length means' = length means /\
      (forall j, In j js ->
         nth j means' 0%float
         = (fold_left (fun s x => s + x) (column d j) 0
            / Double.of_int (num_samples d))%float) /\
      (forall p, ~ In p js -> nth p means' 0%float = nth p means 0%float).
Proof.
  intros Hn Hw. induction js as [|j js IH]; intros means Hnd Hjs.
  - exists means. cbn [fill_means]. repeat split; auto. intros j [].
  - inversion Hnd as [|? ? Hnotin Hnd']; subst.
    inversion Hjs as [|? ? (Hj & Hjm) Hjs']; subst.
    cbn [fill_means]. rewrite <- Hn.
    rewrite (sum_column_spec _ _ _ _ (column_indices_ok nf _ j Hw Hj)).
    cbn [bind].
    rewrite (fold_column (fun s x => (s + x)%float) (features d) j).
    fold (column d j). rewrite ?Hn.
    destruct (vec_set_ok means j
                (fold_left (fun s x => s + x) (column d j) 0
                 / Double.of_int (num_samples d))%float 0%float Hjm)
      as (means1 & Hset & Hlen1 & Hnth1).
    rewrite Hset. cbn [bind].
    destruct (IH means1 Hnd') as (means' & Hrun & Hlen & Hval & Hkeep).
    { eapply Forall_impl; [|exact Hjs']. intros a [Ha Ham].
      split; [exact Ha | rewrite Hlen1; exact Ham]. }
    exists means'. split; [exact Hrun | split; [congruence | split]].
    + intros a [<- | Ha]; [|exact (Hval a Ha)].
      rewrite (Hkeep j Hnotin), Hnth1, Nat.eqb_refl. reflexivity.
    + intros p Hp. rewrite Hkeep by (intros Hin; apply Hp; right; exact Hin).
      rewrite Hnth1. destruct (Nat.eqb_spec p j) as [->|_]; [|reflexivity].
      exfalso. apply Hp. left. reflexivity.
Qed.

Lemma fill_stds_spec (d : Dataset) (nf : nat) (means : list float) :
  length (features d) = Z.to_nat (num_samples d) ->
  wide nf (features d) -> (nf <= length means)%nat ->
  forall (js : list nat) (stds : list float),
    NoDup js -> Forall (fun j => (j < nf)%nat /\ (j < length stds)%nat) js ->
    exists stds',
      fill_stds d means js stds = Ok stds' /\
      length stds' = length stds /\
      (forall j, In j js ->
         nth j stds' 0%float
         = let s := PrimFloat.sqrt
                      (fold_left
                         (fun acc x =>
                            (acc + (x - nth j means 0) * (x - nth j means 0))%float)
                         (column d j) 0%float
                       / Double.of_int (num_samples d)) in
           if (s <? Utils.tiny)%float then 1%float else s) /\
      (forall p, ~ In p js -> nth p stds' 0%float = nth p stds 0%float).
Proof.
  intros Hn Hw Hm. induction js as [|j js IH]; intros stds Hnd Hjs.
  - exists stds. cbn [fill_stds]. repeat split; auto. intros j [].
  - inversion Hnd as [|? ? Hnotin Hnd']; subst.
    inversion Hjs as [|? ? (Hj & Hjs0) Hjs']; subst.
    cbn [fill_stds]. rewrite <- Hn.
    assert (Hjm : (j < length means)%nat) by lia.
    rewrite (sum_sq_column_spec _ means _ _ _ Hjm
               (column_indices_ok nf _ j Hw Hj)).
    cbn [bind].
    rewrite (fold_column
               (fun s x => (s + (x - nth j means 0) * (x - nth j means 0))%float)
               (features d) j).
    fold (column d j). rewrite ?Hn.
    set (v := PrimFloat.sqrt
                (fold_left
                   (fun acc x =>
                      (acc + (x - nth j means 0) * (x - nth j means 0))%float)
                   (column d j) 0%float
                 / Double.of_int (num_samples d))).
    destruct (vec_set_ok stds j v 0%float Hjs0)
      as (stds1 & Hset & Hlen1 & Hnth1).
    rewrite Hset. cbn [bind].
    rewrite (vec_at_nth_gen stds1 j 0%float) by (rewrite Hlen1; exact Hjs0).
    cbn [bind]. rewrite Hnth1, Nat.eqb_refl.
    assert (Hguard : exists stds2,
              (if (v <? Utils.tiny)%float then vec_set stds1 j 1%float
               else Ok stds1) = Ok stds2 /\
              length stds2 = length stds /\
              forall p, nth p stds2 0%float
                        = if (p =? j)%nat
                          then (if (v <? Utils.tiny)%float then 1%float else v)
                          else nth p stds 0%float).
    { destruct (v <? Utils.tiny)%float.
      - destruct (vec_set_ok stds1 j 1%float 0%float
                    ltac:(rewrite Hlen1; exact Hjs0))
          as (stds2 & Hset2 & Hlen2 & Hnth2).
        exists stds2. split; [exact Hset2 | split; [congruence|]].
        intros p. rewrite Hnth2, Hnth1.
        destruct (p =? j)%nat; reflexivity.
      - exists stds1. split; [reflexivity | split; [exact Hlen1|]].
        exact Hnth1. }
    destruct Hguard as (stds2 & Hg & Hlen2 & Hnth2).
    rewrite Hg. cbn [bind].
    destruct (IH stds2 Hnd') as (stds' & Hrun & Hlen & Hval & Hkeep).
    { eapply Forall_impl; [|exact Hjs']. intros a [Ha Has].
      split; [exact Ha | rewrite Hlen2; exact Has]. }
    exists stds'. split; [exact Hrun | split; [congruence | split]].
    + intros a [<- | Ha]; [|exact (Hval a Ha)].
      rewrite (Hkeep j Hnotin), Hnth2, Nat.eqb_refl. reflexivity.
    + intros p Hp. rewrite Hkeep by (intros Hin; apply Hp; right; exact Hin).
      rewrite Hnth2. destruct (Nat.eqb_spec p j) as [->|_]; [|reflexivity].
      exfalso. apply Hp. left. reflexivity.
Qed.

Lemma scale_cells_spec (means stds : list float) (i : nat) (js : list nat) :
  forall features : list (list float),
    NoDup js -> (i < length features)%nat ->
    Forall (fun j => (j < length (nth i features []))%nat /\
                     (j < length means)%nat /\ (j < length stds)%nat) js ->
    exists features',
      scale_cells means stds i js features = Ok features' /\
      length features' = length features /\
      (forall p, p <> i -> nth p features' [] = nth p features []) /\
      length (nth i features' []) = length (nth i features []) /\
      (forall q, In q js ->
         nth q (nth i features' []) 0%float
         = ((nth q (nth i features []) 0 - nth q means 0)
            / nth q stds 0)%float) /\
      (forall q, ~ In q js ->
         nth q (nth i features' []) 0%float
         = nth q (nth i features []) 0%float).
Proof.
  induction js as [|j js IH]; intros features Hnd Hi Hjs.
  - exists features. cbn [scale_cells]. repeat split; auto. intros q [].
  - inversion Hnd as [|? ? Hnotin Hnd']; subst.
    inversion Hjs as [|? ? (Hj & Hjm & Hjs0) Hjs']; subst.
    cbn [scale_cells].
    rewrite (vec_at_nth_gen features i [] Hi). cbn [bind].
    rewrite (vec_at_nth_gen _ j 0%float Hj). cbn [bind].
    rewrite (vec_at_nth_gen means j 0%float Hjm). cbn [bind].
    rewrite (vec_at_nth_gen stds j 0%float Hjs0). cbn [bind].
    set (row := nth i features []) in *.
    destruct (vec_set_ok row j
                ((nth j row 0 - nth j means 0) / nth j stds 0)%float 0%float Hj)
      as (row' & Hset & Hlen & Hnth).
    rewrite Hset. cbn [bind].
    destruct (vec_set_ok features i row' [] Hi)
      as (features1 & Hset1 & Hlen1 & Hnth1).
    rewrite Hset1. cbn [bind].
    assert (Hrow1 : nth i features1 [] = row').
    { rewrite Hnth1, Nat.eqb_refl. reflexivity. }
    destruct (IH features1 Hnd' ltac:(rewrite Hlen1; exact Hi))
      as (features' & Hrun & Hlen' & Hother & Hrlen & Hval & Hkeep).
    { rewrite Hrow1, Hlen. eapply Forall_impl; [|exact Hjs'].
      intros a Ha. exact Ha. }
    rewrite Hrow1 in Hrlen, Hval, Hkeep.
    exists features'. split; [exact Hrun | split; [congruence | split]].
    + intros p Hp. rewrite (Hother p Hp), Hnth1.
      destruct (Nat.eqb_spec p i); [contradiction | reflexivity].
    + split; [congruence | split].
      * intros q [<- | Hq].
        -- rewrite (Hkeep j Hnotin), Hnth, Nat.eqb_refl. reflexivity.
        -- rewrite (Hval q Hq), Hnth.
           destruct (Nat.eqb_spec q j) as [->|_]; [contradiction | reflexivity].
      * intros q Hq.
        rewrite Hkeep by (intros Hin; apply Hq; right; exact Hin).
        rewrite Hnth. destruct (Nat.eqb_spec q j) as [->|_]; [|reflexivity].
        exfalso. apply Hq. left. reflexivity.
Qed.

Lemma scale_cells_row (means stds : list float) (nf i : nat)
  (features : list (list float)) :
  (i < length features)%nat -> length (nth i features []) = nf ->
  (nf <= length means)%nat -> (nf <= length stds)%nat ->
  exists features',
    scale_cells means stds i (seq 0 nf) features = Ok features' /\
    length features' = length features /\
    (forall p, p <> i -> nth p features' [] = nth p features []) /\
    nth i features' [] = zscore_row means stds nf (nth i features []).
Proof.
  intros Hi Hrow Hm Hs.
  destruct (scale_cells_spec means stds i (seq 0 nf) features
              (seq_NoDup nf 0) Hi)
    as (features' & Hrun & Hlen & Hother & Hrlen & Hval & _).
  { apply Forall_forall. intros j Hj. apply in_seq in Hj. lia. }
  exists features'. split; [exact Hrun | split; [exact Hlen | split;
    [exact Hother|]]].
  unfold zscore_row. apply (nth_ext _ _ 0%float 0%float).
  - rewrite length_map, length_seq. congruence.
  - intros q Hq. rewrite Hrlen, Hrow in Hq.
    rewrite nth_map_seq by exact Hq. apply Hval. apply in_seq. lia.
Qed.

Lemma scale_rows_spec (means stds : list float) (nf : nat) (idxs : list nat) :
  (nf <= length means)%nat -> (nf <= length stds)%nat ->
  forall features : list (list float),
    NoDup idxs ->
    Forall (fun i => (i < length features)%nat /\
                     length (nth i features []) = nf) idxs ->
    exists features',
      scale_rows means stds (seq 0 nf) idxs features = Ok features' /\
      length features' = length features /\
      (forall i, In i idxs ->
         nth i features' [] = zscore_row means stds nf (nth i features [])) /\
      (forall p, ~ In p idxs -> nth p features' [] = nth p features []).
Proof.
  intros Hm Hs. induction idxs as [|i idxs IH]; intros features Hnd Hidxs.
  - exists features. cbn [scale_rows]. repeat split; auto. intros i [].
  - inversion Hnd as [|? ? Hnotin Hnd']; subst.
    inversion Hidxs as [|? ? (Hi & Hrow) Hidxs']; subst.
    cbn [scale_rows].
    destruct (scale_cells_row means stds _ i features Hi eq_refl Hm Hs)
      as (features1 & Hrun1 & Hlen1 & Hother1 & Hrow1).
    rewrite Hrun1. cbn [bind].
    destruct (IH features1 Hnd') as (features' & Hrun & Hlen & Hval & Hkeep).
    { rewrite Forall_forall in Hidxs' |- *. intros a Ha.
      destruct (Hidxs' a Ha) as [Hlt Hlen]. rewrite Hlen1.
      split; [exact Hlt|]. rewrite Hother1; [exact Hlen|].
      intros ->. contradiction. }
    exists features'. split; [exact Hrun | split; [congruence | split]].
    + intros a [<- | Ha].
      * rewrite (Hkeep i Hnotin). exact Hrow1.
      * rewrite (Hval a Ha), Hother1; [reflexivity|].
        intros ->. contradiction.
    + intros p Hp.
      rewrite Hkeep by (intros Hin; apply Hp; right; exact Hin).
      apply Hother1. intros ->. apply Hp. left. reflexivity.
Qed.

Lemma scale_all (means stds : list float) (nf : nat)
  (features : list (list float)) :
  (nf <= length means)%nat -> (nf <= length stds)%nat ->
  Forall (fun row => length row = nf) features ->
  scale_rows means stds (seq 0 nf) (seq 0 (length features)) features
  = Ok (map (zscore_row means stds nf) features).
Proof.
  intros Hm Hs Hrows. rewrite Forall_forall in Hrows.
  destruct (scale_rows_spec means stds nf (seq 0 (length features)) Hm Hs
              features (seq_NoDup _ 0))
    as (features' & Hrun & Hlen & Hval & _).
  { apply Forall_forall. intros i Hi. apply in_seq in Hi.
    split; [lia|]. apply Hrows, nth_In. lia. }
  rewrite Hrun. f_equal.
  apply (nth_ext _ _ [] (zscore_row means stds nf [])).
  - rewrite length_map. exact Hlen.
  - intros i Hi. rewrite Hlen in Hi. rewrite map_nth.
    apply Hval. apply in_seq. lia.
Qed.

Lemma zscore_row_length (means stds : list float) (nf : nat)
  (row : list float) :
  length (zscore_row means stds nf row) = nf.
Proof. unfold zscore_row. rewrite length_map, length_seq. reflexivity. Qed.

Lemma vec_at_err {A : Type} (v : list A) (i : nat) (e : error) :
  vec_at v i = Err e -> e = UndefinedBehaviour.
Proof.
  unfold vec_at. destruct (nth_error v i); [discriminate|].
  intros H. injection H as <-. reflexivity.
Qed.

Lemma vec_set_err {A : Type} (v : list A) (i : nat) (x : A) (e : error) :
  vec_set v i x = Err e -> e = UndefinedBehaviour.
Proof.
  revert i e. induction v as [|y v IH]; intros i e H.
  - cbn [vec_set] in H. injection H as <-. reflexivity.
  - destruct i as [|i]; cbn [vec_set] in H; [discriminate|].
    destruct (vec_set v i x) as [v'|e'] eqn:Hv; [discriminate|].
    cbn [bind] in H. injection H as <-. exact (IH i e' Hv).
Qed.

Lemma vec_at_short {A : Type} (v : list A) (i : nat) :
  (length v <= i)%nat -> vec_at v i = Err UndefinedBehaviour.
Proof.
  intros Hi. unfold vec_at.
  rewrite (proj2 (nth_error_None v i) Hi). reflexivity.
Qed.

(** Every way the cell loop can fail is an out-of-range access, and it
    does fail when one of the statistics vectors is too short. *)
Lemma scale_cells_short (means stds : list float) (i : nat) (js : list nat) :
  forall features : list (list float),
    Exists (fun j => (length means <= j)%nat \/ (length stds <= j)%nat) js ->
    scale_cells means stds i js features = Err UndefinedBehaviour.
Proof.
  induction js as [|j js IH]; intros features Hbad; [inversion Hbad|].
  cbn [scale_cells].
  destruct (vec_at features i) as [row|e] eqn:Hrow;
    [|rewrite (vec_at_err _ _ _ Hrow); reflexivity].
  cbn [bind].
  destruct (vec_at row j) as [x|e] eqn:Hx;
    [|rewrite (vec_at_err _ _ _ Hx); reflexivity].
  cbn [bind].
  destruct (vec_at means j) as [m|e] eqn:Hm;
    [|rewrite (vec_at_err _ _ _ Hm); reflexivity].
  cbn [bind].
  destruct (vec_at stds j) as [s|e] eqn:Hs;
    [|rewrite (vec_at_err _ _ _ Hs); reflexivity].
  cbn [bind].
  destruct (vec_set row j ((x - m) / s)%float) as [row'|e] eqn:Hset;
    [|rewrite (vec_set_err _ _ _ _ Hset); reflexivity].
  cbn [bind].
  destruct (vec_set features i row') as [features'|e] eqn:Hset';
    [|rewrite (vec_set_err _ _ _ _ Hset'); reflexivity].
  cbn [bind]. apply IH.
  inversion Hbad as [? ? Hhere | ? ? Hlater]; subst; [|exact Hlater].
  exfalso. destruct Hhere as [Hshort | Hshort].
  - rewrite (vec_at_short means j Hshort) in Hm. discriminate.
  - rewrite (vec_at_short stds j Hshort) in Hs. discriminate.
Qed.

(** [normalizeWithStats] replaces every entry by its z-score under the
    given statistics, [(x - means[j]) / stds[j]], and touches nothing else;
    it divides by whatever [stds] holds, zero included.  With a sample in
    the data set and statistics for fewer than [num_features] columns it
    reads out of bounds. *)
Theorem normalizeWithStats_zscore (means stds : list float) (d : Dataset) :
  shaped d ->
  let nf := Z.to_nat (num_features d) in
  ((nf <= length means)%nat -> (nf <= length stds)%nat ->
   normalizeWithStats means stds d
   = Ok (set_features d (map (zscore_row means stds nf) (features d))
           (feature_means d) (feature_stds d))) /\
  (features d <> [] ->
   (length means < nf)%nat \/ (length stds < nf)%nat ->
   normalizeWithStats means stds d = Err UndefinedBehaviour).
Proof.
  intros ((Hns & Hfl & Hll) & Hnf & Hrows). cbv zeta.
  unfold normalizeWithStats. rewrite <- Hfl. split.
  - intros Hm Hs. rewrite (scale_all means stds _ _ Hm Hs Hrows).
    reflexivity.
  - intros Hne Hshort.
    destruct (features d) as [|row rows] eqn:Hf; [contradiction|].
    cbn [length seq scale_rows].
    rewrite scale_cells_short; [reflexivity|].
    apply Exists_exists. destruct Hshort as [H | H].
    + exists (length means). split; [apply in_seq; lia | left; lia].
    + exists (length stds). split; [apply in_seq; lia | right; lia].
Qed.

Lemma normalize_nonempty (d : Dataset) :
  features d <> [] -> 0 <= num_features d ->
  normalize d
  = (means <- fill_means d (seq 0 (Z.to_nat (num_features d)))
               (resize (feature_means d) (Z.to_nat (num_features d)) 0%float) ;;
     stds <- fill_stds d means (seq 0 (Z.to_nat (num_features d)))
               (resize (feature_stds d) (Z.to_nat (num_features d)) 0%float) ;;
     features' <- scale_rows means stds (seq 0 (Z.to_nat (num_features d)))
                    (seq 0 (Z.to_nat (num_samples d))) (features d) ;;
     Ok (set_features d features' means stds)).
Proof.
  intros Hne Hnf. unfold normalize.
  destruct (features d) as [|row rows]; [contradiction|].
  destruct (Z.ltb_spec (num_features d) 0) as [|_]; [lia | reflexivity].
Qed.

Lemma one_not_tiny : (1 <? Utils.tiny)%float = false.
Proof. reflexivity. Qed.

Lemma normalize_shaped (d : Dataset) :
  shaped d -> features d <> [] ->
  let nf := Z.to_nat (num_features d) in
  exists d',
    normalize d = Ok d' /\
    feature_means d' = map (fun j => Utils.mean (column d j)) (seq 0 nf) /\
    feature_stds d' = map (column_std d) (seq 0 nf) /\
    Forall (fun s => (s <? Utils.tiny)%float = false) (feature_stds d') /\
    features d'
    = map (zscore_row (feature_means d') (feature_stds d') nf) (features d) /\
    normalizeWithStats (feature_means d') (feature_stds d') d
    = Ok (set_features d (features d') (feature_means d) (feature_stds d)) /\
    labels d' = labels d /\ fold_indices d' = fold_indices d /\
    num_samples d' = num_samples d /\ num_features d' = num_features d /\
    shaped d'.
Proof.
  intros Hshaped Hne. cbv zeta.
  pose proof Hshaped as ((Hns & Hfl & Hll) & Hnf & Hrows).
  set (nf := Z.to_nat (num_features d)) in *.
  assert (Hw : wide nf (features d)).
  { unfold wide. eapply Forall_impl; [|exact Hrows]. intros row Hrow.
    cbv beta in Hrow. lia. }
  assert (Hsize : forall j, Double.of_size (length (column d j))
                            = Double.of_int (num_samples d)).
  { intros j. unfold column, Double.of_size. rewrite length_map, Hfl.
    rewrite Z2Nat.id by lia. reflexivity. }
  destruct (fill_means_spec d nf Hfl Hw (seq 0 nf)
              (resize (feature_means d) nf 0%float) (seq_NoDup nf 0))
    as (means & Hmeans & Hmlen & Hmval & _).
  { apply Forall_forall. intros j Hj. apply in_seq in Hj.
    rewrite resize_length. lia. }
  rewrite resize_length in Hmlen.
  assert (Hmeq : means = map (fun j => Utils.mean (column d j)) (seq 0 nf)).
  { apply (nth_ext _ _ 0%float 0%float).
    - rewrite length_map, length_seq. exact Hmlen.
    - intros j Hj. rewrite Hmlen in Hj. rewrite nth_map_seq by exact Hj.
      rewrite Hmval by (apply in_seq; lia).
      unfold Utils.mean. rewrite Hsize.
      destruct (column d j) eqn:Hc; [|reflexivity].
      unfold column in Hc. apply map_eq_nil in Hc. contradiction. }
  destruct (fill_stds_spec d nf means Hfl Hw ltac:(lia) (seq 0 nf)
              (resize (feature_stds d) nf 0%float) (seq_NoDup nf 0))
    as (stds & Hstds & Hslen & Hsval & _).
  { apply Forall_forall. intros j Hj. apply in_seq in Hj.
    rewrite resize_length. lia. }
  rewrite resize_length in Hslen.
  assert (Hseq : stds = map (column_std d) (seq 0 nf)).
  { apply (nth_ext _ _ 0%float 0%float).
    - rewrite length_map, length_seq. exact Hslen.
    - intros j Hj. rewrite Hslen in Hj. rewrite nth_map_seq by exact Hj.
      rewrite Hsval by (apply in_seq; lia). cbv zeta.
      unfold column_std. rewrite Hsize.
      assert (Hmj : nth j means 0%float = Utils.mean (column d j)).
      { rewrite Hmeq.
        exact (nth_map_seq (fun a => Utils.mean (column d a)) nf j 0%float Hj). }
      rewrite Hmj. reflexivity. }
  pose proof (scale_all means stds nf (features d) ltac:(lia) ltac:(lia)
                Hrows) as Hscale.
  exists (set_features d (map (zscore_row means stds nf) (features d))
            means stds).
  cbn [features labels feature_means feature_stds fold_indices set_features].
  split.
  { rewrite (normalize_nonempty d Hne Hnf). fold nf.
    rewrite Hmeans. cbn [bind]. rewrite Hstds. cbn [bind].
    rewrite <- Hfl, Hscale. reflexivity. }
  split; [exact Hmeq | split; [exact Hseq | split; [|split; [reflexivity|
    split; [|split; [reflexivity | split; [reflexivity|
    split; [reflexivity | split; [reflexivity|]]]]]]]]].
  - rewrite Hseq. apply Forall_forall. intros s Hs.
    apply in_map_iff in Hs. destruct Hs as (j & <- & _).
    unfold column_std. cbv zeta.
    match goal with
    | |- ((if (?v <? Utils.tiny)%float then _ else _) <? _)%float = false =>
        destruct (v <? Utils.tiny)%float eqn:Hv;
          [exact one_not_tiny | exact Hv]
    end.
  - unfold normalizeWithStats. rewrite <- Hfl. fold nf. rewrite Hscale.
    reflexivity.
  - repeat split; cbn [features labels num_samples num_features set_features];
      try assumption.
    + rewrite length_map. exact Hfl.
    + apply Forall_forall. intros row Hrow. apply in_map_iff in Hrow.
      destruct Hrow as (r & <- & _). apply zscore_row_length.
Qed.

(** [normalize] leaves an empty data set alone.  On a loaded data set it
    stores, for each column, the mean (as [Utils::mean] computes it) and
    the population deviation, with divisor [n] and with [1.0] in place of a
    deviation below [1e-10], so that no stored deviation is below [1e-10];
    every entry becomes its z-score under these statistics, which is what
    [normalizeWithStats] computes from them, and labels, sizes and folds
    are kept. *)
Theorem normalize_zscore (d : Dataset) :
  (features d = [] -> normalize d = Ok d) /\
  (shaped d -> features d <> [] ->
   let nf := Z.to_nat (num_features d) in
   exists d',
     normalize d = Ok d' /\
     feature_means d' = map (fun j => Utils.mean (column d j)) (seq 0 nf) /\
     feature_stds d' = map (column_std d) (seq 0 nf) /\
     Forall (fun s => (s <? Utils.tiny)%float = false) (feature_stds d') /\
     features d'
     = map (zscore_row (feature_means d') (feature_stds d') nf) (features d) /\
     normalizeWithStats (feature_means d') (feature_stds d') d
     = Ok (set_features d (features d') (feature_means d) (feature_stds d)) /\
     labels d' = labels d /\ fold_indices d' = fold_indices d /\
     num_samples d' = num_samples d /\ num_features d' = num_features d /\
     shaped d').
Proof.
  split.
  - intros Hf. unfold normalize. rewrite Hf. reflexivity.
  - exact (normalize_shaped d).
Qed.
(** * From the data file to the network *)

(** A file with at least one valid sample, loaded into a fresh data set,
    gives a data set of the expected shape. *)
Lemma loadFromFile_shaped (text : String.string) :
  Z.of_nat (length (samples_of_lines (getlines "010"%char text))) <= INT_MAX ->
  let d := snd (loadFromFile (Some text) Dataset_new) in
  shaped d /\ num_features d = 30 /\ binary_labels (labels d) /\
  num_samples d
  = Z.of_nat (length (samples_of_lines (getlines "010"%char text))) /\
  fst (loadFromFile (Some text) Dataset_new)
  = negb (num_samples d =? 0).
Proof.
  intros Hmax. cbv zeta. unfold loadFromFile.
  cbn [fst snd features labels num_samples num_features].
  destruct (read_lines_spec (getlines "010"%char text) Dataset_new)
    as (Hf & Hl & _ & _ & _ & Hn & _).
  cbv zeta in Hf, Hl, Hn. cbn [Dataset_new features labels num_features app]
    in Hf, Hl, Hn.
  pose proof (samples_of_lines_shape (getlines "010"%char text)) as Hshape.
  rewrite Forall_forall in Hshape.
  set (samples := samples_of_lines (getlines "010"%char text)) in *.
  unfold shaped, sized.
  cbn [features labels num_samples num_features].
  rewrite Hf, Hl, Hn, !length_map, (int_of_size_small _ Hmax), Nat2Z.id.
  repeat split; try lia.
  - apply Forall_forall. intros row Hrow. apply in_map_iff in Hrow.
    destruct Hrow as (s & <- & Hs). exact (proj2 (Hshape s Hs)).
  - apply Forall_forall. intros label Hlabel. apply in_map_iff in Hlabel.
    destruct Hlabel as (s & <- & Hs). exact (proj1 (Hshape s Hs)).
Qed.

Lemma zscore_rows_length (means stds : list float) (nf : nat)
  (features : list (list float)) :
  Forall (fun row => length row = nf) (map (zscore_row means stds nf) features).
Proof.
  apply Forall_forall. intros row Hrow. apply in_map_iff in Hrow.
  destruct Hrow as (r & <- & _). apply zscore_row_length.
Qed.

Lemma map_nth_members {A : Type} (P : A -> Prop) (l : list A) (d : A)
  (members : list nat) :
  Forall P l -> Forall (fun i => (i < length l)%nat) members ->
  Forall P (map (fun i => nth i l d) members).
Proof.
  intros Hl Hm. rewrite Forall_forall in Hl, Hm.
  apply Forall_forall. intros x Hx. apply in_map_iff in Hx.
  destruct Hx as (i & <- & Hi). apply Hl, nth_In, Hm, Hi.
Qed.

(** The path of [main] and [runExperiment] from the data file to the
    network: a file with at least one valid sample loads, normalizes and
    splits into folds without an error, every row of the training and of
    the test set has the 30 features a network with 30 inputs expects,
    every label is 0 or 1, both sets together hold all the samples, and
    the accuracy of such a network on the training set is computed without
    a size mismatch. *)
Theorem data_pipeline (text : String.string) (k seed test_fold : Z)
  (layers : list Z) (act : ActivationType) (m : MLP) :
  shuffle_permutes ->
  fst (loadFromFile (Some text) Dataset_new) = true ->
  Z.of_nat (length (samples_of_lines (getlines "010"%char text))) <= INT_MAX ->
  1 <= k ->
  MLP_new layers act = Ok m -> hd 0 layers = 30 ->
  exists d1 d2 d3 s,
    loadFromFile (Some text) Dataset_new = (true, d1) /\
    normalize d1 = Ok d2 /\
    createKFolds k seed d2 = Ok d3 /\
    getTrainTestSplit test_fold d3 = Ok s /\
    Forall (fun row => length row = 30%nat) (train_X s ++ test_X s) /\
    binary_labels (train_y s ++ test_y s) /\
    length (train_y s) = length (train_X s) /\
    length (test_y s) = length (test_X s) /\
    Z.of_nat (length (train_X s)) + Z.of_nat (length (test_X s))
    = num_samples d1 /\
    1 <= num_samples d1 /\
    exists acc m',
      evaluateAccuracy (train_X s) (train_y s) m = (Ok acc, m').
Proof.
  intros Hshuffle Hok Hmax Hk Hnew Hin.
  destruct (loadFromFile_shaped text Hmax)
    as (Hshaped1 & Hnf1 & Hbin1 & Hns1 & Hret).
  cbv zeta in Hshaped1, Hnf1, Hbin1, Hns1, Hret.
  set (d1 := snd (loadFromFile (Some text) Dataset_new)) in *.
  rewrite Hok in Hret. symmetry in Hret. apply negb_true_iff in Hret.
  apply Z.eqb_neq in Hret.
  assert (Hpos1 : 1 <= num_samples d1) by lia.
  assert (Hne1 : features d1 <> []).
  { destruct Hshaped1 as ((_ & Hfl & _) & _). intros Hnil.
    rewrite Hnil in Hfl. cbn [length] in Hfl. lia. }
  destruct (normalize_shaped d1 Hshaped1 Hne1)
    as (d2 & Hnorm & _ & _ & _ & Hf2 & _ & Hl2 & _ & Hns2 & Hnf2 & Hshaped2).
  cbv zeta in Hf2.
  destruct Hshaped2 as ((Hnn2 & Hfl2 & Hll2) & _ & Hrows2).
  destruct (createKFolds_ok k seed d2 Hshuffle Hnn2 ltac:(lia))
    as (d3 & Hfolds & Hklen & _ & Hf3 & Hl3 & Hns3 & _).
  set (n := Z.to_nat (num_samples d3)).
  assert (Hn : n = Z.to_nat (num_samples d2)) by (subst n; congruence).
  destruct (split_rows_spec test_fold d3 (seq 0 n)
              {| train_X := []; train_y := []; test_X := []; test_y := [] |})
    as (s & Hsplit & Htx & Hty & Hrx & Hry).
  { apply Forall_forall. intros i Hi. apply in_seq in Hi.
    rewrite Hklen, Hf3, Hl3, Hfl2, Hll2. lia. }
  cbn [train_X train_y test_X test_y app] in Htx, Hty, Hrx, Hry.
  assert (Hmem : forall inside,
            Forall (fun i => (i < n)%nat)
              (filter (fun i => Bool.eqb (nth i (fold_indices d3) 0 =? test_fold)
                                  inside) (seq 0 n))).
  { intros inside. apply Forall_forall. intros i Hi.
    apply filter_In in Hi. destruct Hi as [Hi _]. apply in_seq in Hi. lia. }
  assert (Hrows3 : Forall (fun row => length row = 30%nat) (features d3)).
  { rewrite Hf3. eapply Forall_impl; [|exact Hrows2].
    intros row Hrow. cbv beta in Hrow. rewrite Hrow, Hnf2, Hnf1.
    reflexivity. }
  assert (Hbin3 : binary_labels (labels d3)).
  { rewrite Hl3, Hl2. exact Hbin1. }
  assert (Hlenf : length (features d3) = n) by (rewrite Hf3, Hn; exact Hfl2).
  assert (Hlenl : length (labels d3) = n) by (rewrite Hl3, Hn; exact Hll2).
  assert (Htrain_rows : Forall (fun row => length row = 30%nat) (train_X s)).
  { rewrite Hrx. apply map_nth_members; [exact Hrows3|].
    rewrite Hlenf. apply Hmem. }
  assert (Hty_len : length (train_y s) = length (train_X s)).
  { rewrite Hrx, Hry, !length_map. reflexivity. }
  exists d1, d2, d3, s.
  split. { rewrite <- Hok. subst d1. apply surjective_pairing. }
  split; [exact Hnorm|]. split; [exact Hfolds|].
  split. { unfold getTrainTestSplit. exact Hsplit. }
  split.
  { apply Forall_app. split; [exact Htrain_rows|].
    rewrite Htx. apply map_nth_members; [exact Hrows3|].
    rewrite Hlenf. apply Hmem. }
  split.
  { apply Forall_app. split.
    - rewrite Hry. apply map_nth_members; [exact Hbin3|].
      rewrite Hlenl. apply Hmem.
    - rewrite Hty. apply map_nth_members; [exact Hbin3|].
      rewrite Hlenl. apply Hmem. }
  split; [exact Hty_len|].
  split. { rewrite Htx, Hty, !length_map. reflexivity. }
  split.
  { rewrite Htx, Hrx, !length_map, <- Nat2Z.inj_add, Nat.add_comm.
    rewrite (filter_partition_length
               (fun i => nth i (fold_indices d3) 0 =? test_fold)).
    rewrite length_seq. subst n. rewrite Hns3, Hns2. lia. }
  split; [exact Hpos1|].
  destruct (MLP_new_well_formed _ _ _ Hnew) as (Hwf & Hlayers & _).
  unfold evaluateAccuracy. rewrite Hty_len, Nat.eqb_refl. cbn [negb].
  destruct (count_correct_run (train_X s) (train_y s) 0 m Hwf)
    as (c & m' & Hrun & _).
  { rewrite Hlayers, Hin. eapply Forall_impl; [|exact Htrain_rows].
    intros row Hrow. cbv beta in Hrow. rewrite Hrow. reflexivity. }
  rewrite Hrun. eexists _, m'. reflexivity.
Qed.
(** * Random initialization of a network *)

Lemma randomDoubles_app (a b : nat) (lo hi : float) (r r1 r2 : rng)
  (xs ys : list float) :
  randomDoubles a lo hi r = Ok (xs, r1) ->
  randomDoubles b lo hi r1 = Ok (ys, r2) ->
  randomDoubles (a + b) lo hi r = Ok (xs ++ ys, r2).
Proof.
  revert r xs. induction a as [|a IH]; intros r xs Hxs Hys.
  - cbn [randomDoubles] in Hxs. inv_ret Hxs. exact Hys.
  - cbn [randomDoubles Nat.add] in Hxs |- *.
    inv_bind Hxs as x q Hx. inv_bind Hxs as xs' q' Hxs'. inv_ret Hxs.
    unfold bindM. rewrite Hx. fold (@bindM (list float) (list float)).
    rewrite (IH q xs' Hxs' Hys). reflexivity.
Qed.

Lemma random_matrix_run (lo hi : float) (w : list (list float)) :
  (lo <=? hi)%float = true -> Double.is_finite (hi - lo) = true ->
  forall r, exists w1 r1,
    random_matrix w lo hi r = Ok (w1, r1) /\
    map (@length float) w1 = map (@length float) w /\
    randomDoubles (length (concat w1)) lo hi r = Ok (concat w1, r1).
Proof.
  intros H1 H2. induction w as [|row w IH]; intros r.
  - exists [], r. repeat split.
  - destruct (randomDoubles_total (length row) lo hi H1 H2 r)
      as (row' & q & Hrow & Hlen).
    destruct (IH q) as (w1 & r1 & Hrun & Hshape & Hflat).
    exists (row' :: w1), r1. cbn [random_matrix]. unfold bindM.
    rewrite Hrow, Hrun. split; [reflexivity|].
    split; [cbn [map]; congruence|].
    cbn [concat]. rewrite length_app.
    apply (randomDoubles_app _ _ lo hi r q r1); [|exact Hflat].
    rewrite Hlen. exact Hrow.
Qed.

Lemma random_layers_run (lo hi : float) (ws : list (list (list float))) :
  (lo <=? hi)%float = true -> Double.is_finite (hi - lo) = true ->
  forall (bs : list (list float)) (r : rng),
    length ws = length bs ->
    exists ws1 bs1 r1 c,
      random_layers ws bs lo hi r = Ok (ws1, bs1, r1) /\
      shape_w ws1 = shape_w ws /\ shape_b bs1 = shape_b bs /\
      encode_layers ws1 bs1 = Ok c /\
      randomDoubles (length c) lo hi r = Ok (c, r1).
Proof.
  intros H1 H2. induction ws as [|w ws IH]; intros bs r Hlen.
  - destruct bs; [|discriminate]. exists [], [], r, []. repeat split.
  - destruct bs as [|b bs]; [discriminate|].
    cbn [length] in Hlen. injection Hlen as Hlen.
    destruct (random_matrix_run lo hi w H1 H2 r)
      as (w1 & q1 & Hw & Hwshape & Hwflat).
    destruct (randomDoubles_total (length b) lo hi H1 H2 q1)
      as (b1 & q2 & Hb & Hblen).
    destruct (IH bs q2 Hlen) as (ws1 & bs1 & r1 & c & Hrun & Hsw & Hsb & Henc & Hflat).
    exists (w1 :: ws1), (b1 :: bs1), r1, (concat w1 ++ b1 ++ c).
    cbn [random_layers]. unfold bindM. rewrite Hw, Hb, Hrun.
    split; [reflexivity|].
    split; [unfold shape_w in *; cbn [map]; congruence|].
    split; [unfold shape_b in *; cbn [map]; congruence|].
    split; [cbn [encode_layers]; rewrite Henc; reflexivity|].
    rewrite !length_app.
    apply (randomDoubles_app _ _ lo hi r q1 r1); [exact Hwflat|].
    apply (randomDoubles_app _ _ lo hi q1 q2 r1); [|exact Hflat].
    rewrite Hblen. exact Hb.
Qed.

(** [randomInitialize] keeps the shape of the network and fills it with
    the next draws of a freshly seeded stream, in the order of the
    chromosome: encoding the network afterwards gives exactly the vector
    [Utils::randomVector] draws from a stream with the same seed, so every
    weight and bias lies in [[min_val, max_val]].  A range with
    [min_val > max_val], a NaN bound or an infinite width is outside the
    distribution's precondition. *)
Theorem randomInitialize_spec (min_val max_val : float) (entropy : Z)
  (m : MLP) :
  uniform_real_in_range -> well_formed m ->
  ((min_val <=? max_val)%float && Double.is_finite (max_val - min_val) = false ->
   randomInitialize min_val max_val entropy m = Err UndefinedBehaviour) /\
  ((min_val <=? max_val)%float && Double.is_finite (max_val - min_val) = true ->
   exists m' c r',
     randomInitialize min_val max_val entropy m = Ok m' /\
     well_formed m' /\ layer_sizes m' = layer_sizes m /\
     activation_type m' = activation_type m /\
     randomVector (total_params m) min_val max_val (rng_seed entropy)
     = Ok (c, r') /\
     encodeChromosome m' = Ok c /\
     Forall (fun x => Double.in_closed min_val max_val x = true) c).
Proof.
  intros Hrng Hwf. unfold randomInitialize. split.
  - intros Hbad. rewrite Hbad. reflexivity.
  - intros Hok. rewrite Hok. apply andb_true_iff in Hok.
    destruct Hok as [H1 H2].
    destruct (random_layers_run min_val max_val (weights m) H1 H2 (biases m)
                (rng_seed entropy) (well_formed_lengths m Hwf))
      as (ws1 & bs1 & r1 & c & Hrun & Hsw & Hsb & Henc & Hflat).
    rewrite Hrun.
    assert (Hwf' : well_formed (set_params m ws1 bs1)).
    { apply set_params_well_formed; assumption. }
    assert (Hlen : Z.of_nat (length c) = total_params m).
    { destruct (encode_layers_total ws1 bs1) as (c' & Hc' & Hsize).
      - rewrite (shape_w_length _ _ Hsw), (shape_b_length _ _ Hsb).
        exact (well_formed_lengths m Hwf).
      - rewrite Henc in Hc'. injection Hc' as <-. rewrite Hsize.
        exact (well_formed_size _ Hwf'). }
    exists (set_params m ws1 bs1), c, r1.
    split; [reflexivity | split; [exact Hwf' | split; [reflexivity|
      split; [reflexivity | split; [|split; [exact Henc|]]]]]].
    + unfold randomVector. destruct (Z.ltb_spec (total_params m) 0); [lia|].
      rewrite <- Hlen, Nat2Z.id. exact Hflat.
    + exact (proj2 (randomDoubles_in_range _ _ _ _ _ _ Hrng H1 Hflat)).
Qed.
(** * Shuffled indices *)

(** [Utils::shuffleIndices(size)] refuses a negative size; otherwise it
    returns the indices [0 .. size - 1] in some order, each exactly
    once. *)
Theorem shuffleIndices_permutation (size : Z) (r : rng) :
  shuffle_permutes ->
  (size < 0 -> shuffleIndices size r = Err LengthError) /\
  (0 <= size ->
   exists indices r',
     shuffleIndices size r = Ok (indices, r') /\
     Permutation indices (iota (Z.to_nat size)) /\
     NoDup indices /\
     Z.of_nat (length indices) = size /\
     Forall (fun i => 0 <= i < size) indices).
Proof.
  intros Hshuffle. unfold shuffleIndices. split.
  - intros Hneg. destruct (Z.ltb_spec size 0); [reflexivity | lia].
  - intros Hpos. destruct (Z.ltb_spec size 0); [lia|].
    pose proof (Hshuffle Z (iota (Z.to_nat size)) r) as Hperm.
    destruct (std_shuffle Z (iota (Z.to_nat size)) r) as [indices r'].
    cbn [fst] in Hperm. exists indices, r'.
    split; [reflexivity | split; [exact Hperm | split; [|split]]].
    + apply (Permutation_NoDup (Permutation_sym Hperm)), iota_NoDup.
    + rewrite (Permutation_length Hperm), iota_length. lia.
    + apply (Permutation_Forall (Permutation_sym Hperm)).
      apply Forall_forall. intros i Hi. apply iota_in in Hi. lia.
Qed.
(** * The two accuracies of a fold *)

Lemma network_values_length (m : MLP) (input : list float) :
  well_formed m ->
  Z.of_nat (length input) = hd 0 (layer_sizes m) ->
  Z.of_nat (length (network_values m input (weights m) (biases m)))
  = last (layer_sizes m) 0.
Proof.
  intros Hwf Hin.
  destruct (forward_spec m input Hwf Hin) as [outs [Hrun Hshape]].
  assert (Hlast : network_values m input (weights m) (biases m)
                  = last (input :: outs) []).
  { unfold forward in Hrun.
    destruct (layer_sizes m) as [|n0 l]; [discriminate|].
    destruct (negb _); [discriminate|].
    destruct (layer_outputs m) as [|b0 bufs]; [discriminate|].
    destruct (forward_layers m input (weights m) (biases m) bufs)
      as [outs'|e]; [|discriminate].
    injection Hrun as Hv Hm. rewrite <- Hv, Hm. reflexivity. }
  rewrite Hlast, last_length.
  fold (shape_b (input :: outs)).
  rewrite Hshape, zero_outputs_shape, last_map_to_nat.
  apply Z2Nat.id.
  destruct Hwf as (H2 & Hpos & _).
  destruct (layer_sizes m) as [|n0 l]; [simpl in H2; lia|].
  rewrite Forall_forall in Hpos. apply Hpos.
  destruct (@exists_last _ (n0 :: l)) as [l' [x Hx]]; [discriminate|].
  rewrite Hx, last_last. apply in_or_app. right. left. reflexivity.
Qed.

Lemma predict_run (m : MLP) (x : list float) :
  well_formed m -> Z.of_nat (length x) = hd 0 (layer_sizes m) ->
  exists m',
    predict x m = (Ok (predicted m x), m') /\
    well_formed m' /\ same_network m' m.
Proof.
  intros Hwf Hx. unfold predict, predicted.
  destruct (forward_spec m x Hwf Hx) as [outs [Hrun Hshape]].
  pose proof (forward_same_network m x Hwf) as Hsame.
  rewrite Hrun in Hsame |- *. cbn [snd] in Hsame.
  eexists. split; [reflexivity|]. split; [|exact Hsame].
  apply set_outputs_well_formed; assumption.
Qed.

Lemma predicted_same (m1 m2 : MLP) (x : list float) :
  well_formed m1 -> well_formed m2 -> same_network m1 m2 ->
  Z.of_nat (length x) = hd 0 (layer_sizes m1) ->
  predicted m1 x = predicted m2 x.
Proof.
  intros Hwf1 Hwf2 Hsame Hx. unfold predicted.
  destruct (forward_spec m1 x Hwf1 Hx) as [outs1 [Hrun1 _]].
  assert (Hx2 : Z.of_nat (length x) = hd 0 (layer_sizes m2)).
  { destruct Hsame as (HL & _). rewrite <- HL. exact Hx. }
  destruct (forward_spec m2 x Hwf2 Hx2) as [outs2 [Hrun2 _]].
  destruct (forward_same m1 m2 x Hwf1 Hsame) as [Hfst _].
  rewrite Hrun1, Hrun2 in Hfst. cbn [fst] in Hfst.
  injection Hfst as ->. reflexivity.
Qed.

Lemma agreements_cons (m : MLP) (x : list float) (X : list (list float))
  (yi : Z) (y : list Z) :
  agreements m (x :: X) (yi :: y)
  = (if predicted m x =? yi then 1 else 0) + agreements m X y.
Proof.
  unfold agreements. cbn [combine filter fst snd].
  destruct (predicted m x =? yi); cbn [length]; lia.
Qed.

Lemma count_correct_agreements (m : MLP) (X : list (list float)) :
  well_formed m ->
  Forall (fun x => Z.of_nat (length x) = hd 0 (layer_sizes m)) X ->
  forall (y : list Z) (c : Z) (m0 : MLP),
    well_formed m0 -> same_network m0 m ->
    exists m',
      count_correct X y c m0 = (Ok (c + agreements m X y), m') /\
      well_formed m' /\ same_network m' m.
Proof.
  intros Hwf. induction X as [|x X IH]; intros Hrows y c m0 Hwf0 Hsame.
  - exists m0. unfold agreements. cbn. rewrite Z.add_0_r. auto.
  - inversion Hrows as [|? ? Hx HX]; subst.
    destruct y as [|yi y].
    + exists m0. unfold agreements. cbn. rewrite Z.add_0_r. auto.
    + cbn [count_correct].
      assert (Hx0 : Z.of_nat (length x) = hd 0 (layer_sizes m0)).
      { destruct Hsame as (HL & _). rewrite HL. exact Hx. }
      destruct (predict_run m0 x Hwf0 Hx0) as (m1 & Hp & Hwf1 & Hsame1).
      rewrite Hp, (predicted_same m0 m x Hwf0 Hwf Hsame Hx0).
      destruct (IH HX y (if predicted m x =? yi then c + 1 else c) m1 Hwf1
                  (same_network_trans _ _ _ Hsame1 Hsame))
        as (m' & Hrun & Hwf' & Hsame').
      exists m'. split; [|split; assumption].
      rewrite Hrun, agreements_cons. f_equal. f_equal.
      destruct (predicted m x =? yi); lia.
Qed.

Lemma predict_all_run (m : MLP) (X : list (list float)) :
  well_formed m ->
  Forall (fun x => Z.of_nat (length x) = hd 0 (layer_sizes m)) X ->
  forall m0 : MLP,
    well_formed m0 -> same_network m0 m ->
    exists m',
      predict_all X m0 = (Ok (map (predicted m) X), m') /\
      well_formed m' /\ same_network m' m.
Proof.
  intros Hwf. induction X as [|x X IH]; intros Hrows m0 Hwf0 Hsame.
  - exists m0. cbn. auto.
  - inversion Hrows as [|? ? Hx HX]; subst.
    cbn [predict_all map].
    assert (Hx0 : Z.of_nat (length x) = hd 0 (layer_sizes m0)).
    { destruct Hsame as (HL & _). rewrite HL. exact Hx. }
    destruct (predict_run m0 x Hwf0 Hx0) as (m1 & Hp & Hwf1 & Hsame1).
    rewrite Hp, (predicted_same m0 m x Hwf0 Hwf Hsame Hx0).
    destruct (IH HX m1 Hwf1 (same_network_trans _ _ _ Hsame1 Hsame))
      as (m' & Hrun & Hwf' & Hsame').
    exists m'. rewrite Hrun. auto.
Qed.

Lemma predicted_binary (m : MLP) (x : list float) :
  well_formed m -> last (layer_sizes m) 0 = 1 ->
  Z.of_nat (length x) = hd 0 (layer_sizes m) ->
  predicted m x = 0 \/ predicted m x = 1.
Proof.
  intros Hwf Hlast Hx. unfold predicted.
  pose proof (network_values_length m x Hwf Hx) as Hlen.
  rewrite Hlast in Hlen.
  destruct (network_values m x (weights m) (biases m)) as [|o [|o' out]];
    cbn [length] in Hlen; try lia.
  cbn [class_of_output]. destruct (0.5 <=? o)%float; auto.
Qed.

Lemma agreements_as_pairs (m : MLP) (X : list (list float)) :
  forall y : list Z,
    Forall (fun x => predicted m x = 0 \/ predicted m x = 1) X ->
    binary_labels (firstn (length X) y) ->
    agreements m X y
    = count_pairs 1 1 (map (predicted m) X) y
      + count_pairs 0 0 (map (predicted m) X) y.
Proof.
  induction X as [|x X IH]; intros y HX Hy.
  - unfold agreements, count_pairs. reflexivity.
  - destruct y as [|yi y].
    + unfold agreements, count_pairs. reflexivity.
    + inversion HX as [|? ? Hx HX']; subst.
      cbn [length firstn] in Hy. inversion Hy as [|? ? Hyi Hy']; subst.
      cbn [map]. rewrite !count_pairs_cons, agreements_cons, (IH y HX' Hy').
      destruct Hx as [-> | ->], Hyi as [-> | ->]; cbn [Z.eqb Pos.eqb andb];
        lia.
Qed.

Lemma calculate_accuracy (m0 m : Utils.ClassificationMetrics) :
  0 <= Utils.true_positive m0 -> 0 <= Utils.true_negative m0 ->
  0 <= Utils.false_positive m0 -> 0 <= Utils.false_negative m0 ->
  0 < Utils.true_positive m0 + Utils.true_negative m0
      + Utils.false_positive m0 + Utils.false_negative m0 <= INT_MAX ->
  Utils.calculate m0 = Ok m ->
  Utils.accuracy m
  = (Double.of_int (Utils.true_positive m0 + Utils.true_negative m0)
     / Double.of_int (Utils.true_positive m0 + Utils.true_negative m0
                      + Utils.false_positive m0 + Utils.false_negative m0))%float.
Proof.
  intros Htp Htn Hfp Hfn Htotal. unfold INT_MAX in Htotal.
  unfold Utils.calculate.
  repeat (rewrite int_add_ok by (unfold INT_MIN, INT_MAX; lia); cbn [bind]).
  destruct (Z.eqb_spec (Utils.true_positive m0 + Utils.true_negative m0
                        + Utils.false_positive m0 + Utils.false_negative m0) 0)
    as [H0|_]; [lia|].
  intros H. injection H as <-. reflexivity.
Qed.

(** The two accuracies [runExperiment] records for a fold agree: for a
    network with one output unit and labels 0 and 1, every prediction is 0
    or 1, the four counters of [calculateMetrics] on the predictions add
    up to the number of samples, and the accuracy among the metrics is
    the very double [evaluateAccuracy] returns. *)
Theorem reported_accuracies_agree (m : MLP) (X : list (list float))
  (y : list Z) :
  well_formed m -> last (layer_sizes m) 0 = 1 ->
  Forall (fun x => Z.of_nat (length x) = hd 0 (layer_sizes m)) X ->
  length X = length y -> binary_labels y -> X <> [] ->
  Z.of_nat (length X) <= INT_MAX ->
  exists acc m1 predictions m2 metrics,
    evaluateAccuracy X y m = (Ok acc, m1) /\
    predict_all X m1 = (Ok predictions, m2) /\
    binary_labels predictions /\
    Utils.calculateMetrics predictions y = Ok metrics /\
    Utils.true_positive metrics + Utils.true_negative metrics
    + Utils.false_positive metrics + Utils.false_negative metrics
    = Z.of_nat (length X) /\
    Utils.accuracy metrics = acc.
Proof.
  intros Hwf Hlast Hrows Hlen Hy Hne Hmax.
  destruct (count_correct_agreements m X Hwf Hrows y 0 m Hwf
              (same_network_refl m))
    as (m1 & Hcount & Hwf1 & Hsame1).
  destruct (predict_all_run m X Hwf Hrows m1 Hwf1 Hsame1)
    as (m2 & Hpred & _ & _).
  assert (Hbin : Forall (fun x => predicted m x = 0 \/ predicted m x = 1) X).
  { eapply Forall_impl; [|exact Hrows]. intros x Hx.
    exact (predicted_binary m x Hwf Hlast Hx). }
  assert (Hbinp : binary_labels (map (predicted m) X)).
  { unfold binary_labels. apply Forall_forall. intros p Hp.
    apply in_map_iff in Hp. destruct Hp as (x & <- & Hx).
    rewrite Forall_forall in Hbin. exact (Hbin x Hx). }
  assert (Hyfirst : firstn (length X) y = y).
  { rewrite Hlen. apply firstn_all. }
  destruct (calculateMetrics_run (map (predicted m) X) y)
    as (m0 & metrics & Hmetrics & Hcalc & Htp & Htn & Hfp & Hfn & _ & Hsum).
  { rewrite length_map. lia. }
  { rewrite length_map. exact Hmax. }
  rewrite length_map in Hsum.
  specialize (Hsum Hbinp ltac:(rewrite Hyfirst; exact Hy)).
  assert (Hpos : (0 < length X)%nat) by (destruct X; [contradiction | cbn; lia]).
  pose proof (count_pairs_nonneg 1 1 (map (predicted m) X) y).
  pose proof (count_pairs_nonneg 0 0 (map (predicted m) X) y).
  pose proof (count_pairs_nonneg 1 0 (map (predicted m) X) y).
  pose proof (count_pairs_nonneg 0 1 (map (predicted m) X) y).
  pose proof (calculate_accuracy m0 metrics ltac:(lia) ltac:(lia) ltac:(lia)
                ltac:(lia) ltac:(lia) Hcalc) as Hacc.
  destruct (calculate_scores m0 ltac:(lia) ltac:(lia) ltac:(lia) ltac:(lia)
              ltac:(lia))
    as (metrics' & Hcalc' & Ktp & Ktn & Kfp & Kfn & _).
  rewrite Hcalc in Hcalc'. injection Hcalc' as <-.
  exists (Double.of_int (agreements m X y) / Double.of_size (length X))%float,
         m1, (map (predicted m) X), m2, metrics.
  split.
  { unfold evaluateAccuracy. rewrite Hlen, Nat.eqb_refl. cbn [negb].
    rewrite <- Hlen. rewrite Hcount. reflexivity. }
  split; [exact Hpred|]. split; [exact Hbinp|]. split; [exact Hmetrics|].
  split; [lia|].
  rewrite Hacc, Hsum, Htp, Htn.
  rewrite <- (agreements_as_pairs m X y Hbin ltac:(rewrite Hyfirst; exact Hy)).
  reflexivity.
Qed.

Lemma agreements_bounds (m : MLP) (X : list (list float)) (y : list Z) :
  0 <= agreements m X y <= Z.of_nat (length X).
Proof.
  unfold agreements. split; [lia|]. apply inj_le.
  eapply Nat.le_trans; [apply filter_length_le|].
  rewrite length_combine. apply Nat.le_min_l.
Qed.

(** [MLP::evaluateAccuracy] on rows of the input width: sizes that differ
    are rejected with the network untouched; otherwise the weights and
    biases are left as they were and the result is the share of correct
    predictions, the number of samples whose label is the class the
    network assigns to the row, converted to double and divided by the
    number of rows: a double in [[0, 1]], except on an empty data set,
    where it is the NaN of 0.0 / 0. *)
Theorem evaluateAccuracy_range (m : MLP) (X : list (list float))
  (y : list Z) :
  well_formed m ->
  Forall (fun x => Z.of_nat (length x) = hd 0 (layer_sizes m)) X ->
  Z.of_nat (length X) <= INT_MAX ->
  (length X <> length y -> evaluateAccuracy X y m = (Err SizeMismatch, m)) /\
  (length X = length y ->
   exists acc m',
     evaluateAccuracy X y m = (Ok acc, m') /\
     acc = (Double.of_int (agreements m X y)
            / Double.of_size (length X))%float /\
     0 <= agreements m X y <= Z.of_nat (length X) /\
     weights m' = weights m /\ biases m' = biases m /\
     (X = [] -> (acc =? acc)%float = false) /\
     (X <> [] -> Double.in_closed 0 1 acc = true)).
Proof.
  intros Hwf Hrows Hmax. unfold evaluateAccuracy. split.
  - intros Hne. destruct (Nat.eqb_spec (length X) (length y)); [contradiction|].
    reflexivity.
  - intros Heq.
    destruct (Nat.eqb_spec (length X) (length y)) as [_|Hne]; [|contradiction].
    cbn [negb].
    destruct (count_correct_agreements m X Hwf Hrows y 0 m Hwf
                (same_network_refl m))
      as (m' & Hrun & _ & (_ & _ & _ & Hw & Hb & _)).
    rewrite Hrun. cbn [Z.add].
    pose proof (agreements_bounds m X y) as Hc.
    eexists _, m'. split; [reflexivity|].
    split; [reflexivity|]. split; [exact Hc|].
    split; [exact Hw|]. split; [exact Hb|]. split.
    + intros ->. reflexivity.
    + intros Hne. unfold Double.of_size. apply int_ratio_in_unit.
      * lia.
      * destruct X; [contradiction|]. cbn [length] in *.
        unfold INT_MAX in Hmax. split; [lia|].
        apply Z.le_lt_trans with (2 ^ 31 - 1); [lia | reflexivity].
Qed.
(** * Runs of the optimizer, one after another *)

(** ** What a run reads of the optimizer

    Selection, crossover, mutation and replacement read the
    configuration, the population and the chromosome length, and nothing
    else of the optimizer. *)

Lemma tournamentSelection_fields (ga gb : GeneticAlgorithm) :
  config gb = config ga -> population gb = population ga ->
  tournamentSelection gb = tournamentSelection ga.
Proof.
  intros Hc Hp. unfold tournamentSelection. rewrite Hc, Hp. reflexivity.
Qed.

Lemma crossover_fields (ga gb : GeneticAlgorithm) :
  config gb = config ga -> chromosome_length gb = chromosome_length ga ->
  crossover gb = crossover ga.
Proof. intros Hc Hl. unfold crossover. rewrite Hc, Hl. reflexivity. Qed.

Lemma mutate_fields (ga gb : GeneticAlgorithm) :
  config gb = config ga -> chromosome_length gb = chromosome_length ga ->
  mutate gb = mutate ga.
Proof. intros Hc Hl. unfold mutate. rewrite Hc, Hl. reflexivity. Qed.

Lemma make_offspring_fields (ga gb : GeneticAlgorithm) (need : nat) :
  config gb = config ga -> population gb = population ga ->
  chromosome_length gb = chromosome_length ga ->
  make_offspring need gb = make_offspring need ga.
Proof.
  intros Hc Hp Hl.
  induction need as [| |need IH] using nat_ind2; cbn [make_offspring].
  - reflexivity.
  - rewrite (tournamentSelection_fields ga gb Hc Hp),
      (crossover_fields ga gb Hc Hl), (mutate_fields ga gb Hc Hl).
    reflexivity.
  - rewrite (tournamentSelection_fields ga gb Hc Hp),
      (crossover_fields ga gb Hc Hl), (mutate_fields ga gb Hc Hl), IH.
    reflexivity.
Qed.

Lemma replacePopulation_fields (offspring : list Individual)
  (ga gb ga' : GeneticAlgorithm) :
  config gb = config ga -> population gb = population ga ->
  replacePopulation offspring ga = Ok ga' ->
  replacePopulation offspring gb = Ok (set_population gb (population ga')).
Proof.
  intros Hc Hp. unfold replacePopulation. rewrite Hc, Hp.
  destruct (negb _ || negb _); [discriminate|]. cbv zeta.
  destruct (Double.to_int _) as [elites|]; [|discriminate].
  destruct (population_size (config ga) <? 0); [discriminate|].
  intros H. injection H as <-. reflexivity.
Qed.

(** One generation on two optimizers that hold the same population: the
    same draws, the same new population, the same average appended. *)
Lemma generation_fields (f : list float -> float)
  (ga gb ga' : GeneticAlgorithm) (r r' : rng) :
  config gb = config ga -> population gb = population ga ->
  chromosome_length gb = chromosome_length ga ->
  generation f ga r = Ok (ga', r') ->
  exists avg,
    avg_fitness_history ga' = avg_fitness_history ga ++ [avg] /\
    generation f gb r
    = Ok (push_history (set_population gb (population ga'))
            (best_fitness gb) avg, r').
Proof.
  intros Hc Hp Hl Hrun. unfold generation in Hrun |- *. rewrite Hc.
  destruct (population_size (config ga) <? 0); [discriminate|].
  inv_bind Hrun as offspring r1 Hoff.
  inv_bind Hrun as ga1 r2 Hrep. inv_lift Hrep. inv_ret Hrun.
  destruct (replacePopulation_spec _ _ _ Hrep)
    as [elites (_ & _ & _ & _ & Hga1)].
  cbv zeta in Hga1.
  eexists. split.
  - cbn [avg_fitness_history push_history]. rewrite Hga1 at 1. reflexivity.
  - unfold bindM. rewrite (make_offspring_fields ga gb _ Hc Hp Hl), Hoff.
    unfold lift. rewrite (replacePopulation_fields _ _ _ _ Hc Hp Hrep).
    reflexivity.
Qed.

Lemma generations_fields (f : list float -> float) (n : nat) :
  forall (ga gb ga' : GeneticAlgorithm) (r r' : rng),
    config gb = config ga -> population gb = population ga ->
    chromosome_length gb = chromosome_length ga ->
    generations f n ga r = Ok (ga', r') ->
    exists gb' avgs,
      generations f n gb r = Ok (gb', r') /\
      population gb' = population ga' /\
      length avgs = n /\
      avg_fitness_history ga' = avg_fitness_history ga ++ avgs /\
      avg_fitness_history gb' = avg_fitness_history gb ++ avgs.
Proof.
  induction n as [|n IH]; intros ga gb ga' r r' Hc Hp Hl Hrun;
    cbn [generations] in Hrun |- *.
  - inv_ret Hrun. exists gb, []. rewrite !app_nil_r. auto.
  - inv_bind Hrun as ga1 r1 Hgen.
    destruct (generation_fields f ga gb ga1 r r1 Hc Hp Hl Hgen)
      as [avg [Havg Hgenb]].
    destruct (generation_spec _ _ _ _ _ Hgen) as (Hc1 & Hl1 & _).
    destruct (IH ga1
                (push_history (set_population gb (population ga1))
                   (best_fitness gb) avg) ga' r1 r')
      as (gb' & avgs & Hrunb & Hpop & Hlen & Ha & Hb).
    + cbn [config push_history set_population]. congruence.
    + reflexivity.
    + cbn [chromosome_length push_history set_population]. congruence.
    + exact Hrun.
    + exists gb', (avg :: avgs). unfold bindM. rewrite Hgenb.
      split; [exact Hrunb|]. split; [exact Hpop|].
      split; [simpl; congruence|].
      cbn [avg_fitness_history push_history set_population] in Hb.
      rewrite Ha, Havg, Hb, <- !app_assoc. auto.
Qed.

Lemma generations_keeps (f : list float -> float) (n : nat) :
  forall (ga ga' : GeneticAlgorithm) (r r' : rng),
    generations f n ga r = Ok (ga', r') ->
    chromosome_length ga' = chromosome_length ga /\
    fitness_function ga' = fitness_function ga.
Proof.
  induction n as [|n IH]; intros ga ga' r r' Hrun; cbn [generations] in Hrun.
  - inv_ret Hrun. auto.
  - inv_bind Hrun as ga1 r1 Hgen.
    destruct (generation_spec _ _ _ _ _ Hgen) as (_ & Hl & Hf & _).
    destruct (IH _ _ _ _ Hrun) as [Hl' Hf']. split; congruence.
Qed.

(** [initializePopulation] overwrites every individual: only their number
    is read. *)
Lemma initialize_individuals_fields (p1 : list Individual) :
  forall (p2 : list Individual) (len : Z) (lo hi : float),
    length p2 = length p1 ->
    initialize_individuals p2 len lo hi = initialize_individuals p1 len lo hi.
Proof.
  induction p1 as [|a p1 IH]; intros [|b p2] len lo hi Hlen;
    try discriminate Hlen; cbn [initialize_individuals]; [reflexivity|].
  rewrite (IH p2) by (simpl in Hlen; lia). reflexivity.
Qed.

(** [evaluateFitness] scores the population and raises the best-ever
    record to its fittest individual when that one is fitter. *)
Lemma evaluateFitness_run (ga ga' : GeneticAlgorithm) :
  evaluateFitness ga = Ok ga' ->
  exists f m,
    fitness_function ga = Some f /\
    strict_weak_on fitness_lt (map (evaluate f) (population ga)) = true /\
    max_element (map (evaluate f) (population ga)) = Some m /\
    population ga' = map (evaluate f) (population ga) /\
    best_fitness ga' = raised (best_fitness ga) m /\
    best_individual ga'
    = (if (best_fitness ga <? fitness m)%float then m
       else best_individual ga).
Proof.
  unfold evaluateFitness, raised.
  destruct (fitness_function ga) as [f|]; [|discriminate].
  cbn [population set_population best_fitness].
  destruct (strict_weak_on _ _) eqn:Hswo; [|discriminate]. cbn [negb].
  destruct (max_element _) as [m|] eqn:Hmax; [|discriminate].
  destruct (best_fitness ga <? fitness m)%float eqn:Hlt; intros H;
    injection H as <-; exists f, m;
    cbn [population best_fitness best_individual set_best set_population];
    rewrite Hlt; repeat split; auto.
Qed.

Lemma evaluateFitness_intro (f : list float -> float) (m : Individual)
  (gb : GeneticAlgorithm) :
  fitness_function gb = Some f ->
  strict_weak_on fitness_lt (map (evaluate f) (population gb)) = true ->
  max_element (map (evaluate f) (population gb)) = Some m ->
  exists gb',
    evaluateFitness gb = Ok gb' /\
    config gb' = config gb /\
    chromosome_length gb' = chromosome_length gb /\
    population gb' = map (evaluate f) (population gb) /\
    best_fitness gb' = raised (best_fitness gb) m /\
    best_individual gb'
    = (if (best_fitness gb <? fitness m)%float then m
       else best_individual gb).
Proof.
  intros Hf Hswo Hmax. unfold evaluateFitness, raised. rewrite Hf.
  cbn [population set_population best_fitness]. rewrite Hswo, Hmax.
  cbn [negb]. destruct (best_fitness gb <? fitness m)%float eqn:Hlt;
    eexists; (split; [reflexivity|]);
    cbn [config chromosome_length population best_fitness best_individual
         set_best set_population];
    repeat split.
Qed.

Lemma raised_twice (b : float) (m : Individual) :
  raised (raised b m) m = raised b m.
Proof.
  unfold raised. destruct (b <? fitness m)%float eqn:Hlt.
  - rewrite double_ltb_irrefl. reflexivity.
  - rewrite Hlt. reflexivity.
Qed.

(** A run of [evolve] on two optimizers set up alike, from the same state
    of the stream. *)
Lemma evolve_fields (func : list float -> float)
  (ga gb ga' : GeneticAlgorithm) (r r' : rng) :
  fitness_function ga = Some func -> fitness_function gb = Some func ->
  config gb = config ga -> chromosome_length gb = chromosome_length ga ->
  length (population gb) = length (population ga) ->
  evolve ga r = Ok (ga', r') ->
  exists gb' pop r1 m,
    initialize_individuals (population ga) (chromosome_length ga) (-1) 1 r
    = Ok (pop, r1) /\
    max_element (map (evaluate func) pop) = Some m /\
    evolve gb r = Ok (gb', r') /\
    population gb' = population ga' /\
    best_fitness ga' = raised (best_fitness ga) m /\
    best_fitness gb' = raised (best_fitness gb) m /\
    config ga' = config ga /\
    chromosome_length ga' = chromosome_length ga /\
    fitness_function ga' = Some func /\
    exists avgs,
      length avgs = Z.to_nat (max_generations (config ga)) /\
      avg_fitness_history ga' = avg_fitness_history ga ++ avgs /\
      avg_fitness_history gb' = avg_fitness_history gb ++ avgs.
Proof.
  intros Hfa Hfb Hc Hl Hlen Hrun. unfold evolve in Hrun |- *.
  rewrite Hfa in Hrun. rewrite Hfb, Hc.
  inv_bind Hrun as ga1 r1 Hinit. inv_bind Hrun as ga2 r2 Heval.
  inv_lift Heval. unfold initializePopulation in Hinit.
  inv_bind Hinit as pop q Hpop. inv_ret Hinit.
  destruct (evaluateFitness_run _ _ Heval)
    as (f & m & Hf & Hswo & Hmax & Hpop2 & Hbest2 & _).
  cbn [fitness_function population best_fitness set_population]
    in Hf, Hswo, Hmax, Hpop2, Hbest2.
  rewrite Hfa in Hf. injection Hf as <-.
  destruct (evaluateFitness_intro func m (set_population gb pop))
    as (gb2 & Hevalb & Hcb2 & Hlb2 & Hpopb2 & Hbestb2 & _);
    [exact Hfb | exact Hswo | exact Hmax |].
  cbn [config chromosome_length population best_fitness set_population]
    in Hcb2, Hlb2, Hpopb2, Hbestb2.
  assert (Hc2 : config ga2 = config ga /\
                chromosome_length ga2 = chromosome_length ga /\
                fitness_function ga2 = Some func /\
                avg_fitness_history ga2 = avg_fitness_history ga).
  { destruct (evaluateFitness_spec _ _ Heval)
      as [f' (_ & _ & Hcfg & Hcl & Hff & _ & Hah & _)].
    cbn [config chromosome_length fitness_function avg_fitness_history
         set_population] in Hcfg, Hcl, Hff, Hah.
    rewrite Hff. auto. }
  destruct Hc2 as (Hc2 & Hl2 & Hf2 & Hah2).
  assert (Hahb2 : avg_fitness_history gb2 = avg_fitness_history gb).
  { destruct (evaluateFitness_spec _ _ Hevalb)
      as [f' (_ & _ & _ & _ & _ & _ & Hah & _)].
    exact Hah. }
  destruct (generations_fields func (Z.to_nat (max_generations (config ga)))
              ga2 gb2 ga' q r')
    as (gb' & avgs & Hrunb & Hpopb & Havgs & Haha & Hahb);
    [congruence.. | exact Hrun |].
  destruct (generations_spec _ _ _ _ _ _ Hrun) as (Hcfg' & Hbf & _).
  destruct (generations_spec _ _ _ _ _ _ Hrunb) as (_ & Hbfb & _).
  destruct (generations_keeps _ _ _ _ _ _ Hrun) as [Hl' Hf'].
  exists gb', pop, q, m.
  split; [exact Hpop|]. split; [exact Hmax|]. split.
  { unfold bindM, initializePopulation, bindM.
    rewrite (initialize_individuals_fields (population ga) (population gb)
               _ _ _ Hlen), Hl, Hpop.
    unfold ret, lift. rewrite Hevalb. exact Hrunb. }
  split; [exact Hpopb|].
  split; [congruence|]. split; [congruence|]. split; [congruence|].
  split; [congruence|]. split; [congruence|].
  exists avgs. split; [exact Havgs|]. split; congruence.
Qed.

Lemma evolve_keeps_size (ga ga' : GeneticAlgorithm) (r r' : rng) :
  sort_permutes ->
  Z.of_nat (length (population ga)) = population_size (config ga) ->
  evolve ga r = Ok (ga', r') ->
  length (population ga') = length (population ga).
Proof.
  intros Hsort Hsize Hrun.
  rewrite (evolve_reaches_length ga ga' r Hsort); [lia | lia |].
  exact (evolve_reaches_final _ _ _ _ Hrun).
Qed.


(** ** The histories over the runs *)

Lemma nondecreasing_app_repeat (l : list float) (b : float) (n : nat) :
  nondecreasing l ->
  Forall (fun x => (x <=? b)%float = true) l ->
  (b <=? b)%float = true ->
  nondecreasing (l ++ repeat b n).
Proof.
  intros Hl Hall Hb i j Hij. rewrite length_app, repeat_length in Hij.
  destruct (Nat.lt_ge_cases j (length l)) as [Hj|Hj].
  - rewrite !app_nth1 by lia. apply Hl. lia.
  - rewrite (app_nth2 _ _ _ Hj), nth_repeat_same by lia.
    destruct (Nat.lt_ge_cases i (length l)) as [Hi|Hi].
    + rewrite app_nth1 by lia. rewrite Forall_forall in Hall.
      apply Hall, nth_In, Hi.
    + rewrite (app_nth2 _ _ _ Hi), nth_repeat_same by lia. exact Hb.
Qed.

(** What a run appends to the histories. *)
Lemma evolve_history (ga ga' : GeneticAlgorithm) (r r' : rng) :
  evolve ga r = Ok (ga', r') ->
  (exists avgs,
     length avgs = Z.to_nat (max_generations (config ga)) /\
     best_fitness_history ga'
     = best_fitness_history ga
       ++ repeat (best_fitness ga') (Z.to_nat (max_generations (config ga))) /\
     avg_fitness_history ga' = avg_fitness_history ga ++ avgs) /\
  (best_fitness ga' = best_fitness ga \/
   (best_fitness ga <? best_fitness ga')%float = true).
Proof.
  unfold evolve. destruct (fitness_function ga) as [f|]; [|discriminate].
  intros Hrun. inv_bind Hrun as ga1 r1 Hinit.
  inv_bind Hrun as ga2 r2 Heval. inv_lift Heval.
  destruct (initializePopulation_spec _ _ _ _ _ _ Hinit) as [pop [Hga1 _]].
  subst ga1.
  destruct (evaluateFitness_spec _ _ Heval)
    as [f' (_ & _ & _ & _ & _ & Hbh2 & Hah2 & Hb2)].
  cbn [best_fitness best_fitness_history avg_fitness_history set_population]
    in Hbh2, Hah2, Hb2.
  destruct (generations_spec _ _ _ _ _ _ Hrun) as (_ & Hbf & _ & Hbh & _).
  destruct (generations_fields f _ ga2 ga2 ga' r1 r' eq_refl eq_refl eq_refl
              Hrun)
    as (gb' & avgs & _ & _ & Hlen & Hah & _).
  split.
  - exists avgs. split; [exact Hlen|].
    split; [rewrite Hbh, Hbh2, Hbf; reflexivity|].
    rewrite Hah, Hah2. reflexivity.
  - rewrite Hbf. exact Hb2.
Qed.

(** The record an optimizer keeps over its runs: the best-ever fitness is
    a number, no entry of the best-fitness history is above it, the
    history never decreases, and the two histories are equally long. *)
Lemma optimizer_state_history (ga : GeneticAlgorithm) :
  optimizer_state ga ->
  (best_fitness ga <=? best_fitness ga)%float = true /\
  Forall (fun x => (x <=? best_fitness ga)%float = true)
    (best_fitness_history ga) /\
  nondecreasing (best_fitness_history ga) /\
  length (best_fitness_history ga) = length (avg_fitness_history ga).
Proof.
  intros Hstate.
  induction Hstate as [chrom_length cfg ga Hnew | func ga _ IH
                       | ga r ga' r' _ IH Hrun].
  - destruct (GeneticAlgorithm_new_spec _ _ _ Hnew)
      as (_ & _ & _ & Hbest & Hbh & Hah & _).
    rewrite Hbest, Hbh, Hah. split; [reflexivity|].
    split; [constructor|]. split; [|reflexivity].
    intros i j Hij. simpl in Hij. lia.
  - exact IH.
  - destruct IH as (Hb & Hall & Hnd & Hlen).
    destruct (evolve_history _ _ _ _ Hrun)
      as [(avgs & Havgs & Hbh & Hah) Hraise].
    assert (Hle : (best_fitness ga <=? best_fitness ga')%float = true).
    { destruct Hraise as [-> | Hlt]; [exact Hb|].
      apply double_ltb_leb, Hlt. }
    pose proof (double_leb_refl_r _ _ Hle) as Hb'.
    assert (Hall' : Forall (fun x => (x <=? best_fitness ga')%float = true)
                      (best_fitness_history ga)).
    { eapply Forall_impl; [|exact Hall]. intros x Hx.
      exact (double_leb_trans _ _ _ Hx Hle). }
    split; [exact Hb'|]. rewrite Hbh, Hah. split; [|split].
    + apply Forall_app. split; [exact Hall'|].
      apply Forall_forall. intros x Hx. apply repeat_spec in Hx.
      subst x. exact Hb'.
    + apply nondecreasing_app_repeat; assumption.
    + rewrite !length_app, repeat_length. lia.
Qed.


End Model.

(** * The scripted platform meets the platform's guarantees *)

Lemma scripted_insert_permutes {A : Type} (comp : A -> A -> bool) (x : A)
  (l : list A) : Permutation (Scripted.insert comp x l) (x :: l).
Proof.
  induction l as [|y l IH]; simpl; [apply Permutation_refl|].
  destruct (comp y x); [|apply Permutation_refl].
  eapply Permutation_trans; [apply perm_skip, IH | apply perm_swap].
Qed.

Lemma scripted_sort_permutes : sort_permutes Scripted.sort.
Proof.
  intros A comp l _. induction l as [|x l IH]; simpl; [constructor|].
  eapply Permutation_trans; [apply scripted_insert_permutes|].
  apply perm_skip, IH.
Qed.

Lemma scripted_uniform_real_in_range :
  uniform_real_in_range Scripted.rng Scripted.uniform_real.
Proof.
  intros a b r Hab. unfold Scripted.uniform_real.
  assert (Ha : Double.in_closed a b a = true).
  { unfold Double.in_closed. rewrite (double_leb_refl_l _ _ Hab), Hab.
    reflexivity. }
  destruct (Scripted.reals r) as [|x xs]; [exact Ha|].
  cbn [fst]. destruct (Double.in_closed a b x) eqn:Hx; [exact Hx | exact Ha].
Qed.

Lemma scripted_uniform_int_in_range :
  uniform_int_in_range Scripted.rng Scripted.uniform_int.
Proof.
  intros a b r Hab. unfold Scripted.uniform_int.
  destruct (Scripted.ints r) as [|x xs]; cbn [fst]; [lia|].
  destruct ((a <=? x) && (x <=? b)) eqn:Hx; lia.
Qed.

Lemma example_net_constructed : MLP_new [2; 2; 1] SIGMOID = Ok example_net.
Proof. reflexivity. Qed.

Lemma example_net_well_formed : well_formed example_net.
Proof. exact (proj1 (MLP_new_well_formed _ _ _ example_net_constructed)). Qed.

Lemma steep_net_well_formed : well_formed steep_net.
Proof.
  unfold well_formed. simpl.
  repeat split; try reflexivity; try lia; repeat constructor; lia.
Qed.

(** * The properties at concrete inputs *)

Abbreviation scripted_evolve :=
  (evolve Scripted.rng Scripted.uniform_real Scripted.uniform_int
     Scripted.sort).
Abbreviation scripted_reaches :=
  (evolve_reaches Scripted.rng Scripted.uniform_real Scripted.uniform_int
     Scripted.sort).

(** C3 at the network [{2, 2, 1}] and the genome 1, ..., 9. *)
Lemma chromosome_round_trip_witness :
  well_formed example_net /\
  Z.of_nat (length example_genome) = param_count (layer_sizes example_net) /\
  exists m',
    decodeChromosome example_genome example_net = (Ok tt, m') /\
    encodeChromosome m' = Ok example_genome.
Proof.
  split; [exact example_net_well_formed|]. split; [reflexivity|].
  destruct (chromosome_round_trip example_net example_genome
              example_net_well_formed eq_refl)
    as [[m' [Hdec [_ [_ Henc]]]] _].
  exists m'. split; assumption.
Defined.

(** C4 at the network [{2, 2, 1}] and a genome of three genes. *)
Lemma decode_size_mismatch_witness :
  decodeChromosome [1; 2; 3]%float example_net
  = (Err GenomeSizeMismatch, example_net) /\
  setWeights [1; 2; 3]%float example_net
  = (Err GenomeSizeMismatch, example_net).
Proof.
  apply decode_size_mismatch; [exact example_net_well_formed|].
  vm_compute. discriminate.
Defined.

(** C6: the strict bound fails.  A network with the finite weight 4 and
    bias 0 maps the finite input 2^1023 to a pre-activation that overflows
    to infinity; [std::exp] returns +0 at minus infinity, and the output
    is exactly 1. *)
Lemma forward_output_reaches_one :
  exists (m : MLP) (input : list float),
    well_formed m /\ finite_params m /\
    Forall (fun x => Double.is_finite x = true) input /\
    Z.of_nat (length input) = hd 0 (layer_sizes m) /\
    forall exp tanh : float -> float,
      exp neg_infinity = 0%float ->
      fst (forward exp tanh input m) = Ok [1%float] /\
      Forall (fun o => Double.in_open 0 1 o = false) [1%float].
Proof.
  exists steep_net, large_input.
  split; [exact steep_net_well_formed|].
  split; [split; repeat constructor|].
  split; [repeat constructor|]. split; [reflexivity|].
  intros exp tanh Hexp. split; [|repeat constructor].
  vm_compute. vm_compute in Hexp. rewrite Hexp. reflexivity.
Qed.

(** C6, amended, at the network [{2, 2, 1}] and the input 1, 2. *)
Lemma forward_output_witness :
  exists out m',
    forward Scripted.unit_exp Scripted.unit_exp [1; 2]%float example_net
    = (Ok out, m') /\
    Z.of_nat (length out) = 1 /\
    Forall (fun o => Double.in_closed 0 1 o = true) out.
Proof.
  destruct (forward_output Scripted.unit_exp Scripted.unit_exp example_net
              [1; 2]%float example_net_well_formed eq_refl)
    as [out [m' [Hrun [_ [Hlen [Hrange _]]]]]].
  exists out, m'. split; [assumption|]. split; [assumption|].
  apply Forall_impl with (2 := Hrange).
  intros o [s [_ Hin]]. apply Hin. reflexivity.
Defined.

(** C8 at the network [{2, 2, 1}] with zero weights: the output is
    exactly 0.5 and the class is 1. *)
Lemma predict_class_witness :
  predict Scripted.unit_exp Scripted.unit_exp [1; 2]%float example_net
  = (Ok 1,
     set_outputs example_net [[1; 2]; [0.5; 0.5]; [0.5]]%float).
Proof.
  exact (proj1 (predict_class Scripted.unit_exp Scripted.unit_exp
                  example_net _ [1; 2]%float [0.5%float] eq_refl)).
Defined.

Lemma single_ga_constructed : GeneticAlgorithm_new 1 single_cfg = Ok single_ga.
Proof. reflexivity. Qed.

Lemma single_run :
  scripted_evolve (setFitnessFunction threshold_fitness single_ga)
    single_stream
  = Ok (single_final, single_rest).
Proof. vm_compute. reflexivity. Qed.

Lemma example_ga_constructed :
  GeneticAlgorithm_new 1 example_cfg = Ok example_ga.
Proof. reflexivity. Qed.

Lemma threshold_fitness_in_unit : scores_in_unit threshold_fitness.
Proof.
  intros [|x g]; cbn [threshold_fitness]; [reflexivity|].
  destruct (0.5 <? x)%float; reflexivity.
Qed.

Lemma example_cfg_runnable : runnable example_cfg.
Proof. repeat split; vm_compute; reflexivity || discriminate. Qed.

Lemma example_ga_initialized :
  initializePopulation Scripted.rng Scripted.uniform_real (-1) 1
    (setFitnessFunction threshold_fitness example_ga) single_stream
  = Ok (example_initialized, example_rest).
Proof. vm_compute. reflexivity. Qed.

(** C2: the fitness of an individual that was never evaluated is a valid
    score, the one an evaluated individual of accuracy 0 carries; so is
    the fitness of every individual [initializePopulation] has just
    written. *)
Lemma unevaluated_fitness_is_a_valid_score :
  Double.in_closed 0 1 (fitness Individual_default) = true /\
  fitness Individual_default
  = fitness (evaluate (fun _ => 0%float) Individual_default) /\
  initializePopulation Scripted.rng Scripted.uniform_real (-1) 1
    (setFitnessFunction threshold_fitness example_ga) single_stream
  = Ok (example_initialized, example_rest) /\
  Forall (fun ind => Double.in_closed 0 1 (fitness ind) = true)
    (population example_initialized).
Proof.
  split; [reflexivity|]. split; [reflexivity|].
  split; [exact example_ga_initialized|].
  repeat constructor.
Qed.

(** C2, amended, at a population of three. *)
Lemma unevaluated_fitness_is_zero_witness :
  Forall (fun ind => fitness ind = 0%float) (population example_ga) /\
  Forall (fun ind => fitness ind = 0%float) (population example_initialized).
Proof.
  pose proof (unevaluated_fitness_is_zero Scripted.rng Scripted.uniform_real
                Scripted.uniform_int Scripted.sort 1 example_cfg
                threshold_fitness example_ga example_initialized
                single_stream example_rest scripted_sort_permutes
                example_ga_constructed example_ga_initialized)
    as [_ [_ [H0 [H1 _]]]].
  split; assumption.
Defined.

(** C5 at a population of three with elitism one half. *)
Lemma population_size_invariant_witness :
  Z.of_nat (length (population example_ga)) = 3 /\
  forall ga,
    scripted_reaches (setFitnessFunction threshold_fitness example_ga)
      single_stream ga ->
    config ga = example_cfg /\ Z.of_nat (length (population ga)) = 3.
Proof.
  assert (Hmax : population_size example_cfg <= INT_MAX)
    by (vm_compute; discriminate).
  destruct (population_size_invariant Scripted.rng Scripted.uniform_real
              Scripted.uniform_int Scripted.sort 1 example_cfg
              threshold_fitness example_ga single_stream
              scripted_sort_permutes Hmax eq_refl example_ga_constructed)
    as [Hlen [Hreach _]].
  split; [exact Hlen | exact Hreach].
Defined.

(** C10 at the run of one generation on one individual. *)
Lemma genes_stay_in_range_witness :
  Forall genes_ok (population single_final).
Proof.
  exact (proj2 (genes_stay_in_range Scripted.rng Scripted.uniform_real
                  Scripted.uniform_int Scripted.sort
                  (setFitnessFunction threshold_fitness single_ga)
                  single_stream scripted_sort_permutes
                  scripted_uniform_real_in_range)
           single_final single_rest single_run).
Defined.

(** C1: the best-ever record misses the offspring.  In the run of one
    generation on one individual the initial gene 0.25 scores 0.5; the
    generation mutates it to 0.75, which scores 1 and enters the
    population; [evolve] returns with best fitness 0.5 and best individual
    the initial one. *)
Lemma best_fitness_misses_offspring :
  GeneticAlgorithm_new 1 single_cfg = Ok single_ga /\
  scripted_evolve (setFitnessFunction threshold_fitness single_ga)
    single_stream
  = Ok (single_final, single_rest) /\
  population single_final = [{| chromosome := [0.75%float]; fitness := 1 |}] /\
  threshold_fitness [0.75%float] = 1%float /\
  best_fitness single_final = 0.5%float /\
  best_individual single_final
  = {| chromosome := [0.25%float]; fitness := 0.5 |} /\
  (best_fitness single_final <? 1)%float = true.
Proof.
  split; [exact single_ga_constructed|]. split; [exact single_run|].
  repeat split.
Qed.


(** * More of the scripted platform *)

Lemma scripted_shuffle_permutes :
  shuffle_permutes Scripted.rng Scripted.shuffle.
Proof.
  intros A l r. unfold Scripted.shuffle. cbn [fst].
  apply Permutation_sym, Permutation_rev.
Qed.

Lemma scripted_insert_in {A : Type} (comp : A -> A -> bool) (x y : A)
  (l : list A) : In y (Scripted.insert comp x l) -> y = x \/ In y l.
Proof.
  intros Hin.
  apply (Permutation_in _ (scripted_insert_permutes comp x l)) in Hin.
  destruct Hin as [<- | Hin]; [left; reflexivity | right; exact Hin].
Qed.

Lemma scripted_insert_orders {A : Type} (comp : A -> A -> bool)
  (all : list A) (x : A) (l : list A) :
  strict_weak_on comp all = true -> In x all -> incl l all ->
  ordered_by comp l -> ordered_by comp (Scripted.insert comp x l).
Proof.
  intros Hswo Hx. induction l as [|y l IH]; intros Hincl Hord.
  - cbn. split; constructor.
  - destruct Hord as [Hy Hord]. cbn [Scripted.insert].
    assert (Hyin : In y all) by (apply Hincl; left; reflexivity).
    assert (Hlin : incl l all).
    { intros z Hz. apply Hincl. right. exact Hz. }
    rewrite Forall_forall in Hy.
    destruct (comp y x) eqn:Hyx.
    + cbn [ordered_by]. split; [|exact (IH Hlin Hord)].
      apply Forall_forall. intros z Hz.
      apply scripted_insert_in in Hz. destruct Hz as [-> | Hz].
      * exact (strict_weak_asym comp all y x Hswo Hyin Hx Hyx).
      * exact (Hy z Hz).
    + cbn [ordered_by]. split; [|split; [apply Forall_forall; exact Hy |
        exact Hord]].
      constructor; [exact Hyx|].
      apply Forall_forall. intros z Hz.
      exact (strict_weak_not_before comp all z y x Hswo (Hlin z Hz) Hyin Hx
               (Hy z Hz) Hyx).
Qed.

Lemma scripted_sort_reorders {A : Type} (comp : A -> A -> bool) (l : list A) :
  Permutation (Scripted.sort A comp l) l.
Proof.
  induction l as [|x l IH]; simpl; [constructor|].
  eapply Permutation_trans; [apply scripted_insert_permutes|].
  apply perm_skip, IH.
Qed.

Lemma scripted_sort_orders : sort_orders Scripted.sort.
Proof.
  intros A comp l Hswo.
  assert (H : forall l', incl l' l -> ordered_by comp (Scripted.sort A comp l')).
  { induction l' as [|x l' IH]; intros Hincl; [exact I|].
    cbn [Scripted.sort].
    apply (scripted_insert_orders comp l); [exact Hswo | | |].
    - apply Hincl. left. reflexivity.
    - intros z Hz.
      apply (Permutation_in _ (scripted_sort_reorders comp l')) in Hz.
      apply Hincl. right. exact Hz.
    - apply IH. intros z Hz. apply Hincl. right. exact Hz. }
  apply H, incl_refl.
Qed.

(** * More properties at concrete inputs *)

Lemma example_decoded_well_formed : well_formed example_decoded.
Proof.
  unfold well_formed. simpl.
  repeat split; try reflexivity; try lia; repeat constructor; lia.
Qed.

Lemma wide_net_constructed : MLP_new [30; 1] SIGMOID = Ok wide_net.
Proof. reflexivity. Qed.

Lemma small_dataset_shaped : shaped small_dataset.
Proof.
  unfold shaped, sized. cbn.
  repeat split; try reflexivity; try lia; repeat constructor.
Qed.

(** [clamp] at 7 with the bounds of the mutation. *)
Lemma clamp_cases_witness :
  Double.in_closed (-5) 5 (Utils.clamp 7 (-5) 5) = true /\
  (Utils.clamp 7 (-5) 5 =? 5)%float = true.
Proof.
  destruct (clamp_cases 7 (-5) 5 eq_refl) as (Hin & _ & _ & Hhi).
  split; [exact Hin | exact (Hhi eq_refl)].
Defined.

(** [Utils::normalize] at the ends of the range [2, 6]. *)
Lemma normalize_endpoints_witness :
  Utils.normalize 2 2 6 = 0%float /\ Utils.normalize 6 2 6 = 1%float.
Proof.
  exact (proj2 (normalize_endpoints 2 6) eq_refl eq_refl).
Defined.

(** The metrics of four predictions, one of each kind. *)
Lemma calculateMetrics_counts_witness :
  exists m,
    Utils.calculateMetrics [1; 0; 1; 0] [1; 0; 0; 1] = Ok m /\
    Utils.true_positive m = 1 /\ Utils.true_negative m = 1 /\
    Utils.false_positive m = 1 /\ Utils.false_negative m = 1.
Proof.
  destruct (calculateMetrics_counts [1; 0; 1; 0] [1; 0; 0; 1])
    as (m & Hrun & Htp & Htn & Hfp & Hfn & _).
  - cbn [length]. lia.
  - vm_compute. discriminate.
  - exists m. repeat split; assumption.
Defined.

Lemma calculateMetrics_scores_witness :
  exists m,
    Utils.calculateMetrics [1; 0; 1; 0] [1; 0; 0; 1] = Ok m /\
    Double.in_closed 0 1 (Utils.accuracy m) = true /\
    Double.in_closed 0 1 (Utils.precision m) = true /\
    Double.in_closed 0 1 (Utils.recall m) = true.
Proof.
  destruct (calculateMetrics_scores [1; 0; 1; 0] [1; 0; 0; 1])
    as (m & Hrun & Ha & Hp & Hr & _).
  - cbn [length]. lia.
  - vm_compute. discriminate.
  - exists m. repeat split; assumption.
Defined.

(** Two forward passes of the network [{2, 2, 1}] on the input 1, 2. *)
Lemma forward_repeatable_witness :
  exists out m',
    forward Scripted.unit_exp Scripted.unit_exp [1; 2]%float example_net
    = (Ok out, m') /\
    forward Scripted.unit_exp Scripted.unit_exp [1; 2]%float m'
    = (Ok out, m').
Proof.
  destruct (forward_repeatable Scripted.unit_exp Scripted.unit_exp
              example_net [1; 2]%float example_net_well_formed eq_refl)
    as (out & m' & Hrun & Hagain & _).
  exists out, m'. split; assumption.
Defined.

(** The network [{2, 2, 1}] as constructed, on the input 1, 2. *)
Lemma fresh_network_witness :
  encodeChromosome example_net = Ok (repeat 0%float 9) /\
  exists m',
    forward Scripted.unit_exp Scripted.unit_exp [1; 2]%float example_net
    = (Ok [0.5%float], m') /\
    predict Scripted.unit_exp Scripted.unit_exp [1; 2]%float example_net
    = (Ok 1, m').
Proof.
  destruct (fresh_network Scripted.unit_exp Scripted.unit_exp [2; 2; 1]
              SIGMOID example_net [1; 2]%float example_net_constructed
              eq_refl eq_refl)
    as (_ & Henc & m' & Hfwd & Hpred).
  - repeat constructor.
  - reflexivity.
  - split; [exact Henc|]. exists m'. split; [exact Hfwd | exact Hpred].
Defined.

(** The accuracy of the network [{2, 2, 1}] on two samples, one of them
    classified as labelled. *)
Lemma evaluateAccuracy_range_witness :
  exists acc m',
    evaluateAccuracy Scripted.unit_exp Scripted.unit_exp
      [[1; 2]; [0; 0]]%float [1; 0] example_net = (Ok acc, m') /\
    agreements Scripted.unit_exp Scripted.unit_exp example_net
      [[1; 2]; [0; 0]]%float [1; 0] = 1 /\
    acc = 0.5%float /\
    Double.in_closed 0 1 acc = true.
Proof.
  destruct (evaluateAccuracy_range Scripted.unit_exp Scripted.unit_exp
              example_net [[1; 2]; [0; 0]]%float [1; 0]
              example_net_well_formed)
    as (_ & Hrun).
  - repeat constructor.
  - vm_compute. discriminate.
  - destruct (Hrun eq_refl) as (acc & m' & Heval & Hacc & _ & _ & _ & _ & Hin).
    exists acc, m'. split; [exact Heval|]. split; [reflexivity|].
    split; [rewrite Hacc; reflexivity|]. apply Hin. discriminate.
Defined.

(** The fitness of the example genome, computed through the network as
    constructed and through a network that already holds other weights. *)
Lemma fitness_function_pure_witness :
  fst (createMLPFitnessFunction Scripted.unit_exp Scripted.unit_exp
         [[1; 2]]%float [1] example_genome example_net)
  = fst (createMLPFitnessFunction Scripted.unit_exp Scripted.unit_exp
           [[1; 2]]%float [1] example_genome example_decoded) /\
  encodeChromosome
    (snd (createMLPFitnessFunction Scripted.unit_exp Scripted.unit_exp
            [[1; 2]]%float [1] example_genome example_net))
  = Ok example_genome.
Proof.
  exact (fitness_function_pure Scripted.unit_exp Scripted.unit_exp
           [[1; 2]]%float [1] example_genome example_net example_decoded
           example_net_well_formed example_decoded_well_formed
           eq_refl eq_refl eq_refl).
Defined.

(** [randomInitialize(-1, 1)] on the network [{2, 2, 1}]. *)
Lemma randomInitialize_spec_witness :
  exists m' c,
    randomInitialize Scripted.rng Scripted.seed Scripted.uniform_real
      (-1) 1 7 example_net = Ok m' /\
    encodeChromosome m' = Ok c /\
    Forall (fun x => Double.in_closed (-1) 1 x = true) c.
Proof.
  destruct (proj2 (randomInitialize_spec Scripted.rng Scripted.seed
                     Scripted.uniform_real (-1) 1 7 example_net
                     scripted_uniform_real_in_range example_net_well_formed)
              eq_refl)
    as (m' & c & r' & Hrun & _ & _ & _ & _ & Henc & Hrange).
  exists m', c. repeat split; assumption.
Defined.

(** A tournament of two rounds on the population of three. *)
Lemma tournament_picks_fittest_witness :
  tournamentSelection Scripted.rng Scripted.uniform_int example_initialized
    example_rest
  = Ok ({| chromosome := [0.25%float]; fitness := 0 |}, example_drawn) /\
  In {| chromosome := [0.25%float]; fitness := 0 |}
    (population example_initialized).
Proof.
  assert (Hrun : tournamentSelection Scripted.rng Scripted.uniform_int
                   example_initialized example_rest
                 = Ok ({| chromosome := [0.25%float]; fitness := 0 |},
                       example_drawn)) by reflexivity.
  split; [exact Hrun|].
  destruct (tournament_picks_fittest Scripted.rng Scripted.uniform_int
              example_initialized _ example_rest example_drawn Hrun)
    as (_ & _ & Hmember).
  apply Hmember.
  - vm_compute. discriminate.
  - repeat constructor.
Defined.

(** A crossover that exchanges the one gene of two parents. *)
Lemma crossover_exchanges_genes_witness :
  crossover Scripted.rng Scripted.uniform_real example_initialized
    example_parent1 example_parent2 crossover_stream
  = Ok ({| chromosome := [2%float]; fitness := 0.5 |},
        {| chromosome := [1%float]; fitness := 1 |}, single_rest) /\
  genes_exchanged [1%float] [2%float] [2%float] [1%float].
Proof.
  assert (Hrun : crossover Scripted.rng Scripted.uniform_real
                   example_initialized example_parent1 example_parent2
                   crossover_stream
                 = Ok ({| chromosome := [2%float]; fitness := 0.5 |},
                       {| chromosome := [1%float]; fitness := 1 |},
                       single_rest)) by reflexivity.
  split; [exact Hrun|].
  exact (proj1 (crossover_exchanges_genes Scripted.rng Scripted.uniform_real
                  example_initialized example_parent1 example_parent2 _ _
                  crossover_stream single_rest Hrun)).
Defined.

(** A mutation that adds the noise 0.125 to the gene 1. *)
Lemma mutate_gene_wise_witness :
  mutate Scripted.rng Scripted.uniform_real example_initialized
    example_parent1 mutate_stream
  = Ok ({| chromosome := [1.125%float]; fitness := 0.5 |}, single_rest) /\
  length [1.125%float] = length (chromosome example_parent1) /\
  0.5%float = fitness example_parent1.
Proof.
  assert (Hrun : mutate Scripted.rng Scripted.uniform_real
                   example_initialized example_parent1 mutate_stream
                 = Ok ({| chromosome := [1.125%float]; fitness := 0.5 |},
                       single_rest)) by reflexivity.
  split; [exact Hrun|].
  destruct (mutate_gene_wise Scripted.rng Scripted.uniform_real
              example_initialized example_parent1 _ mutate_stream
              single_rest scripted_uniform_real_in_range Hrun)
    as (Hlen & Hfit & _).
  split; [exact Hlen | exact Hfit].
Defined.

(** The replacement with one elite on the scored population of three. *)
Lemma elitism_keeps_best_witness :
  replacePopulation Scripted.sort example_offspring scored_ga
  = Ok scored_next /\
  exists top rest,
    population scored_next = top :: rest /\ In top (population scored_ga) /\
    Forall (fun ind => (fitness top <? fitness ind)%float = false)
      (population scored_ga).
Proof.
  assert (Hrun : replacePopulation Scripted.sort example_offspring scored_ga
                 = Ok scored_next) by reflexivity.
  split; [exact Hrun|].
  apply (elitism_keeps_best Scripted.sort example_offspring scored_ga
           scored_next 1 scripted_sort_permutes scripted_sort_orders Hrun).
  - reflexivity.
  - lia.
  - discriminate.
Defined.

(** The best individual of the run of one generation on one individual:
    the initial one. *)
Lemma best_individual_after_evolve_witness :
  exists ga1 r1 top,
    initializePopulation Scripted.rng Scripted.uniform_real (-1) 1
      (setFitnessFunction threshold_fitness single_ga) single_stream
    = Ok (ga1, r1) /\
    In top (map (evaluate threshold_fitness) (population ga1)) /\
    Forall (fun ind => (fitness top <? fitness ind)%float = false)
      (map (evaluate threshold_fitness) (population ga1)) /\
    (if (0 <? fitness top)%float
     then best_individual single_final = top /\
          best_fitness single_final = fitness top
     else best_individual single_final = Individual_default /\
          chromosome (best_individual single_final) = [] /\
          best_fitness single_final = 0%float).
Proof.
  exact (best_individual_after_evolve Scripted.rng Scripted.uniform_real
           Scripted.uniform_int Scripted.sort 1 single_cfg threshold_fitness
           single_ga single_final single_stream single_rest
           single_ga_constructed single_run).
Defined.

(** Two draws from [-1, 1]. *)
Lemma randomVector_spec_witness :
  randomVector Scripted.rng Scripted.uniform_real 2 (-1) 1 single_stream
  = Ok ([0.25; 0.75]%float,
        {| Scripted.reals := [0; 0.5; 0; 0]%float;
           Scripted.ints := [0; 0] |}) /\
  Z.of_nat (length [0.25; 0.75]%float) = 2 /\
  Forall (fun x => Double.in_closed (-1) 1 x = true) [0.25; 0.75]%float.
Proof.
  assert (Hrun : randomVector Scripted.rng Scripted.uniform_real 2 (-1) 1
                   single_stream
                 = Ok ([0.25; 0.75]%float,
                       {| Scripted.reals := [0; 0.5; 0; 0]%float;
                          Scripted.ints := [0; 0] |})) by reflexivity.
  split; [exact Hrun|].
  destruct (randomVector_spec Scripted.rng Scripted.uniform_real 2 (-1) 1
              single_stream scripted_uniform_real_in_range)
    as (_ & _ & Hall & _).
  exact (Hall _ _ Hrun).
Defined.

(** On the example configuration a run from the scripted stream
    returns. *)
Lemma evolve_completes_witness :
  exists ga' r',
    scripted_evolve (setFitnessFunction threshold_fitness example_ga)
      single_stream
    = Ok (ga', r').
Proof.
  apply (evolve_completes Scripted.rng Scripted.uniform_real
           Scripted.uniform_int Scripted.sort 1 example_cfg).
  - exact scripted_sort_permutes.
  - exact scripted_uniform_int_in_range.
  - exact threshold_fitness_in_unit.
  - exact example_cfg_runnable.
  - exact example_ga_constructed.
Defined.

(** The example file: three samples, four ids. *)
Lemma loadFromFile_samples_witness :
  labels (snd (loadFromFile Scripted.stod (Some example_text) Dataset_new))
  = [1; 0; 1] /\
  length (ids (snd (loadFromFile Scripted.stod (Some example_text)
                      Dataset_new))) = 4%nat /\
  num_samples (snd (loadFromFile Scripted.stod (Some example_text)
                      Dataset_new)) = 3 /\
  fst (loadFromFile Scripted.stod (Some example_text) Dataset_new) = true.
Proof.
  destruct (loadFromFile_samples Scripted.stod example_text Dataset_new)
    as (_ & Hl & _ & _ & Hi & Hn & _).
  split; [exact Hl|]. split; [exact Hi|].
  destruct Hn as [Hn Hret]; [vm_compute; discriminate|].
  split; [exact Hn | exact Hret].
Defined.

(** Two folds over three samples. *)
Lemma createKFolds_round_robin_witness :
  exists d',
    createKFolds Scripted.rng Scripted.seed Scripted.shuffle 2 42
      small_dataset = Ok d' /\
    Forall (fun fold => 0 <= fold < 2) (fold_indices d').
Proof.
  destruct (createKFolds_round_robin Scripted.rng Scripted.seed
              Scripted.shuffle 2 42 small_dataset scripted_shuffle_permutes)
    as (_ & _ & Hok).
  destruct Hok as (d' & Hrun & _ & _ & Hrange & _).
  - cbn. lia.
  - discriminate.
  - exists d'. split; [exact Hrun|]. apply Hrange. lia.
Defined.

(** The split of the three samples for fold 0. *)
Lemma getTrainTestSplit_partition_witness :
  exists s,
    getTrainTestSplit 0 small_folds = Ok s /\
    test_X s = [[1]; [3]]%float /\ train_X s = [[2]]%float /\
    test_y s = [1; 1] /\ train_y s = [0].
Proof.
  destruct (proj1 (getTrainTestSplit_partition 0 small_folds))
    as (s & Hrun & Htx & Hty & Hrx & Hry & _).
  - cbn. lia.
  - cbn. lia.
  - cbn. lia.
  - exists s. repeat split; assumption.
Defined.

Lemma small_folds_created :
  createKFolds Scripted.rng Scripted.seed Scripted.shuffle 2 42 small_dataset
  = Ok small_folds.
Proof. reflexivity. Qed.

(** The test sets of the two folds over three samples: two samples and
    one. *)
Lemma kfold_test_sets_witness :
  exists s,
    getTrainTestSplit 0 small_folds = Ok s /\
    Z.of_nat (length (test_X s)) = 2 /\
    Z.of_nat (length (train_X s)) + Z.of_nat (length (test_X s)) = 3.
Proof.
  destruct (kfold_test_sets Scripted.rng Scripted.seed Scripted.shuffle
              2 42 0 small_dataset small_folds scripted_shuffle_permutes
              (proj1 small_dataset_shaped) ltac:(lia) small_folds_created)
    as (s & Hrun & _ & _ & Hall & Hsize & _).
  exists s. split; [exact Hrun|]. split; [|exact Hall].
  apply Hsize. lia.
Defined.

(** The three samples under the statistics mean 1, deviation 2. *)
Lemma normalizeWithStats_zscore_witness :
  normalizeWithStats [1%float] [2%float] small_dataset
  = Ok (set_features small_dataset [[0]; [0.5]; [1]]%float [] []).
Proof.
  exact (proj1 (normalizeWithStats_zscore [1%float] [2%float] small_dataset
                  small_dataset_shaped)
           (le_n 1) (le_n 1)).
Defined.

(** The three samples normalized: the mean 2 and a deviation that is not
    below [1e-10]. *)
Lemma normalize_zscore_witness :
  exists d',
    normalize small_dataset = Ok d' /\
    feature_means d' = [2%float] /\
    Forall (fun s => (s <? Utils.tiny)%float = false) (feature_stds d').
Proof.
  destruct (proj2 (normalize_zscore small_dataset) small_dataset_shaped)
    as (d' & Hrun & Hmeans & _ & Hstds & _).
  - discriminate.
  - exists d'. split; [exact Hrun|]. split; [exact Hmeans | exact Hstds].
Defined.

(** The example file through normalization and two folds, and a network
    with 30 inputs on the training set of fold 0. *)
Lemma data_pipeline_witness :
  exists d1 d2 d3 s,
    loadFromFile Scripted.stod (Some example_text) Dataset_new = (true, d1) /\
    normalize d1 = Ok d2 /\
    createKFolds Scripted.rng Scripted.seed Scripted.shuffle 2 42 d2
    = Ok d3 /\
    getTrainTestSplit 0 d3 = Ok s /\
    Forall (fun row => length row = 30%nat) (train_X s ++ test_X s) /\
    exists acc m',
      evaluateAccuracy Scripted.unit_exp Scripted.unit_exp
        (train_X s) (train_y s) wide_net = (Ok acc, m').
Proof.
  destruct (data_pipeline Scripted.unit_exp Scripted.unit_exp Scripted.rng
              Scripted.seed Scripted.shuffle Scripted.stod example_text
              2 42 0 [30; 1] SIGMOID wide_net scripted_shuffle_permutes)
    as (d1 & d2 & d3 & s & Hload & Hnorm & Hfolds & Hsplit & Hrows & _ & _
        & _ & _ & _ & Hacc).
  - vm_compute. reflexivity.
  - vm_compute. discriminate.
  - lia.
  - exact wide_net_constructed.
  - reflexivity.
  - exists d1, d2, d3, s. repeat split; assumption.
Defined.

(** The indices of three samples, shuffled. *)
Lemma shuffleIndices_permutation_witness :
  exists indices r',
    shuffleIndices Scripted.rng Scripted.shuffle 3 single_stream
    = Ok (indices, r') /\
    NoDup indices /\ Z.of_nat (length indices) = 3.
Proof.
  destruct (proj2 (shuffleIndices_permutation Scripted.rng Scripted.shuffle
                     3 single_stream scripted_shuffle_permutes))
    as (indices & r' & Hrun & _ & Hnd & Hlen & _).
  - lia.
  - exists indices, r'. repeat split; assumption.
Defined.

(** A run for the network [{2, 2, 1}] in which every chromosome scores
    0: the best individual is the default one, and the network rejects
    it. *)
Lemma unscored_run_installs_nothing_witness :
  exists ga' r',
    scripted_evolve (setFitnessFunction no_score nine_ga) single_rest
    = Ok (ga', r') /\
    best_individual ga' = Individual_default /\
    setWeights (chromosome (best_individual ga')) example_net
    = (Err GenomeSizeMismatch, example_net).
Proof.
  destruct (scripted_evolve (setFitnessFunction no_score nine_ga) single_rest)
    as [[ga' r']|e] eqn:Hrun; [|vm_compute in Hrun; discriminate].
  exists ga', r'. split; [reflexivity|].
  destruct (unscored_run_installs_nothing Scripted.rng Scripted.uniform_real
              Scripted.uniform_int Scripted.sort example_net single_cfg
              no_score nine_ga ga' single_rest r' example_net_well_formed)
    as (Hbest & _ & Hset).
  - reflexivity.
  - reflexivity.
  - exact Hrun.
  - intros c. reflexivity.
  - split; [exact Hbest | exact Hset].
Defined.

(** The two accuracies of the network [{2, 2, 1}] on two samples. *)
Lemma reported_accuracies_agree_witness :
  exists acc m1 predictions m2 metrics,
    evaluateAccuracy Scripted.unit_exp Scripted.unit_exp
      [[1; 2]; [0; 0]]%float [1; 0] example_net = (Ok acc, m1) /\
    predict_all Scripted.unit_exp Scripted.unit_exp [[1; 2]; [0; 0]]%float m1
    = (Ok predictions, m2) /\
    Utils.calculateMetrics predictions [1; 0] = Ok metrics /\
    Utils.accuracy metrics = acc.
Proof.
  destruct (reported_accuracies_agree Scripted.unit_exp Scripted.unit_exp
              example_net [[1; 2]; [0; 0]]%float [1; 0]
              example_net_well_formed eq_refl)
    as (acc & m1 & predictions & m2 & metrics & Heval & Hpred & _ & Hmetrics
        & _ & Hacc).
  - repeat constructor.
  - reflexivity.
  - constructor; [right; reflexivity|].
    constructor; [left; reflexivity | constructor].
  - discriminate.
  - vm_compute. discriminate.
  - exists acc, m1, predictions, m2, metrics. repeat split; assumption.
Defined.

(** * Runs one after another, at concrete inputs *)

Abbreviation scripted_state :=
  (optimizer_state Scripted.rng Scripted.uniform_real Scripted.uniform_int
     Scripted.sort).

Lemma second_run :
  scripted_evolve single_final second_stream = Ok (second_final, single_rest).
Proof. vm_compute. reflexivity. Qed.

Lemma example_run :
  scripted_evolve (setFitnessFunction threshold_fitness example_ga)
    single_stream
  = Ok (example_final, single_rest).
Proof. vm_compute. reflexivity. Qed.

Lemma used_ga_run :
  scripted_evolve (setFitnessFunction no_score example_ga) (Scripted.seed 7)
  = Ok (used_ga, single_rest).
Proof. vm_compute. reflexivity. Qed.

Lemma seeded_run :
  scripted_evolve (setFitnessFunction threshold_fitness example_ga)
    (Scripted.seed 42)
  = Ok (seeded_final, single_rest).
Proof. vm_compute. reflexivity. Qed.

Lemma single_final_state : scripted_state single_final.
Proof.
  eapply state_evolved; [|exact single_run].
  apply state_function.
  exact (state_constructed _ _ _ _ 1 single_cfg single_ga
           single_ga_constructed).
Qed.

Lemma example_ga_state :
  scripted_state (setFitnessFunction threshold_fitness example_ga).
Proof.
  apply state_function.
  exact (state_constructed _ _ _ _ 1 example_cfg example_ga
           example_ga_constructed).
Qed.



